(* ===== verification/_CoqProject ===== *)
-Q . S2P
Prelude.v
GoInts.v
Constants.v
U256.v
Wire.v
Builder.v
Reader.v
Sequences.v
Codec.v
CoreMessages.v
MiningMessages.v
MiningCodecs.v
CustomJob.v
MessageTypes.v
Frame.v
FrameFacts.v
FrameProps.v
Memory.v
FrameMem.v
BuilderMem.v
Cipher.v
CipherProps.v
Transport.v
SecureChannel.v
FrameChannel.v
CipherConc.v
CipherConcDec.v
FrameEquiv.v
Hashes.v
Keys.v
KeysProps.v
Handshake.v
HandshakeProps.v
Transcript.v
FrameTypes.v
Conn.v
NetConn.v
Server.v
Logger.v
LoggerRun.v
HandshakeRace.v
SharedHandshake.v
ServerRun.v
ServerAccess.v
Startup.v
Grinder.v
NoiseTests.v
TestVectors.v
