(* ===== verification/Prelude.v ===== *)
(** * A verification development for stratumv2

    stratumv2 is a Go implementation of the Stratum V2 mining protocol: the binary
    message formats (binary.go, types.go, core.go, mining.go), the frames that carry
    messages (types.go), and the Noise NX handshake and encrypted transport
    (noise.go, ellswift.go).  The bytes flow as the files here are layered: a message
    is encoded with a [BinaryBuilder], put in a [Frame], the frame encrypted under a
    [CipherState] that a handshake made; and back through [DecryptFrame],
    [Frame.ToParams] and a [BinaryReader].

    ** The files

    - Prelude.v: outcomes (a Go call returns or panics), errors, list lemmas, tactics
      and hint databases.
    - GoInts.v, Constants.v: machine integers [bits w], little-endian bytes,
      fixed-size arrays, slice-to-array conversions; constants.go and the type
      aliases of types.go.
    - U256.v: [U256] of types.go: byte and hex forms, [Compare], [IsMetBy], [Add],
      [Sub], byte by byte with the source's [uint16] temporaries.
    - Wire.v: the abstract specification of encodings, a monoid of byte strings with
      the first error; the client's view of Builder.v and Reader.v.
    - Builder.v, Reader.v: binary.go.  Methods are state transformers; the reader's
      may panic, and it keeps nil and empty slices apart where the code does.
      [Emits] and [Parses] say that a method writes or reads a wire format.
    - Sequences.v: Go's [Sequence] interface as a class, its slice types as instances,
      [SequenceSpec] as what the length-prefixed builder and reader methods rely on.
    - Codec.v: Go's [Codable] interface as a class and its contract [WireCodec], from
      which [CodecCorrect] follows for every instance.
    - CoreMessages.v (core.go), MiningMessages.v and MiningCodecs.v (mining.go),
      CustomJob.v ([SetCustomMiningJob]): a record, an [Encode], a [Decode], a format
      and an instance per message.  MessageTypes.v: the names of message types.
    - Frame.v, FrameFacts.v, FrameProps.v: [Frame] and [TLV] of types.go.
    - Cipher.v, CipherProps.v, Transport.v: [CipherState] and frame encryption of
      noise.go.
    - SecureChannel.v, FrameChannel.v: what a pair of cipher states promises against an
      attacker who chooses the messages and controls the network: the channel as an
      abstract specification, for messages and for frames on a stream.
    - Hashes.v, Keys.v, KeysProps.v: HMAC, HKDF and the tagged hash, certificates,
      authority keys and key pairs of noise.go; ellswift.go.
    - Handshake.v, HandshakeProps.v: [HandshakeState] and both sides of the handshake.
      Transcript.v: the messages that a handshake hash stands for.
    - Memory.v, FrameMem.v, BuilderMem.v: arrays in a store and the slices that share
      them; [Frame], [TLV] and [BinaryBuilder] once more on such slices, for what the
      value models leave out.
    - FrameTypes.v: the well-formed frames.
    - FrameEquiv.v: the two ways to encrypt a frame and to decrypt one.
    - CipherConc.v, CipherConcDec.v, HandshakeRace.v: concurrent calls of
      [EncryptWithAd] and of [DecryptWithAd] on one cipher state, and two handshakes
      over one [HandshakeState], as interleavings of their atomic actions; of the
      handshakes, of their statements.
    - SharedHandshake.v: the responder's handshake as a tree of its accesses to a
      [HandshakeState] in shared memory and to the cipher states behind it.
    - Conn.v, NetConn.v ([Sv2Conn] of examples/shared/shared.go and its methods as a
      [net.Conn]), Server.v (examples/server/server.go), Logger.v
      (examples/logger/logger.go), Grinder.v (examples/grinder/pubkeygrinder.go): the
      programs built on the package.
    - ServerRun.v, ServerAccess.v: the server as a process whose goroutines interleave,
      statement by statement, for what its runs can do, and access by access, for what
      holds in all of them.  LoggerRun.v: the client as such a process.  Startup.v: what
      the [main] functions do before, from the flags.
    - TestVectors.v: the vectors of the tests, evaluated on the definitions.
      NoiseTests.v: the tests with random keys (noise_test.go, ellswift_test.go), as
      functions of what they draw.

    A method [T.m] is the definition [m] or [T_m]; a pointer receiver is an argument
    and part of the result.  A struct's fields carry a prefix of the record's initials.

    ** The theorems

    - Formats: the builder writes the wire formats and the reader reads them back;
      every message's [Encode] and [Decode] satisfy the codec contract (when encoding
      succeeds, round trip behind any receiver and before any tail, decoding only
      what encoding made, prefix freedom), [SetCustomMiningJob] excepted.
    - Frames: which inputs decode, to what, and where the code panics; round trips of
      frames, TLVs and messages in frames; reading from a stream.
    - Malformed input: what the decoders do with it, panics included.
    - Targets: [IsMetBy] is complete, what it compares exactly, and an invalid share
      it accepts; [Add] and [Sub] modulo 2^256.
    - Transport: nonces never repeat in sequential use and do in concurrent use;
      forged messages leave the receiver in step; messages and frames arrive in
      order; the sizes of frames that the transport carries.
    - Attackers: the two ends of a keyed pair refine a channel that delivers what was sent,
      in order, without gaps and without repetitions, or the attacker forged a
      ciphertext; the frames accepted before the first error are the first frames sent;
      after an error a header and a payload can be taken for each other.
    - Keys: certificates signed by the package verify exactly within their validity;
      what an accepted certificate vouches for; storage of key pairs; the search for
      an ElligatorSwift encoding ends exactly if a draw succeeds.
    - Handshake: each side refines an NX key schedule; the two sides agree, whatever
      follows on the connection; what the initiator accepts was sealed under the
      schedule's keys; the certificate then verifies; the session's frames arrive.  Equal
      handshake hashes mean equal transcripts, or show a collision of SHA-256.
    - Types: the frames that the package makes, decodes or reads are well formed, those
      that decryption returns within a chunk; TLVs can take a frame past its limit.
    - Shared slices: the methods on slices do what the value model says, and a decoded
      frame's payload and TLVs are windows on the input that [Encode] writes over.
      Programs with any number of builders cannot tell the slices that [Bytes] hands out
      from copies, unless they append to them.
    - Concurrency: failed decryptions leave the counter as it was once all calls are
      done, but in between genuine messages are lost; a second handshake over one state
      makes the first one's keys public.
    - Equivalence: both ways to encrypt send the same bytes, both ways to decrypt agree
      on every input; the handshake by statements, and the tree of its accesses, run
      without interruption, are the method.
    - The examples: frames through [Sv2Conn] in order, TLVs that are sent twice; client
      and server meet, the checking client refuses the server; the key grinder prints
      genuine keys only, stops soon after a cancellation, and ends or waits for ever.
    - The server as a whole: in every reachable state, whatever the accesses' order, every
      connection is typed, has been written one message, and is served in boundedly many
      steps if its peer's stream ends; one connection alone is the handler of Server.v.
      A peer that leaves early ends the process, and so can two honest clients at once, by
      a key that is mixed into the other's handshake or by a key without its AEAD.
    - The tests: those with random keys pass for all keys, and what [TestCipherState]
      cannot tell.
    - The client as a whole: however its goroutines interleave and whenever the signal
      comes, it does not crash on a well-behaved pool, ends, and closes the channel that
      it was given last before it looked.

    Properties carry the number of their claim.  Properties with hypotheses are
    followed by an instance, [.._witness], at concrete values.

    ** Third-party code, fuel and bounds

    The AEAD, SHA-256, the curve, Schnorr signatures, base58 and btcd's [WriteTxOut]
    are classes or parameters; the [..Laws] classes state what is relied on (opening
    inverts sealing, an encoding decodes, both ends of an exchange compute one secret,
    signatures verify), and toy instances satisfy them.  [GoAlloc] is how [append]
    grows a buffer and [GoFloat] the implementation-defined conversion behind
    [maxNoiseNonce]; the theorems hold for any.  Randomness is an argument.

    The TLV loop of [Frame_Decode] has fuel one more than the length of its input; each
    turn consumes five bytes or more, and [Frame_Decode_total] has no case of
    exhausted fuel.  [XElligatorSwift] recurs on the draws it is given and is [None]
    if all fail, as the Go loop goes on then.  The reading loops of the examples'
    server and client have one turn of fuel per byte of input: a frame takes 22 bytes or
    more, and [serve_conn_ends] and [logger_loop_ends] show that this is enough.  The
    grinder and the two programs are step relations without fuel; [grinder_after_cancel],
    [server_quiesces] and [logger_program] bound their steps.  Integers keep
    their width ([bits w]); lengths, Go [int]s, are integers, with the overflow of
    [ReadBytes] and [Seek] written out.

    ** Not modelled

    The sharing of the array behind a frame's list of TLVs; write errors of a connection
    during the handshake, which the code ignores; the AEAD's limit of 256 GiB per message;
    calls that re-key a cipher state while others use it; of the examples, the parsing of
    flags, addresses and chain addresses, and the answers of dialling, listening and
    accepting, which are parameters or choices of a step, and the measured hash rate;
    jobdeclaration.go and templatedistribution.go, which hold no code.

    The goroutines that share a [HandshakeState], and those that share [chanid],
    interleave access by access, where a field is read and written as a whole; the steps
    of HandshakeRace.v and ServerRun.v are whole statements, and only what a run can do is
    shown there.  Go promises less for unsynchronised accesses, an array or a slice header
    may be torn: what is shown of every run of the server or of the client holds of the
    runs that an order of whole accesses explains. *)
From Stdlib Require Export ZArith Lia.
From stdpp Require Export base tactics option list list_numbers numbers strings relations.

Declare Scope go_scope.
Delimit Scope go_scope with go.
#[global] Open Scope Z_scope.
#[global] Open Scope go_scope.

(** Widths such as [2 ^ 8] occur in types: they are not to be computed. *)
#[global] Arguments Z.pow _ _ : simpl never.

(** ** Go's run-time behaviour

    A Go call either returns or panics.  The package installs no [recover], so a
    panic unwinds every caller: the state after it is not observable. *)

Inductive panic :=
| IndexOutOfRange          (* b[i] past the length *)
| SliceBoundsOutOfRange    (* b[i:j] past the capacity, or i > j *)
| SliceToArrayTooShort     (* [n]byte(b) with len(b) < n *)
| MakeSliceCapOutOfRange   (* make([]T, 0, n) with n < 0 *)
| FailedTypeAssertion      (* x.(T) on a nil interface *)
| NilDereference           (* a method of a nil interface or pointer *)
| ExplicitPanic (msg : string).

Inductive outcome (A : Type) :=
| Ret (a : A)
| Panic (p : panic).
Arguments Ret {A} a.
Arguments Panic {A} p.

#[export] Instance outcome_ret : MRet outcome := @Ret.
#[export] Instance outcome_bind : MBind outcome := λ A B f o,
  match o with Ret a => f a | Panic p => Panic p end.
#[export] Instance outcome_fmap : FMap outcome := λ A B f o,
  match o with Ret a => Ret (f a) | Panic p => Panic p end.

#[export] Instance panic_eq_dec : EqDecision panic.
Proof. solve_decision. Defined.
#[export] Instance outcome_eq_dec {A} `{EqDecision A} : EqDecision (outcome A).
Proof. solve_decision. Defined.

(** Go's [error]: [nil] is [None]; a non-nil error carries its message. *)
Definition error := option string.

(** The fluent call [x.f(..)] of Go's builder methods. *)
Notation "x |> f" := (f x) (at level 71, left associativity, only parsing) : go_scope.

(** [len(l)] is an [int]. *)
Definition len {A} (l : list A) : Z := Z.of_nat (length l).

(** ** Tactics *)

(** [split_match] destructs the scrutinee of a [match] or [if] of the goal. *)
Ltac split_match :=
  match goal with
  | |- context [match ?x with _ => _ end] => destruct x eqn:?
  end.

(** [split_match_in H] does so in [H]. *)
Ltac split_match_in H :=
  match type of H with
  | context [match ?x with _ => _ end] => destruct x eqn:?
  end.

(** Turns boolean comparisons on integers in the context into propositions. *)
Ltac bool_to_prop :=
  repeat match goal with
  | H : (_ <? _) = true |- _ => apply Z.ltb_lt in H
  | H : (_ <? _) = false |- _ => apply Z.ltb_ge in H
  | H : (_ <=? _) = true |- _ => apply Z.leb_le in H
  | H : (_ <=? _) = false |- _ => apply Z.leb_gt in H
  | H : (_ =? _) = true |- _ => apply Z.eqb_eq in H
  | H : (_ =? _) = false |- _ => apply Z.eqb_neq in H
  | H : (_ && _)%bool = true |- _ => apply andb_true_iff in H as [? ?]
  | H : (_ || _)%bool = false |- _ => apply orb_false_iff in H as [? ?]
  end.

(** ** Lists *)

Create HintDb golist.
Create Rewrite HintDb golist.

Lemma len_nonneg {A} (l : list A) : 0 ≤ len l.
Proof. unfold len; lia. Qed.

Lemma len_app {A} (l k : list A) : len (l ++ k) = len l + len k.
Proof. unfold len. rewrite length_app. lia. Qed.

Lemma len_nil {A} : len (@nil A) = 0.
Proof. reflexivity. Qed.

Lemma len_cons {A} (x : A) l : len (x :: l) = 1 + len l.
Proof. unfold len. simpl length. lia. Qed.

Lemma prefix_take_iff {A} (p l : list A) :
  p `prefix_of` l ↔ take (length p) l = p.
Proof.
  split.
  - intros [k ->]. by rewrite take_app_length.
  - intros <-. exists (drop (length p) l). by rewrite take_drop.
Qed.

Lemma take_prefix_of {A} (l : list A) n : take n l `prefix_of` l.
Proof. exists (drop n l). by rewrite take_drop. Qed.

Lemma prefix_drop {A} (p q l : list A) :
  p `prefix_of` l → q `prefix_of` drop (length p) l → (p ++ q) `prefix_of` l.
Proof. intros [k ->]. rewrite drop_app_length. intros [k' ->]. exists k'. by rewrite app_assoc. Qed.

Lemma prefix_drop_inv {A} (p q l : list A) :
  (p ++ q) `prefix_of` l → p `prefix_of` l ∧ q `prefix_of` drop (length p) l.
Proof.
  intros [k ->]. rewrite <- app_assoc. split; [by exists (q ++ k)|].
  rewrite drop_app_length. by exists k.
Qed.

(** The last two of a list. *)
Lemma lookup_pair_l {A} (l : list A) a b : (l ++ [a; b]) !! length l = Some a.
Proof. by apply list_lookup_middle. Qed.
Lemma lookup_pair_r {A} (l : list A) a b : (l ++ [a; b]) !! S (length l) = Some b.
Proof. rewrite lookup_app_r by lia. by rewrite Nat.sub_succ_l, Nat.sub_diag. Qed.
Lemma insert_pair_l {A} (l : list A) a b c : <[length l := c]> (l ++ [a; b]) = l ++ [c; b].
Proof. by rewrite insert_app_r_alt, Nat.sub_diag. Qed.
Lemma insert_pair_r {A} (l : list A) a b c : <[S (length l) := c]> (l ++ [a; b]) = l ++ [a; c].
Proof. rewrite insert_app_r_alt by lia. by rewrite Nat.sub_succ_l, Nat.sub_diag. Qed.

#[export] Hint Rewrite @len_app @len_nil @len_cons : golist.
#[export] Hint Resolve len_nonneg take_prefix_of : golist.

(** A sum over a list of which one element changes. *)
Lemma sum_list_with_insert {A} (f : A → nat) (i : nat) (p q : A) l : l !! i = Some q →
  (sum_list_with f (<[i := p]> l) + f q = sum_list_with f l + f p)%nat.
Proof.
  revert i. induction l as [|x l IH]; intros [|i] H; try done; simpl in *.
  - injection H as ->. lia.
  - specialize (IH i H). lia.
Qed.

(** ** Step relations *)

(** An invariant of the steps holds wherever they lead. *)
Lemma rtc_invariant {A} (R : relation A) (I : A → Prop) :
  (∀ x y, I x → R x y → I y) → ∀ x y, I x → rtc R x y → I y.
Proof. intros Hstep x y Hx Hxy. induction Hxy; eauto. Qed.

(** A bound that every step decreases is one on their number. *)
Lemma nsteps_bounded {A} (R : relation A) (I : nat → A → Prop) :
  (∀ b x y, I b x → R x y → ∃ b', (b' < b)%nat ∧ I b' y) →
  ∀ n x y b, I b x → nsteps R n x y → (n ≤ b)%nat.
Proof.
  intros Hstep n. induction n as [|n IH]; intros x y b Hx Hn; [lia|].
  inversion Hn as [|? ? z ? Hs Hn']; subst. destruct (Hstep b x z Hx Hs) as (b' & Hl & Hz).
  pose proof (IH z y b' Hz Hn'). lia.
Qed.

(** A measure that every step decreases bounds their number. *)
Lemma nsteps_measured {A} (R : relation A) (I : A → Prop) (μ : A → nat) :
  (∀ x y, I x → R x y → I y ∧ μ y < μ x)%nat →
  ∀ n x y, I x → nsteps R n x y → I y ∧ (n + μ y ≤ μ x)%nat.
Proof.
  intros Hstep n. induction n as [|n IH]; intros x y Hx Hn.
  - inversion Hn; subst. auto.
  - inversion Hn as [|? ? z ? Hs Hn']; subst. destruct (Hstep x z Hx Hs) as [Hz Hl].
    destruct (IH z y Hz Hn') as [? ?]. split; [done|lia].
Qed.
