(* ===== verification/GoInts.v ===== *)
(** * Machine integers, little-endian encodings and fixed-size arrays

    Go's unsigned integers are the Standard Library's [bits w] (integers modulo
    [2^w] that carry their range), its [byte] is [bits 8]; [encoding/binary]'s
    [LittleEndian] is [le_put]/[le_get], and [[n]byte] is [array n]. *)
From Stdlib Require Export Zmod.Zmod Zmod.Bits.
From S2P Require Import Prelude.

Abbreviation u8 := (bits 8).
Abbreviation u16 := (bits 16).
Abbreviation u32 := (bits 32).
Abbreviation u64 := (bits 64).

(** A Go string is a sequence of bytes. *)
Definition gostring := list u8.

(** A byte slice that may be [nil]: [None] is [nil], [Some l] has the bytes [l]. *)
Definition bslice := option (list u8).
Definition sbytes (b : bslice) : list u8 := default [] b.

#[export] Instance bits_inhabited (w : Z) : Inhabited (bits w) := populate (bits.of_Z w 0).

#[export] Instance bits_eq_dec (w : Z) : EqDecision (bits w) := λ x y,
  match Z.eq_dec (Zmod.unsigned x) (Zmod.unsigned y) with
  | left e => left (Zmod.unsigned_inj _ x y e)
  | right n => right (λ e, n (f_equal Zmod.unsigned e))
  end.

(** Conversions [uintW(z)] keep the low [w] bits. *)
Definition to_u8 (z : Z) : u8 := bits.of_Z 8 z.
Definition to_u16 (z : Z) : u16 := bits.of_Z 16 z.
Definition to_u32 (z : Z) : u32 := bits.of_Z 32 z.
Definition to_u64 (z : Z) : u64 := bits.of_Z 64 z.

#[global] Arguments Zmod.unsigned {m} x : simpl never.
#[global] Arguments Zmod.of_Z m z : simpl never.
#[global] Arguments to_u8 _ : simpl never.
#[global] Arguments to_u16 _ : simpl never.
#[global] Arguments to_u32 _ : simpl never.
#[global] Arguments to_u64 _ : simpl never.

(** [int] is 64 bits wide: the value of an [int] expression is its wrapped value. *)
Definition wrap_int (z : Z) : Z := (z + 2 ^ 63) mod 2 ^ 64 - 2 ^ 63.

(** ** [encoding/binary.LittleEndian] *)

(** [n] bytes, least significant first. *)
Fixpoint le_put (n : nat) (z : Z) : list u8 :=
  match n with
  | O => []
  | S n' => to_u8 z :: le_put n' (Z.shiftr z 8)
  end.

Fixpoint le_get (l : list u8) : Z :=
  match l with
  | [] => 0
  | b :: l' => Zmod.unsigned b + 256 * le_get l'
  end.

(** ** Fixed-size byte arrays *)

Record array (n : nat) := Array {
  arr_bytes : list u8;
  arr_size : Is_true (Nat.eqb (length arr_bytes) n)
}.
Arguments Array {n} _ _.
Arguments arr_bytes {n} _.
Arguments arr_size {n} _.

(** Exactly [n] bytes of [l], zero-extended when [l] is shorter. *)
Definition fit (n : nat) (l : list u8) : list u8 :=
  take n l ++ replicate (n - length l) (to_u8 0).

Lemma length_fit n l : length (fit n l) = n.
Proof. unfold fit. rewrite length_app, length_take, length_replicate. lia. Qed.

Lemma fit_size n l : Is_true (Nat.eqb (length (fit n l)) n).
Proof. rewrite length_fit, Nat.eqb_refl. exact I. Qed.

Definition to_array (n : nat) (l : list u8) : array n :=
  Array (fit n l) (Bool.transparent_Is_true' _ (λ _, fit_size n l)).

(** The zero value of [[n]byte]. *)
Definition zero_array (n : nat) : array n := to_array n [].

(** The conversion [[n]byte(b)]: panics when [b] is shorter than [n]. *)
Definition slice_to_array (n : nat) (b : bslice) : outcome (array n) :=
  if (length (sbytes b) <? n)%nat then Panic SliceToArrayTooShort
  else Ret (to_array n (sbytes b)).

(** ** Lemmas *)

Lemma wrap_int_small z : - 2 ^ 63 ≤ z < 2 ^ 63 → wrap_int z = z.
Proof. intros Hz. unfold wrap_int. rewrite Z.mod_small; lia. Qed.

Lemma u_range w (x : bits w) : 0 ≤ w → 0 ≤ Zmod.unsigned x < 2 ^ w.
Proof. intros H. exact (bits.unsigned_range x H). Qed.

Lemma u8_range (x : u8) : 0 ≤ Zmod.unsigned x < 256.
Proof. apply (u_range 8). lia. Qed.

Lemma unsigned_to_u8 z : Zmod.unsigned (to_u8 z) = z mod 256.
Proof. exact (bits.unsigned_of_Z z). Qed.

Lemma of_Z_unsigned w (x : bits w) : bits.of_Z w (Zmod.unsigned x) = x.
Proof. apply Zmod.unsigned_inj. rewrite bits.unsigned_of_Z. apply bits.mod_to_Z. Qed.

Lemma shiftr_byte z : Z.shiftr z 8 = z / 256.
Proof. exact (Z.shiftr_div_pow2 z 8 ltac:(lia)). Qed.

Lemma length_le_put n z : length (le_put n z) = n.
Proof. revert z; induction n; intros; simpl; congruence. Qed.

Lemma le_get_range l : 0 ≤ le_get l < 256 ^ len l.
Proof.
  induction l as [|b l IH]; [done|].
  pose proof (u8_range b). pose proof (len_nonneg l).
  rewrite len_cons, Z.pow_add_r by lia. simpl le_get. lia.
Qed.

Lemma le_get_put n z : le_get (le_put n z) = z mod 256 ^ Z.of_nat n.
Proof.
  revert z; induction n as [|n IH]; intros z; [by rewrite Z.mod_1_r|].
  simpl le_put. simpl le_get. rewrite unsigned_to_u8, IH, shiftr_byte.
  rewrite Nat2Z.inj_succ, Z.pow_succ_r by lia.
  rewrite Z.rem_mul_r by lia. reflexivity.
Qed.

Lemma le_put_get l : le_put (length l) (le_get l) = l.
Proof.
  induction l as [|b l IH]; [done|]. cbn [le_put le_get length].
  pose proof (u8_range b). apply f_equal2.
  - apply Zmod.unsigned_inj. rewrite unsigned_to_u8.
    Z.div_mod_to_equations; lia.
  - rewrite shiftr_byte.
    assert ((Zmod.unsigned b + 256 * le_get l) / 256 = le_get l) as ->
      by (Z.div_mod_to_equations; lia).
    apply IH.
Qed.

(** The two directions at the widths the package uses: [w = 8 * n]. *)
Lemma le_get_put_unsigned w n (x : bits w) :
  w = 8 * Z.of_nat n → le_get (le_put n (Zmod.unsigned x)) = Zmod.unsigned x.
Proof.
  intros Hw. rewrite le_get_put. pose proof (u_range w x ltac:(lia)).
  apply Z.mod_small. change 256 with (2 ^ 8). rewrite <- Z.pow_mul_r, <- Hw by lia. lia.
Qed.

Lemma le_put_of_Z w l :
  w = 8 * len l → le_put (length l) (Zmod.unsigned (bits.of_Z w (le_get l))) = l.
Proof.
  intros Hw. pose proof (le_get_range l) as Hr. change 256 with (2 ^ 8) in Hr.
  rewrite <- Z.pow_mul_r, <- Hw in Hr by (unfold len; lia).
  rewrite bits.unsigned_of_Z, Z.mod_small by done. apply le_put_get.
Qed.

(** Only the low [n] bytes are written. *)
Lemma le_put_mod n w z : 8 * Z.of_nat n ≤ w → le_put n (z mod 2 ^ w) = le_put n z.
Proof.
  intros Hw. rewrite <- (le_put_get (le_put n (z mod 2 ^ w))), <- (le_put_get (le_put n z)).
  rewrite !length_le_put, !le_get_put. f_equal. change 256 with (2 ^ 8).
  rewrite <- Z.pow_mul_r by lia.
  symmetry. apply Znumtheory.Zmod_div_mod; [lia..|].
  exists (2 ^ (w - 8 * Z.of_nat n)). rewrite <- Z.pow_add_r by lia. f_equal. lia.
Qed.

Lemma array_ext n (a b : array n) : arr_bytes a = arr_bytes b → a = b.
Proof.
  destruct a as [l p], b as [k q]. simpl. intros <-. f_equal. apply proof_irrel.
Qed.

#[export] Instance array_eq_dec n : EqDecision (array n) := λ a b,
  match decide (arr_bytes a = arr_bytes b) with
  | left e => left (array_ext n a b e)
  | right ne => right (λ e, ne (f_equal arr_bytes e))
  end.

Lemma length_arr n (a : array n) : length (arr_bytes a) = n.
Proof. destruct a as [l p]. simpl. apply Nat.eqb_eq, Is_true_true, p. Qed.

Lemma fit_exact l : fit (length l) l = l.
Proof. unfold fit. rewrite firstn_all, Nat.sub_diag. apply app_nil_r. Qed.

Lemma arr_bytes_to_array n l : length l = n → arr_bytes (to_array n l) = l.
Proof. intros <-. apply fit_exact. Qed.

Lemma to_array_arr_bytes n (a : array n) : to_array n (arr_bytes a) = a.
Proof. apply array_ext. by rewrite arr_bytes_to_array by apply length_arr. Qed.

#[export] Hint Rewrite length_fit length_le_put length_arr unsigned_to_u8 : golist.
