(* ===== verification/Constants.v ===== *)
(** * Protocol constants and type aliases (constants.go, types.go)

    Go's untyped integer constants are integers; typed ones carry their type.
    The numbering of the message types follows the source's [iota] blocks. *)
From S2P Require Import Prelude GoInts.

(** ** Type aliases of types.go *)
Abbreviation Protocol := u8 (only parsing).
Abbreviation MessageType := u8 (only parsing).
Abbreviation Error := gostring (only parsing).
Abbreviation Flag := u32 (only parsing).
Abbreviation SuccessFlag := u32 (only parsing).
Abbreviation Pubkey := (array 32) (only parsing).
Abbreviation EllswiftPubkey := (array 64) (only parsing).
Abbreviation Signature := (array 64) (only parsing).
(** [type U24 uint32]: the top byte exists in memory and is dropped on the wire. *)
Abbreviation U24 := u32 (only parsing).
Abbreviation Extension := u16 (only parsing).
Abbreviation U256 := (array 32) (only parsing).
(** A [float32] is its IEEE 754 bit pattern. *)
Abbreviation float32 := u32 (only parsing).

(** ** Sizes and versions *)
Definition ProtocolVersion : Z := 2.
Definition CertificateFormatVersion : Z := 0.
Definition ProtocolName : string := "Noise_NX_Secp256k1+EllSwift_ChaChaPoly_SHA256".
Definition MaxPlaintextChunkSize : Z := 65519.
Definition MaxNoiseFrameSize : Z := 65535.
Definition NoiseHeaderSize : Z := 22.
Definition FrameHeaderSize : Z := 6.
Definition MacLen : Z := 16.
Definition MaxU24 : Z := Z.shiftl 2 23 - 1.

(** ** Common messages ([iota] from 0) *)
Definition MessageSetupConnection : MessageType := to_u8 0.
Definition MessageSetupConnectionSuccess : MessageType := to_u8 1.
Definition MessageSetupConnectionError : MessageType := to_u8 2.
Definition MessageChannelEndpointChanged : MessageType := to_u8 3.
Definition MessageReconnect : MessageType := to_u8 4.

Definition MiningProtocol : Protocol := to_u8 0.
Definition JobDeclarationProtocol : Protocol := to_u8 1.
Definition TemplateDistributionProtocol : Protocol := to_u8 2.

(** ** Mining protocol ([iota + 0x10]) *)
Definition MessageOpenStandardMiningChannel : MessageType := to_u8 (0 + 0x10).
Definition MessageOpenStandardMiningChannelSuccess : MessageType := to_u8 (1 + 0x10).
Definition MessageOpenMiningChannelError : MessageType := to_u8 (2 + 0x10).
Definition MessageOpenExtendedMiningChannel : MessageType := to_u8 (3 + 0x10).
Definition MessageOpenExtendedMiningChannelSuccess : MessageType := to_u8 (4 + 0x10).
Definition MessageNewMiningJob : MessageType := to_u8 (5 + 0x10).
Definition MessageUpdateChannel : MessageType := to_u8 (6 + 0x10).
Definition MessageUpdateChannelError : MessageType := to_u8 (7 + 0x10).
Definition MessageCloseChannel : MessageType := to_u8 (8 + 0x10).
Definition MessageSetExtranoncePrefix : MessageType := to_u8 (9 + 0x10).
Definition MessageSubmitSharesStandard : MessageType := to_u8 (10 + 0x10).
Definition MessageSubmitSharesExtended : MessageType := to_u8 (11 + 0x10).
Definition MessageSubmitSharesSuccess : MessageType := to_u8 (12 + 0x10).
Definition MessageSubmitSharesError : MessageType := to_u8 (13 + 0x10).
Definition MessageReserved : MessageType := to_u8 (14 + 0x10).
Definition MessageNewExtendedMiningJob : MessageType := to_u8 (15 + 0x10).
Definition MessageSetNewPrevHash : MessageType := to_u8 (16 + 0x10).
Definition MessageSetTarget : MessageType := to_u8 (17 + 0x10).
Definition MessageSetCustomMiningJob : MessageType := to_u8 (18 + 0x10).
Definition MessageSetCustomMiningJobSuccess : MessageType := to_u8 (19 + 0x10).
Definition MessageSetCustomMiningJobError : MessageType := to_u8 (20 + 0x10).
Definition MessageSetGroupChannel : MessageType := to_u8 (21 + 0x10).

(** ** Job declaration protocol *)
Definition MessageAllocateMiningJobToken : MessageType := to_u8 0x50.
Definition MessageAllocateMiningJobTokenSuccess : MessageType := to_u8 0x51.
Definition MessageProvideMissingTransactions : MessageType := to_u8 0x55.
Definition MessageProvideMissingTransactionsSuccess : MessageType := to_u8 0x56.
Definition MessageDeclareMiningJob : MessageType := to_u8 0x57.
Definition MessageDeclareMiningJobSuccess : MessageType := to_u8 0x58.
Definition MessageDeclareMiningJobError : MessageType := to_u8 0x59.
Definition MessagePushSolution : MessageType := to_u8 0x60.

(** ** Error codes *)
(** The bytes of a string literal. *)
Definition gostring_of (s : string) : gostring :=
  map (λ a, to_u8 (Z.of_N (Ascii.N_of_ascii a))) (String.list_ascii_of_string s).

Definition UnsupportedFeatureFlagsError : Error := gostring_of "unsupported-feature-flags".
Definition UnsupportedProtocolError : Error := gostring_of "unsupported-protocol".
Definition ProtocolVersionMismatchError : Error := gostring_of "protocol-version-mismatch".
Definition UnknownUserError : Error := gostring_of "unknown-user".
Definition MaxTargetOutOfRangeError : Error := gostring_of "max-target-out-of-range".
Definition InvalidChannelIDError : Error := gostring_of "invalid-channel-id".
Definition StaleShareError : Error := gostring_of "stale-share".
Definition DifficultyTooLowError : Error := gostring_of "difficulty-too-low".
Definition InvalidJobIDError : Error := gostring_of "invalid-job-id".
Definition InvalidMiningJobTokenError : Error := gostring_of "invalid-mining-job-token".

(** ** Extensions *)
Definition ExtensionTypeMinValid : Extension := to_u16 0x4000.
Definition ExtensionTypeMaxValid : Extension := to_u16 0x7fff.
Definition ExtensionTypeCore : Extension := to_u16 0.
Definition ExtensionNegotiaton : Extension := to_u16 0x0001.
Definition ExtensionWorkerSpecificHashrateTracking : Extension := to_u16 0x0002.
