(* ===== verification/U256.v ===== *)
(** * 256-bit targets and hashes (types.go, [U256])

    A [U256] is a [[32]byte], most significant byte first.  The arithmetic is
    modelled byte by byte with the source's [uint16] temporaries and proved to be
    arithmetic modulo [2^256]; [Compare] is proved to look at no more than the
    first byte that is not zero on both sides. *)
From S2P Require Import Prelude GoInts Constants.
Local Open Scope nat_scope.
Local Open Scope Z_scope.

(** [copy(dst, src)] *)
Definition go_copy (dst src : list u8) : list u8 :=
  take (length dst) src ++ drop (length src) dst.

(** ** Setting and printing *)

Definition U256_SetBytes (b : list u8) (u : U256) : U256 * error :=
  if negb (len b =? 32) then (u, Some "SetBytes: len not 32"%string)
  else (to_array 32 (go_copy (arr_bytes u) b), None).

Definition U256_Clone (u : U256) : U256 :=
  let clone := zero_array 32 in
  (U256_SetBytes (arr_bytes u) clone).1.

Definition U256_CloneBytes (u : U256) : list u8 :=
  let makeCopy := replicate 32 (to_u8 0) in
  go_copy makeCopy (arr_bytes u).

(** [encoding/hex]: the value of a hexadecimal digit. *)
Definition fromHexChar (c : u8) : option Z :=
  let c := Zmod.unsigned c in
  if (48 <=? c) && (c <=? 57) then Some (c - 48)
  else if (97 <=? c) && (c <=? 102) then Some (c - 97 + 10)
  else if (65 <=? c) && (c <=? 70) then Some (c - 65 + 10)
  else None.

Definition hexDigit (d : Z) : u8 := to_u8 (if d <? 10 then 48 + d else 97 + (d - 10)).

Definition hex_EncodeToString (l : list u8) : gostring :=
  l ≫= λ b, [hexDigit (Z.shiftr (Zmod.unsigned b) 4); hexDigit (Z.land (Zmod.unsigned b) 15)].

(** The bytes decoded before the first error, and the error. *)
Fixpoint hex_DecodeString (s : gostring) : list u8 * error :=
  match s with
  | [] => ([], None)
  | [c] => match fromHexChar c with
           | Some _ => ([], Some "encoding/hex: odd length hex string"%string)
           | None => ([], Some "encoding/hex: invalid byte"%string)
           end
  | c1 :: c2 :: s' =>
      match fromHexChar c1, fromHexChar c2 with
      | Some a, Some b =>
          let '(l, err) := hex_DecodeString s' in
          (to_u8 (Z.lor (Z.shiftl a 4) b) :: l, err)
      | _, _ => ([], Some "encoding/hex: invalid byte"%string)
      end
  end.

Definition U256_SetString (s : gostring) (u : U256) : U256 * error :=
  if negb (len s =? 64) then (u, Some "SetString: len not 64"%string)
  else
    let '(b, err) := hex_DecodeString s in
    match err with
    | Some _ => (u, err)
    | None => (to_array 32 (go_copy (arr_bytes u) b), None)
    end.

(** [u[i], u[31-i] = u[31-i], u[i]] *)
Definition swap_step (u : list u8) (i : nat) : list u8 :=
  <[i := u !!! (31 - i)%nat]> (<[(31 - i)%nat := u !!! i]> u).

Definition U256_String (u : U256) : gostring :=
  hex_EncodeToString (fold_left swap_step (seq 0 16) (arr_bytes u)).

Definition U256_StringNonReversed (u : U256) : gostring :=
  hex_EncodeToString (arr_bytes u).

(** ** Comparison *)

(** The loop [for i := range target]. *)
Fixpoint compare_loop (target hash : list u8) : Z :=
  match target, hash with
  | t :: target', h :: hash' =>
      let t := Zmod.unsigned t in
      let h := Zmod.unsigned h in
      if negb (h =? 0) || negb (t =? 0) then
        if h <? t then 1
        else if h =? t then 0
        else -1
      else compare_loop target' hash'
  | _, _ => -1
  end.

(** [None] is the nil pointer. *)
Definition U256_Compare (target : U256) (hash : option U256) : Z :=
  let hash := match hash with None => zero_array 32 | Some h => h end in
  if decide (arr_bytes target = arr_bytes hash) then 0
  else compare_loop (arr_bytes target) (arr_bytes hash).

Definition U256_IsMetBy (target : U256) (u256 : option U256) : bool :=
  0 <=? U256_Compare target u256.

(** [chainhash.Hash] is a [[32]byte]. *)
Definition U256_IsMetByHash (target : U256) (hash : array 32) : bool :=
  let hashU256 := hash in
  0 <=? U256_Compare target (Some hashU256).

Definition U256_IsEqual (u hash : U256) : bool :=
  bool_decide (arr_bytes u = arr_bytes hash).

(** ** Arithmetic *)

Definition u8_to_u16 (b : u8) : u16 := to_u16 (Zmod.unsigned b).

Definition add_step (addend : list u8) (st : list u8 * u16) (i : nat) : list u8 * u16 :=
  let '(u, carry) := st in
  let sum := Zmod.add (Zmod.add (u8_to_u16 (u !!! (31 - i)%nat))
                                (u8_to_u16 (addend !!! (31 - i)%nat))) carry in
  let carry := Zmod.sru (Zmod.and sum (to_u16 0xff00)) 8 in
  (<[(31 - i)%nat := to_u8 (Zmod.unsigned (Zmod.and sum (to_u16 0x00ff)))]> u, carry).

Definition U256_Add (addend : U256) (u : U256) : U256 :=
  to_array 32 (fold_left (add_step (arr_bytes addend)) (seq 0 32) (arr_bytes u, to_u16 0)).1.

Definition sub_step (subtrahend : list u8) (st : list u8 * u16) (i : nat) : list u8 * u16 :=
  let '(u, borrow) := st in
  let sample := Zmod.sub (u8_to_u16 (u !!! (31 - i)%nat))
                         (u8_to_u16 (subtrahend !!! (31 - i)%nat)) in
  let sample := if 0 <? Zmod.unsigned borrow then Zmod.sub sample (to_u16 1) else sample in
  let borrow := if 255 <? Zmod.unsigned sample then to_u16 0xff else to_u16 0 in
  (<[(31 - i)%nat := to_u8 (Zmod.unsigned (Zmod.and sample (to_u16 0x00ff)))]> u, borrow).

Definition U256_Sub (subtrahend : U256) (u : U256) : U256 :=
  to_array 32 (fold_left (sub_step (arr_bytes subtrahend)) (seq 0 32) (arr_bytes u, to_u16 0)).1.

(** ** The number a byte string denotes, most significant byte first *)
Fixpoint be_val (l : list u8) : Z :=
  match l with
  | [] => 0
  | b :: l' => Zmod.unsigned b * 256 ^ len l' + be_val l'
  end.

Definition U256_val (u : U256) : Z := be_val (arr_bytes u).

(** ** Lemmas: the value of a byte string *)

Lemma be_val_range l : 0 ≤ be_val l < 256 ^ len l.
Proof.
  induction l as [|b l IH]; [done|]. pose proof (u8_range b). pose proof (len_nonneg l).
  rewrite len_cons, Z.pow_add_r by lia. cbn [be_val]. nia.
Qed.

Lemma be_val_inj l k : length l = length k → be_val l = be_val k → l = k.
Proof.
  revert k; induction l as [|b l IH]; intros [|c k] Hlen E; try done.
  injection Hlen as Hlen. cbn [be_val] in E.
  pose proof (be_val_range l). pose proof (be_val_range k).
  replace (len k) with (len l) in * by (unfold len; lia).
  assert (Zmod.unsigned b = Zmod.unsigned c) as Eb by nia.
  rewrite Eb in E. f_equal; [by apply Zmod.unsigned_inj|apply IH; [done|lia]].
Qed.

Lemma U256_val_range u : 0 ≤ U256_val u < 2 ^ 256.
Proof.
  pose proof (be_val_range (arr_bytes u)) as H. unfold len in H.
  rewrite length_arr in H. exact H.
Qed.

Lemma U256_val_inj u v : U256_val u = U256_val v → u = v.
Proof. intros H. apply array_ext, be_val_inj; [by rewrite !length_arr|done]. Qed.

(** ** Lemmas: comparison *)

(** The byte position (from the least significant) of the highest byte that is
    not zero in both numbers. *)
Definition lead_pos (x y : Z) : Z := Z.log2 (Z.max x y) / 8.

Lemma lead_pos_eq x y m :
  0 ≤ m → 256 ^ m ≤ Z.max x y < 256 * 256 ^ m → lead_pos x y = m.
Proof.
  intros Hm H. unfold lead_pos.
  assert (8 * m ≤ Z.log2 (Z.max x y) < 8 * (m + 1)) as Hl.
  { change 256 with (2 ^ 8) in H. rewrite <- !Z.pow_mul_r in H by lia.
    split.
    - apply Z.log2_le_pow2; lia.
    - apply Z.log2_lt_pow2; [lia|].
      replace (8 * (m + 1)) with (8 + 8 * m) by lia. rewrite Z.pow_add_r by lia. lia. }
  Z.div_mod_to_equations. lia.
Qed.

Lemma compare_loop_spec t h :
  length t = length h → t ≠ h →
  (0 <=? compare_loop t h) =
  (be_val h / 256 ^ lead_pos (be_val t) (be_val h) <=?
   be_val t / 256 ^ lead_pos (be_val t) (be_val h)).
Proof.
  revert h; induction t as [|a t IH]; intros [|b h] Hlen Hne; try done.
  injection Hlen as Hlen.
  pose proof (u8_range a). pose proof (u8_range b).
  pose proof (be_val_range t). pose proof (be_val_range h). pose proof (len_nonneg t).
  cbn [compare_loop be_val].
  replace (len h) with (len t) in * by (unfold len; lia).
  set (p := 256 ^ len t) in *.
  destruct (Z.eqb_spec (Zmod.unsigned b) 0) as [Eb|Eb];
    [destruct (Z.eqb_spec (Zmod.unsigned a) 0) as [Ea|Ea]|]; cbn [negb orb].
  - rewrite Ea, Eb, !Z.mul_0_l, !Z.add_0_l. apply IH; [done|]. intros ->.
    apply Hne. f_equal. apply Zmod.unsigned_inj. congruence.
  - rewrite (lead_pos_eq _ _ (len t)) by (subst p; nia). fold p.
    rewrite !Z.div_add_l, !(Z.div_small (be_val _)), !Z.add_0_r by lia.
    repeat case_match; bool_to_prop; symmetry; (apply Z.leb_le || apply Z.leb_gt); lia.
  - rewrite (lead_pos_eq _ _ (len t)) by (subst p; nia). fold p.
    rewrite !Z.div_add_l, !(Z.div_small (be_val _)), !Z.add_0_r by lia.
    repeat case_match; bool_to_prop; symmetry; (apply Z.leb_le || apply Z.leb_gt); lia.
Qed.

Lemma compare_loop_sign t h :
  length t = length h → t ≠ h →
  (compare_loop t h = 1 → be_val h < be_val t) ∧
  (compare_loop t h = -1 → be_val t < be_val h).
Proof.
  revert h; induction t as [|a t IH]; intros [|b h] Hlen Hne; try done.
  injection Hlen as Hlen.
  pose proof (u8_range a). pose proof (u8_range b).
  pose proof (be_val_range t). pose proof (be_val_range h).
  cbn [compare_loop be_val]. replace (len h) with (len t) in * by (unfold len; lia).
  destruct (negb _ || negb _)%bool eqn:E.
  - repeat case_match; bool_to_prop; split; nia || done.
  - apply orb_false_iff in E as [Eb Ea].
    apply negb_false_iff in Ea, Eb. bool_to_prop. rewrite Ea, Eb.
    rewrite !Z.mul_0_l, !Z.add_0_l. apply IH; [done|]. intros ->.
    apply Hne. f_equal. apply Zmod.unsigned_inj. congruence.
Qed.

(** ** Lemmas: the arithmetic loops *)

(** The number denoted by the [i] least significant bytes. *)
Definition low (i : nat) (l : list u8) : Z := be_val (drop (32 - i) l).

Lemma low_S i l :
  length l = 32%nat → (i < 32)%nat →
  low (S i) l = Zmod.unsigned (l !!! (31 - i)%nat) * 256 ^ Z.of_nat i + low i l.
Proof.
  intros Hl Hi. unfold low.
  destruct (lookup_lt_is_Some_2 l (31 - i)) as [x Hx]; [lia|].
  replace (32 - S i)%nat with (31 - i)%nat by lia.
  rewrite (drop_S _ _ _ Hx). rewrite (list_lookup_total_correct _ _ _ Hx). cbn [be_val].
  replace (S (31 - i)) with (32 - i)%nat by lia.
  unfold len. rewrite length_drop, Hl. do 3 f_equal. lia.
Qed.

Lemma low_insert i x l :
  length l = 32%nat → (i < 32)%nat →
  low (S i) (<[(31 - i)%nat := x]> l) = Zmod.unsigned x * 256 ^ Z.of_nat i + low i l.
Proof.
  intros Hl Hi. rewrite low_S by (rewrite ?length_insert; lia).
  rewrite list_lookup_total_insert_eq by lia. f_equal. unfold low.
  by rewrite drop_insert_lt by lia.
Qed.

Lemma low_32 l : low 32 l = be_val l.
Proof. reflexivity. Qed.

Lemma pow256_32 : 256 ^ Z.of_nat 32 = 2 ^ 256.
Proof. reflexivity. Qed.

Lemma be_val_range32 l : length l = 32%nat → 0 ≤ be_val l < 2 ^ 256.
Proof. intros Hl. pose proof (be_val_range l) as H. unfold len in H. by rewrite Hl in H. Qed.

Lemma low_0 l : length l = 32%nat → low 0 l = 0.
Proof. intros Hl. unfold low. by rewrite drop_ge by lia. Qed.

Lemma unsigned_add16 (x y : u16) :
  Zmod.unsigned (Zmod.add x y) = (Zmod.unsigned x + Zmod.unsigned y) mod 65536.
Proof. exact (bits.unsigned_add x y). Qed.

Lemma unsigned_sub16 (x y : u16) :
  Zmod.unsigned (Zmod.sub x y) = (Zmod.unsigned x - Zmod.unsigned y) mod 65536.
Proof. exact (bits.unsigned_sub x y). Qed.

Lemma u16_range (x : u16) : 0 ≤ Zmod.unsigned x < 65536.
Proof. apply (u_range 16). lia. Qed.

Lemma low_byte16 (s : u16) :
  Zmod.unsigned (to_u8 (Zmod.unsigned (Zmod.and s (to_u16 0x00ff)))) = Zmod.unsigned s mod 256.
Proof.
  rewrite unsigned_to_u8, bits.unsigned_and.
  replace (Zmod.unsigned (to_u16 0x00ff)) with (Z.ones 8) by reflexivity.
  rewrite Z.land_ones by lia. apply Z.mod_mod. lia.
Qed.

Lemma high_byte16 (s : u16) :
  Zmod.unsigned (Zmod.sru (Zmod.and s (to_u16 0xff00)) 8) = Zmod.unsigned s / 256.
Proof.
  rewrite Zmod.unsigned_sru, bits.unsigned_and, Z.shiftr_land by lia.
  replace (Z.shiftr (Zmod.unsigned (to_u16 0xff00)) 8) with (Z.ones 8) by reflexivity.
  rewrite Z.land_ones, shiftr_byte by lia. pose proof (u16_range s).
  apply Z.mod_small. Z.div_mod_to_equations. lia.
Qed.

Lemma unsigned_u8_to_u16 b : Zmod.unsigned (u8_to_u16 b) = Zmod.unsigned b.
Proof.
  pose proof (u8_range b). unfold u8_to_u16, to_u16. apply bits.unsigned_of_Z_small. lia.
Qed.

(** After [i] rounds of a loop that rewrites byte [31 - i] in round [i], the
    bytes still to come are the original ones. *)
Definition untouched (i : nat) (u0 u : list u8) : Prop :=
  length u = 32%nat ∧ ∀ j, (j < 32 - i)%nat → u !!! j = u0 !!! j.

Lemma untouched_0 u0 : length u0 = 32%nat → untouched 0 u0 u0.
Proof. done. Qed.

Lemma untouched_S i u0 u x :
  untouched i u0 u → untouched (S i) u0 (<[(31 - i)%nat := x]> u).
Proof.
  intros [Hl Hu]. split; [by rewrite length_insert|]. intros j Hj.
  rewrite list_lookup_total_insert_ne by lia. apply Hu. lia.
Qed.

Lemma pow256_S i : 256 ^ Z.of_nat (S i) = 256 * 256 ^ Z.of_nat i.
Proof. rewrite Nat2Z.inj_succ. apply Z.pow_succ_r. lia. Qed.

(** The carry loop computes the sum of the low [i] bytes. *)
Definition add_inv (u0 a : list u8) (i : nat) (st : list u8 * u16) : Prop :=
  untouched i u0 st.1 ∧ 0 ≤ Zmod.unsigned st.2 ≤ 1 ∧
  low i st.1 + Zmod.unsigned st.2 * 256 ^ Z.of_nat i = low i u0 + low i a.

Lemma add_step_inv u0 a i st :
  length u0 = 32%nat → length a = 32%nat → (i < 32)%nat →
  add_inv u0 a i st → add_inv u0 a (S i) (add_step a st i).
Proof.
  destruct st as [u c]. intros Hu0 Ha Hi (Hu & Hc & E). cbn [fst snd] in *.
  unfold add_step. set (s := Zmod.add _ _).
  assert (Zmod.unsigned s = Zmod.unsigned (u0 !!! (31 - i)%nat) +
                            Zmod.unsigned (a !!! (31 - i)%nat) + Zmod.unsigned c) as Es.
  { subst s. rewrite !unsigned_add16, !unsigned_u8_to_u16.
    rewrite (proj2 Hu) by lia.
    pose proof (u8_range (u0 !!! (31 - i)%nat)). pose proof (u8_range (a !!! (31 - i)%nat)).
    Z.div_mod_to_equations. lia. }
  pose proof (u8_range (u0 !!! (31 - i)%nat)). pose proof (u8_range (a !!! (31 - i)%nat)).
  split; [by apply untouched_S|]. cbn [fst snd]. rewrite high_byte16. split.
  { Z.div_mod_to_equations. lia. }
  rewrite low_insert by (apply Hu || done). rewrite !low_S, low_byte16, pow256_S by done.
  pose proof (Z.div_mod (Zmod.unsigned s) 256 ltac:(lia)). nia.
Qed.

(** The borrow loop computes the difference of the low [i] bytes. *)
Definition borrowed (b : u16) : Z := if 0 <? Zmod.unsigned b then 1 else 0.

Definition sub_inv (u0 a : list u8) (i : nat) (st : list u8 * u16) : Prop :=
  untouched i u0 st.1 ∧
  low i st.1 = low i u0 - low i a + borrowed st.2 * 256 ^ Z.of_nat i.

Lemma sub_step_inv u0 a i st :
  length u0 = 32%nat → length a = 32%nat → (i < 32)%nat →
  sub_inv u0 a i st → sub_inv u0 a (S i) (sub_step a st i).
Proof.
  destruct st as [u b]. intros Hu0 Ha Hi (Hu & E). cbn [fst snd] in *.
  unfold sub_step. set (s := if _ <? _ then _ else _).
  set (d := Zmod.unsigned (u0 !!! (31 - i)%nat) - Zmod.unsigned (a !!! (31 - i)%nat)
            - borrowed b).
  pose proof (u8_range (u0 !!! (31 - i)%nat)). pose proof (u8_range (a !!! (31 - i)%nat)).
  assert (0 ≤ borrowed b ≤ 1) by (unfold borrowed; case_match; lia).
  assert (Zmod.unsigned s = d mod 65536) as Es.
  { subst s d. unfold borrowed. destruct (0 <? Zmod.unsigned b);
      rewrite !unsigned_sub16, !unsigned_u8_to_u16, (proj2 Hu) by lia; [|f_equal; lia].
    replace (Zmod.unsigned (to_u16 1)) with 1 by reflexivity.
    rewrite Zminus_mod_idemp_l. f_equal. }
  split; [by apply untouched_S|]. cbn [fst snd].
  rewrite low_insert by (apply Hu || done). rewrite !low_S, low_byte16, pow256_S by done.
  assert (Zmod.unsigned s mod 256 = d +
    borrowed (if 255 <? Zmod.unsigned s then to_u16 0xff else to_u16 0) * 256) as ->.
  { rewrite Es. unfold borrowed. destruct (Z.ltb_spec 255 (d mod 65536));
      [replace (0 <? Zmod.unsigned (to_u16 0xff)) with true by reflexivity
      |replace (0 <? Zmod.unsigned (to_u16 0)) with false by reflexivity];
      Z.div_mod_to_equations; lia. }
  subst d. nia.
Qed.

(** Rounds of a loop over [range n], with an invariant indexed by the round. *)
Lemma fold_seq_inv {A} (P : nat → A → Prop) (f : A → nat → A) (n : nat) (a : A) :
  P 0%nat a → (∀ i b, (i < n)%nat → P i b → P (S i) (f b i)) →
  P n (fold_left f (seq 0 n) a).
Proof.
  intros H0 HS. assert (∀ m, (m ≤ n)%nat → P m (fold_left f (seq 0 m) a)) as H.
  { induction m as [|m IH]; intros Hm; [done|].
    rewrite seq_S, fold_left_app. apply HS; [lia|]. apply IH. lia. }
  by apply H.
Qed.

Lemma add_loop_val u0 a :
  length u0 = 32%nat → length a = 32%nat →
  let r := (fold_left (add_step a) (seq 0 32) (u0, to_u16 0)).1 in
  length r = 32%nat ∧ be_val r = (be_val u0 + be_val a) mod 2 ^ 256.
Proof.
  intros Hu Ha. destruct (fold_seq_inv (add_inv u0 a) (add_step a) 32 (u0, to_u16 0))
    as ([Hl _] & Hc & E); [|by intros; apply add_step_inv|].
  - split; [by apply untouched_0|split; [by vm_compute|]]. cbn [fst snd]. by rewrite !low_0.
  - split; [done|]. rewrite (low_32 u0), (low_32 a), low_32, pow256_32 in E. rewrite <- E.
    rewrite Z_mod_plus_full, Z.mod_small; [done|by apply be_val_range32].
Qed.

Lemma sub_loop_val u0 a :
  length u0 = 32%nat → length a = 32%nat →
  let r := (fold_left (sub_step a) (seq 0 32) (u0, to_u16 0)).1 in
  length r = 32%nat ∧ be_val r = (be_val u0 - be_val a) mod 2 ^ 256.
Proof.
  intros Hu Ha. destruct (fold_seq_inv (sub_inv u0 a) (sub_step a) 32 (u0, to_u16 0))
    as ([Hl _] & E); [|by intros; apply sub_step_inv|].
  - split; [by apply untouched_0|]. cbn [fst snd]. by rewrite !low_0.
  - split; [done|]. rewrite (low_32 u0), (low_32 a), low_32, pow256_32 in E.
    revert Hl E. generalize (fold_left (sub_step a) (seq 0 32) (u0, to_u16 0)) as r.
    generalize be_val_range32. generalize (2 ^ 256). intros m Hr r Hl E.
    apply (Z.mod_unique _ _ (- borrowed r.2)); [left; by apply Hr|]. rewrite E. ring.
Qed.

Lemma U256_Add_mod u a : U256_val (U256_Add a u) = (U256_val u + U256_val a) mod 2 ^ 256.
Proof.
  destruct (add_loop_val (arr_bytes u) (arr_bytes a)) as [Hl E]; [apply length_arr..|].
  unfold U256_val, U256_Add. by rewrite arr_bytes_to_array.
Qed.

Lemma U256_Sub_mod u a : U256_val (U256_Sub a u) = (U256_val u - U256_val a) mod 2 ^ 256.
Proof.
  destruct (sub_loop_val (arr_bytes u) (arr_bytes a)) as [Hl E]; [apply length_arr..|].
  unfold U256_val, U256_Sub. by rewrite arr_bytes_to_array.
Qed.

Lemma IsMetBy_lead target hash :
  U256_IsMetBy target (Some hash) =
  (let n := lead_pos (U256_val target) (U256_val hash) in
   U256_val hash / 256 ^ n <=? U256_val target / 256 ^ n).
Proof.
  unfold U256_IsMetBy, U256_Compare. case_decide as E.
  - unfold U256_val. rewrite E. symmetry. apply Z.leb_refl.
  - apply compare_loop_spec; [by rewrite !length_arr|done].
Qed.

(** ** Lemmas: hexadecimal *)

Lemma byte_nibbles z : 0 ≤ z < 256 → Z.lor (Z.shiftl (Z.shiftr z 4) 4) (Z.land z 15) = z.
Proof.
  intros Hz. apply Z.bits_inj'. intros n Hn.
  rewrite Z.lor_spec, Z.land_spec, Z.shiftl_spec by lia.
  replace 15 with (Z.ones 4) by reflexivity. destruct (Z.ltb_spec n 4).
  - rewrite Z.testbit_neg_r by lia. rewrite Z.ones_spec_low by lia. by rewrite andb_true_r.
  - rewrite Z.shiftr_spec, Z.ones_spec_high, andb_false_r, orb_false_r by lia. f_equal. lia.
Qed.

Lemma fromHexChar_hexDigit d : 0 ≤ d < 16 → fromHexChar (hexDigit d) = Some d.
Proof.
  intros Hd. unfold fromHexChar, hexDigit. rewrite unsigned_to_u8.
  destruct (d <? 10) eqn:E; bool_to_prop; rewrite Z.mod_small by lia;
    repeat case_match; bool_to_prop; f_equal; lia.
Qed.

Lemma hex_roundtrip l : hex_DecodeString (hex_EncodeToString l) = (l, None).
Proof.
  induction l as [|b l IH]; [done|].
  change (hex_EncodeToString (b :: l)) with
    (hexDigit (Z.shiftr (Zmod.unsigned b) 4) :: hexDigit (Z.land (Zmod.unsigned b) 15)
     :: hex_EncodeToString l).
  cbn [hex_DecodeString]. pose proof (u8_range b).
  assert (0 ≤ Z.shiftr (Zmod.unsigned b) 4 < 16).
  { rewrite Z.shiftr_div_pow2 by lia. change (2 ^ 4) with 16. Z.div_mod_to_equations. lia. }
  assert (0 ≤ Z.land (Zmod.unsigned b) 15 < 16).
  { replace 15 with (Z.ones 4) by reflexivity. rewrite Z.land_ones by lia. apply Z.mod_pos_bound. lia. }
  rewrite !fromHexChar_hexDigit by lia. rewrite IH, byte_nibbles by lia.
  unfold to_u8. by rewrite of_Z_unsigned.
Qed.

Lemma length_hex l : len (hex_EncodeToString l) = 2 * len l.
Proof. induction l as [|b l IH]; [done|]. rewrite len_cons. unfold len in *. simpl. lia. Qed.

Lemma swap_loop_rev l : length l = 32%nat → fold_left swap_step (seq 0 16) l = rev l.
Proof. intros Hl. do 32 (destruct l as [|? l]; [done|]). destruct l; done. Qed.

Lemma go_copy_full dst src : length src = length dst → go_copy dst src = src.
Proof. intros H. unfold go_copy. rewrite <- H, firstn_all, H, skipn_all. apply app_nil_r. Qed.

Lemma SetBytes_32 b u : length b = 32%nat → U256_SetBytes b u = (to_array 32 b, None).
Proof.
  intros Hb. unfold U256_SetBytes. replace (len b =? 32) with true by (unfold len; by rewrite Hb).
  simpl negb. cbv iota. by rewrite go_copy_full by by rewrite length_arr.
Qed.

Lemma SetBytes_other b u :
  length b ≠ 32%nat → U256_SetBytes b u = (u, Some "SetBytes: len not 32"%string).
Proof.
  intros Hb. unfold U256_SetBytes. destruct (len b =? 32) eqn:E; [|done].
  bool_to_prop. unfold len in E. lia.
Qed.

Lemma SetString_hex l u :
  length l = 32%nat → U256_SetString (hex_EncodeToString l) u = (to_array 32 l, None).
Proof.
  intros Hl. unfold U256_SetString. rewrite length_hex, hex_roundtrip.
  replace (2 * len l =? 64) with true by (unfold len; by rewrite Hl).
  simpl negb. cbv iota. by rewrite go_copy_full by by rewrite length_arr.
Qed.

(** ** Properties *)

(** C26: [Add] and [Sub] are addition and subtraction modulo 2^256 (a carry or
    borrow past 256 bits is discarded), so [Sub] undoes [Add]. *)
Theorem U256_arith_correct (u a : U256) :
  U256_val (U256_Add a u) = (U256_val u + U256_val a) mod 2 ^ 256 ∧
  U256_val (U256_Sub a u) = (U256_val u - U256_val a) mod 2 ^ 256 ∧
  U256_Sub a (U256_Add a u) = u.
Proof.
  split; [apply U256_Add_mod|split; [apply U256_Sub_mod|]].
  apply U256_val_inj. rewrite U256_Sub_mod, U256_Add_mod, Zminus_mod_idemp_l.
  rewrite Z.add_simpl_r. apply Z.mod_small, U256_val_range.
Qed.

(** No valid share is turned down: a hash that is at most the target meets it. *)
Lemma U256_IsMetBy_complete (target hash : U256) :
  U256_val hash ≤ U256_val target → U256_IsMetBy target (Some hash) = true.
Proof.
  intros H. rewrite IsMetBy_lead. apply Z.leb_le, Z.div_le_mono; [|done].
  apply Z.pow_pos_nonneg; [lia|]. apply Z.div_pos; [apply Z.log2_nonneg|lia].
Qed.

Definition target_00ff : U256 := to_array 32 (map to_u8 [0; 0xff]).
Definition hash_00ffff : U256 := to_array 32 (map to_u8 [0; 0xff; 0xff]).
Definition hash_00f0ff : U256 := to_array 32 (map to_u8 [0; 0xf0; 0xff]).

(** C25: [IsMetBy] compares the two numbers only down to the highest byte at which
    one of them is not zero: it answers whether the hash, divided by [256^n], is at most
    the target divided by [256^n], [n] being the position of that byte.  So it lets
    some invalid shares through: 00ffff00.. is larger than the target 00ff0000..,
    [Compare] calls them equal and the hash is accepted.  No valid share is turned
    down: a hash that is at most the target meets it. *)
Theorem U256_IsMetBy_exact :
  (∀ target hash : U256,
     U256_IsMetBy target (Some hash) =
     (let n := lead_pos (U256_val target) (U256_val hash) in
      U256_val hash / 256 ^ n <=? U256_val target / 256 ^ n) ∧
     U256_IsMetByHash target hash = U256_IsMetBy target (Some hash)) ∧
  (∃ target hash : U256, U256_val target < U256_val hash ∧
     U256_Compare target (Some hash) = 0 ∧ U256_IsMetBy target (Some hash) = true) ∧
  (∀ target hash : U256,
     U256_val hash ≤ U256_val target → U256_IsMetBy target (Some hash) = true).
Proof.
  split; [intros target hash; split; [apply IsMetBy_lead|done]|].
  split; [|exact U256_IsMetBy_complete]. exists target_00ff, hash_00ffff. by vm_compute.
Qed.

Lemma U256_IsMetBy_exact_witness :
  U256_val hash_00f0ff ≤ U256_val target_00ff ∧
  U256_IsMetBy target_00ff (Some hash_00f0ff) = true.
Proof.
  assert (U256_val hash_00f0ff ≤ U256_val target_00ff) as H by (vm_compute; discriminate).
  split; [exact H|]. apply (proj2 (proj2 U256_IsMetBy_exact) target_00ff hash_00f0ff H).
Defined.

(** The strict answers of [Compare] are right: 1 means the hash is below the
    target, -1 that it is above, and equal numbers compare 0. *)
Theorem U256_Compare_strict (target hash : U256) :
  (U256_Compare target (Some hash) = 1 → U256_val hash < U256_val target) ∧
  (U256_Compare target (Some hash) = -1 → U256_val target < U256_val hash) ∧
  (U256_val target = U256_val hash → U256_Compare target (Some hash) = 0).
Proof.
  unfold U256_Compare. case_decide as E; [done|].
  destruct (compare_loop_sign (arr_bytes target) (arr_bytes hash)) as [H1 H2];
    [by rewrite !length_arr|done|].
  split; [done|split; [done|]]. intros Ev. by apply U256_val_inj in Ev as ->.
Qed.

(** The hexadecimal forms round-trip: [SetString] reads
    [StringNonReversed] back, and [String] is the byte-reversed form. *)
Theorem U256_hex_roundtrip (u v : U256) :
  U256_SetString (U256_StringNonReversed v) u = (v, None) ∧
  U256_SetString (U256_String v) u = (to_array 32 (rev (arr_bytes v)), None) ∧
  U256_Clone v = v ∧ U256_CloneBytes v = arr_bytes v.
Proof.
  unfold U256_StringNonReversed, U256_String, U256_Clone, U256_CloneBytes.
  rewrite swap_loop_rev by apply length_arr.
  rewrite !SetString_hex, SetBytes_32, to_array_arr_bytes
    by (rewrite ?length_rev; apply length_arr).
  by rewrite go_copy_full by by rewrite length_arr.
Qed.
