(* ===== verification/Wire.v ===== *)
(** * Wire formats: the abstract specification of the encodings

    A [wire] is what writing a value should produce: the bytes, and the first
    error met.  [⋅] puts one format after another and stops at the first
    error, so a message's format is the product of its fields' formats.  The
    builder ([Builder.v]) is proved to produce these wires, the reader
    ([Reader.v]) to accept exactly the error-free ones. *)
From S2P Require Import Prelude GoInts.

Definition wire : Type := list u8 * error.

Definition wnil : wire := ([], None).
Definition wbytes (bs : list u8) : wire := (bs, None).
Definition wfail (msg : string) : wire := ([], Some msg).

Definition wapp (a b : wire) : wire :=
  match a.2 with
  | None => (a.1 ++ b.1, b.2)
  | Some _ => a
  end.
Notation "a ⋅ b" := (wapp a b) (at level 50, left associativity) : go_scope.

(** ** Field formats *)

(** A [w]-bit unsigned integer as [n] little-endian bytes. *)
Definition w_uint (n : nat) (z : Z) : wire := wbytes (le_put n z).
Definition w_u8 (u : u8) : wire := w_uint 1 (Zmod.unsigned u).
Definition w_u16 (u : u16) : wire := w_uint 2 (Zmod.unsigned u).
Definition w_u24 (u : u32) : wire := w_uint 3 (Zmod.unsigned u).
Definition w_u32 (u : u32) : wire := w_uint 4 (Zmod.unsigned u).
Definition w_u64 (u : u64) : wire := w_uint 8 (Zmod.unsigned u).

Definition w_bool (b : bool) : wire := wbytes [to_u8 (if b then 1 else 0)].

Definition w_array {n} (a : array n) : wire := wbytes (arr_bytes a).

(** A byte string behind its length, [n] bytes wide, at most [limit]. *)
Definition w_bin (n : nat) (limit : Z) (msg : string) (s : list u8) : wire :=
  if limit <? len s then wfail msg else wbytes (le_put n (len s) ++ s).

Definition w_str255 : gostring → wire := w_bin 1 255 "AddStr: len > 255".
Definition w_bin32 : list u8 → wire := w_bin 1 32 "AddBin32: len > 32".
Definition w_bin255 : list u8 → wire := w_bin 1 255 "AddBin255: len > 255".
Definition w_bin64k : list u8 → wire := w_bin 2 65535 "AddBin64K: len > 65535".

(** The elements of a sequence, one after another. *)
Fixpoint w_list {A} (w : A → wire) (l : list A) : wire :=
  match l with
  | [] => wnil
  | x :: l' => w x ⋅ w_list w l'
  end.

(** A sequence behind its element count. *)
Definition w_seq {A} (n : nat) (limit : Z) (msg : string) (w : A → wire) (l : list A) : wire :=
  if limit <? len l then wfail msg else w_uint n (len l) ⋅ w_list w l.

Definition w_seq1 {A} (w : A → wire) := w_seq 1 1 "AddSeq1: len > 1" w.
Definition w_seq255 {A} (w : A → wire) := w_seq 1 255 "AddSeq255: len > 255" w.
Definition w_seq64k {A} (w : A → wire) := w_seq 2 65535 "AddSeq64K: len > 65535" w.

#[global] Arguments wapp _ _ : simpl never.
#[global] Arguments w_uint _ _ : simpl never.
#[global] Arguments w_u8 _ : simpl never.
#[global] Arguments w_u16 _ : simpl never.
#[global] Arguments w_u24 _ : simpl never.
#[global] Arguments w_u32 _ : simpl never.
#[global] Arguments w_u64 _ : simpl never.
#[global] Arguments w_bool _ : simpl never.
#[global] Arguments w_array {n} _ : simpl never.
#[global] Arguments w_bin _ _ _ _ : simpl never.
#[global] Arguments w_str255 _ : simpl never.
#[global] Arguments w_bin32 _ : simpl never.
#[global] Arguments w_bin255 _ : simpl never.
#[global] Arguments w_bin64k _ : simpl never.
#[global] Arguments w_seq1 {A} _ _ : simpl never.
#[global] Arguments w_seq255 {A} _ _ : simpl never.
#[global] Arguments w_seq64k {A} _ _ : simpl never.

(** ** The wire monoid *)

Lemma wapp_nil_l w : wnil ⋅ w = w.
Proof. by destruct w. Qed.

Lemma wapp_nil_r w : w ⋅ wnil = w.
Proof. destruct w as [bs [e|]]; [done|]. unfold wapp. simpl. by rewrite app_nil_r. Qed.

Lemma wapp_assoc a b c : a ⋅ (b ⋅ c) = a ⋅ b ⋅ c.
Proof.
  destruct a as [bs [e|]]; [done|]. destruct b as [bs' [e'|]]; [done|].
  unfold wapp. simpl. by rewrite app_assoc.
Qed.

(** A product is error-free exactly when its factors are. *)
Lemma wapp_ok a b bs :
  a ⋅ b = (bs, None) ↔ ∃ b1 b2, bs = b1 ++ b2 ∧ a = (b1, None) ∧ b = (b2, None).
Proof.
  destruct a as [b1 [e|]], b as [b2 e2]; unfold wapp; simpl; split.
  - done.
  - naive_solver.
  - intros [= <- ->]. eauto.
  - intros (c1 & c2 & -> & [= ->] & [= -> ->]). done.
Qed.

Lemma wbytes_ok b bs : wbytes b = (bs, None) ↔ bs = b.
Proof. unfold wbytes. naive_solver. Qed.

Lemma wnil_ok bs : wnil = (bs, None) ↔ bs = [].
Proof. apply wbytes_ok. Qed.

Lemma w_bin_ok n limit msg s bs :
  w_bin n limit msg s = (bs, None) ↔ len s ≤ limit ∧ bs = le_put n (len s) ++ s.
Proof.
  unfold w_bin. destruct (limit <? len s) eqn:E; bool_to_prop; [|rewrite wbytes_ok; tauto].
  split; [done|]. intros [? _]. lia.
Qed.

Lemma w_seq_ok {A} n limit msg (w : A → wire) l bs :
  w_seq n limit msg w l = (bs, None) ↔
  len l ≤ limit ∧ ∃ b2, bs = le_put n (len l) ++ b2 ∧ w_list w l = (b2, None).
Proof.
  unfold w_seq, w_uint. destruct (limit <? len l) eqn:E; bool_to_prop.
  - split; [done|]. intros [? _]. lia.
  - rewrite wapp_ok. setoid_rewrite wbytes_ok. naive_solver.
Qed.

Lemma wire_of_pair (w : wire) bs : (Some w.1, w.2) = (Some bs, None) → w = (bs, None).
Proof. destruct w. by intros [= -> ->]. Qed.

Lemma w_u8_byte (n : u8) : w_u8 n = ([n], None).
Proof. unfold w_u8, w_uint, wbytes. simpl. unfold to_u8. by rewrite of_Z_unsigned. Qed.

Lemma w_u32_of_bytes l : length l = 4%nat → w_u32 (to_u32 (le_get l)) = (l, None).
Proof.
  intros Hl. apply wbytes_ok. rewrite <- Hl. symmetry. apply le_put_of_Z. unfold len. by rewrite Hl.
Qed.

Create Rewrite HintDb wire.
#[export] Hint Rewrite wapp_nil_l wapp_nil_r wapp_assoc : wire.
Create Rewrite HintDb wire_ok.
#[export] Hint Rewrite wapp_ok wbytes_ok wnil_ok w_bin_ok @w_seq_ok : wire_ok.

(** ** When a format has no error *)

Lemma wapp_fits a b : (a ⋅ b).2 = None ↔ a.2 = None ∧ b.2 = None.
Proof. destruct a as [x [e|]], b as [y e']; unfold wapp; simpl; naive_solver. Qed.

Lemma w_bin_fits n limit msg s : (w_bin n limit msg s).2 = None ↔ len s ≤ limit.
Proof. unfold w_bin. destruct (limit <? len s) eqn:E; bool_to_prop; simpl; split; done || lia. Qed.

Lemma w_list_fits {A} (w : A → wire) l : (∀ x, (w x).2 = None) → (w_list w l).2 = None.
Proof.
  intros Hw. induction l as [|x l IH]; [done|]. simpl. rewrite wapp_fits. split; [apply Hw|done].
Qed.

Lemma w_seq_fits {A} n limit msg (w : A → wire) l :
  (∀ x, (w x).2 = None) → (w_seq n limit msg w l).2 = None ↔ len l ≤ limit.
Proof.
  intros Hw. unfold w_seq. destruct (limit <? len l) eqn:E; bool_to_prop; [simpl; split; done || lia|].
  rewrite wapp_fits. split; [done|]. intros _. split; [done|by apply w_list_fits].
Qed.

Lemma wapp_fits_iff a b P Q :
  (a.2 = None ↔ P) → (b.2 = None ↔ Q) → (a ⋅ b).2 = None ↔ P ∧ Q.
Proof. rewrite wapp_fits. tauto. Qed.

Lemma fixed_fits (e : error) : e = None → e = None ↔ True.
Proof. tauto. Qed.

(** Proves [(w ⋅ ..).2 = None ↔ ?P], where [?P] collects the limits on the lengths. *)
Ltac collect_fits :=
  repeat match goal with
  | |- (_ ⋅ _).2 = None ↔ _ => eapply wapp_fits_iff
  | |- (w_str255 ?s).2 = None ↔ _ => exact (w_bin_fits 1 255 _ s)
  | |- (w_bin32 ?s).2 = None ↔ _ => exact (w_bin_fits 1 32 _ s)
  | |- (w_bin255 ?s).2 = None ↔ _ => exact (w_bin_fits 1 255 _ s)
  | |- (w_bin64k ?s).2 = None ↔ _ => exact (w_bin_fits 2 65535 _ s)
  | |- (w_seq1 ?w ?l).2 = None ↔ _ => exact (w_seq_fits 1 1 _ w l (λ _, eq_refl))
  | |- (w_seq255 ?w ?l).2 = None ↔ _ => exact (w_seq_fits 1 255 _ w l (λ _, eq_refl))
  | |- (w_seq64k ?w ?l).2 = None ↔ _ => exact (w_seq_fits 2 65535 _ w l (λ _, eq_refl))
  | |- _.2 = None ↔ _ => exact (fixed_fits _ eq_refl)
  end.
