(* ===== verification/Builder.v ===== *)
(** * BinaryBuilder (binary.go)

    The encoder every message is written with: a byte buffer with a capacity and
    a sticky error.  Each method is a state transformer
    [BinaryBuilder → BinaryBuilder]; Go's fluent chain [bb.f(..).g(..)] is
    [bb |> f .. |> g ..]. *)
From S2P Require Import Prelude GoInts Constants Wire.

(** What the run-time's [append] promises about a reallocated slice: the new
    capacity, chosen from the old one and the length needed, is large enough.
    The amount of slack is the run-time's business. *)
Class GoAlloc := {
  growslice : Z → Z → Z;
  growslice_enough c n : n ≤ growslice c n
}.

(** The run-time that allocates exactly what is needed. *)
Definition exact_alloc : GoAlloc :=
  {| growslice _ n := n; growslice_enough _ n := Z.le_refl n |}.

Definition limit64k : Z := 65535.
(** Go's [^] is exclusive or, and binds as tightly as [-]. *)
Definition limit16m : Z := Z.lxor 2 24 - 1.

Record BinaryBuilder := {
  bb_data : list u8;
  bb_cap : Z;       (* cap(bb.data) *)
  bb_err : error
}.

Section Builder.
Context `{GoAlloc}.

(** [bb.data = append(bb.data, bin...)] *)
Definition bb_append (bin : list u8) (bb : BinaryBuilder) : BinaryBuilder :=
  let n := len (bb_data bb) + len bin in
  {| bb_data := bb_data bb ++ bin;
     bb_cap := if n <=? bb_cap bb then bb_cap bb else growslice (bb_cap bb) n;
     bb_err := bb_err bb |}.

Definition bb_fail (msg : string) (bb : BinaryBuilder) : BinaryBuilder :=
  {| bb_data := bb_data bb; bb_cap := bb_cap bb; bb_err := Some msg |}.

Definition Grow (size : Z) (bb : BinaryBuilder) : BinaryBuilder :=
  if size <=? 0 then bb else
  let l := len (bb_data bb) in
  let c := bb_cap bb in
  if c - l <? size
  then {| bb_data := bb_data bb; bb_cap := c + size; bb_err := bb_err bb |}
  else bb.

Definition Bytes (bb : BinaryBuilder) : bslice * error :=
  match bb_err bb with
  | Some e => (Some (bb_data bb), Some e)
  | None => (Some (bb_data bb), None)
  end.

Definition Len (bb : BinaryBuilder) : Z := len (bb_data bb).
Definition Cap (bb : BinaryBuilder) : Z := bb_cap bb.

(** [if bb.err != nil { return bb }], the guard of the methods. *)
Definition unless_failed (f : BinaryBuilder → BinaryBuilder) (bb : BinaryBuilder) : BinaryBuilder :=
  match bb_err bb with
  | Some _ => bb
  | None => f bb
  end.

Definition AddBool (boo : bool) : BinaryBuilder → BinaryBuilder := unless_failed (λ bb,
  if boo then bb_append [to_u8 1] bb else bb_append [to_u8 0] bb).

Definition AddU8 (u : u8) : BinaryBuilder → BinaryBuilder := unless_failed (λ bb,
  bb_append [u] bb).

Definition AddU16 (u : u16) : BinaryBuilder → BinaryBuilder := unless_failed (λ bb,
  bb_append (le_put 2 (Zmod.unsigned u)) bb).

(** The top byte of the 32-bit representation is dropped. *)
Definition AddU24 (u : U24) : BinaryBuilder → BinaryBuilder := unless_failed (λ bb,
  let enc := le_put 4 (Zmod.unsigned u) in
  bb_append (take 3 enc) bb).

Definition AddU32 (u : u32) : BinaryBuilder → BinaryBuilder := unless_failed (λ bb,
  bb_append (le_put 4 (Zmod.unsigned u)) bb).

Definition AddU64 (u : u64) : BinaryBuilder → BinaryBuilder := unless_failed (λ bb,
  bb_append (le_put 8 (Zmod.unsigned u)) bb).

Definition AddBytes (bin : list u8) : BinaryBuilder → BinaryBuilder := unless_failed (λ bb,
  if len bin =? 0 then bb else bb_append bin bb).

Definition AddU256 (u : U256) : BinaryBuilder → BinaryBuilder := unless_failed (λ bb,
  bb |> Grow 32 |> AddBytes (arr_bytes u)).

Definition AddStr255 (s : gostring) : BinaryBuilder → BinaryBuilder := unless_failed (λ bb,
  let l := len s in
  if 255 <? l then bb_fail "AddStr: len > 255" bb
  else bb |> Grow (l + 1) |> AddU8 (to_u8 l) |> AddBytes s).

(** A [float32] is its IEEE 754 bit pattern: [math.Float32bits] is the identity. *)
Definition AddF32 (f : float32) : BinaryBuilder → BinaryBuilder := unless_failed (λ bb,
  bb_append (le_put 4 (Zmod.unsigned f)) bb).

Definition AddBin32 (s : list u8) : BinaryBuilder → BinaryBuilder := unless_failed (λ bb,
  let l := len s in
  if 32 <? l then bb_fail "AddBin32: len > 32" bb
  else bb |> Grow (l + 1) |> AddU8 (to_u8 l) |> AddBytes s).

Definition AddBin255 (s : list u8) : BinaryBuilder → BinaryBuilder := unless_failed (λ bb,
  let l := len s in
  if 255 <? l then bb_fail "AddBin255: len > 255" bb
  else bb |> Grow (l + 1) |> AddU8 (to_u8 l) |> AddBytes s).

Definition AddBin64K (s : list u8) : BinaryBuilder → BinaryBuilder := unless_failed (λ bb,
  let l := len s in
  if limit64k <? l then bb_fail "AddBin64K: len > 65535" bb
  else bb |> Grow (l + 2) |> AddU16 (to_u16 l) |> AddBytes s).

Definition AddBin16M (s : list u8) : BinaryBuilder → BinaryBuilder := unless_failed (λ bb,
  let l := len s in
  if limit16m <? l then bb_fail "AddBin16M: len > 2^24-1" bb
  else bb |> Grow (l + 3) |> AddU24 (to_u32 l) |> AddBytes s).

Definition AddMAC (mac : array 16) : BinaryBuilder → BinaryBuilder := AddBytes (arr_bytes mac).
Definition AddPubkey (pubkey : Pubkey) : BinaryBuilder → BinaryBuilder :=
  AddBytes (arr_bytes pubkey).
Definition AddEllswiftPubkey (pubkey : EllswiftPubkey) : BinaryBuilder → BinaryBuilder :=
  AddBytes (arr_bytes pubkey).

Definition AddSignature (sig : Signature) : BinaryBuilder → BinaryBuilder := unless_failed (λ bb,
  bb_append (arr_bytes sig) bb).
Definition AddShortTXID (txid : array 6) : BinaryBuilder → BinaryBuilder := unless_failed (λ bb,
  bb_append (arr_bytes txid) bb).

Definition NewBinaryBuilder : BinaryBuilder :=
  {| bb_data := []; bb_cap := 0; bb_err := None |}.

End Builder.

(** ** Refinement of the wire formats *)

Section Refinement.
Context `{GoAlloc}.

(** [Emits op w]: on a builder with no error [op] appends the bytes of [w] and
    records its error; a builder that has failed keeps its bytes and its error. *)
Definition Emits (op : BinaryBuilder → BinaryBuilder) (w : wire) : Prop :=
  ∀ bb, match bb_err bb with
        | None => bb_data (op bb) = bb_data bb ++ w.1 ∧ bb_err (op bb) = w.2
        | Some e => bb_data (op bb) = bb_data bb ∧ bb_err (op bb) = Some e
        end.

(** [Built bb w]: the builder [bb] has accumulated exactly the wire [w]. *)
Definition Built (bb : BinaryBuilder) (w : wire) : Prop :=
  bb_data bb = w.1 ∧ bb_err bb = w.2.

Lemma Built_new : Built NewBinaryBuilder wnil.
Proof. done. Qed.

Lemma Built_step op bb w w' : Emits op w' → Built bb w → Built (op bb) (w ⋅ w').
Proof.
  intros Hop [Hd He]. specialize (Hop bb). unfold Built, wapp.
  rewrite He in Hop. rewrite Hd in Hop. by destruct w as [bs [e|]].
Qed.

Lemma Built_Bytes bb w : Built bb w → Bytes bb = (Some w.1, w.2).
Proof. unfold Built, Bytes. intros [-> ->]. by destruct w as [bs [e|]]. Qed.

Lemma Emits_append bin : Emits (unless_failed (bb_append bin)) (wbytes bin).
Proof. intros bb. unfold unless_failed. destruct (bb_err bb) eqn:E; simpl; auto. Qed.

Lemma Emits_seq op1 op2 w1 w2 :
  Emits op1 w1 → Emits op2 w2 → Emits (λ bb, bb |> op1 |> op2) (w1 ⋅ w2).
Proof.
  intros H1 H2 bb. specialize (H1 bb). specialize (H2 (op1 bb)).
  destruct (bb_err bb) as [e|].
  - destruct H1 as [<- H1]. by rewrite H1 in H2.
  - destruct H1 as [E1 E2]. rewrite E2 in H2. unfold wapp.
    destruct w1 as [b1 [e|]]; simpl in *.
    + by destruct H2 as [-> ->].
    + destruct H2 as [-> ->]. by rewrite E1, app_assoc.
Qed.

Lemma Emits_guard op w : Emits op w → Emits (unless_failed op) w.
Proof.
  intros Hop bb. specialize (Hop bb). unfold unless_failed. by destruct (bb_err bb) eqn:E; try rewrite E.
Qed.

Lemma Emits_fail msg : Emits (unless_failed (bb_fail msg)) (wfail msg).
Proof. intros bb. unfold unless_failed. destruct (bb_err bb) eqn:E; simpl; rewrite ?app_nil_r; auto. Qed.

(** Growing changes the capacity only. *)
Lemma Emits_Grow n : Emits (Grow n) wnil.
Proof.
  intros bb. unfold Grow. destruct (bb_err bb) eqn:E; repeat case_match; simpl;
    rewrite ?app_nil_r; auto.
Qed.

Lemma Emits_AddU8 u : Emits (AddU8 u) (w_u8 u).
Proof.
  replace (w_u8 u) with (wbytes [u]); [apply Emits_append|].
  unfold w_u8, w_uint. simpl. unfold to_u8. by rewrite of_Z_unsigned.
Qed.

Lemma Emits_AddBool b : Emits (AddBool b) (w_bool b).
Proof. destruct b; apply Emits_append. Qed.

Lemma Emits_AddU16 u : Emits (AddU16 u) (w_u16 u).
Proof. apply Emits_append. Qed.

Lemma Emits_AddU24 u : Emits (AddU24 u) (w_u24 u).
Proof. apply Emits_append. Qed.

Lemma Emits_AddU32 u : Emits (AddU32 u) (w_u32 u).
Proof. apply Emits_append. Qed.

Lemma Emits_AddU64 u : Emits (AddU64 u) (w_u64 u).
Proof. apply Emits_append. Qed.

Lemma Emits_AddF32 u : Emits (AddF32 u) (w_u32 u).
Proof. apply Emits_append. Qed.

Lemma Emits_AddBytes bin : Emits (AddBytes bin) (wbytes bin).
Proof.
  unfold AddBytes. destruct (len bin =? 0) eqn:E; [|apply Emits_append].
  destruct bin; [|done]. intros bb. unfold unless_failed.
  destruct (bb_err bb) eqn:Eb; simpl; rewrite ?app_nil_r; auto.
Qed.

(** The length-prefixed byte strings, at any prefix width and limit. *)
Lemma Emits_bin n limit msg k (addlen : list u8 → BinaryBuilder → BinaryBuilder) s :
  Emits (addlen s) (w_uint n (len s)) →
  Emits (unless_failed (λ bb, if limit <? len s then bb_fail msg bb
                              else bb |> Grow k |> addlen s |> AddBytes s))
        (w_bin n limit msg s).
Proof.
  intros Hlen. unfold w_bin. destruct (limit <? len s); [apply Emits_fail|].
  apply Emits_guard.
  replace (wbytes (le_put n (len s) ++ s)) with (wnil ⋅ w_uint n (len s) ⋅ wbytes s);
    [|by rewrite wapp_nil_l].
  apply (Emits_seq (λ bb, bb |> Grow k |> addlen s)); [|apply Emits_AddBytes].
  apply Emits_seq; [apply Emits_Grow|done].
Qed.

(** A length is written whole when the prefix is wide enough for it. *)
Lemma w_uint_of_Z w n z : 8 * Z.of_nat n ≤ w → 0 ≤ w →
  w_uint n (Zmod.unsigned (bits.of_Z w z)) = w_uint n z.
Proof.
  intros Hn Hw. unfold w_uint, wbytes. f_equal. rewrite bits.unsigned_of_Z.
  apply le_put_mod; lia.
Qed.

Lemma Emits_AddStr255 s : Emits (AddStr255 s) (w_str255 s).
Proof.
  apply (Emits_bin 1 255 _ _ (λ s, AddU8 (to_u8 (len s)))).
  rewrite <- (w_uint_of_Z 8) by lia. apply Emits_AddU8.
Qed.

Lemma Emits_AddBin32 s : Emits (AddBin32 s) (w_bin32 s).
Proof.
  apply (Emits_bin 1 32 _ _ (λ s, AddU8 (to_u8 (len s)))).
  rewrite <- (w_uint_of_Z 8) by lia. apply Emits_AddU8.
Qed.

Lemma Emits_AddBin255 s : Emits (AddBin255 s) (w_bin255 s).
Proof.
  apply (Emits_bin 1 255 _ _ (λ s, AddU8 (to_u8 (len s)))).
  rewrite <- (w_uint_of_Z 8) by lia. apply Emits_AddU8.
Qed.

Lemma Emits_AddBin64K s : Emits (AddBin64K s) (w_bin64k s).
Proof.
  apply (Emits_bin 2 65535 _ _ (λ s, AddU16 (to_u16 (len s)))).
  rewrite <- (w_uint_of_Z 16) by lia. apply Emits_AddU16.
Qed.

Lemma Emits_AddBin16M s :
  Emits (AddBin16M s) (w_bin 3 limit16m "AddBin16M: len > 2^24-1" s).
Proof.
  apply (Emits_bin 3 limit16m _ _ (λ s, AddU24 (to_u32 (len s)))).
  rewrite <- (w_uint_of_Z 32) by lia. apply Emits_AddU24.
Qed.

Lemma Emits_AddU256 (u : U256) : Emits (AddU256 u) (w_array u).
Proof.
  apply Emits_guard. rewrite <- (wapp_nil_l (w_array u)).
  apply Emits_seq; [apply Emits_Grow|apply Emits_AddBytes].
Qed.

Lemma Emits_AddSignature (s : Signature) : Emits (AddSignature s) (w_array s).
Proof. apply Emits_append. Qed.

Lemma Emits_AddShortTXID (t : array 6) : Emits (AddShortTXID t) (w_array t).
Proof. apply Emits_append. Qed.

Lemma Emits_AddArray n (a : array n) : Emits (AddBytes (arr_bytes a)) (w_array a).
Proof. apply Emits_AddBytes. Qed.

End Refinement.

Create HintDb emits.
#[export] Hint Resolve Emits_Grow Emits_AddU8 Emits_AddBool Emits_AddU16 Emits_AddU24
  Emits_AddU32 Emits_AddU64 Emits_AddF32 Emits_AddBytes Emits_AddStr255 Emits_AddBin32
  Emits_AddBin255 Emits_AddBin64K Emits_AddBin16M Emits_AddU256 Emits_AddSignature
  Emits_AddShortTXID Emits_AddArray : emits.

(** ** Capacity *)

(** Go's invariant of slices. *)
Definition bb_wf (bb : BinaryBuilder) : Prop := len (bb_data bb) ≤ bb_cap bb.

Section Capacity.
Context `{GoAlloc}.

Lemma bb_append_wf bin bb : bb_wf bb → bb_wf (bb_append bin bb).
Proof.
  unfold bb_wf, bb_append. simpl. rewrite len_app. intros Hw.
  destruct (_ <=? _) eqn:E; bool_to_prop; [done|apply growslice_enough].
Qed.

Lemma Grow_wf n bb : bb_wf bb → bb_wf (Grow n bb).
Proof.
  unfold bb_wf, Grow. intros Hw. destruct (n <=? 0) eqn:E1; [done|].
  destruct (_ <? n); simpl; bool_to_prop; lia.
Qed.

Lemma bb_append_in_place bin bb :
  len (bb_data bb) + len bin ≤ bb_cap bb → bb_cap (bb_append bin bb) = bb_cap bb.
Proof. intros Hle. unfold bb_append. simpl. by rewrite (proj2 (Z.leb_le _ _) Hle). Qed.

End Capacity.

(** ** Properties *)

(** Every method of the builder appends its value's wire format, or records
    its error, on a builder without error, and leaves a failed builder's bytes and
    error as they are; growing changes neither. *)
Theorem builder_implements_wire `{GoAlloc} :
  (∀ n, Emits (Grow n) wnil) ∧
  (∀ b, Emits (AddBool b) (w_bool b)) ∧
  (∀ u, Emits (AddU8 u) (w_u8 u)) ∧
  (∀ u, Emits (AddU16 u) (w_u16 u)) ∧
  (∀ u, Emits (AddU24 u) (w_u24 u)) ∧
  (∀ u, Emits (AddU32 u) (w_u32 u)) ∧
  (∀ u, Emits (AddU64 u) (w_u64 u)) ∧
  (∀ u, Emits (AddF32 u) (w_u32 u)) ∧
  (∀ u, Emits (AddU256 u) (w_array u)) ∧
  (∀ s, Emits (AddBytes s) (wbytes s)) ∧
  (∀ s, Emits (AddStr255 s) (w_str255 s)) ∧
  (∀ s, Emits (AddBin32 s) (w_bin32 s)) ∧
  (∀ s, Emits (AddBin255 s) (w_bin255 s)) ∧
  (∀ s, Emits (AddBin64K s) (w_bin64k s)) ∧
  (∀ a, Emits (AddMAC a) (w_array a)) ∧
  (∀ a, Emits (AddPubkey a) (w_array a)) ∧
  (∀ a, Emits (AddEllswiftPubkey a) (w_array a)) ∧
  (∀ a, Emits (AddSignature a) (w_array a)) ∧
  (∀ a, Emits (AddShortTXID a) (w_array a)).
Proof. split_and!; intros; try apply Emits_AddArray; auto with emits. Qed.

(** [Grow] keeps the bytes and the error; after it, [n] more bytes, in any
    number of appends, fit without a reallocation, and no method makes the length
    exceed the capacity. *)
Theorem Grow_reserves `{GoAlloc} n bb (Hwf : bb_wf bb) :
  bb_data (Grow n bb) = bb_data bb ∧ bb_err (Grow n bb) = bb_err bb ∧ bb_wf (Grow n bb) ∧
  (∀ bins, len (concat bins) ≤ n →
     let out := fold_left (λ out bin, bb_append bin out) bins (Grow n bb) in
     bb_data out = bb_data bb ++ concat bins ∧ bb_cap out = bb_cap (Grow n bb) ∧ bb_wf out).
Proof.
  assert (bb_data (Grow n bb) = bb_data bb ∧ bb_err (Grow n bb) = bb_err bb) as [Hd He].
  { unfold Grow. by repeat case_match. }
  assert (n ≤ 0 ∨ len (bb_data (Grow n bb)) + n ≤ bb_cap (Grow n bb)) as Hroom.
  { unfold bb_wf, Grow in *. destruct (n <=? 0) eqn:E1; bool_to_prop; [by left|right].
    destruct (_ <? n) eqn:E2; simpl; bool_to_prop; lia. }
  split_and!; [done..|by apply Grow_wf|]. intros bins Hle. rewrite <- Hd.
  pose proof (Grow_wf n bb Hwf) as Hw. revert Hw Hroom. clear Hd He Hwf.
  generalize (Grow n bb) as b0. revert n Hle.
  induction bins as [|bin bins IH]; intros n Hle b0 Hw Hroom; simpl in *; [by rewrite app_nil_r|].
  rewrite len_app in Hle. pose proof (len_nonneg (concat bins)). pose proof (len_nonneg bin).
  assert (len (bb_data b0) + len bin ≤ bb_cap b0) as Hfit by (unfold bb_wf in Hw; lia).
  pose proof (bb_append_in_place bin b0 Hfit) as Hc.
  destruct (IH (n - len bin) ltac:(lia) (bb_append bin b0)) as (-> & -> & ?).
  - by apply bb_append_wf.
  - rewrite Hc. simpl. rewrite len_app. lia.
  - split_and!; [simpl; by rewrite <- app_assoc|done..].
Qed.

Lemma Grow_reserves_witness :
  bb_wf NewBinaryBuilder ∧ bb_wf (Grow 32 NewBinaryBuilder) ∧ bb_cap (Grow 32 NewBinaryBuilder) = 32.
Proof.
  assert (bb_wf NewBinaryBuilder) as Hw by (unfold bb_wf; simpl; reflexivity).
  destruct (Grow_reserves (H := exact_alloc) 32 NewBinaryBuilder Hw) as (_ & _ & Hw' & _).
  split; [exact Hw|split; [exact Hw'|reflexivity]].
Defined.

(** [AddBin16M] accepts byte strings of at most 25 bytes.  Its name, its format
    and its error message say 2^24-1, but Go's [2 ^ 24 - 1] is [(2 xor 24) - 1]. *)
Theorem AddBin16M_limit `{GoAlloc} s bb :
  bb_err bb = None → bb_err (AddBin16M s bb) = None ↔ len s ≤ 25.
Proof.
  intros He. pose proof (Emits_AddBin16M s bb) as Hem. rewrite He in Hem.
  destruct Hem as [_ ->]. apply w_bin_fits.
Qed.

Lemma AddBin16M_limit_witness :
  bb_err (AddBin16M (H := exact_alloc) (replicate 26 (to_u8 0)) NewBinaryBuilder) ≠ None.
Proof.
  intros Hn.
  apply (AddBin16M_limit (H := exact_alloc) (replicate 26 (to_u8 0)) NewBinaryBuilder eq_refl) in Hn.
  revert Hn. vm_compute. intros Hn. by apply Hn.
Defined.
