(* ===== verification/Reader.v ===== *)
(** * BinaryReader (binary.go)

    The decoder every message is read with: a byte slice, a position and a
    sticky error.  A method is a state transformer that may panic:
    [Reader A := BinaryReader → outcome (A * BinaryReader)].  The reader's
    internal [read] keeps Go's distinction between a nil slice and an empty
    one, because its callers test for nil only. *)
From S2P Require Import Prelude GoInts Constants U256 Wire.

Record BinaryReader := {
  br_data : bslice;
  br_pos : nat;
  br_err : error
}.

Definition Reader (A : Type) : Type := BinaryReader → outcome (A * BinaryReader).

#[export] Instance reader_ret : MRet Reader := λ A a br, Ret (a, br).
#[export] Instance reader_bind : MBind Reader := λ A B f m br,
  match m br with
  | Ret (a, br') => f a br'
  | Panic p => Panic p
  end.

(** A computation that only may panic. *)
Definition lift {A} (o : outcome A) : Reader A := λ br,
  match o with
  | Ret a => Ret (a, br)
  | Panic p => Panic p
  end.

Definition set_br_err (e : error) : Reader () := λ br,
  Ret ((), {| br_data := br_data br; br_pos := br_pos br; br_err := e |}).

(** [br.err] *)
Definition get_err : Reader error := λ br, Ret (br_err br, br).

(** [if br.err != nil { return z }] *)
Definition unless_err {A} (z : A) (k : Reader A) : Reader A := λ br,
  match br_err br with
  | Some _ => Ret (z, br)
  | None => k br
  end.

Definition Error_ (br : BinaryReader) : error := br_err br.
Definition Remaining (br : BinaryReader) : Z :=
  len (sbytes (br_data br)) - Z.of_nat (br_pos br).

(** ** Slicing *)

(** [b[lo:hi]], for bounds within the length; slicing nil gives nil. *)
Definition slice_range (b : bslice) (lo hi : Z) : outcome bslice :=
  if (0 <=? lo) && (lo <=? hi) && (hi <=? len (sbytes b)) then
    Ret ((λ l, take (Z.to_nat (hi - lo)) (drop (Z.to_nat lo) l)) <$> b)
  else Panic SliceBoundsOutOfRange.

Definition eof_error : error :=
  Some "BinaryReader: EOF: can't read past end of data"%string.

(** The position advances by [l] bytes, or to the end of the data.  The sum
    [pos + l] is exact: every caller but [ReadBytes] passes an [l] below [2^24]
    to a position inside a slice, far from the end of [int]; [ReadBytes], whose
    length is its caller's, looks at the wrapped sum itself. *)
Definition read (l : Z) : Reader bslice := λ br,
  match br_err br with
  | Some _ => Ret (None, br)
  | None =>
      let n := len (sbytes (br_data br)) in
      let p := Z.of_nat (br_pos br) in
      if n <? p + l then
        let br' := {| br_data := br_data br; br_pos := Z.to_nat n; br_err := eof_error |} in
        b ← slice_range (br_data br) n n;
        Ret (b, br')
      else
        b ← slice_range (br_data br) p (p + l);
        Ret (b, {| br_data := br_data br; br_pos := Z.to_nat (p + l); br_err := None |})
  end.

(** [b[i]] *)
Definition index (b : list u8) (i : nat) : outcome u8 :=
  match b !! i with
  | Some x => Ret x
  | None => Panic IndexOutOfRange
  end.

(** [ble.UintN(b)]: reads the first [n] bytes, which must be there. *)
Definition ble_uint (n : nat) (b : list u8) : outcome Z :=
  if (length b <? n)%nat then Panic IndexOutOfRange else Ret (le_get (take n b)).

(** ** Fixed-size values *)

Definition ReadBool : Reader bool := unless_err false (
  b ← read 1;
  match b with
  | None => mret false
  | Some l =>
      x ← lift (index l 0);
      if Zmod.unsigned x =? 1 then mret true
      else if Zmod.unsigned x =? 0 then mret false
      else _ ← set_br_err (Some "ReadBool: invalid bool (not 0 or 1)"%string); mret false
  end).

Definition ReadU8 : Reader u8 := unless_err (to_u8 0) (
  b ← read 1;
  match b with
  | None => mret (to_u8 0)
  | Some l => lift (index l 0)
  end).

Definition ReadU16 : Reader u16 := unless_err (to_u16 0) (
  b ← read 2;
  match b with
  | None => mret (to_u16 0)
  | Some l => v ← lift (ble_uint 2 l); mret (to_u16 v)
  end).

Definition ReadU24 : Reader U24 := unless_err (to_u32 0) (
  b ← read 3;
  match b with
  | None => mret (to_u32 0)
  | Some l => v ← lift (ble_uint 4 (l ++ [to_u8 0])); mret (to_u32 v)
  end).

Definition ReadU32 : Reader u32 := unless_err (to_u32 0) (
  b ← read 4;
  match b with
  | None => mret (to_u32 0)
  | Some l => v ← lift (ble_uint 4 l); mret (to_u32 v)
  end).

Definition ReadU64 : Reader u64 := unless_err (to_u64 0) (
  b ← read 8;
  match b with
  | None => mret (to_u64 0)
  | Some l => v ← lift (ble_uint 8 l); mret (to_u64 v)
  end).

(** A short read reaches [SetBytes] as an empty slice: its length error replaces
    the reader's. *)
Definition ReadU256 : Reader U256 := unless_err (zero_array 32) (
  b ← read 32;
  match b with
  | None => mret (zero_array 32)
  | Some l =>
      let '(h, err) := U256_SetBytes l (zero_array 32) in
      _ ← set_br_err err; mret h
  end).

Definition ReadF32 : Reader float32 := unless_err (to_u32 0) (
  b ← read 4;
  match b with
  | None => mret (to_u32 0)
  | Some l => v ← lift (ble_uint 4 l); mret (to_u32 v)
  end).

(** ** Byte strings *)

Definition u8_int (u : u8) : Z := Zmod.unsigned u.
Definition u16_int (u : u16) : Z := Zmod.unsigned u.
Definition u32_int (u : u32) : Z := Zmod.unsigned u.

Definition ReadStr255 : Reader gostring := unless_err [] (
  l ← ReadU8;
  b ← read (u8_int l);
  mret (sbytes b)).

Definition ReadBin32 : Reader (list u8) := unless_err [] (
  l ← ReadU8;
  if 32 <? u8_int l then
    _ ← set_br_err (Some "ReadBin32: len > 32"%string); mret []
  else b ← read (u8_int l); mret (sbytes b)).

Definition ReadBin255 : Reader (list u8) := unless_err [] (
  l ← ReadU8;
  b ← read (u8_int l);
  mret (sbytes b)).

Definition ReadBin64K : Reader (list u8) := unless_err [] (
  l ← ReadU16;
  b ← read (u16_int l);
  mret (sbytes b)).

Definition ReadBin16M : Reader (list u8) := unless_err [] (
  l ← ReadU24;
  b ← read (u32_int l);
  mret (sbytes b)).

(** Where [pos + length] overflows an [int] the sum is negative: it passes the
    end-of-data test and the slice expression panics. *)
Definition ReadBytes (length : Z) : Reader bslice := unless_err None (λ br,
  if 2 ^ 63 <=? Z.of_nat (br_pos br) + length then Panic SliceBoundsOutOfRange
  else read length br).

Definition ReadPubkey : Reader Pubkey := unless_err (zero_array 32) (
  b ← read 32;
  lift (slice_to_array 32 b)).

Definition ReadEllswiftPubkey : Reader EllswiftPubkey := unless_err (zero_array 64) (
  b ← read 64;
  lift (slice_to_array 64 b)).

Definition ReadSignature : Reader Signature := unless_err (zero_array 64) (
  b ← read 64;
  lift (slice_to_array 64 b)).

(** ** [io.Reader] and [io.Seeker] *)

Definition io_EOF : error := Some "EOF"%string.

(** [Read(dest)]: [dest] is given by its length; the result is the bytes copied
    into its front, their number and the error. *)
Definition Read (dest : nat) : Reader (list u8 * Z * error) := λ br,
  match br_err br with
  | Some e => Ret (([], 0, Some e), br)
  | None =>
      let l := Z.of_nat dest in
      if l <=? 0 then Ret (([], 0, io_EOF), br) else
      (b ← read l;
       err ← get_err;
       let copied := take dest (sbytes b) in
       mret (copied, len copied, err)) br
  end.

Inductive whence := SeekStart | SeekCurrent | SeekEnd | SeekOther.

Definition Seek (offset : Z) (w : whence) : Reader (Z * error) := λ br,
  match br_err br with
  | Some e => Ret ((0, Some e), br)
  | None =>
      let newPos :=
        match w with
        | SeekStart | SeekOther => wrap_int offset
        | SeekCurrent => wrap_int (offset + Z.of_nat (br_pos br))
        | SeekEnd => wrap_int (len (sbytes (br_data br)) - offset)
        end in
      if (newPos <? 0) || (len (sbytes (br_data br)) <? newPos) then
        let e := Some "Seek: out of bounds"%string in
        Ret ((0, e), {| br_data := br_data br; br_pos := br_pos br; br_err := e |})
      else
        Ret ((newPos, None),
             {| br_data := br_data br; br_pos := Z.to_nat newPos; br_err := None |})
  end.

Definition NewBinaryReader (bin : bslice) : BinaryReader :=
  {| br_data := bin; br_pos := 0; br_err := None |}.

(** ** The shape of the decoders *)

(** [r := NewBinaryReader(b); ...; return r.Error()] *)
Definition decode_with {M} (rd : Reader M) (b : bslice) : outcome (M * error) :=
  match rd (NewBinaryReader b) with
  | Ret (m, br) => Ret (m, Error_ br)
  | Panic p => Panic p
  end.

(** [for range n { a = append(a, f()) }] *)
Fixpoint read_times {A} (f : Reader A) (n : nat) : Reader (list A) :=
  match n with
  | O => mret []
  | S n' => x ← f; l ← read_times f n'; mret (x :: l)
  end.

(** ** The readers accept exactly the wire formats *)

(** The bytes not read yet. *)
Definition rest (br : BinaryReader) : list u8 := drop (br_pos br) (sbytes (br_data br)).

Definition advance (br : BinaryReader) (n : nat) : BinaryReader :=
  {| br_data := br_data br; br_pos := br_pos br + n; br_err := None |}.

Definition reader_ok (br : BinaryReader) : Prop :=
  br_err br = None ∧ (br_pos br ≤ length (sbytes (br_data br)))%nat.

(** [Parses rd G]: [rd] never clears an error; when it succeeds it has consumed
    bytes that [G] relates to its result; and it reads any such bytes. *)
Record Parses {A} (rd : Reader A) (G : A → list u8 → Prop) : Prop := {
  parses_sticky br a br' :
    rd br = Ret (a, br') → br_err br ≠ None → br_err br' ≠ None;
  parses_sound br a br' :
    rd br = Ret (a, br') → reader_ok br → br_err br' = None →
    ∃ bs, G a bs ∧ bs `prefix_of` rest br ∧ br' = advance br (length bs);
  parses_complete br a bs :
    reader_ok br → G a bs → bs `prefix_of` rest br → rd br = Ret (a, advance br (length bs))
}.

(** The grammar of the values a format encodes without error. *)
Definition encoded {A} (w : A → wire) (a : A) (bs : list u8) : Prop := w a = (bs, None).

Lemma advance_advance br n m : advance (advance br n) m = advance br (n + m).
Proof. unfold advance. simpl. f_equal. lia. Qed.

Lemma advance_0 br : br_err br = None → advance br 0 = br.
Proof. destruct br. simpl. intros ->. unfold advance. simpl. f_equal. lia. Qed.

Lemma rest_advance br n : rest (advance br n) = drop n (rest br).
Proof. unfold rest, advance. simpl. by rewrite drop_drop. Qed.

Lemma length_rest br : length (rest br) = (length (sbytes (br_data br)) - br_pos br)%nat.
Proof. apply length_drop. Qed.

Lemma advance_ok br bs :
  reader_ok br → bs `prefix_of` rest br → reader_ok (advance br (length bs)).
Proof.
  intros [_ Hp] Hpre. split; [done|]. apply prefix_length in Hpre.
  rewrite length_rest in Hpre. simpl. lia.
Qed.

(** *** Combinators *)

Lemma Parses_iff {A} (rd : Reader A) G G' :
  (∀ a bs, G a bs ↔ G' a bs) → Parses rd G → Parses rd G'.
Proof.
  intros HG [Hst Hso Hco]. split; [done| |].
  - intros br a br' E Hok He. destruct (Hso br a br' E Hok He) as (bs & Ha & ?).
    exists bs. by rewrite <- HG.
  - intros br a bs Hok Ha. apply Hco; [done|]. by apply HG.
Qed.

Lemma Parses_ret {A} (v : A) : Parses (mret v) (λ a bs, a = v ∧ bs = []).
Proof.
  split.
  - by intros br a br' [= <- <-].
  - intros br a br' [= <- <-] [He Hp] _. exists []. rewrite advance_0 by done.
    split; [done|split; [apply prefix_nil|done]].
  - intros br a bs [He Hp] [-> ->] _. by rewrite advance_0.
Qed.

Lemma Parses_bind {A B} (rd : Reader A) (k : A → Reader B) G GK :
  Parses rd G → (∀ a, Parses (k a) (GK a)) →
  Parses (rd ≫= k) (λ b bs, ∃ a b1 b2, bs = b1 ++ b2 ∧ G a b1 ∧ GK a b b2).
Proof.
  intros [Hst Hso Hco] HK. split.
  - intros br b br'. unfold mbind, reader_bind. destruct (rd br) as [[a br1]|] eqn:E; [|done].
    intros Ek He. apply (parses_sticky _ _ (HK a) _ _ _ Ek). by apply (Hst _ _ _ E).
  - intros br b br'. unfold mbind, reader_bind. destruct (rd br) as [[a br1]|] eqn:E; [|done].
    intros Ek Hok He.
    assert (br_err br1 = None) as He1.
    { destruct (br_err br1) eqn:Hbr1; [|done].
      exfalso. apply (parses_sticky _ _ (HK a) _ _ _ Ek); congruence. }
    destruct (Hso _ _ _ E Hok He1) as (b1 & Ha & Hp1 & ->).
    destruct (parses_sound _ _ (HK a) _ _ _ Ek) as (b2 & Hb & Hp2 & ->);
      [by apply advance_ok|done|].
    exists (b1 ++ b2). split; [by exists a, b1, b2|]. split.
    + apply prefix_drop; [done|]. by rewrite <- rest_advance.
    + rewrite advance_advance, length_app. done.
  - intros br b bs Hok (a & b1 & b2 & -> & Ha & Hb) Hp.
    apply prefix_drop_inv in Hp as [Hp1 Hp2].
    unfold mbind, reader_bind. rewrite (Hco br a b1) by done.
    rewrite (parses_complete _ _ (HK a) _ b b2); [|by apply advance_ok|done|].
    + by rewrite advance_advance, length_app.
    + by rewrite rest_advance.
Qed.

(** Running a reader where the bytes it reads are known. *)
Lemma Parses_step {A B} (rd : Reader A) (k : A → Reader B) G br a bs tail :
  Parses rd G → reader_ok br → G a bs → rest br = bs ++ tail →
  (rd ≫= k) br = k a (advance br (length bs)) ∧
  reader_ok (advance br (length bs)) ∧ rest (advance br (length bs)) = tail.
Proof.
  intros Hrd Hok Ha Hr. assert (bs `prefix_of` rest br) as Hp by (rewrite Hr; by exists tail).
  split_and!.
  - unfold mbind, reader_bind. by rewrite (parses_complete _ _ Hrd _ a bs).
  - by apply advance_ok.
  - by rewrite rest_advance, Hr, drop_app_length.
Qed.

Lemma Parses_unless_err {A} (z : A) (rd : Reader A) G :
  Parses rd G → Parses (unless_err z rd) G.
Proof.
  intros [Hst Hso Hco]. split.
  - intros br a br'. unfold unless_err. destruct (br_err br) eqn:E; [|done].
    intros [= <- <-] _. congruence.
  - intros br a br' E Hok. unfold unless_err in E. rewrite (proj1 Hok) in E. by apply Hso.
  - intros br a bs Hok. unfold unless_err. rewrite (proj1 Hok). by apply Hco.
Qed.

(** *** [read] *)

Lemma slice_range_in b lo hi :
  0 ≤ lo → lo ≤ hi → hi ≤ len (sbytes b) →
  slice_range b lo hi = Ret ((λ l, take (Z.to_nat (hi - lo)) (drop (Z.to_nat lo) l)) <$> b).
Proof.
  intros. unfold slice_range.
  rewrite (proj2 (Z.leb_le 0 lo)), (proj2 (Z.leb_le lo hi)), (proj2 (Z.leb_le hi _)) by done.
  done.
Qed.

Lemma read_enough br n :
  reader_ok br → (n ≤ length (rest br))%nat →
  ∃ b, read (Z.of_nat n) br = Ret (b, advance br n) ∧ sbytes b = take n (rest br) ∧
       ((0 < n)%nat → b ≠ None).
Proof.
  intros [He Hp] Hn. rewrite length_rest in Hn.
  unfold read. rewrite He. unfold len.
  replace (_ <? _) with false by (symmetry; apply Z.ltb_ge; lia).
  rewrite slice_range_in by (unfold len; lia). unfold mbind, outcome_bind.
  rewrite <- Nat2Z.inj_add, !Nat2Z.id.
  replace (Z.to_nat (Z.of_nat (br_pos br + n) - Z.of_nat (br_pos br))) with n by lia.
  eexists. split; [done|]. unfold rest. destruct (br_data br) as [d|] eqn:Hd; simpl in *.
  - split; done.
  - split; [by rewrite drop_nil, take_nil|lia].
Qed.

Lemma read_short br n :
  reader_ok br → (length (rest br) < n)%nat →
  ∃ b, read (Z.of_nat n) br =
         Ret (b, {| br_data := br_data br; br_pos := length (sbytes (br_data br));
                    br_err := eof_error |}) ∧
       sbytes b = [] ∧ (b = None ↔ br_data br = None).
Proof.
  intros [He Hp] Hn. rewrite length_rest in Hn. unfold read. rewrite He. unfold len.
  replace (_ <? _) with true by (symmetry; apply Z.ltb_lt; lia).
  rewrite slice_range_in by (unfold len; lia). unfold mbind, outcome_bind.
  rewrite Nat2Z.id, Z.sub_diag. eexists. split; [done|]. by destruct (br_data br).
Qed.

Lemma read_failed br n : br_err br ≠ None → read n br = Ret (None, br).
Proof. intros He. unfold read. by destruct (br_err br). Qed.

(** [Finishes m G]: on a good reader [m] reads nothing more, and it succeeds
    with exactly the results in [G]. *)
Definition Finishes {A} (m : Reader A) (G : A → Prop) : Prop :=
  ∀ br, reader_ok br →
    (∀ a br', m br = Ret (a, br') → br_err br' = None → br' = br ∧ G a) ∧
    (∀ a, G a → m br = Ret (a, br)).

Lemma Finishes_pure {A} (v : A) (G : A → Prop) : (∀ a, a = v ↔ G a) → Finishes (mret v) G.
Proof.
  intros HG br _. split; [|by intros a ->%HG].
  intros a br' [= <- <-] _. by rewrite <- HG.
Qed.

Lemma Parses_read {A} (n : nat) (f : bslice → Reader A) (F : list u8 → Reader A) G :
  (∀ b, length (sbytes b) = n → ((0 < n)%nat → b ≠ None) → f b = F (sbytes b)) →
  (∀ l, length l = n → Finishes (F l) (λ a, G a l)) →
  (∀ b br a br', sbytes b = [] → (length (sbytes b) < n)%nat ∨ b = None → br_err br ≠ None →
     f b br = Ret (a, br') → br_err br' ≠ None) →
  (∀ a bs, G a bs → length bs = n) →
  Parses (b ← read (Z.of_nat n); f b) G.
Proof.
  intros Hf HF Hfail HG. split.
  - intros br a br'. unfold mbind, reader_bind. intros E He. rewrite read_failed in E by done.
    apply (Hfail None br a br'); auto.
  - intros br a br'. unfold mbind, reader_bind. intros E Hok He.
    destruct (decide (n ≤ length (rest br))%nat) as [Hn|Hn].
    + destruct (read_enough br n Hok Hn) as (b & Er & Hb & Hnil). rewrite Er in E.
      assert (length (sbytes b) = n) as Hl by (rewrite Hb; by apply length_take_le).
      rewrite Hf in E by done.
      destruct (HF _ Hl (advance br n)) as [Hso _].
      { split; [done|]. rewrite length_rest in Hn. destruct Hok. simpl. lia. }
      destruct (Hso _ _ E He) as [-> Ha].
      exists (sbytes b). split; [done|]. rewrite Hl, Hb. split; [apply take_prefix_of|done].
    + destruct (read_short br n Hok ltac:(lia)) as (b & Er & Hb & _). rewrite Er in E.
      exfalso. eapply Hfail; [exact Hb| | |exact E|done]; [left; rewrite Hb; simpl; lia|done].
  - intros br a bs Hok Ha Hp. pose proof (HG a bs Ha) as Hl.
    pose proof (prefix_length _ _ Hp) as Hn. rewrite Hl in Hn.
    destruct (read_enough br n Hok Hn) as (b & Er & Hb & Hnil).
    apply prefix_take_iff in Hp as Ht. rewrite Hl in Ht. rewrite Ht in Hb.
    unfold mbind, reader_bind. rewrite Er, Hf by (rewrite ?Hb; auto). rewrite Hb.
    rewrite Hl. apply (HF bs Hl); [|done]. rewrite <- Hl. by apply advance_ok.
Qed.

(** *** Fixed-size values *)

Lemma Parses_ReadU8 : Parses ReadU8 (encoded w_u8).
Proof.
  apply Parses_unless_err. apply (Parses_read 1 _ (λ l, lift (index l 0))).
  - intros [l|] Hl Hnil; [done|]. by destruct Hnil; [lia|].
  - intros [|x [|y l]] Hl; try done. apply (Finishes_pure x). intros a.
    unfold encoded, w_u8, w_uint, to_u8. rewrite wbytes_ok. simpl. unfold to_u8.
    rewrite of_Z_unsigned. naive_solver.
  - intros [l|] br a br' Hb _ He; simpl in Hb; [by subst|]. by intros [= <- <-].
  - intros a bs Ha. apply wbytes_ok in Ha as ->. apply length_le_put.
Qed.

(** A little-endian unsigned integer of [w = 8 n] bits. *)
Definition read_uint (n : nat) (w : Z) : Reader (bits w) := unless_err (bits.of_Z w 0) (
  b ← read (Z.of_nat n);
  match b with
  | None => mret (bits.of_Z w 0)
  | Some l => v ← lift (ble_uint n l); mret (bits.of_Z w v)
  end).

Lemma ble_uint_exact n l : length l = n → ble_uint n l = Ret (le_get l).
Proof. intros <-. unfold ble_uint. by rewrite Nat.ltb_irrefl, firstn_all. Qed.

Lemma Parses_read_uint n w :
  (0 < n)%nat → w = 8 * Z.of_nat n →
  Parses (read_uint n w) (encoded (λ u, w_uint n (Zmod.unsigned u))).
Proof.
  intros Hn Hw. apply Parses_unless_err.
  apply (Parses_read n _ (λ l, v ← lift (ble_uint n l); mret (bits.of_Z w v))).
  - intros [l|] Hl Hnil; [done|]. by destruct Hnil.
  - intros l Hl. unfold mbind, reader_bind, lift. rewrite (ble_uint_exact n l Hl).
    apply (Finishes_pure (bits.of_Z w (le_get l))). intros a. unfold encoded, w_uint.
    rewrite wbytes_ok. split.
    + intros ->. rewrite <- Hl. symmetry. apply le_put_of_Z. unfold len. by rewrite Hl.
    + intros ->. rewrite (le_get_put_unsigned w) by done. by rewrite of_Z_unsigned.
  - intros [l|] br a br' Hb Hs He; simpl in Hb; [|by intros [= <- <-]].
    subst l. unfold mbind, reader_bind, lift, ble_uint. simpl.
    replace (0 <? n)%nat with true by (symmetry; apply Nat.ltb_lt; lia). done.
  - intros a bs Ha. apply wbytes_ok in Ha as ->. apply length_le_put.
Qed.

Lemma Parses_ReadU16 : Parses ReadU16 (encoded w_u16).
Proof. apply (Parses_read_uint 2 16); lia. Qed.
Lemma Parses_ReadU32 : Parses ReadU32 (encoded w_u32).
Proof. apply (Parses_read_uint 4 32); lia. Qed.
Lemma Parses_ReadU64 : Parses ReadU64 (encoded w_u64).
Proof. apply (Parses_read_uint 8 64); lia. Qed.
Lemma Parses_ReadF32 : Parses ReadF32 (encoded w_u32).
Proof. apply (Parses_read_uint 4 32); lia. Qed.

(** A 24-bit value: three bytes, the fourth supplied as zero. *)
Definition u24_grammar (u : U24) (bs : list u8) : Prop :=
  Zmod.unsigned u ≤ MaxU24 ∧ bs = le_put 3 (Zmod.unsigned u).

Lemma le_get_snoc0 l : le_get (l ++ [to_u8 0]) = le_get l.
Proof.
  induction l as [|b l IH]; [done|]. cbn [app le_get]. by rewrite IH.
Qed.

Lemma Parses_ReadU24 : Parses ReadU24 u24_grammar.
Proof.
  apply Parses_unless_err.
  apply (Parses_read 3 _ (λ l, v ← lift (ble_uint 4 (l ++ [to_u8 0])); mret (to_u32 v))).
  - intros [l|] Hl Hnil; [done|]. by destruct Hnil; [lia|].
  - intros l Hl. unfold mbind, reader_bind, lift.
    rewrite ble_uint_exact by (rewrite length_app, Hl; done). rewrite le_get_snoc0.
    pose proof (le_get_range l) as Hr. unfold len in Hr. rewrite Hl in Hr.
    change (256 ^ Z.of_nat 3) with 16777216 in Hr.
    apply (Finishes_pure (to_u32 (le_get l))). intros a. unfold u24_grammar, to_u32.
    change MaxU24 with 16777215. split.
    + intros ->. rewrite bits.unsigned_of_Z_small by lia. split; [lia|].
      rewrite <- Hl. symmetry. apply le_put_get.
    + intros [Ha ->]. pose proof (u_range 32 a ltac:(lia)). rewrite le_get_put.
      rewrite Z.mod_small by (change (256 ^ Z.of_nat 3) with 16777216; lia).
      by rewrite of_Z_unsigned.
  - intros [l|] br a br' Hb Hs He; simpl in Hb; [|by intros [= <- <-]]. by subst l.
  - intros a bs [_ ->]. apply length_le_put.
Qed.

Lemma Parses_ReadBool : Parses ReadBool (encoded w_bool).
Proof.
  apply Parses_unless_err.
  apply (Parses_read 1 _ (λ l,
    x ← lift (index l 0);
    if Zmod.unsigned x =? 1 then mret true
    else if Zmod.unsigned x =? 0 then mret false
    else _ ← set_br_err (Some "ReadBool: invalid bool (not 0 or 1)"%string); mret false)).
  - intros [l|] Hl Hnil; [done|]. by destruct Hnil; [lia|].
  - intros [|x [|y l]] Hl; try done. unfold mbind, reader_bind, lift. simpl.
    assert (∀ b : bool, Zmod.unsigned x = Z.b2z b → ∀ a,
      a = b ↔ encoded w_bool a [x]) as Hb.
    { intros b Ex a. unfold encoded, w_bool. rewrite wbytes_ok. split.
      - intros ->. f_equal. apply Zmod.unsigned_inj. rewrite Ex, unsigned_to_u8. by destruct b.
      - intros [= ->]. rewrite unsigned_to_u8 in Ex. by destruct a, b. }
    destruct (Z.eqb_spec (Zmod.unsigned x) 1) as [E|E]; [by apply Finishes_pure, Hb|].
    destruct (Z.eqb_spec (Zmod.unsigned x) 0) as [E0|E0]; [by apply Finishes_pure, Hb|].
    intros br Hok. split; [by intros a br' [= <- <-]|].
    intros a Ha. exfalso. apply wbytes_ok in Ha. injection Ha as ->.
    rewrite unsigned_to_u8 in E, E0. by destruct a.
  - intros [l|] br a br' Hb Hs He; simpl in Hb; [|by intros [= <- <-]]. by subst l.
  - intros a bs Ha. by apply wbytes_ok in Ha as ->.
Qed.

Lemma encoded_array n (a : array n) bs : encoded w_array a bs ↔ bs = arr_bytes a.
Proof. apply wbytes_ok. Qed.

Lemma array_of_bytes n l : length l = n → ∀ a : array n, a = to_array n l ↔ encoded w_array a l.
Proof.
  intros Hl a. rewrite encoded_array. split.
  - intros ->. symmetry. by apply arr_bytes_to_array.
  - intros ->. symmetry. apply to_array_arr_bytes.
Qed.

Lemma Parses_ReadU256 : Parses ReadU256 (encoded w_array).
Proof.
  apply Parses_unless_err.
  apply (Parses_read 32 _ (λ l,
    let '(h, err) := U256_SetBytes l (zero_array 32) in _ ← set_br_err err; mret h)).
  - intros [l|] Hl Hnil; [done|]. by destruct Hnil; [lia|].
  - intros l Hl br [He Hp]. rewrite SetBytes_32 by done.
    pose proof (array_of_bytes 32 l Hl) as Ha. destruct br as [d p e]; simpl in *; subst e.
    split; [|by intros a ->%Ha]. intros a br' [= <- <-] _. split; [done|]. by rewrite <- Ha.
  - intros [l|] br a br' Hb Hs He; simpl in Hb; [|by intros [= <- <-]].
    subst l. rewrite SetBytes_other by done. by intros [= <- <-].
  - intros a bs Ha. apply encoded_array in Ha as ->. apply length_arr.
Qed.

Lemma slice_to_array_short n b :
  (length (sbytes b) < n)%nat → slice_to_array n b = Panic SliceToArrayTooShort.
Proof. intros H. unfold slice_to_array. by rewrite (proj2 (Nat.ltb_lt _ _) H). Qed.

Lemma slice_to_array_exact n b :
  length (sbytes b) = n → slice_to_array n b = Ret (to_array n (sbytes b)).
Proof. intros <-. unfold slice_to_array. by rewrite Nat.ltb_irrefl. Qed.

(** [[n]byte(br.read(n))] *)
Lemma Parses_read_array n : (0 < n)%nat →
  Parses (unless_err (zero_array n) (b ← read (Z.of_nat n); lift (slice_to_array n b)))
         (encoded w_array).
Proof.
  intros Hn. apply Parses_unless_err.
  apply (Parses_read n _ (λ l, lift (slice_to_array n (Some l)))).
  - intros [l|] Hl Hnil; [done|]. by destruct Hnil.
  - intros l Hl. rewrite slice_to_array_exact by done.
    apply (Finishes_pure (to_array n l)). by apply array_of_bytes.
  - intros b br a br' Hb _ He. rewrite slice_to_array_short by (rewrite Hb; simpl; lia). done.
  - intros a bs Ha. apply encoded_array in Ha as ->. apply length_arr.
Qed.

Lemma Parses_ReadPubkey : Parses ReadPubkey (encoded w_array).
Proof. apply (Parses_read_array 32). lia. Qed.
Lemma Parses_ReadEllswiftPubkey : Parses ReadEllswiftPubkey (encoded w_array).
Proof. apply (Parses_read_array 64). lia. Qed.
Lemma Parses_ReadSignature : Parses ReadSignature (encoded w_array).
Proof. apply (Parses_read_array 64). lia. Qed.

(** *** Byte strings *)

Lemma Parses_read_slice n :
  Parses (b ← read (Z.of_nat n); mret (sbytes b)) (λ s bs, bs = s ∧ length s = n).
Proof.
  apply (Parses_read n _ (λ l, mret l)).
  - done.
  - intros l Hl. apply (Finishes_pure l). naive_solver.
  - intros b br a br' _ _ He. by intros [= <- <-].
  - naive_solver.
Qed.

(** A length and that many bytes. *)
Lemma Parses_length_prefixed {L} (rl : Reader L) (GL : L → list u8 → Prop) (num : L → Z)
    (n : nat) (limit : Z) msg :
  Parses rl GL →
  (∀ l, 0 ≤ num l) →
  (∀ l bs, GL l bs → num l ≤ limit ∧ bs = le_put n (num l)) →
  (∀ z, 0 ≤ z ≤ limit → ∃ l, num l = z ∧ GL l (le_put n z)) →
  Parses (l ← rl; b ← read (num l); mret (sbytes b)) (encoded (w_bin n limit msg)).
Proof.
  intros Hrl Hpos Hnum Hex. eapply Parses_iff;
    [|apply (Parses_bind _ _ _ (λ l s bs, bs = s ∧ len s = num l) Hrl)].
  - intros s bs. unfold encoded. rewrite w_bin_ok. split.
    + intros (l & b1 & b2 & -> & Hl & -> & E). apply Hnum in Hl as [Hle ->]. by rewrite E.
    + intros [Hle ->]. destruct (Hex (len s)) as (l & El & Hl); [unfold len in *; lia|].
      exists l, (le_put n (len s)), s. by rewrite El.
  - intros l. rewrite <- (Z2Nat.id (num l)) by done. eapply Parses_iff; [|apply Parses_read_slice].
    intros s bs. unfold len. split; intros [-> E]; (split; [done|lia]).
Qed.

Lemma u8_grammar l bs : encoded w_u8 l bs → u8_int l ≤ 255 ∧ bs = le_put 1 (u8_int l).
Proof. intros H. apply wbytes_ok in H as ->. pose proof (u8_range l). unfold u8_int. split; [lia|done]. Qed.

Lemma u8_grammar_ex z : 0 ≤ z ≤ 255 → ∃ l, u8_int l = z ∧ encoded w_u8 l (le_put 1 z).
Proof.
  intros Hz. exists (to_u8 z). unfold encoded, w_u8, w_uint, u8_int.
  rewrite unsigned_to_u8, Z.mod_small by lia. done.
Qed.

Lemma u16_grammar l bs : encoded w_u16 l bs → u16_int l ≤ 65535 ∧ bs = le_put 2 (u16_int l).
Proof. intros H. apply wbytes_ok in H as ->. pose proof (u16_range l). unfold u16_int. split; [lia|done]. Qed.

Lemma u16_grammar_ex z : 0 ≤ z ≤ 65535 → ∃ l, u16_int l = z ∧ encoded w_u16 l (le_put 2 z).
Proof.
  intros Hz. exists (to_u16 z). unfold encoded, w_u16, w_uint, u16_int, to_u16.
  rewrite bits.unsigned_of_Z_small by lia. done.
Qed.

Lemma Parses_str8 msg : Parses (l ← ReadU8; b ← read (u8_int l); mret (sbytes b))
                               (encoded (w_bin 1 255 msg)).
Proof.
  apply (Parses_length_prefixed _ (encoded w_u8)).
  - apply Parses_ReadU8.
  - intros l. apply u8_range.
  - apply u8_grammar.
  - apply u8_grammar_ex.
Qed.

Lemma Parses_ReadStr255 : Parses ReadStr255 (encoded w_str255).
Proof. apply Parses_unless_err, Parses_str8. Qed.

Lemma Parses_ReadBin255 : Parses ReadBin255 (encoded w_bin255).
Proof. apply Parses_unless_err, Parses_str8. Qed.

Lemma Parses_ReadBin64K : Parses ReadBin64K (encoded w_bin64k).
Proof.
  apply Parses_unless_err, (Parses_length_prefixed _ (encoded w_u16)).
  - apply Parses_ReadU16.
  - intros l. apply u16_range.
  - apply u16_grammar.
  - apply u16_grammar_ex.
Qed.

Lemma Parses_fail {A} (e : string) (a : A) :
  Parses (_ ← set_br_err (Some e); mret a) (λ _ _, False).
Proof.
  split; [by intros br x br' [= <- <-]|by intros br x br' [= <- <-]|done].
Qed.

Lemma Parses_ReadBin32 : Parses ReadBin32 (encoded w_bin32).
Proof.
  apply Parses_unless_err. eapply Parses_iff;
    [|apply (Parses_bind _ _ _ (λ l s bs, u8_int l ≤ 32 ∧ bs = s ∧ len s = u8_int l) Parses_ReadU8)].
  - intros s bs. unfold encoded, w_bin32. rewrite w_bin_ok. split.
    + intros (l & b1 & b2 & -> & Hl & Hle & -> & E). apply u8_grammar in Hl as [_ ->].
      by rewrite E.
    + intros [Hle ->]. destruct (u8_grammar_ex (len s)) as (l & El & Hl); [unfold len in *; lia|].
      exists l, (le_put 1 (len s)), s. by rewrite El.
  - intros l. destruct (32 <? u8_int l) eqn:E; bool_to_prop.
    + eapply Parses_iff; [|apply Parses_fail]. intros s bs. split; [done|lia].
    + rewrite <- (Z2Nat.id (u8_int l)) by apply u8_range.
      eapply Parses_iff; [|apply Parses_read_slice].
      intros s bs. unfold len. split; [intros [-> El]|intros (_ & -> & El)];
        pose proof (u8_range l); unfold u8_int in *; repeat split; lia.
Qed.

Lemma Parses_ReadBin16M msg : Parses ReadBin16M (encoded (w_bin 3 MaxU24 msg)).
Proof.
  apply Parses_unless_err, (Parses_length_prefixed _ u24_grammar).
  - apply Parses_ReadU24.
  - intros l. apply (u_range 32). lia.
  - done.
  - intros z Hz. exists (to_u32 z). unfold u24_grammar, u32_int, to_u32.
    change MaxU24 with 16777215 in *. rewrite bits.unsigned_of_Z_small by lia.
    split; [done|split; [lia|done]].
Qed.

(** [ReadBytes] takes its length from the caller. *)
Lemma ReadBytes_enough br n :
  reader_ok br → br_data br ≠ None → (n ≤ length (rest br))%nat →
  Z.of_nat (br_pos br) + Z.of_nat n < 2 ^ 63 →
  ReadBytes (Z.of_nat n) br = Ret (Some (take n (rest br)), advance br n).
Proof.
  intros Hok Hd Hn Hov. unfold ReadBytes, unless_err. rewrite (proj1 Hok).
  replace (2 ^ 63 <=? _) with false by (symmetry; apply Z.leb_gt; lia).
  destruct (read_enough br n Hok Hn) as (b & Er & Hb & Hnil). rewrite Er.
  destruct b as [b|]; [by simpl in Hb; subst b|]. exfalso.
  destruct n as [|n]; [|apply Hnil; [apply Nat.lt_0_succ|reflexivity]].
  unfold read in Er. rewrite (proj1 Hok) in Er. unfold mbind, outcome_bind, slice_range in Er.
  destruct (br_data br) as [d|]; [|done]. repeat case_match; simplify_eq/=.
Qed.

Lemma ReadBytes_short br n :
  reader_ok br → br_data br ≠ None → (length (rest br) < n)%nat →
  Z.of_nat (br_pos br) + Z.of_nat n < 2 ^ 63 →
  ∃ br', ReadBytes (Z.of_nat n) br = Ret (Some [], br') ∧ br_err br' = eof_error.
Proof.
  intros Hok Hd Hn Hov. unfold ReadBytes, unless_err. rewrite (proj1 Hok).
  replace (2 ^ 63 <=? _) with false by (symmetry; apply Z.leb_gt; lia).
  destruct (read_short br n Hok Hn) as (b & Er & Hb & Hnil). rewrite Er.
  destruct b as [b|]; [simpl in Hb; subst b; eauto|by destruct Hd; apply Hnil].
Qed.

(** *** Loops *)

Lemma w_list_cons_ok {A} (w : A → wire) x l bs :
  w_list w (x :: l) = (bs, None) ↔
  ∃ b1 b2, bs = b1 ++ b2 ∧ w x = (b1, None) ∧ w_list w l = (b2, None).
Proof. apply wapp_ok. Qed.

Lemma Parses_read_times {A} (f : Reader A) (w : A → wire) n :
  Parses f (encoded w) →
  Parses (read_times f n) (λ l bs, length l = n ∧ w_list w l = (bs, None)).
Proof.
  intros Hf. induction n as [|n IH]; simpl read_times.
  - eapply Parses_iff; [|apply Parses_ret]. intros l bs. split.
    + intros [-> ->]. done.
    + intros [Hl E]. destruct l; [|done]. by apply wnil_ok in E.
  - eapply Parses_iff;
      [|apply (Parses_bind _ _ _ (λ x l bs, ∃ k, l = x :: k ∧ length k = n ∧ w_list w k = (bs, None)) Hf)].
    + intros l bs. split.
      * intros (x & b1 & b2 & -> & Hx & k & -> & Hk & E). split; [by simpl; f_equal|].
        apply w_list_cons_ok. eauto.
      * intros [Hl E]. destruct l as [|x k]; [done|]. apply w_list_cons_ok in E as (b1 & b2 & -> & Hx & E).
        injection Hl as Hl. exists x, b1, b2. split; [done|split; [done|]]. by exists k.
    + intros x. eapply Parses_iff;
        [|apply (Parses_bind _ _ _ (λ k l bs, l = x :: k ∧ bs = []) IH)].
      * intros l bs. split.
        -- intros (k & b1 & b2 & -> & [Hk E] & -> & ->). exists k. by rewrite app_nil_r.
        -- intros (k & -> & Hk & E). exists k, bs, []. by rewrite app_nil_r.
      * intros k. apply Parses_ret.
Qed.

(** *** Whole decoders *)

Lemma rest_new b : rest (NewBinaryReader b) = sbytes b.
Proof. reflexivity. Qed.

Lemma new_ok b : reader_ok (NewBinaryReader b).
Proof. split; [done|]. simpl. lia. Qed.

Lemma decode_with_iff {M} (rd : Reader M) G b m :
  Parses rd G →
  decode_with rd b = Ret (m, None) ↔ ∃ bs, G m bs ∧ bs `prefix_of` sbytes b.
Proof.
  intros [Hst Hso Hco]. unfold decode_with, Error_. split.
  - destruct (rd (NewBinaryReader b)) as [[m' br']|] eqn:E; [|done]. intros [= -> He].
    destruct (Hso _ _ _ E (new_ok b) He) as (bs & Hm & Hp & _). by exists bs.
  - intros (bs & Hm & Hp). by rewrite (Hco _ m bs (new_ok b) Hm Hp).
Qed.

Create HintDb parses.
#[export] Hint Resolve Parses_ReadU8 Parses_ReadU16 Parses_ReadU24 Parses_ReadU32
  Parses_ReadU64 Parses_ReadF32 Parses_ReadBool Parses_ReadU256 Parses_ReadPubkey
  Parses_ReadEllswiftPubkey Parses_ReadSignature Parses_ReadBin32 Parses_ReadBin64K : parses.
(** [ReadStr255] and [ReadBin255] do the same; their formats differ in the error. *)
#[export] Hint Extern 0 (Parses ReadStr255 _) => exact Parses_ReadStr255 : parses.
#[export] Hint Extern 0 (Parses ReadBin255 _) => exact Parses_ReadBin255 : parses.

(** ** The position stays inside the data *)

(** [Keeps rd]: on every branch that returns, errors included, the data is
    unchanged and the position stays inside it. *)
Definition br_wf (br : BinaryReader) : Prop := (br_pos br ≤ length (sbytes (br_data br)))%nat.

Definition Keeps {A} (rd : Reader A) : Prop :=
  ∀ br a br', rd br = Ret (a, br') → br_wf br → br_wf br' ∧ br_data br' = br_data br.

Lemma Keeps_ret {A} (a : A) : Keeps (mret a).
Proof. by intros br x br' [= <- <-]. Qed.

Lemma Keeps_lift {A} (o : outcome A) : Keeps (lift o).
Proof. intros br x br'. unfold lift. destruct o; [|done]. by intros [= <- <-]. Qed.

Lemma Keeps_set_err e : Keeps (set_br_err e).
Proof. by intros br x br' [= <- <-]. Qed.

Lemma Keeps_get_err : Keeps get_err.
Proof. by intros br x br' [= <- <-]. Qed.

Lemma Keeps_bind {A B} (rd : Reader A) (k : A → Reader B) :
  Keeps rd → (∀ a, Keeps (k a)) → Keeps (rd ≫= k).
Proof.
  intros Hr Hk br b br'. unfold mbind, reader_bind.
  destruct (rd br) as [[a br1]|] eqn:E; [|done]. intros Ek Hw.
  destruct (Hr _ _ _ E Hw) as [Hw1 Hd1]. destruct (Hk a _ _ _ Ek Hw1) as [? Hd].
  split; [done|]. by rewrite Hd.
Qed.

Lemma Keeps_unless_err {A} (z : A) rd : Keeps rd → Keeps (unless_err z rd).
Proof.
  intros Hr br a br'. unfold unless_err. destruct (br_err br); [|apply Hr]. by intros [= <- <-].
Qed.

Lemma Keeps_read l : Keeps (read l).
Proof.
  intros br b br'. unfold read, br_wf. destruct (br_err br); [by intros [= <- <-]|].
  destruct (_ <? _) eqn:E; bool_to_prop; unfold mbind, outcome_bind, slice_range;
    destruct (_ && _) eqn:E2; try done; intros [= <- <-] Hw; simpl; (split; [|done]); bool_to_prop;
    unfold len in *; lia.
Qed.

Lemma Keeps_Seek o w : Keeps (Seek o w).
Proof.
  intros br b br'. unfold Seek, br_wf. destruct (br_err br); [by intros [= <- <-]|].
  destruct (_ || _) eqn:E; [by intros [= <- <-]|]. bool_to_prop.
  intros [= <- <-] Hw. simpl. split; [|done]. unfold len in *. lia.
Qed.

Lemma Keeps_Read n : Keeps (Read n).
Proof.
  intros br b br'. unfold Read. destruct (br_err br); [by intros [= <- <-]|].
  destruct (_ <=? 0); [by intros [= <- <-]|].
  apply Keeps_bind; [apply Keeps_read|]. intros s. apply Keeps_bind; [apply Keeps_get_err|].
  intros e. apply Keeps_ret.
Qed.

Lemma Keeps_ReadBytes n : Keeps (ReadBytes n).
Proof.
  apply Keeps_unless_err. intros br b br'. destruct (_ <=? _); [done|]. apply Keeps_read.
Qed.

Create HintDb keeps.
#[export] Hint Resolve Keeps_ret Keeps_lift Keeps_set_err Keeps_get_err Keeps_read : keeps.

Ltac solve_keeps :=
  repeat first
    [ solve [auto with keeps]
    | apply Keeps_unless_err | apply Keeps_bind | progress intros | split_match ].

Lemma Keeps_ReadU8 : Keeps ReadU8.
Proof. unfold ReadU8. solve_keeps. Qed.
Lemma Keeps_ReadU16 : Keeps ReadU16.
Proof. unfold ReadU16. solve_keeps. Qed.
Lemma Keeps_ReadU24 : Keeps ReadU24.
Proof. unfold ReadU24. solve_keeps. Qed.
#[export] Hint Resolve Keeps_ReadU8 Keeps_ReadU16 Keeps_ReadU24 : keeps.

(** ** Data that ends early *)

Lemma read_short_some br n :
  reader_ok br → br_data br ≠ None → (length (rest br) < n)%nat →
  ∃ br', read (Z.of_nat n) br = Ret (Some [], br').
Proof.
  intros Hok Hd Hn. destruct (read_short br n Hok Hn) as ([b|] & Er & Hb & Hnil).
  - simpl in Hb. subst b. eauto.
  - by destruct Hd; apply Hnil.
Qed.

Lemma read_nil br n :
  reader_ok br → br_data br = None → (0 < n)%nat →
  read (Z.of_nat n) br =
  Ret (None, {| br_data := None; br_pos := 0; br_err := eof_error |}).
Proof.
  intros Hok Hd Hn. destruct (read_short br n Hok) as (b & Er & _ & Hnil).
  - rewrite length_rest, Hd. simpl. lia.
  - rewrite Er, (proj2 Hnil Hd), Hd. done.
Qed.

(** ** Properties *)

(** No method of the reader moves the position outside the data, whatever the
    data, the arguments and the error state, and none changes the data. *)
Theorem reader_position_in_bounds :
  Keeps ReadBool ∧ Keeps ReadU8 ∧ Keeps ReadU16 ∧ Keeps ReadU24 ∧ Keeps ReadU32 ∧
  Keeps ReadU64 ∧ Keeps ReadU256 ∧ Keeps ReadF32 ∧ Keeps ReadStr255 ∧ Keeps ReadBin32 ∧
  Keeps ReadBin255 ∧ Keeps ReadBin64K ∧ Keeps ReadBin16M ∧ (∀ n, Keeps (ReadBytes n)) ∧
  Keeps ReadPubkey ∧ Keeps ReadEllswiftPubkey ∧ Keeps ReadSignature ∧
  (∀ n, Keeps (Read n)) ∧ (∀ o w, Keeps (Seek o w)).
Proof.
  split_and!; intros;
    try apply Keeps_ReadBytes; try apply Keeps_Read; try apply Keeps_Seek;
    unfold ReadBool, ReadU8, ReadU16, ReadU24, ReadU32, ReadU64, ReadU256, ReadF32, ReadStr255,
      ReadBin32, ReadBin255, ReadBin64K, ReadBin16M, ReadPubkey, ReadEllswiftPubkey,
      ReadSignature; solve_keeps.
Qed.

(** C39: over a slice that is not nil, and where no earlier read has failed, every
    fixed-size read but [ReadU256] panics if fewer bytes are left than it needs: [read] answers with an empty slice that is not nil, so the callers'
    test for nil does not stop them.  [ReadU256] returns zero with the length error
    of [SetBytes] in place of the end-of-data error. *)
Theorem truncated_read_panics br n (Hok : reader_ok br) (Hd : br_data br ≠ None)
    (Hn : (length (rest br) < n)%nat) :
  (n = 1%nat → ReadU8 br = Panic IndexOutOfRange ∧ ReadBool br = Panic IndexOutOfRange) ∧
  (n = 2%nat → ReadU16 br = Panic IndexOutOfRange) ∧
  (n = 3%nat → ReadU24 br = Panic IndexOutOfRange) ∧
  (n = 4%nat → ReadU32 br = Panic IndexOutOfRange ∧ ReadF32 br = Panic IndexOutOfRange) ∧
  (n = 8%nat → ReadU64 br = Panic IndexOutOfRange) ∧
  (n = 32%nat → ReadPubkey br = Panic SliceToArrayTooShort ∧
     ∃ br', ReadU256 br = Ret (zero_array 32, br') ∧ br_err br' ≠ None ∧ br_err br' ≠ eof_error) ∧
  (n = 64%nat → ReadEllswiftPubkey br = Panic SliceToArrayTooShort ∧
     ReadSignature br = Panic SliceToArrayTooShort).
Proof.
  destruct (read_short_some br n Hok Hd Hn) as [br' R]. destruct Hok as [He _].
  split_and!; intros ->; unfold ReadU8, ReadBool, ReadU16, ReadU24, ReadU32, ReadF32, ReadU64,
    ReadPubkey, ReadU256, ReadEllswiftPubkey, ReadSignature, unless_err, mbind, reader_bind;
    rewrite He; cbv [Z.of_nat Pos.of_succ_nat Pos.succ] in R; rewrite R; try (split; reflexivity); try reflexivity.
  split; [reflexivity|]. rewrite SetBytes_other by done. eexists. split; [reflexivity|done].
Qed.

Lemma truncated_read_panics_witness :
  ReadU16 (NewBinaryReader (Some [to_u8 7])) = Panic IndexOutOfRange.
Proof.
  apply (truncated_read_panics (NewBinaryReader (Some [to_u8 7])) 2);
    [split; [reflexivity|apply Nat.le_0_l]|discriminate|apply Nat.lt_1_2|reflexivity].
Defined.

(** A reader over a nil slice reports the end of the data instead: every
    fixed-size read returns zero and leaves the end-of-data error. *)
Theorem nil_reads_report_eof br (Hok : reader_ok br) (Hd : br_data br = None) :
  let br' := {| br_data := None; br_pos := 0; br_err := eof_error |} in
  ReadU8 br = Ret (to_u8 0, br') ∧ ReadBool br = Ret (false, br') ∧
  ReadU16 br = Ret (to_u16 0, br') ∧ ReadU24 br = Ret (to_u32 0, br') ∧
  ReadU32 br = Ret (to_u32 0, br') ∧ ReadF32 br = Ret (to_u32 0, br') ∧
  ReadU64 br = Ret (to_u64 0, br') ∧ ReadU256 br = Ret (zero_array 32, br').
Proof.
  pose proof (λ n, read_nil br n Hok Hd) as R. destruct Hok as [He _].
  split_and!; unfold ReadU8, ReadBool, ReadU16, ReadU24, ReadU32, ReadF32, ReadU64, ReadU256,
    unless_err, mbind, reader_bind; rewrite He;
    match goal with |- context [read ?z br] =>
      rewrite (R (Z.to_nat z) ltac:(apply Nat.lt_0_succ || (vm_compute; lia)) : read z br = _)
    end; reflexivity.
Qed.

Lemma nil_reads_report_eof_witness :
  ReadU32 (NewBinaryReader None)
  = Ret (to_u32 0, {| br_data := None; br_pos := 0; br_err := eof_error |}).
Proof.
  apply (nil_reads_report_eof (NewBinaryReader None)); [split; [reflexivity|apply Nat.le_0_l]|reflexivity].
Defined.

(** [Seek] moves to [offset] from the start, [offset] past the position, or
    [offset] {e before} the end, when that is inside the data; otherwise it
    fails and the position stays.  For [io.SeekEnd] the contract of [io.Seeker] is
    [len + offset], which this method rejects for every negative offset. *)
Theorem Seek_spec br offset w (Hok : reader_ok br)
    (Hlen : len (sbytes (br_data br)) < 2 ^ 62) (Hoff : - 2 ^ 62 < offset < 2 ^ 62) :
  let target := match w with
                | SeekCurrent => offset + Z.of_nat (br_pos br)
                | SeekEnd => len (sbytes (br_data br)) - offset
                | _ => offset
                end in
  (0 ≤ target ≤ len (sbytes (br_data br)) →
     Seek offset w br =
     Ret ((target, None), {| br_data := br_data br; br_pos := Z.to_nat target; br_err := None |})) ∧
  (¬ (0 ≤ target ≤ len (sbytes (br_data br))) →
     Seek offset w br =
     Ret ((0, Some "Seek: out of bounds"%string),
          {| br_data := br_data br; br_pos := br_pos br;
             br_err := Some "Seek: out of bounds"%string |})) ∧
  (w = SeekEnd → offset < 0 → ∃ e br', Seek offset w br = Ret ((0, Some e), br')).
Proof.
  intros target. destruct Hok as [He Hp].
  assert (wrap_int target = target ∧ wrap_int offset = offset ∧
          wrap_int (offset + Z.of_nat (br_pos br)) = offset + Z.of_nat (br_pos br) ∧
          wrap_int (len (sbytes (br_data br)) - offset) = len (sbytes (br_data br)) - offset)
    as (Ht & Ho & Hc & Hend).
  { unfold target, len in *. destruct w; split_and!; apply wrap_int_small; lia. }
  assert (Seek offset w br =
    if (target <? 0) || (len (sbytes (br_data br)) <? target) then
      Ret ((0, Some "Seek: out of bounds"%string),
           {| br_data := br_data br; br_pos := br_pos br;
              br_err := Some "Seek: out of bounds"%string |})
    else Ret ((target, None),
              {| br_data := br_data br; br_pos := Z.to_nat target; br_err := None |})) as ->.
  { unfold Seek. rewrite He, Ho, Hc, Hend. unfold target. by destruct w. }
  split_and!; intros; destruct (_ || _) eqn:E; bool_to_prop; try done.
  - apply orb_true_iff in E as [E|E]; bool_to_prop; lia.
  - lia.
  - eauto.
  - subst w. unfold target, len in *. lia.
Qed.

Lemma Seek_spec_witness :
  Seek 1 SeekEnd (NewBinaryReader (Some [to_u8 1; to_u8 2; to_u8 3]))
  = Ret ((2, None), {| br_data := Some [to_u8 1; to_u8 2; to_u8 3]; br_pos := 2; br_err := None |})
  ∧ ∃ e br', Seek (-1) SeekEnd (NewBinaryReader (Some [to_u8 1; to_u8 2; to_u8 3]))
             = Ret ((0, Some e), br').
Proof.
  assert (reader_ok (NewBinaryReader (Some [to_u8 1; to_u8 2; to_u8 3]))) as Hok
    by (split; [reflexivity|apply Nat.le_0_l]).
  split.
  - apply (Seek_spec _ 1 SeekEnd Hok); vm_compute; split; done.
  - apply (Seek_spec _ (-1) SeekEnd Hok); [vm_compute..|reflexivity|reflexivity]; try split; done.
Defined.
