(* ===== verification/Sequences.v ===== *)
(** * Sequences: SEQ0_1, SEQ0_255, SEQ0_64K and OPTION (types.go, binary.go)

    Go's [Sequence] interface is the class [Sequence]; the builder's [AddSeq*]
    and the reader's [ReadSeq*] are written against it.  [SequenceSpec] is what
    those clients need of an implementation: its encoding is the concatenation
    of the elements' formats, and its decoder reads exactly that.  Each slice
    type of the source is an instance of both, except [U24Sequence], whose
    elements may be wider than what is written. *)
From S2P Require Import Prelude GoInts Constants U256 Wire Builder Reader.

Class Sequence (S : Type) := {
  seq_Encode : ∀ `{GoAlloc}, S → bslice * error;
  seq_Len : S → Z;
  seq_Decode : S → Z → Reader (S * error)
}.

(** ** Clients of the interface *)

Section SeqBuilder.
Context `{GoAlloc} {S : Type} `{Sequence S}.

Definition AddSeq1 (things : S) : BinaryBuilder → BinaryBuilder := unless_failed (λ bb,
  let l := seq_Len things in
  if 1 <? l then bb_fail "AddSeq1: len > 1" bb else
  let '(enc, err) := seq_Encode things in
  match err with
  | Some e => bb_fail e bb
  | None => bb |> Grow (len (sbytes enc) + 1) |> AddU8 (to_u8 l) |> AddBytes (sbytes enc)
  end).

Definition AddOptionT (things : S) : BinaryBuilder → BinaryBuilder := AddSeq1 things.

Definition AddSeq255 (things : S) : BinaryBuilder → BinaryBuilder := unless_failed (λ bb,
  let l := seq_Len things in
  if 255 <? l then bb_fail "AddSeq255: len > 255" bb else
  let '(enc, err) := seq_Encode things in
  match err with
  | Some e => bb_fail e bb
  | None => bb |> Grow (len (sbytes enc) + 1) |> AddU8 (to_u8 l) |> AddBytes (sbytes enc)
  end).

Definition AddSeq64K (things : S) : BinaryBuilder → BinaryBuilder := unless_failed (λ bb,
  let l := seq_Len things in
  if 65535 <? l then bb_fail "AddSeq64K: len > 65535" bb else
  let '(enc, err) := seq_Encode things in
  match err with
  | Some e => bb_fail e bb
  | None => bb |> Grow (len (sbytes enc) + 2) |> AddU16 (to_u16 l) |> AddBytes (sbytes enc)
  end).

End SeqBuilder.

Section SeqReader.
Context {S : Type} `{Sequence S}.

(** The result is an interface value: [None] is the nil interface. *)
Definition ReadSeq1 (dest : S) : Reader (option S) := unless_err None (
  l ← ReadU8;
  if 1 <? u8_int l then
    _ ← set_br_err (Some "ReadSeq1: len > 1"%string); mret None
  else
    '(n, err) ← seq_Decode dest (u8_int l);
    match err with
    | Some _ => _ ← set_br_err err; mret None
    | None => mret (Some n)
    end).

Definition ReadOptionT (dest : S) : Reader (option S) := ReadSeq1 dest.

Definition ReadSeq255 (dest : S) : Reader (option S) := unless_err None (
  l ← ReadU8;
  '(n, err) ← seq_Decode dest (u8_int l);
  match err with
  | Some _ => _ ← set_br_err err; mret None
  | None => mret (Some n)
  end).

Definition ReadSeq64K (dest : S) : Reader (option S) := unless_err None (
  l ← ReadU16;
  '(n, err) ← seq_Decode dest (u16_int l);
  match err with
  | Some _ => _ ← set_br_err err; mret None
  | None => mret (Some n)
  end).

(** [x.(T)]: asserting the type of a nil interface panics. *)
Definition type_assert (x : option S) : Reader S :=
  match x with
  | Some s => mret s
  | None => lift (Panic FailedTypeAssertion)
  end.

End SeqReader.

(** ** The slice types *)

(** [out := NewBinaryBuilder(); out.Grow(k); for _, v := range a { out.add(v) }] *)
Definition encode_all `{GoAlloc} {A} (k : Z) (add : A → BinaryBuilder → BinaryBuilder)
    (a : list A) : bslice * error :=
  Bytes (fold_left (λ out v, add v out) a (NewBinaryBuilder |> Grow (len a * k))).

(** [a = make(T, 0, l); for range l { a = append(a, read()) }; return a, br.Error()] *)
Definition decode_all {A} (f : Reader A) (l : Z) : Reader (list A * error) :=
  if l <? 0 then lift (Panic MakeSliceCapOutOfRange)
  else a ← read_times f (Z.to_nat l); err ← get_err; mret (a, err).

Record BoolSequence := { bools : list bool }.
#[export] Instance BoolSequence_seq : Sequence BoolSequence := {|
  seq_Encode _ a := encode_all 4 AddBool (bools a);
  seq_Len a := len (bools a);
  seq_Decode _ l := '(a, err) ← decode_all ReadBool l; mret ({| bools := a |}, err) |}.

Record U8Sequence := { u8s : list u8 }.
#[export] Instance U8Sequence_seq : Sequence U8Sequence := {|
  seq_Encode _ a := encode_all 4 AddU8 (u8s a);
  seq_Len a := len (u8s a);
  seq_Decode _ l := '(a, err) ← decode_all ReadU8 l; mret ({| u8s := a |}, err) |}.

Record U16Sequence := { u16s : list u16 }.
#[export] Instance U16Sequence_seq : Sequence U16Sequence := {|
  seq_Encode _ a := encode_all 4 AddU16 (u16s a);
  seq_Len a := len (u16s a);
  seq_Decode _ l := '(a, err) ← decode_all ReadU16 l; mret ({| u16s := a |}, err) |}.

Record U24Sequence := { u24s : list U24 }.
#[export] Instance U24Sequence_seq : Sequence U24Sequence := {|
  seq_Encode _ a := encode_all 4 AddU24 (u24s a);
  seq_Len a := len (u24s a);
  seq_Decode _ l := '(a, err) ← decode_all ReadU24 l; mret ({| u24s := a |}, err) |}.

Record U32Sequence := { u32s : list u32 }.
#[export] Instance U32Sequence_seq : Sequence U32Sequence := {|
  seq_Encode _ a := encode_all 4 AddU32 (u32s a);
  seq_Len a := len (u32s a);
  seq_Decode _ l := '(a, err) ← decode_all ReadU32 l; mret ({| u32s := a |}, err) |}.

Record U64Sequence := { u64s : list u64 }.
#[export] Instance U64Sequence_seq : Sequence U64Sequence := {|
  seq_Encode _ a := encode_all 8 AddU64 (u64s a);
  seq_Len a := len (u64s a);
  seq_Decode _ l := '(a, err) ← decode_all ReadU64 l; mret ({| u64s := a |}, err) |}.

Record U256Sequence := { u256s : list U256 }.
#[export] Instance U256Sequence_seq : Sequence U256Sequence := {|
  seq_Encode _ a := encode_all 32 (λ v : U256, AddBytes (arr_bytes v)) (u256s a);
  seq_Len a := len (u256s a);
  seq_Decode _ l := '(a, err) ← decode_all ReadU256 l; mret ({| u256s := a |}, err) |}.

(** ** The contract *)

(** What the builder and the reader rely on: the elements of the sequence, and
    their format, which never fails. *)
Class SequenceSpec (S : Type) `{Sequence S} (A : Type) (w : A → wire) := {
  seq_elems : S → list A;
  seq_of : list A → S;
  seq_elems_of l : seq_elems (seq_of l) = l;
  seq_of_elems s : seq_of (seq_elems s) = s;
  seq_elem_ok x : (w x).2 = None;
  seq_Len_spec s : seq_Len s = len (seq_elems s);
  seq_Encode_spec `{GoAlloc} s :
    seq_Encode s = (Some (w_list w (seq_elems s)).1, (w_list w (seq_elems s)).2);
  seq_Decode_spec dest n :
    Parses (seq_Decode dest (Z.of_nat n))
      (λ r bs, r.2 = None ∧ length (seq_elems r.1) = n ∧ w_list w (seq_elems r.1) = (bs, None))
}.

Lemma Built_fold `{GoAlloc} {A} (add : A → BinaryBuilder → BinaryBuilder) (w : A → wire) l :
  (∀ x, Emits (add x) (w x)) →
  ∀ bb w0, Built bb w0 → Built (fold_left (λ out v, add v out) l bb) (w0 ⋅ w_list w l).
Proof.
  intros Hadd. induction l as [|x l IH]; intros bb w0 Hbb; simpl.
  - by rewrite wapp_nil_r.
  - rewrite wapp_assoc. apply IH. by apply Built_step.
Qed.

Lemma encode_all_spec `{GoAlloc} {A} k (add : A → BinaryBuilder → BinaryBuilder) w l :
  (∀ x, Emits (add x) (w x)) →
  encode_all k add l = (Some (w_list w l).1, (w_list w l).2).
Proof.
  intros Hadd. unfold encode_all. apply Built_Bytes.
  rewrite <- (wapp_nil_l (w_list w l)). apply Built_fold; [done|].
  rewrite <- (wapp_nil_l wnil). apply Built_step; [apply Emits_Grow|apply Built_new].
Qed.

Lemma Parses_get_err : Parses get_err (λ e bs, e = None ∧ bs = []).
Proof.
  split.
  - by intros br a br' [= <- <-].
  - intros br a br' [= <- <-] [He Hp] _. exists []. rewrite advance_0 by done.
    split; [done|split; [apply prefix_nil|done]].
  - intros br a bs [He Hp] [-> ->] _. unfold get_err. by rewrite advance_0, He.
Qed.

Lemma decode_all_spec {A S} (f : Reader A) (w : A → wire) n (mk : list A → S) (un : S → list A) :
  Parses f (encoded w) → (∀ l, un (mk l) = l) → (∀ s, mk (un s) = s) →
  Parses ('(a, err) ← decode_all f (Z.of_nat n); mret (mk a, err))
    (λ r bs, r.2 = None ∧ length (un r.1) = n ∧ w_list w (un r.1) = (bs, None)).
Proof.
  intros Hf Hum Hmu. unfold decode_all.
  replace (Z.of_nat n <? 0) with false by (symmetry; apply Z.ltb_ge; lia).
  rewrite Nat2Z.id.
  assert (Parses (a ← read_times f n; err ← get_err; mret (a, err))
    (λ r bs, r.2 = None ∧ length r.1 = n ∧ w_list w r.1 = (bs, None))) as Hd.
  { eapply Parses_iff; [|apply (Parses_bind _ _ _
      (λ a r bs, r = (a, None : error) ∧ bs = []) (Parses_read_times f w n Hf))].
    - intros [a e] bs. simpl. split.
      + intros (a' & b1 & b2 & -> & [Hl E] & [= -> ->] & ->). by rewrite app_nil_r.
      + intros (-> & Hl & E). exists a, bs, []. by rewrite app_nil_r.
    - intros a. eapply Parses_iff; [|apply (Parses_bind _ _ _
        (λ e r bs, r = (a, e) ∧ bs = []) Parses_get_err); intros e; apply Parses_ret].
      intros r bs. split.
      + intros (e & b1 & b2 & -> & [-> ->] & -> & ->). done.
      + intros [-> ->]. by exists None, [], []. }
  eapply Parses_iff; [|apply (Parses_bind _ _ _ (λ r s bs, s = (mk r.1, r.2) ∧ bs = []) Hd)].
  - intros [s e] bs. simpl. split.
    + intros ([a e'] & b1 & b2 & -> & (He & Hl & E) & [= -> ->] & ->). simpl in *.
      by rewrite app_nil_r, Hum.
    + intros (-> & Hl & E). exists (un s, None), bs, []. simpl. by rewrite app_nil_r, Hmu.
  - intros [a e]. apply Parses_ret.
Qed.

Ltac solve_seq_spec un mk spec_enc spec_dec :=
  apply (Build_SequenceSpec _ _ _ _ un mk);
  [done|by intros []| |done
  |intros; apply encode_all_spec; apply spec_enc
  |intros dest n; apply (decode_all_spec _ _ n mk un); [apply spec_dec|done|by intros []]].

#[export] Instance BoolSequence_spec : SequenceSpec BoolSequence bool w_bool.
Proof. solve_seq_spec bools Build_BoolSequence @Emits_AddBool Parses_ReadBool. done. Defined.
#[export] Instance U8Sequence_spec : SequenceSpec U8Sequence u8 w_u8.
Proof. solve_seq_spec u8s Build_U8Sequence @Emits_AddU8 Parses_ReadU8. done. Defined.
#[export] Instance U16Sequence_spec : SequenceSpec U16Sequence u16 w_u16.
Proof. solve_seq_spec u16s Build_U16Sequence @Emits_AddU16 Parses_ReadU16. done. Defined.
#[export] Instance U32Sequence_spec : SequenceSpec U32Sequence u32 w_u32.
Proof. solve_seq_spec u32s Build_U32Sequence @Emits_AddU32 Parses_ReadU32. done. Defined.
#[export] Instance U64Sequence_spec : SequenceSpec U64Sequence u64 w_u64.
Proof. solve_seq_spec u64s Build_U64Sequence @Emits_AddU64 Parses_ReadU64. done. Defined.
#[export] Instance U256Sequence_spec : SequenceSpec U256Sequence U256 w_array.
Proof. solve_seq_spec u256s Build_U256Sequence @Emits_AddArray Parses_ReadU256. done. Defined.

(** ** The clients, from the contract *)

Section SeqClients.
Context {T : Type} `{Sequence T} {A : Type} {w : A → wire} `{!SequenceSpec T A w}.

(** A count and that many elements, whatever the width of the count. *)
Lemma Emits_seq_with `{GoAlloc} n limit msg k (addlen : BinaryBuilder → BinaryBuilder) (s : T) :
  Emits addlen (w_uint n (seq_Len s)) →
  Emits (unless_failed (λ bb,
           if limit <? seq_Len s then bb_fail msg bb else
           let '(enc, err) := seq_Encode s in
           match err with
           | Some e => bb_fail e bb
           | None => bb |> Grow (len (sbytes enc) + k) |> addlen |> AddBytes (sbytes enc)
           end))
        (w_seq n limit msg w (seq_elems s)).
Proof.
  intros Hlen. rewrite seq_Encode_spec, seq_Len_spec in *. unfold w_seq.
  destruct (limit <? len (seq_elems s)); [apply Emits_fail|].
  pose proof (w_list_fits w (seq_elems s) seq_elem_ok) as Hok.
  destruct (w_list w (seq_elems s)) as [enc e]; simpl in *. subst e.
  apply Emits_guard. rewrite <- (wapp_nil_l (w_uint _ _)).
  apply (Emits_seq (λ bb, bb |> Grow _ |> addlen) (AddBytes enc)); [|apply Emits_AddBytes].
  apply Emits_seq; [apply Emits_Grow|done].
Qed.

Lemma Emits_AddSeq1 `{GoAlloc} (s : T) : Emits (AddSeq1 s) (w_seq1 w (seq_elems s)).
Proof.
  apply (Emits_seq_with 1). rewrite <- (w_uint_of_Z 8) by lia. apply Emits_AddU8.
Qed.

Lemma Emits_AddOptionT `{GoAlloc} (s : T) : Emits (AddOptionT s) (w_seq1 w (seq_elems s)).
Proof. apply Emits_AddSeq1. Qed.

Lemma Emits_AddSeq255 `{GoAlloc} (s : T) : Emits (AddSeq255 s) (w_seq255 w (seq_elems s)).
Proof.
  apply (Emits_seq_with 1). rewrite <- (w_uint_of_Z 8) by lia. apply Emits_AddU8.
Qed.

Lemma Emits_AddSeq64K `{GoAlloc} (s : T) : Emits (AddSeq64K s) (w_seq64k w (seq_elems s)).
Proof.
  apply (Emits_seq_with 2). rewrite <- (w_uint_of_Z 16) by lia. apply Emits_AddU16.
Qed.

(** The decoder of the elements, with the interface value it returns. *)
Lemma Parses_seq_body (dest : T) n :
  Parses ('(s, err) ← seq_Decode dest (Z.of_nat n);
          match err with
          | Some _ => _ ← set_br_err err; mret None
          | None => mret (Some s)
          end)
    (λ o bs, ∃ s, o = Some s ∧ length (seq_elems s) = n ∧ w_list w (seq_elems s) = (bs, None)).
Proof.
  eapply Parses_iff; [|apply (Parses_bind _ _ _
    (λ r o bs, r.2 = None ∧ o = Some r.1 ∧ bs = []) (seq_Decode_spec dest n))].
  - intros o bs. split.
    + intros ([s e] & b1 & b2 & -> & (_ & Hl & E) & _ & -> & ->). exists s.
      by rewrite app_nil_r.
    + intros (s & -> & Hl & E). exists (s, None), bs, []. by rewrite app_nil_r.
  - intros [s [e|]]; simpl.
    + eapply Parses_iff; [|apply Parses_fail]. naive_solver.
    + eapply Parses_iff; [|apply Parses_ret]. naive_solver.
Qed.

(** A count, at most [limit], and that many elements. *)
Lemma Parses_seq_with {L} (rl : Reader L) (num : L → Z) (k : L → Reader (option T))
    n limit msg :
  (∀ l, 0 ≤ num l) →
  Parses rl (λ l bs, num l ≤ 256 ^ Z.of_nat n - 1 ∧ bs = le_put n (num l)) →
  (∀ z, 0 ≤ z ≤ 256 ^ Z.of_nat n - 1 → ∃ l, num l = z) →
  limit ≤ 256 ^ Z.of_nat n - 1 →
  (∀ l, num l ≤ limit →
     Parses (k l) (λ o bs, ∃ s, o = Some s ∧ len (seq_elems s) = num l ∧
                               w_list w (seq_elems s) = (bs, None))) →
  (∀ l, limit < num l → Parses (k l) (λ _ _, False)) →
  Parses (rl ≫= k) (λ o bs, ∃ s, o = Some s ∧
    w_seq n limit msg w (seq_elems s) = (bs, None)).
Proof.
  intros Hpos Hrl Hex Hlim Hk Hbad. eapply Parses_iff; [|apply (Parses_bind _ _ _
    (λ l o bs, num l ≤ limit ∧ ∃ s, o = Some s ∧ len (seq_elems s) = num l ∧
                                  w_list w (seq_elems s) = (bs, None)) Hrl)].
  - intros o bs. setoid_rewrite w_seq_ok. split.
    + intros (l & b1 & b2 & -> & [_ ->] & Hle & s & -> & Hl & E).
      exists s. rewrite Hl. eauto 8.
    + intros (s & -> & Hle & b2 & -> & E). destruct (Hex (len (seq_elems s))) as [l Hl].
      { pose proof (len_nonneg (seq_elems s)). lia. }
      exists l, (le_put n (len (seq_elems s))), b2. rewrite Hl. split; [done|].
      split; [split; [lia|done]|]. eauto 8.
  - intros l. destruct (decide (num l ≤ limit)) as [Hl|Hl].
    + eapply Parses_iff; [|by apply Hk]. tauto.
    + eapply Parses_iff; [|apply Hbad; lia]. intros o bs. split; [done|]. intros [? _]. lia.
Qed.

Lemma seq_body_len (dest : T) z : 0 ≤ z →
  Parses ('(s, err) ← seq_Decode dest z;
          match err with
          | Some _ => _ ← set_br_err err; mret None
          | None => mret (Some s)
          end)
    (λ o bs, ∃ s, o = Some s ∧ len (seq_elems s) = z ∧ w_list w (seq_elems s) = (bs, None)).
Proof.
  intros Hz. rewrite <- (Z2Nat.id z) by done. eapply Parses_iff; [|apply Parses_seq_body].
  intros o bs. unfold len. split; intros (s & -> & Hl & E); exists s; (split; [done|split; [lia|done]]).
Qed.

Lemma Parses_u8_count :
  Parses ReadU8 (λ l bs, u8_int l ≤ 256 ^ Z.of_nat 1 - 1 ∧ bs = le_put 1 (u8_int l)).
Proof.
  eapply Parses_iff; [|apply Parses_ReadU8]. intros l bs. split; [apply u8_grammar|].
  by intros [_ ->].
Qed.

Lemma Parses_u16_count :
  Parses ReadU16 (λ l bs, u16_int l ≤ 256 ^ Z.of_nat 2 - 1 ∧ bs = le_put 2 (u16_int l)).
Proof.
  eapply Parses_iff; [|apply Parses_ReadU16]. intros l bs. split; [apply u16_grammar|].
  by intros [_ ->].
Qed.

Lemma u8_int_onto z : 0 ≤ z ≤ 256 ^ Z.of_nat 1 - 1 → ∃ l, u8_int l = z.
Proof. intros Hz. destruct (u8_grammar_ex z) as (l & ? & _); [lia|eauto]. Qed.

Lemma u16_int_onto z : 0 ≤ z ≤ 256 ^ Z.of_nat 2 - 1 → ∃ l, u16_int l = z.
Proof. intros Hz. destruct (u16_grammar_ex z) as (l & ? & _); [lia|eauto]. Qed.

Definition seq_grammar (f : list A → wire) (o : option T) (bs : list u8) : Prop :=
  ∃ s, o = Some s ∧ f (seq_elems s) = (bs, None).

Lemma Parses_ReadSeq1 (dest : T) : Parses (ReadSeq1 dest) (seq_grammar (w_seq1 w)).
Proof.
  apply Parses_unless_err, (Parses_seq_with ReadU8 u8_int).
  - intros l. apply u8_range.
  - apply Parses_u8_count.
  - apply u8_int_onto.
  - lia.
  - intros l Hl. replace (1 <? u8_int l) with false by (symmetry; apply Z.ltb_ge; lia).
    apply seq_body_len. apply u8_range.
  - intros l Hl. replace (1 <? u8_int l) with true by (symmetry; apply Z.ltb_lt; lia).
    apply Parses_fail.
Qed.

Lemma Parses_ReadOptionT (dest : T) : Parses (ReadOptionT dest) (seq_grammar (w_seq1 w)).
Proof. apply Parses_ReadSeq1. Qed.

Lemma Parses_ReadSeq255 (dest : T) : Parses (ReadSeq255 dest) (seq_grammar (w_seq255 w)).
Proof.
  apply Parses_unless_err, (Parses_seq_with ReadU8 u8_int).
  - intros l. apply u8_range.
  - apply Parses_u8_count.
  - apply u8_int_onto.
  - lia.
  - intros l _. apply seq_body_len. apply u8_range.
  - intros l Hl. pose proof (u8_range l). unfold u8_int in *. lia.
Qed.

Lemma Parses_ReadSeq64K (dest : T) : Parses (ReadSeq64K dest) (seq_grammar (w_seq64k w)).
Proof.
  apply Parses_unless_err, (Parses_seq_with ReadU16 u16_int).
  - intros l. apply u16_range.
  - apply Parses_u16_count.
  - apply u16_int_onto.
  - lia.
  - intros l _. apply seq_body_len. apply u16_range.
  - intros l Hl. pose proof (u16_range l). unfold u16_int in *. lia.
Qed.

(** A read followed by the assertion of its type. *)
Lemma Parses_type_assert (rd : Reader (option T)) f :
  Parses rd (seq_grammar f) →
  Parses (o ← rd; type_assert o) (encoded (λ s, f (seq_elems s))).
Proof.
  intros Hrd. eapply Parses_iff; [|apply (Parses_bind _ _ _
    (λ o s bs, o = Some s ∧ bs = []) Hrd)].
  - intros s bs. split.
    + intros (o & b1 & b2 & -> & (s' & -> & E) & [= ->] & ->). by rewrite app_nil_r.
    + intros E. exists (Some s), bs, []. rewrite app_nil_r. split; [done|].
      split; [by exists s|done].
  - intros [s|]; simpl.
    + eapply Parses_iff; [|apply Parses_ret]. naive_solver.
    + split; [done|done|]. intros br a bs _ [? _]. done.
Qed.

End SeqClients.

#[export] Hint Resolve @Emits_AddSeq1 @Emits_AddOptionT @Emits_AddSeq255 @Emits_AddSeq64K : emits.
#[export] Hint Resolve Parses_ReadSeq1 Parses_ReadOptionT Parses_ReadSeq255 Parses_ReadSeq64K
  Parses_type_assert : parses.
