(* ===== verification/Codec.v ===== *)
(** * The Codable interface and its contract (types.go)

    [Codable] is Go's interface of the messages.  [WireCodec] is what the
    rest of the package may rely on: the message has a wire format, [Encode]
    produces it or reports its error, and [Decode] succeeds exactly on the byte
    strings that start with it, returning the message.  Round trip, injectivity
    and prefix-freeness follow for every implementation. *)
From S2P Require Import Prelude GoInts Constants Wire Builder Reader Sequences.

(** ** Fields

    [ReadsBack add rd f]: what [add a] appends to any builder, wherever a reader
    finds it, [rd] reads as [f a], leaving exactly what follows it. *)
Definition ReadsBack `{GoAlloc} {A B} (add : A → BinaryBuilder → BinaryBuilder) (rd : Reader B)
    (f : A → B) : Prop :=
  ∀ a bb br tail,
    bb_err bb = None → bb_err (add a bb) = None → reader_ok br →
    rest br = drop (length (bb_data bb)) (bb_data (add a bb)) ++ tail →
    bb_data bb `prefix_of` bb_data (add a bb) ∧
    ∃ br', rd br = Ret (f a, br') ∧ reader_ok br' ∧ rest br' = tail.

Lemma ReadsBack_of `{GoAlloc} {A B} add rd (f : A → B) (w : A → wire) G :
  (∀ a, Emits (add a) (w a)) → Parses rd G → (∀ a bs, w a = (bs, None) → G (f a) bs) →
  ReadsBack add rd f.
Proof.
  intros Hadd Hrd HG a bb br tail He Hea Hok Hrest.
  specialize (Hadd a bb). rewrite He, Hea in Hadd. destruct Hadd as [Hd Hw].
  rewrite Hd, drop_app_length in Hrest. rewrite Hd.
  split; [by exists (w a).1|].
  assert (w a = ((w a).1, None)) as E by (destruct (w a); simpl in *; by subst).
  assert ((w a).1 `prefix_of` rest br) as Hp by (rewrite Hrest; by exists tail).
  exists (advance br (length (w a).1)). split_and!.
  - apply (parses_complete _ _ Hrd); auto.
  - by apply advance_ok.
  - by rewrite rest_advance, Hrest, drop_app_length.
Qed.

Lemma ReadsBack_encoded `{GoAlloc} {A} add rd (w : A → wire) :
  (∀ a, Emits (add a) (w a)) → Parses rd (encoded w) → ReadsBack add rd id.
Proof. intros Hadd Hrd. by apply (ReadsBack_of add rd id w (encoded w)). Qed.

Lemma ReadsBack_seq `{GoAlloc} {T A} {w : A → wire} `{SequenceSpec T A w} add rd
    (W : list A → wire) :
  (∀ s, Emits (add s) (W (seq_elems s))) → Parses rd (seq_grammar W) → ReadsBack add rd Some.
Proof.
  intros Hadd Hrd. apply (ReadsBack_of add rd Some (λ s, W (seq_elems s)) (seq_grammar W)); [done..|].
  intros s bs E. by exists s.
Qed.

(** ** Messages *)

(** [Decode]'s first argument is the receiver, which it may keep fields of. *)
Class Codable (M : Type) := {
  Encode : ∀ `{GoAlloc}, M → bslice * error;
  Decode : M → bslice → outcome (M * error)
}.

(** Conversion is to look through the interface before the methods. *)
Strategy expand [Encode Decode].

Class WireCodec (M : Type) `{Codable M} := {
  wire_of : M → wire;
  Encode_wire `{GoAlloc} m :
    (Encode m).2 = (wire_of m).2 ∧
    ((wire_of m).2 = None → (Encode m).1 = Some (wire_of m).1);
  Decode_wire m0 b m :
    Decode m0 b = Ret (m, None) ↔
    ∃ bs, wire_of m = (bs, None) ∧ bs `prefix_of` sbytes b
}.

(** ** Consequences of the contract *)

Section Codec.
Context {M : Type} `{WireCodec M}.

Lemma Encode_ok `{GoAlloc} m bs : Encode m = (Some bs, None) ↔ wire_of m = (bs, None).
Proof.
  destruct (Encode_wire m) as [He Hb].
  destruct (Encode m) as [o e], (wire_of m) as [bs' e']; simpl in *. subst e'. split.
  - intros [= -> ->]. specialize (Hb eq_refl). by injection Hb as ->.
  - intros [= -> ->]. by rewrite Hb.
Qed.

(** Encoding, followed by anything, decodes to the message. *)
Lemma Decode_Encode `{GoAlloc} m m0 bs tail :
  Encode m = (Some bs, None) → Decode m0 (Some (bs ++ tail)) = Ret (m, None).
Proof.
  intros E%Encode_ok. apply Decode_wire. exists bs. split; [done|]. simpl. by exists tail.
Qed.

(** What decodes is an encoding of the message decoded, followed by anything. *)
Lemma Encode_Decode `{GoAlloc} m m0 b :
  Decode m0 b = Ret (m, None) → ∃ bs, Encode m = (Some bs, None) ∧ bs `prefix_of` sbytes b.
Proof.
  intros (bs & E & Hp)%Decode_wire. exists bs. split; [|done]. by apply Encode_ok.
Qed.

(** No encoding is a proper prefix of another message's. *)
Lemma wire_prefix_free m1 m2 b1 b2 :
  wire_of m1 = (b1, None) → wire_of m2 = (b2, None) → b1 `prefix_of` b2 → m1 = m2.
Proof.
  intros E1 E2 Hp.
  assert (Decode m1 (Some b2) = Ret (m1, None)) as D1 by (apply Decode_wire; eauto).
  assert (Decode m1 (Some b2) = Ret (m2, None)) as D2 by (apply Decode_wire; eauto).
  congruence.
Qed.

End Codec.

(** ** The contract, of the two methods alone

    What a message's [Encode] and [Decode] promise their callers, without the wire
    format: encoding succeeds exactly on the messages that [fits] describes; what
    it produces, followed by anything, decodes to the message, whatever the
    receiver held; what decodes was an encoding of the result; and no message's
    encoding starts with another's. *)
Record CodecCorrect `{GoAlloc} {M} (enc : M → bslice * error)
    (dec : M → bslice → outcome (M * error)) (fits : M → Prop) : Prop := {
  cc_encodes m : fits m ↔ ∃ bs, enc m = (Some bs, None);
  cc_decode_encode m m0 bs tail :
    enc m = (Some bs, None) → dec m0 (Some (bs ++ tail)) = Ret (m, None);
  cc_encode_decode m m0 b :
    dec m0 b = Ret (m, None) → ∃ bs, enc m = (Some bs, None) ∧ bs `prefix_of` sbytes b;
  cc_prefix_free m1 m2 b1 b2 :
    enc m1 = (Some b1, None) → enc m2 = (Some b2, None) → b1 `prefix_of` b2 → m1 = m2
}.

Lemma WireCodec_correct `{GoAlloc} {M} `{WireCodec M} (fits : M → Prop) :
  (∀ m, (wire_of m).2 = None ↔ fits m) →
  CodecCorrect Encode Decode fits.
Proof.
  intros Hfits. split.
  - intros m. rewrite <- Hfits. setoid_rewrite Encode_ok.
    destruct (wire_of m) as [bs e]. simpl. naive_solver.
  - apply Decode_Encode.
  - intros m m0 b Hd. by apply (Encode_Decode m m0).
  - intros m1 m2 b1 b2 E1%Encode_ok E2%Encode_ok. by apply wire_prefix_free.
Qed.

(** ** Proving the contract *)

(** From a message's instance, of format [W], and what its fields' formats need. *)
Ltac to_fits W :=
  match goal with |- @CodecCorrect _ ?M _ _ _ =>
    let H := constr:(WireCodec_correct (M := M)) in apply H end;
  let m := fresh "m" in intros m;
  match goal with |- _ ↔ ?P => change ((W m).2 = None ↔ P) end;
  unfold W.
Tactic Notation "solve_codec_correct" constr(W) :=
  to_fits W; eapply iff_trans; [collect_fits|tauto].
Tactic Notation "solve_codec_embedded" reference(W0) constr(W) :=
  to_fits W; unfold W0; eapply iff_trans; [collect_fits|tauto].

Lemma Built_eq bb w w' : Built bb w → w = w' → Built bb w'.
Proof. by intros ? <-. Qed.

(** [Encode m = (Some bytes, err)] for the fluent encoders: their builder chain
    accumulates the message's format [W]. *)
Tactic Notation "solve_Encode" reference(W) :=
  intros; apply Built_Bytes; unfold W; eapply Built_eq;
  [repeat (eapply Built_step; [solve [eauto with emits]|]); apply Built_new
  |autorewrite with wire; reflexivity].

Lemma Encode_of_wire (r : bslice * error) (w : wire) :
  r = (Some w.1, w.2) → r.2 = w.2 ∧ (w.2 = None → r.1 = Some w.1).
Proof. by intros ->. Qed.

(** [b, err := m.embedded.Encode(); if err != nil { return nil, err }; ...] *)
Lemma Encode_embedded (r : bslice * error) (w w' : wire) (k : bslice → bslice * error) :
  r = (Some w.1, w.2) →
  (∀ b, w = (b, None) → k (Some b) = (Some (w ⋅ w').1, (w ⋅ w').2)) →
  (let '(b, err) := r in match err with Some _ => (None, err) | None => k b end).2 = (w ⋅ w').2 ∧
  ((w ⋅ w').2 = None →
   (let '(b, err) := r in match err with Some _ => (None, err) | None => k b end).1
   = Some (w ⋅ w').1).
Proof.
  intros ->. destruct w as [b [e|]]; [done|]. intros Hk. simpl. by rewrite (Hk b eq_refl).
Qed.

Ltac split_exists :=
  repeat match goal with
  | H : ∃ _, _ |- _ => destruct H
  | H : _ ∧ _ |- _ => destruct H
  end; subst.

(** From the fields read one after another to the message's format, and back. *)
Ltac fields_to_wire :=
  intros; split_exists; cbn;
  repeat match goal with
  | H : ?w = (?b, None) |- context [?w] => rewrite H
  end;
  unfold wapp; cbn; rewrite <- ?app_assoc, ?app_nil_r; reflexivity.

Ltac wire_to_fields H :=
  rewrite <- (wapp_nil_r _) in H; cbn in H; rewrite <- ?wapp_assoc in H;
  repeat (apply wapp_ok in H as (? & ? & -> & ? & H));
  apply wnil_ok in H as ->;
  repeat (do 3 eexists; split; [reflexivity|]; split; [eassumption|]);
  split; reflexivity.

(** A decoder that reads one field after another reads the format [W]. *)
Tactic Notation "parse_fields" reference(W) :=
  eapply Parses_iff; cycle 1;
  [repeat (eapply Parses_bind; [solve [eauto with parses]|intros ?]); apply Parses_ret
  |let m := fresh "m" in let bs := fresh "bs" in
   let H := fresh in
   intros m bs; unfold encoded, W; split;
   [fields_to_wire|intros H; destruct m; wire_to_fields H]].

(** The same for a struct that embeds another, of format [W0], as its first field. *)
Tactic Notation "parse_embedded" reference(W0) reference(W) :=
  eapply Parses_iff; cycle 1;
  [repeat (eapply Parses_bind; [solve [eauto with parses]|intros ?]); apply Parses_ret
  |let m := fresh "m" in let bs := fresh "bs" in
   let H := fresh in
   intros m bs; unfold encoded, W, W0; split;
   [fields_to_wire|intros H; destruct m as [[] ?]; wire_to_fields H]].

Lemma Decode_of_Parses {M} (rd : Reader M) (w : M → wire) (b : bslice) (m : M) :
  Parses rd (encoded w) →
  decode_with rd b = Ret (m, None) ↔ ∃ bs, w m = (bs, None) ∧ bs `prefix_of` sbytes b.
Proof. intros H. apply (decode_with_iff rd (encoded w)), H. Qed.

(** ** Properties *)

(** Whatever the builder writes without an error the reader reads back as the
    same value, for every kind of field, whatever was written before and whatever
    follows; a U24, whose top byte is not written, comes back modulo 2^24.  So does a
    sequence of any element type that keeps the interface's contract, through each of
    the length-prefixed formats, which the builder accepts exactly up to the format's
    number of elements. *)
Theorem fields_read_back `{GoAlloc} :
  (ReadsBack AddBool ReadBool id ∧
  ReadsBack AddU8 ReadU8 id ∧
  ReadsBack AddU16 ReadU16 id ∧
  ReadsBack AddU24 ReadU24 (λ u, to_u32 (Zmod.unsigned u mod 2 ^ 24)) ∧
  ReadsBack AddU32 ReadU32 id ∧
  ReadsBack AddU64 ReadU64 id ∧
  ReadsBack AddF32 ReadF32 id ∧
  ReadsBack AddU256 ReadU256 id ∧
  ReadsBack AddStr255 ReadStr255 id ∧
  ReadsBack AddBin32 ReadBin32 id ∧
  ReadsBack AddBin255 ReadBin255 id ∧
  ReadsBack AddBin64K ReadBin64K id ∧
  ReadsBack AddBin16M ReadBin16M id ∧
  ReadsBack AddPubkey ReadPubkey id ∧
  ReadsBack AddEllswiftPubkey ReadEllswiftPubkey id ∧
  ReadsBack AddSignature ReadSignature id) ∧
  ∀ T A (w : A → wire) `{SequenceSpec T A w} (dest : T),
    (ReadsBack AddSeq1 (ReadSeq1 dest) Some ∧ ReadsBack AddOptionT (ReadOptionT dest) Some ∧
     ReadsBack AddSeq255 (ReadSeq255 dest) Some ∧ ReadsBack AddSeq64K (ReadSeq64K dest) Some) ∧
    ∀ s bb, bb_err bb = None →
      (bb_err (AddSeq1 s bb) = None ↔ len (seq_elems s) ≤ 1) ∧
      (bb_err (AddOptionT s bb) = None ↔ len (seq_elems s) ≤ 1) ∧
      (bb_err (AddSeq255 s bb) = None ↔ len (seq_elems s) ≤ 255) ∧
      (bb_err (AddSeq64K s bb) = None ↔ len (seq_elems s) ≤ 65535).
Proof.
  split.
  { split_and!.
    4: { apply (ReadsBack_of _ _ _ w_u24 u24_grammar); [auto with emits|auto with parses|].
         intros u bs E. apply wbytes_ok in E as ->. unfold u24_grammar, to_u32.
         pose proof (Z.mod_pos_bound (Zmod.unsigned u) (2 ^ 24) ltac:(lia)) as Hu.
         rewrite bits.unsigned_of_Z_small by lia. change MaxU24 with (2 ^ 24 - 1). split; [lia|].
         symmetry. apply (le_put_mod 3 24); lia. }
    12: { apply (ReadsBack_of _ _ _ (w_bin 3 limit16m "AddBin16M: len > 2^24-1")
                   (encoded (w_bin 3 MaxU24 "AddBin16M: len > 2^24-1"))).
          - auto with emits.
          - apply Parses_ReadBin16M.
          - intros s bs [Hl ->]%w_bin_ok. apply w_bin_ok. split; [|done].
            change limit16m with 25 in Hl. change MaxU24 with 16777215. unfold id in *. lia. }
    all: eapply ReadsBack_encoded; [|solve [auto with parses]]; intros;
      first [solve [auto with emits]|apply Emits_AddArray]. }
  intros T A w ? ? dest.
  split.
  - split_and!; (eapply ReadsBack_seq; [intros; solve [auto with emits]|]).
    + apply Parses_ReadSeq1.
    + apply Parses_ReadOptionT.
    + apply Parses_ReadSeq255.
    + apply Parses_ReadSeq64K.
  - intros s bb He.
    assert (∀ op W, Emits op W → (bb_err (op bb) = None ↔ W.2 = None)) as Herr.
    { intros op W Hop. specialize (Hop bb). rewrite He in Hop. by destruct Hop as [_ ->]. }
    split_and!; (etransitivity; [apply Herr; eauto with emits|]);
      apply w_seq_fits, seq_elem_ok.
Qed.

Lemma fields_read_back_witness :
  let _ := exact_alloc in
  ReadsBack AddSeq255 (ReadSeq255 {| u32s := [] |}) Some ∧
  bb_err (AddSeq1 {| u32s := [to_u32 1; to_u32 2] |} NewBinaryBuilder) ≠ None.
Proof.
  intros Hx. destruct (proj2 fields_read_back _ _ _ _ _ {| u32s := [] |}) as ((_ & _ & H3 & _) & H2).
  split; [exact H3|]. intros E.
  apply (H2 {| u32s := [to_u32 1; to_u32 2] |} NewBinaryBuilder eq_refl) in E.
  revert E. vm_compute. intros E. by apply E.
Defined.
