(* ===== verification/CoreMessages.v ===== *)
(** * Common messages (core.go)

    A record, an [Encode] and a [Decode] per message, in the source's order.  The
    decoders assign every field of the receiver, so they do not look at it. *)
From S2P Require Import Prelude GoInts Constants Wire Builder Reader Sequences Codec.

Record SetupConnection := {
  sc_Protocol : Protocol;
  sc_MinVersion : u16;
  sc_MaxVersion : u16;
  sc_Flags : Flag;
  sc_EndpointPort : u16;
  sc_EndpointHost : gostring;
  sc_DeviceVendor : gostring;
  sc_DeviceHardwareVersion : gostring;
  sc_DeviceFirmware : gostring;
  sc_DeviceID : gostring
}.

Record SetupConnectionSuccess := {
  scs_UsedVersion : u16;
  scs_Flags : SuccessFlag
}.

Record SetupConnectionError := {
  sce_Flags : Flag;
  sce_ErrorCode : Error
}.

Record ChannelEndpointChanged := { cec_ChannelID : u32 }.

Record Reconnect := {
  rc_NewHost : gostring;
  rc_NewPort : u16
}.

Section Encoders.
Context `{GoAlloc}.

Definition SetupConnection_Encode (m : SetupConnection) : bslice * error :=
  let out := NewBinaryBuilder |> Grow 256 in
  let out := out
    |> AddU8 (sc_Protocol m)
    |> AddU16 (sc_MinVersion m)
    |> AddU16 (sc_MaxVersion m)
    |> AddU32 (sc_Flags m)
    |> AddStr255 (sc_EndpointHost m)
    |> AddU16 (sc_EndpointPort m)
    |> AddStr255 (sc_DeviceVendor m)
    |> AddStr255 (sc_DeviceHardwareVersion m)
    |> AddStr255 (sc_DeviceFirmware m)
    |> AddStr255 (sc_DeviceID m) in
  Bytes out.

Definition SetupConnectionSuccess_Encode (m : SetupConnectionSuccess) : bslice * error :=
  Bytes (NewBinaryBuilder
    |> Grow 6
    |> AddU16 (scs_UsedVersion m)
    |> AddU32 (scs_Flags m)).

Definition SetupConnectionError_Encode (m : SetupConnectionError) : bslice * error :=
  Bytes (NewBinaryBuilder
    |> Grow 259
    |> AddU32 (sce_Flags m)
    |> AddStr255 (sce_ErrorCode m)).

Definition ChannelEndpointChanged_Encode (m : ChannelEndpointChanged) : bslice * error :=
  Bytes (NewBinaryBuilder |> AddU32 (cec_ChannelID m)).

Definition Reconnect_Encode (m : Reconnect) : bslice * error :=
  Bytes (NewBinaryBuilder |> Grow 257 |> AddStr255 (rc_NewHost m) |> AddU16 (rc_NewPort m)).

End Encoders.

Definition SetupConnection_Decode (_ : SetupConnection) : bslice → outcome (SetupConnection * error) :=
  decode_with (
    Protocol ← ReadU8;
    MinVersion ← ReadU16;
    MaxVersion ← ReadU16;
    Flags ← ReadU32;
    EndpointHost ← ReadStr255;
    EndpointPort ← ReadU16;
    DeviceVendor ← ReadStr255;
    DeviceHardwareVersion ← ReadStr255;
    DeviceFirmware ← ReadStr255;
    DeviceID ← ReadStr255;
    mret {| sc_Protocol := Protocol; sc_MinVersion := MinVersion; sc_MaxVersion := MaxVersion;
            sc_Flags := Flags; sc_EndpointPort := EndpointPort; sc_EndpointHost := EndpointHost;
            sc_DeviceVendor := DeviceVendor; sc_DeviceHardwareVersion := DeviceHardwareVersion;
            sc_DeviceFirmware := DeviceFirmware; sc_DeviceID := DeviceID |}).

Definition SetupConnectionSuccess_Decode (_ : SetupConnectionSuccess) :
    bslice → outcome (SetupConnectionSuccess * error) :=
  decode_with (
    UsedVersion ← ReadU16;
    Flags ← ReadU32;
    mret {| scs_UsedVersion := UsedVersion; scs_Flags := Flags |}).

Definition SetupConnectionError_Decode (_ : SetupConnectionError) :
    bslice → outcome (SetupConnectionError * error) :=
  decode_with (
    Flags ← ReadU32;
    ErrorCode ← ReadStr255;
    mret {| sce_Flags := Flags; sce_ErrorCode := ErrorCode |}).

Definition ChannelEndpointChanged_Decode (_ : ChannelEndpointChanged) :
    bslice → outcome (ChannelEndpointChanged * error) :=
  decode_with (
    ChannelID ← ReadU32;
    mret {| cec_ChannelID := ChannelID |}).

Definition Reconnect_Decode (_ : Reconnect) : bslice → outcome (Reconnect * error) :=
  decode_with (
    NewHost ← ReadStr255;
    NewPort ← ReadU16;
    mret {| rc_NewHost := NewHost; rc_NewPort := NewPort |}).

(** ** Wire formats *)

Definition SetupConnection_wire (m : SetupConnection) : wire :=
  w_u8 (sc_Protocol m) ⋅ w_u16 (sc_MinVersion m) ⋅ w_u16 (sc_MaxVersion m) ⋅ w_u32 (sc_Flags m)
  ⋅ w_str255 (sc_EndpointHost m) ⋅ w_u16 (sc_EndpointPort m) ⋅ w_str255 (sc_DeviceVendor m)
  ⋅ w_str255 (sc_DeviceHardwareVersion m) ⋅ w_str255 (sc_DeviceFirmware m)
  ⋅ w_str255 (sc_DeviceID m).

Definition SetupConnectionSuccess_wire (m : SetupConnectionSuccess) : wire :=
  w_u16 (scs_UsedVersion m) ⋅ w_u32 (scs_Flags m).

Definition SetupConnectionError_wire (m : SetupConnectionError) : wire :=
  w_u32 (sce_Flags m) ⋅ w_str255 (sce_ErrorCode m).

Definition ChannelEndpointChanged_wire (m : ChannelEndpointChanged) : wire :=
  w_u32 (cec_ChannelID m).

Definition Reconnect_wire (m : Reconnect) : wire :=
  w_str255 (rc_NewHost m) ⋅ w_u16 (rc_NewPort m).

(** ** The interface and its contract *)

#[export] Instance SetupConnection_codable : Codable SetupConnection :=
  {| Encode _ := SetupConnection_Encode; Decode := SetupConnection_Decode |}.
#[export] Instance SetupConnectionSuccess_codable : Codable SetupConnectionSuccess :=
  {| Encode _ := SetupConnectionSuccess_Encode; Decode := SetupConnectionSuccess_Decode |}.
#[export] Instance SetupConnectionError_codable : Codable SetupConnectionError :=
  {| Encode _ := SetupConnectionError_Encode; Decode := SetupConnectionError_Decode |}.
#[export] Instance ChannelEndpointChanged_codable : Codable ChannelEndpointChanged :=
  {| Encode _ := ChannelEndpointChanged_Encode; Decode := ChannelEndpointChanged_Decode |}.
#[export] Instance Reconnect_codable : Codable Reconnect :=
  {| Encode _ := Reconnect_Encode; Decode := Reconnect_Decode |}.

Strategy expand [SetupConnection_codable SetupConnectionSuccess_codable SetupConnectionError_codable
  ChannelEndpointChanged_codable Reconnect_codable].


Lemma SetupConnection_Encode_wire `{GoAlloc} m :
  SetupConnection_Encode m = (Some (SetupConnection_wire m).1, (SetupConnection_wire m).2).
Proof. solve_Encode SetupConnection_wire. Qed.

Lemma SetupConnection_Decode_wire m0 b m :
  SetupConnection_Decode m0 b = Ret (m, None) ↔
  ∃ bs, SetupConnection_wire m = (bs, None) ∧ bs `prefix_of` sbytes b.
Proof. apply Decode_of_Parses. parse_fields SetupConnection_wire. Qed.

Lemma SetupConnectionSuccess_Encode_wire `{GoAlloc} m :
  SetupConnectionSuccess_Encode m =
  (Some (SetupConnectionSuccess_wire m).1, (SetupConnectionSuccess_wire m).2).
Proof. solve_Encode SetupConnectionSuccess_wire. Qed.

Lemma SetupConnectionSuccess_Decode_wire m0 b m :
  SetupConnectionSuccess_Decode m0 b = Ret (m, None) ↔
  ∃ bs, SetupConnectionSuccess_wire m = (bs, None) ∧ bs `prefix_of` sbytes b.
Proof. apply Decode_of_Parses. parse_fields SetupConnectionSuccess_wire. Qed.

Lemma SetupConnectionError_Encode_wire `{GoAlloc} m :
  SetupConnectionError_Encode m =
  (Some (SetupConnectionError_wire m).1, (SetupConnectionError_wire m).2).
Proof. solve_Encode SetupConnectionError_wire. Qed.

Lemma SetupConnectionError_Decode_wire m0 b m :
  SetupConnectionError_Decode m0 b = Ret (m, None) ↔
  ∃ bs, SetupConnectionError_wire m = (bs, None) ∧ bs `prefix_of` sbytes b.
Proof. apply Decode_of_Parses. parse_fields SetupConnectionError_wire. Qed.

Lemma ChannelEndpointChanged_Encode_wire `{GoAlloc} m :
  ChannelEndpointChanged_Encode m =
  (Some (ChannelEndpointChanged_wire m).1, (ChannelEndpointChanged_wire m).2).
Proof. solve_Encode ChannelEndpointChanged_wire. Qed.

Lemma ChannelEndpointChanged_Decode_wire m0 b m :
  ChannelEndpointChanged_Decode m0 b = Ret (m, None) ↔
  ∃ bs, ChannelEndpointChanged_wire m = (bs, None) ∧ bs `prefix_of` sbytes b.
Proof. apply Decode_of_Parses. parse_fields ChannelEndpointChanged_wire. Qed.

Lemma Reconnect_Encode_wire `{GoAlloc} m :
  Reconnect_Encode m = (Some (Reconnect_wire m).1, (Reconnect_wire m).2).
Proof. solve_Encode Reconnect_wire. Qed.

Lemma Reconnect_Decode_wire m0 b m :
  Reconnect_Decode m0 b = Ret (m, None) ↔
  ∃ bs, Reconnect_wire m = (bs, None) ∧ bs `prefix_of` sbytes b.
Proof. apply Decode_of_Parses. parse_fields Reconnect_wire. Qed.

#[export] Instance SetupConnection_codec : WireCodec SetupConnection := {|
  wire_of := SetupConnection_wire;
  Encode_wire _ m := Encode_of_wire _ _ (SetupConnection_Encode_wire m);
  Decode_wire := SetupConnection_Decode_wire |}.

#[export] Instance SetupConnectionSuccess_codec : WireCodec SetupConnectionSuccess := {|
  wire_of := SetupConnectionSuccess_wire;
  Encode_wire _ m := Encode_of_wire _ _ (SetupConnectionSuccess_Encode_wire m);
  Decode_wire := SetupConnectionSuccess_Decode_wire |}.

#[export] Instance SetupConnectionError_codec : WireCodec SetupConnectionError := {|
  wire_of := SetupConnectionError_wire;
  Encode_wire _ m := Encode_of_wire _ _ (SetupConnectionError_Encode_wire m);
  Decode_wire := SetupConnectionError_Decode_wire |}.

#[export] Instance ChannelEndpointChanged_codec : WireCodec ChannelEndpointChanged := {|
  wire_of := ChannelEndpointChanged_wire;
  Encode_wire _ m := Encode_of_wire _ _ (ChannelEndpointChanged_Encode_wire m);
  Decode_wire := ChannelEndpointChanged_Decode_wire |}.

#[export] Instance Reconnect_codec : WireCodec Reconnect := {|
  wire_of := Reconnect_wire;
  Encode_wire _ m := Encode_of_wire _ _ (Reconnect_Encode_wire m);
  Decode_wire := Reconnect_Decode_wire |}.

(** ** Properties *)

(** C10: the encoder and the decoder of every common message are inverse.  Encoding
    succeeds exactly when each string has at most 255 bytes; the encoding, followed
    by any bytes, decodes to the message whatever the receiver held before; a buffer
    that decodes without error starts with the encoding of the message it decodes
    to; and no encoding is a prefix of another message's. *)
Theorem core_messages_codec `{GoAlloc} :
  CodecCorrect SetupConnection_Encode SetupConnection_Decode (λ m,
    len (sc_EndpointHost m) ≤ 255 ∧ len (sc_DeviceVendor m) ≤ 255 ∧
    len (sc_DeviceHardwareVersion m) ≤ 255 ∧ len (sc_DeviceFirmware m) ≤ 255 ∧
    len (sc_DeviceID m) ≤ 255) ∧
  CodecCorrect SetupConnectionSuccess_Encode SetupConnectionSuccess_Decode (λ _, True) ∧
  CodecCorrect SetupConnectionError_Encode SetupConnectionError_Decode
    (λ m, len (sce_ErrorCode m) ≤ 255) ∧
  CodecCorrect ChannelEndpointChanged_Encode ChannelEndpointChanged_Decode (λ _, True) ∧
  CodecCorrect Reconnect_Encode Reconnect_Decode (λ m, len (rc_NewHost m) ≤ 255).
Proof.
  split_and!; [solve_codec_correct SetupConnection_wire
    |solve_codec_correct SetupConnectionSuccess_wire|solve_codec_correct SetupConnectionError_wire
    |solve_codec_correct ChannelEndpointChanged_wire|solve_codec_correct Reconnect_wire].
Qed.
