(* ===== verification/MiningMessages.v ===== *)
(** * Mining protocol messages (mining.go)

    A record, an [Encode] and a [Decode] per message, in the source's order; a
    struct embedded in another is a field of it.  The wire formats and the proofs
    that the codecs implement them are in [MiningCodecs.v]; [SetCustomMiningJob],
    whose two halves do not agree, is in [CustomJob.v]. *)
From S2P Require Import Prelude GoInts Constants Wire Builder Reader Sequences Codec.

(** ** Flags *)

Definition RequiresStandardJobsFlag : Flag := to_u32 1.
Definition RequiresWorkSelectionFlag : Flag := to_u32 2.
Definition RequiresVersionRollingFlag : Flag := to_u32 4.
Definition RequiresFixedVersionFlag : SuccessFlag := to_u32 1.
Definition RequiresExtendedChannelsFlag : SuccessFlag := to_u32 2.

(** ** Messages *)

Record OpenStandardMiningChannel := {
  osmc_RequestID : u32;
  osmc_UserIdentity : gostring;
  osmc_NominalHashRate : float32;
  osmc_MaxTarget : U256
}.

Record OpenStandardMiningChannelSuccess := {
  osmcs_RequestID : u32;
  osmcs_ChannelID : u32;
  osmcs_Target : U256;
  osmcs_ExtranoncePrefix : list u8;
  osmcs_GroupChannelID : u32
}.

Record OpenExtendedMiningChannel := {
  oemc_OpenStandardMiningChannel : OpenStandardMiningChannel;   (* embedded *)
  oemc_MinExtranonceSize : u16
}.

Record OpenExtendedMiningChannelSuccess := {
  oemcs_OpenStandardMiningChannelSuccess : OpenStandardMiningChannelSuccess;   (* embedded *)
  oemcs_ExtranonceSize : u16
}.

Record OpenMiningChannelError := {
  omce_RequestID : u32;
  omce_ErrorCode : Error
}.

Record UpdateChannel := {
  uc_ChannelID : u32;
  uc_NominalHashRate : float32;
  uc_MaxTarget : U256
}.

Record UpdateChannelError := {
  uce_ChannelID : u32;
  uce_ErrorCode : Error
}.

Record CloseChannel := {
  cc_ChannelID : u32;
  cc_ReasonCode : gostring
}.

Record SetExtranoncePrefix := {
  sep_ChannelID : u32;
  sep_ExtranoncePrefix : list u8
}.

Record SubmitSharesStandard := {
  sss_ChannelID : u32;
  sss_Sequence : u32;
  sss_JobID : u32;
  sss_Nonce : u32;
  sss_Time : u32;
  sss_Version : u32
}.

Record SubmitSharesExtended := {
  ssx_SubmitSharesStandard : SubmitSharesStandard;   (* embedded *)
  ssx_Extranonce : list u8
}.

Record SubmitSharesSuccess := {
  ssok_ChannelID : u32;
  ssok_LastSequenceNumber : u32;
  ssok_NewSubmitsAcceptedCount : u32;
  ssok_NewSharesSum : u64
}.

Record SubmitSharesError := {
  sse_ChannelID : u32;
  sse_SequenceNumber : u32;
  sse_ErrorCode : Error
}.

Record NewMiningJob := {
  nmj_ChannelID : u32;
  nmj_JobID : u32;
  nmj_MinTime : list u32;
  nmj_Version : u32;
  nmj_MerkleRoot : U256
}.

Record NewExtendedMiningJob := {
  nemj_ChannelID : u32;
  nemj_JobID : u32;
  nemj_MinTime : list u32;
  nemj_Version : u32;
  nemj_VersionRollingAllowed : bool;
  nemj_MerklePath : list U256;
  nemj_CoinbasePrefix : list u8;
  nemj_CoinbaseSuffix : list u8
}.

Record SetNewPrevHash := {
  snph_ChannelID : u32;
  snph_JobID : u32;
  snph_PrevHash : U256;
  snph_MinTime : u32;
  snph_Bits : u32
}.

Record SetCustomMiningJobSuccess := {
  scmjs_ChannelID : u32;
  scmjs_RequestID : u32;
  scmjs_JobID : u32
}.

Record SetCustomMiningJobError := {
  scmje_ChannelID : u32;
  scmje_RequestID : u32;
  scmje_ErrorCode : Error
}.

Record SetTarget := {
  st_ChannelID : u32;
  st_MaxTarget : U256
}.

Record SetGroupChannel := {
  sgc_GroupChannelID : u32;
  sgc_ChannelIDs : list u32
}.

(** ** Encoders *)

Section Encoders.
Context `{GoAlloc}.

Definition OpenStandardMiningChannel_Encode (m : OpenStandardMiningChannel) : bslice * error :=
  Bytes (NewBinaryBuilder
    |> Grow 64
    |> AddU32 (osmc_RequestID m)
    |> AddStr255 (osmc_UserIdentity m)
    |> AddF32 (osmc_NominalHashRate m)
    |> AddU256 (osmc_MaxTarget m)).

Definition OpenStandardMiningChannelSuccess_Encode (m : OpenStandardMiningChannelSuccess) : bslice * error :=
  Bytes (NewBinaryBuilder
    |> Grow 72
    |> AddU32 (osmcs_RequestID m)
    |> AddU32 (osmcs_ChannelID m)
    |> AddU256 (osmcs_Target m)
    |> AddBin32 (osmcs_ExtranoncePrefix m)
    |> AddU32 (osmcs_GroupChannelID m)).

Definition OpenExtendedMiningChannel_Encode (m : OpenExtendedMiningChannel) : bslice * error :=
  let '(b, err) := OpenStandardMiningChannel_Encode (oemc_OpenStandardMiningChannel m) in
  match err with
  | Some _ => (None, err)
  | None =>
      Bytes (NewBinaryBuilder
        |> Grow 72
        |> AddBytes (sbytes b)
        |> AddU16 (oemc_MinExtranonceSize m))
  end.

(** The embedded fields are written one by one, the new one among them. *)
Definition OpenExtendedMiningChannelSuccess_Encode (m : OpenExtendedMiningChannelSuccess) :
    bslice * error :=
  let e := oemcs_OpenStandardMiningChannelSuccess m in
  Bytes (NewBinaryBuilder
    |> Grow 80
    |> AddU32 (osmcs_RequestID e)
    |> AddU32 (osmcs_ChannelID e)
    |> AddU256 (osmcs_Target e)
    |> AddU16 (oemcs_ExtranonceSize m)
    |> AddBin32 (osmcs_ExtranoncePrefix e)
    |> AddU32 (osmcs_GroupChannelID e)).

Definition OpenMiningChannelError_Encode (m : OpenMiningChannelError) : bslice * error :=
  Bytes (NewBinaryBuilder
    |> Grow 24
    |> AddU32 (omce_RequestID m)
    |> AddStr255 (omce_ErrorCode m)).

Definition UpdateChannel_Encode (m : UpdateChannel) : bslice * error :=
  Bytes (NewBinaryBuilder
    |> Grow 40
    |> AddU32 (uc_ChannelID m)
    |> AddF32 (uc_NominalHashRate m)
    |> AddU256 (uc_MaxTarget m)).

Definition UpdateChannelError_Encode (m : UpdateChannelError) : bslice * error :=
  Bytes (NewBinaryBuilder
    |> Grow 24
    |> AddU32 (uce_ChannelID m)
    |> AddStr255 (uce_ErrorCode m)).

Definition CloseChannel_Encode (m : CloseChannel) : bslice * error :=
  Bytes (NewBinaryBuilder
    |> Grow 24
    |> AddU32 (cc_ChannelID m)
    |> AddStr255 (cc_ReasonCode m)).

Definition SetExtranoncePrefix_Encode (m : SetExtranoncePrefix) : bslice * error :=
  Bytes (NewBinaryBuilder
    |> Grow 32
    |> AddU32 (sep_ChannelID m)
    |> AddBin32 (sep_ExtranoncePrefix m)).

Definition SubmitSharesStandard_Encode (m : SubmitSharesStandard) : bslice * error :=
  Bytes (NewBinaryBuilder
    |> Grow 24
    |> AddU32 (sss_ChannelID m)
    |> AddU32 (sss_Sequence m)
    |> AddU32 (sss_JobID m)
    |> AddU32 (sss_Nonce m)
    |> AddU32 (sss_Time m)
    |> AddU32 (sss_Version m)).

Definition SubmitSharesExtended_Encode (m : SubmitSharesExtended) : bslice * error :=
  let out := NewBinaryBuilder |> Grow 48 in
  let '(b, err) := SubmitSharesStandard_Encode (ssx_SubmitSharesStandard m) in
  match err with
  | Some _ => (None, err)
  | None => Bytes (out |> AddBytes (sbytes b) |> AddBin32 (ssx_Extranonce m))
  end.

Definition SubmitSharesSuccess_Encode (m : SubmitSharesSuccess) : bslice * error :=
  Bytes (NewBinaryBuilder
    |> Grow 24
    |> AddU32 (ssok_ChannelID m)
    |> AddU32 (ssok_LastSequenceNumber m)
    |> AddU32 (ssok_NewSubmitsAcceptedCount m)
    |> AddU64 (ssok_NewSharesSum m)).

Definition SubmitSharesError_Encode (m : SubmitSharesError) : bslice * error :=
  Bytes (NewBinaryBuilder
    |> Grow 24
    |> AddU32 (sse_ChannelID m)
    |> AddU32 (sse_SequenceNumber m)
    |> AddStr255 (sse_ErrorCode m)).

Definition NewMiningJob_Encode (m : NewMiningJob) : bslice * error :=
  Bytes (NewBinaryBuilder
    |> Grow 72
    |> AddU32 (nmj_ChannelID m)
    |> AddU32 (nmj_JobID m)
    |> AddOptionT (Build_U32Sequence (nmj_MinTime m))
    |> AddU32 (nmj_Version m)
    |> AddU256 (nmj_MerkleRoot m)).

Definition NewExtendedMiningJob_Encode (m : NewExtendedMiningJob) : bslice * error :=
  Bytes (NewBinaryBuilder
    |> Grow 255
    |> AddU32 (nemj_ChannelID m)
    |> AddU32 (nemj_JobID m)
    |> AddOptionT (Build_U32Sequence (nemj_MinTime m))
    |> AddU32 (nemj_Version m)
    |> AddBool (nemj_VersionRollingAllowed m)
    |> AddSeq255 (Build_U256Sequence (nemj_MerklePath m))
    |> AddBin64K (nemj_CoinbasePrefix m)
    |> AddBin64K (nemj_CoinbaseSuffix m)).

Definition SetNewPrevHash_Encode (m : SetNewPrevHash) : bslice * error :=
  Bytes (NewBinaryBuilder
    |> Grow 48
    |> AddU32 (snph_ChannelID m)
    |> AddU32 (snph_JobID m)
    |> AddU256 (snph_PrevHash m)
    |> AddU32 (snph_MinTime m)
    |> AddU32 (snph_Bits m)).

Definition SetCustomMiningJobSuccess_Encode (m : SetCustomMiningJobSuccess) : bslice * error :=
  Bytes (NewBinaryBuilder
    |> Grow 12
    |> AddU32 (scmjs_ChannelID m)
    |> AddU32 (scmjs_RequestID m)
    |> AddU32 (scmjs_JobID m)).

Definition SetCustomMiningJobError_Encode (m : SetCustomMiningJobError) : bslice * error :=
  Bytes (NewBinaryBuilder
    |> Grow 271
    |> AddU32 (scmje_ChannelID m)
    |> AddU32 (scmje_RequestID m)
    |> AddStr255 (scmje_ErrorCode m)).

Definition SetTarget_Encode (m : SetTarget) : bslice * error :=
  Bytes (NewBinaryBuilder
    |> Grow 36
    |> AddU32 (st_ChannelID m)
    |> AddU256 (st_MaxTarget m)).

Definition SetGroupChannel_Encode (m : SetGroupChannel) : bslice * error :=
  Bytes (NewBinaryBuilder
    |> Grow 32
    |> AddU32 (sgc_GroupChannelID m)
    |> AddSeq64K (Build_U32Sequence (sgc_ChannelIDs m))).

End Encoders.

(** ** Decoders *)

(** [[]uint32(r.ReadOptionT(U32Sequence{}).(U32Sequence))] *)
Definition ReadOptionU32 : Reader (list u32) :=
  s ← (o ← ReadOptionT {| u32s := [] |}; type_assert o);
  mret (u32s s).

(** [[]U256(r.ReadSeq255(U256Sequence{}).(U256Sequence))] *)
Definition ReadSeq255U256 : Reader (list U256) :=
  s ← (o ← ReadSeq255 {| u256s := [] |}; type_assert o);
  mret (u256s s).

(** [l := r.ReadU16(); for range l { ids = append(ids, r.ReadU32()) }] *)
Definition ReadU16Counted : Reader (list u32) :=
  l ← ReadU16;
  read_times ReadU32 (Z.to_nat (u16_int l)).

Definition OpenStandardMiningChannel_Decode (_ : OpenStandardMiningChannel) :
    bslice → outcome (OpenStandardMiningChannel * error) :=
  decode_with (
    RequestID ← ReadU32;
    UserIdentity ← ReadStr255;
    NominalHashRate ← ReadF32;
    MaxTarget ← ReadU256;
    mret {| osmc_RequestID := RequestID; osmc_UserIdentity := UserIdentity;
            osmc_NominalHashRate := NominalHashRate; osmc_MaxTarget := MaxTarget |}).

Definition OpenStandardMiningChannelSuccess_Decode (_ : OpenStandardMiningChannelSuccess) :
    bslice → outcome (OpenStandardMiningChannelSuccess * error) :=
  decode_with (
    RequestID ← ReadU32;
    ChannelID ← ReadU32;
    Target ← ReadU256;
    ExtranoncePrefix ← ReadBin32;
    GroupChannelID ← ReadU32;
    mret {| osmcs_RequestID := RequestID; osmcs_ChannelID := ChannelID;
            osmcs_Target := Target; osmcs_ExtranoncePrefix := ExtranoncePrefix;
            osmcs_GroupChannelID := GroupChannelID |}).

Definition OpenExtendedMiningChannel_Decode (_ : OpenExtendedMiningChannel) :
    bslice → outcome (OpenExtendedMiningChannel * error) :=
  decode_with (
    RequestID ← ReadU32;
    UserIdentity ← ReadStr255;
    NominalHashRate ← ReadF32;
    MaxTarget ← ReadU256;
    MinExtranonceSize ← ReadU16;
    mret {| oemc_OpenStandardMiningChannel :=
              {| osmc_RequestID := RequestID; osmc_UserIdentity := UserIdentity;
                 osmc_NominalHashRate := NominalHashRate; osmc_MaxTarget := MaxTarget |};
            oemc_MinExtranonceSize := MinExtranonceSize |}).

Definition OpenExtendedMiningChannelSuccess_Decode (_ : OpenExtendedMiningChannelSuccess) :
    bslice → outcome (OpenExtendedMiningChannelSuccess * error) :=
  decode_with (
    RequestID ← ReadU32;
    ChannelID ← ReadU32;
    Target ← ReadU256;
    ExtranonceSize ← ReadU16;
    ExtranoncePrefix ← ReadBin32;
    GroupChannelID ← ReadU32;
    mret {| oemcs_OpenStandardMiningChannelSuccess :=
              {| osmcs_RequestID := RequestID; osmcs_ChannelID := ChannelID;
                 osmcs_Target := Target; osmcs_ExtranoncePrefix := ExtranoncePrefix;
                 osmcs_GroupChannelID := GroupChannelID |};
            oemcs_ExtranonceSize := ExtranonceSize |}).

Definition OpenMiningChannelError_Decode (_ : OpenMiningChannelError) :
    bslice → outcome (OpenMiningChannelError * error) :=
  decode_with (
    RequestID ← ReadU32;
    ErrorCode ← ReadStr255;
    mret {| omce_RequestID := RequestID; omce_ErrorCode := ErrorCode |}).

Definition UpdateChannel_Decode (_ : UpdateChannel) :
    bslice → outcome (UpdateChannel * error) :=
  decode_with (
    ChannelID ← ReadU32;
    NominalHashRate ← ReadF32;
    MaxTarget ← ReadU256;
    mret {| uc_ChannelID := ChannelID; uc_NominalHashRate := NominalHashRate;
            uc_MaxTarget := MaxTarget |}).

Definition UpdateChannelError_Decode (_ : UpdateChannelError) :
    bslice → outcome (UpdateChannelError * error) :=
  decode_with (
    ChannelID ← ReadU32;
    ErrorCode ← ReadStr255;
    mret {| uce_ChannelID := ChannelID; uce_ErrorCode := ErrorCode |}).

Definition CloseChannel_Decode (_ : CloseChannel) :
    bslice → outcome (CloseChannel * error) :=
  decode_with (
    ChannelID ← ReadU32;
    ReasonCode ← ReadStr255;
    mret {| cc_ChannelID := ChannelID; cc_ReasonCode := ReasonCode |}).

Definition SetExtranoncePrefix_Decode (_ : SetExtranoncePrefix) :
    bslice → outcome (SetExtranoncePrefix * error) :=
  decode_with (
    ChannelID ← ReadU32;
    ExtranoncePrefix ← ReadBin32;
    mret {| sep_ChannelID := ChannelID; sep_ExtranoncePrefix := ExtranoncePrefix |}).

Definition SubmitSharesStandard_Decode (_ : SubmitSharesStandard) :
    bslice → outcome (SubmitSharesStandard * error) :=
  decode_with (
    ChannelID ← ReadU32;
    Sequence ← ReadU32;
    JobID ← ReadU32;
    Nonce ← ReadU32;
    Time ← ReadU32;
    Version ← ReadU32;
    mret {| sss_ChannelID := ChannelID; sss_Sequence := Sequence; sss_JobID := JobID;
            sss_Nonce := Nonce; sss_Time := Time; sss_Version := Version |}).

Definition SubmitSharesExtended_Decode (_ : SubmitSharesExtended) :
    bslice → outcome (SubmitSharesExtended * error) :=
  decode_with (
    ChannelID ← ReadU32;
    Sequence ← ReadU32;
    JobID ← ReadU32;
    Nonce ← ReadU32;
    Time ← ReadU32;
    Version ← ReadU32;
    Extranonce ← ReadBin32;
    mret {| ssx_SubmitSharesStandard :=
              {| sss_ChannelID := ChannelID; sss_Sequence := Sequence; sss_JobID := JobID;
                 sss_Nonce := Nonce; sss_Time := Time; sss_Version := Version |};
            ssx_Extranonce := Extranonce |}).

Definition SubmitSharesSuccess_Decode (_ : SubmitSharesSuccess) :
    bslice → outcome (SubmitSharesSuccess * error) :=
  decode_with (
    ChannelID ← ReadU32;
    LastSequenceNumber ← ReadU32;
    NewSubmitsAcceptedCount ← ReadU32;
    NewSharesSum ← ReadU64;
    mret {| ssok_ChannelID := ChannelID; ssok_LastSequenceNumber := LastSequenceNumber;
            ssok_NewSubmitsAcceptedCount := NewSubmitsAcceptedCount;
            ssok_NewSharesSum := NewSharesSum |}).

Definition SubmitSharesError_Decode (_ : SubmitSharesError) :
    bslice → outcome (SubmitSharesError * error) :=
  decode_with (
    ChannelID ← ReadU32;
    SequenceNumber ← ReadU32;
    ErrorCode ← ReadStr255;
    mret {| sse_ChannelID := ChannelID; sse_SequenceNumber := SequenceNumber;
            sse_ErrorCode := ErrorCode |}).

Definition NewMiningJob_Decode (_ : NewMiningJob) :
    bslice → outcome (NewMiningJob * error) :=
  decode_with (
    ChannelID ← ReadU32;
    JobID ← ReadU32;
    MinTime ← ReadOptionU32;
    Version ← ReadU32;
    MerkleRoot ← ReadU256;
    mret {| nmj_ChannelID := ChannelID; nmj_JobID := JobID; nmj_MinTime := MinTime;
            nmj_Version := Version; nmj_MerkleRoot := MerkleRoot |}).

Definition NewExtendedMiningJob_Decode (_ : NewExtendedMiningJob) :
    bslice → outcome (NewExtendedMiningJob * error) :=
  decode_with (
    ChannelID ← ReadU32;
    JobID ← ReadU32;
    MinTime ← ReadOptionU32;
    Version ← ReadU32;
    VersionRollingAllowed ← ReadBool;
    MerklePath ← ReadSeq255U256;
    CoinbasePrefix ← ReadBin64K;
    CoinbaseSuffix ← ReadBin64K;
    mret {| nemj_ChannelID := ChannelID; nemj_JobID := JobID; nemj_MinTime := MinTime;
            nemj_Version := Version; nemj_VersionRollingAllowed := VersionRollingAllowed;
            nemj_MerklePath := MerklePath; nemj_CoinbasePrefix := CoinbasePrefix;
            nemj_CoinbaseSuffix := CoinbaseSuffix |}).

Definition SetNewPrevHash_Decode (_ : SetNewPrevHash) :
    bslice → outcome (SetNewPrevHash * error) :=
  decode_with (
    ChannelID ← ReadU32;
    JobID ← ReadU32;
    PrevHash ← ReadU256;
    MinTime ← ReadU32;
    Bits ← ReadU32;
    mret {| snph_ChannelID := ChannelID; snph_JobID := JobID; snph_PrevHash := PrevHash;
            snph_MinTime := MinTime; snph_Bits := Bits |}).

Definition SetCustomMiningJobSuccess_Decode (_ : SetCustomMiningJobSuccess) :
    bslice → outcome (SetCustomMiningJobSuccess * error) :=
  decode_with (
    ChannelID ← ReadU32;
    RequestID ← ReadU32;
    JobID ← ReadU32;
    mret {| scmjs_ChannelID := ChannelID; scmjs_RequestID := RequestID; scmjs_JobID := JobID |}).

Definition SetCustomMiningJobError_Decode (_ : SetCustomMiningJobError) :
    bslice → outcome (SetCustomMiningJobError * error) :=
  decode_with (
    ChannelID ← ReadU32;
    RequestID ← ReadU32;
    ErrorCode ← ReadStr255;
    mret {| scmje_ChannelID := ChannelID; scmje_RequestID := RequestID;
            scmje_ErrorCode := ErrorCode |}).

Definition SetTarget_Decode (_ : SetTarget) :
    bslice → outcome (SetTarget * error) :=
  decode_with (
    ChannelID ← ReadU32;
    MaxTarget ← ReadU256;
    mret {| st_ChannelID := ChannelID; st_MaxTarget := MaxTarget |}).

Definition SetGroupChannel_Decode (_ : SetGroupChannel) :
    bslice → outcome (SetGroupChannel * error) :=
  decode_with (
    GroupChannelID ← ReadU32;
    ChannelIDs ← ReadU16Counted;
    mret {| sgc_GroupChannelID := GroupChannelID; sgc_ChannelIDs := ChannelIDs |}).

(** ** The interface *)

#[export] Instance OpenStandardMiningChannel_codable : Codable OpenStandardMiningChannel :=
  {| Encode _ := OpenStandardMiningChannel_Encode; Decode := OpenStandardMiningChannel_Decode |}.
#[export] Instance OpenStandardMiningChannelSuccess_codable : Codable OpenStandardMiningChannelSuccess :=
  {| Encode _ := OpenStandardMiningChannelSuccess_Encode; Decode := OpenStandardMiningChannelSuccess_Decode |}.
#[export] Instance OpenExtendedMiningChannel_codable : Codable OpenExtendedMiningChannel :=
  {| Encode _ := OpenExtendedMiningChannel_Encode; Decode := OpenExtendedMiningChannel_Decode |}.
#[export] Instance OpenExtendedMiningChannelSuccess_codable : Codable OpenExtendedMiningChannelSuccess :=
  {| Encode _ := OpenExtendedMiningChannelSuccess_Encode; Decode := OpenExtendedMiningChannelSuccess_Decode |}.
#[export] Instance OpenMiningChannelError_codable : Codable OpenMiningChannelError :=
  {| Encode _ := OpenMiningChannelError_Encode; Decode := OpenMiningChannelError_Decode |}.
#[export] Instance UpdateChannel_codable : Codable UpdateChannel :=
  {| Encode _ := UpdateChannel_Encode; Decode := UpdateChannel_Decode |}.
#[export] Instance UpdateChannelError_codable : Codable UpdateChannelError :=
  {| Encode _ := UpdateChannelError_Encode; Decode := UpdateChannelError_Decode |}.
#[export] Instance CloseChannel_codable : Codable CloseChannel :=
  {| Encode _ := CloseChannel_Encode; Decode := CloseChannel_Decode |}.
#[export] Instance SetExtranoncePrefix_codable : Codable SetExtranoncePrefix :=
  {| Encode _ := SetExtranoncePrefix_Encode; Decode := SetExtranoncePrefix_Decode |}.
#[export] Instance SubmitSharesStandard_codable : Codable SubmitSharesStandard :=
  {| Encode _ := SubmitSharesStandard_Encode; Decode := SubmitSharesStandard_Decode |}.
#[export] Instance SubmitSharesExtended_codable : Codable SubmitSharesExtended :=
  {| Encode _ := SubmitSharesExtended_Encode; Decode := SubmitSharesExtended_Decode |}.
#[export] Instance SubmitSharesSuccess_codable : Codable SubmitSharesSuccess :=
  {| Encode _ := SubmitSharesSuccess_Encode; Decode := SubmitSharesSuccess_Decode |}.
#[export] Instance SubmitSharesError_codable : Codable SubmitSharesError :=
  {| Encode _ := SubmitSharesError_Encode; Decode := SubmitSharesError_Decode |}.
#[export] Instance NewMiningJob_codable : Codable NewMiningJob :=
  {| Encode _ := NewMiningJob_Encode; Decode := NewMiningJob_Decode |}.
#[export] Instance NewExtendedMiningJob_codable : Codable NewExtendedMiningJob :=
  {| Encode _ := NewExtendedMiningJob_Encode; Decode := NewExtendedMiningJob_Decode |}.
#[export] Instance SetNewPrevHash_codable : Codable SetNewPrevHash :=
  {| Encode _ := SetNewPrevHash_Encode; Decode := SetNewPrevHash_Decode |}.
#[export] Instance SetCustomMiningJobSuccess_codable : Codable SetCustomMiningJobSuccess :=
  {| Encode _ := SetCustomMiningJobSuccess_Encode; Decode := SetCustomMiningJobSuccess_Decode |}.
#[export] Instance SetCustomMiningJobError_codable : Codable SetCustomMiningJobError :=
  {| Encode _ := SetCustomMiningJobError_Encode; Decode := SetCustomMiningJobError_Decode |}.
#[export] Instance SetTarget_codable : Codable SetTarget :=
  {| Encode _ := SetTarget_Encode; Decode := SetTarget_Decode |}.
#[export] Instance SetGroupChannel_codable : Codable SetGroupChannel :=
  {| Encode _ := SetGroupChannel_Encode; Decode := SetGroupChannel_Decode |}.

Strategy expand [OpenStandardMiningChannel_codable OpenStandardMiningChannelSuccess_codable
  OpenExtendedMiningChannel_codable OpenExtendedMiningChannelSuccess_codable
  OpenMiningChannelError_codable UpdateChannel_codable UpdateChannelError_codable
  CloseChannel_codable SetExtranoncePrefix_codable SubmitSharesStandard_codable
  SubmitSharesExtended_codable SubmitSharesSuccess_codable SubmitSharesError_codable
  NewMiningJob_codable NewExtendedMiningJob_codable SetNewPrevHash_codable
  SetCustomMiningJobSuccess_codable SetCustomMiningJobError_codable SetTarget_codable
  SetGroupChannel_codable].

