(* ===== verification/MiningCodecs.v ===== *)
(** * The mining messages implement their wire formats (mining.go)

    The format of each message, and the proof that its [Encode] and [Decode]
    implement it: the [WireCodec] instances. *)
From S2P Require Import Prelude GoInts Constants Wire Builder Reader Sequences Codec MiningMessages.

(** ** Wire formats *)

Definition OpenStandardMiningChannel_wire (m : OpenStandardMiningChannel) : wire :=
  w_u32 (osmc_RequestID m) ⋅ w_str255 (osmc_UserIdentity m) ⋅ w_u32 (osmc_NominalHashRate m)
  ⋅ w_array (osmc_MaxTarget m).

Definition OpenStandardMiningChannelSuccess_wire (m : OpenStandardMiningChannelSuccess) : wire :=
  w_u32 (osmcs_RequestID m) ⋅ w_u32 (osmcs_ChannelID m) ⋅ w_array (osmcs_Target m)
  ⋅ w_bin32 (osmcs_ExtranoncePrefix m) ⋅ w_u32 (osmcs_GroupChannelID m).

Definition OpenExtendedMiningChannel_wire (m : OpenExtendedMiningChannel) : wire :=
  OpenStandardMiningChannel_wire (oemc_OpenStandardMiningChannel m)
  ⋅ w_u16 (oemc_MinExtranonceSize m).

Definition OpenExtendedMiningChannelSuccess_wire (m : OpenExtendedMiningChannelSuccess) : wire :=
  let e := oemcs_OpenStandardMiningChannelSuccess m in
  w_u32 (osmcs_RequestID e) ⋅ w_u32 (osmcs_ChannelID e) ⋅ w_array (osmcs_Target e)
  ⋅ w_u16 (oemcs_ExtranonceSize m) ⋅ w_bin32 (osmcs_ExtranoncePrefix e)
  ⋅ w_u32 (osmcs_GroupChannelID e).

Definition OpenMiningChannelError_wire (m : OpenMiningChannelError) : wire :=
  w_u32 (omce_RequestID m) ⋅ w_str255 (omce_ErrorCode m).

Definition UpdateChannel_wire (m : UpdateChannel) : wire :=
  w_u32 (uc_ChannelID m) ⋅ w_u32 (uc_NominalHashRate m) ⋅ w_array (uc_MaxTarget m).

Definition UpdateChannelError_wire (m : UpdateChannelError) : wire :=
  w_u32 (uce_ChannelID m) ⋅ w_str255 (uce_ErrorCode m).

Definition CloseChannel_wire (m : CloseChannel) : wire :=
  w_u32 (cc_ChannelID m) ⋅ w_str255 (cc_ReasonCode m).

Definition SetExtranoncePrefix_wire (m : SetExtranoncePrefix) : wire :=
  w_u32 (sep_ChannelID m) ⋅ w_bin32 (sep_ExtranoncePrefix m).

Definition SubmitSharesStandard_wire (m : SubmitSharesStandard) : wire :=
  w_u32 (sss_ChannelID m) ⋅ w_u32 (sss_Sequence m) ⋅ w_u32 (sss_JobID m)
  ⋅ w_u32 (sss_Nonce m) ⋅ w_u32 (sss_Time m) ⋅ w_u32 (sss_Version m).

Definition SubmitSharesExtended_wire (m : SubmitSharesExtended) : wire :=
  SubmitSharesStandard_wire (ssx_SubmitSharesStandard m) ⋅ w_bin32 (ssx_Extranonce m).

Definition SubmitSharesSuccess_wire (m : SubmitSharesSuccess) : wire :=
  w_u32 (ssok_ChannelID m) ⋅ w_u32 (ssok_LastSequenceNumber m)
  ⋅ w_u32 (ssok_NewSubmitsAcceptedCount m) ⋅ w_u64 (ssok_NewSharesSum m).

Definition SubmitSharesError_wire (m : SubmitSharesError) : wire :=
  w_u32 (sse_ChannelID m) ⋅ w_u32 (sse_SequenceNumber m) ⋅ w_str255 (sse_ErrorCode m).

Definition NewMiningJob_wire (m : NewMiningJob) : wire :=
  w_u32 (nmj_ChannelID m) ⋅ w_u32 (nmj_JobID m) ⋅ w_seq1 w_u32 (nmj_MinTime m)
  ⋅ w_u32 (nmj_Version m) ⋅ w_array (nmj_MerkleRoot m).

Definition NewExtendedMiningJob_wire (m : NewExtendedMiningJob) : wire :=
  w_u32 (nemj_ChannelID m) ⋅ w_u32 (nemj_JobID m) ⋅ w_seq1 w_u32 (nemj_MinTime m)
  ⋅ w_u32 (nemj_Version m) ⋅ w_bool (nemj_VersionRollingAllowed m)
  ⋅ w_seq255 w_array (nemj_MerklePath m) ⋅ w_bin64k (nemj_CoinbasePrefix m)
  ⋅ w_bin64k (nemj_CoinbaseSuffix m).

Definition SetNewPrevHash_wire (m : SetNewPrevHash) : wire :=
  w_u32 (snph_ChannelID m) ⋅ w_u32 (snph_JobID m) ⋅ w_array (snph_PrevHash m)
  ⋅ w_u32 (snph_MinTime m) ⋅ w_u32 (snph_Bits m).

Definition SetCustomMiningJobSuccess_wire (m : SetCustomMiningJobSuccess) : wire :=
  w_u32 (scmjs_ChannelID m) ⋅ w_u32 (scmjs_RequestID m) ⋅ w_u32 (scmjs_JobID m).

Definition SetCustomMiningJobError_wire (m : SetCustomMiningJobError) : wire :=
  w_u32 (scmje_ChannelID m) ⋅ w_u32 (scmje_RequestID m) ⋅ w_str255 (scmje_ErrorCode m).

Definition SetTarget_wire (m : SetTarget) : wire :=
  w_u32 (st_ChannelID m) ⋅ w_array (st_MaxTarget m).

Definition SetGroupChannel_wire (m : SetGroupChannel) : wire :=
  w_u32 (sgc_GroupChannelID m) ⋅ w_seq64k w_u32 (sgc_ChannelIDs m).

(** ** Readers of lists *)

Lemma Parses_unwrap {A B} (rd : Reader A) (w : B → wire) (f : A → B) (g : B → A) :
  (∀ b, f (g b) = b) → (∀ a, g (f a) = a) →
  Parses rd (encoded (λ a, w (f a))) → Parses (a ← rd; mret (f a)) (encoded w).
Proof.
  intros Hfg Hgf Hrd. eapply Parses_iff; [|apply (Parses_bind _ _ _ (λ a b bs, b = f a ∧ bs = []) Hrd);
    intros a; apply Parses_ret].
  intros b bs. unfold encoded. split.
  - intros (a & b1 & b2 & -> & E & -> & ->). by rewrite app_nil_r.
  - intros E. exists (g b), bs, []. by rewrite app_nil_r, Hfg.
Qed.

Lemma Parses_ReadOptionU32 : Parses ReadOptionU32 (encoded (w_seq1 w_u32)).
Proof.
  apply (Parses_unwrap _ _ u32s Build_U32Sequence); [done|by intros []|].
  exact (Parses_type_assert _ _ (Parses_ReadOptionT {| u32s := [] |})).
Qed.

Lemma Parses_ReadSeq255U256 : Parses ReadSeq255U256 (encoded (w_seq255 w_array)).
Proof.
  apply (Parses_unwrap _ _ u256s Build_U256Sequence); [done|by intros []|].
  exact (Parses_type_assert _ _ (Parses_ReadSeq255 {| u256s := [] |})).
Qed.

Lemma Parses_ReadU16Counted : Parses ReadU16Counted (encoded (w_seq64k w_u32)).
Proof.
  eapply Parses_iff; [|apply (Parses_bind _ _ _
    (λ l v bs, length v = Z.to_nat (u16_int l) ∧ w_list w_u32 v = (bs, None)) Parses_ReadU16)].
  - intros v bs. unfold encoded, w_seq64k. rewrite w_seq_ok. unfold len. split.
    + intros (l & b1 & b2 & -> & [Hl ->]%u16_grammar & El & E).
      pose proof (u_range 16 l ltac:(lia)). unfold u16_int in *.
      replace (Z.of_nat (length v)) with (Zmod.unsigned l) by lia. eauto.
    + intros (Hl & b2 & -> & E).
      destruct (u16_grammar_ex (Z.of_nat (length v))) as (l & Hn & Hg); [lia|].
      exists l, (le_put 2 (Z.of_nat (length v))), b2. rewrite Hn, Nat2Z.id. eauto.
  - intros l. apply Parses_read_times, Parses_ReadU32.
Qed.

#[local] Hint Resolve Parses_ReadOptionU32 Parses_ReadSeq255U256 Parses_ReadU16Counted : parses.
(** The formats of the list fields, stated of the lists, for [AddSeq*] of a conversion. *)
Lemma Emits_AddOptionU32 `{GoAlloc} (l : list u32) :
  Emits (AddOptionT {| u32s := l |}) (w_seq1 w_u32 l).
Proof. exact (Emits_AddOptionT {| u32s := l |}). Qed.
Lemma Emits_AddSeq255U256 `{GoAlloc} (l : list U256) :
  Emits (AddSeq255 {| u256s := l |}) (w_seq255 w_array l).
Proof. exact (Emits_AddSeq255 {| u256s := l |}). Qed.
Lemma Emits_AddSeq64KU32 `{GoAlloc} (l : list u32) :
  Emits (AddSeq64K {| u32s := l |}) (w_seq64k w_u32 l).
Proof. exact (Emits_AddSeq64K {| u32s := l |}). Qed.
#[local] Hint Resolve Emits_AddOptionU32 Emits_AddSeq255U256 Emits_AddSeq64KU32 | 0 : emits.

(** ** Encoders and decoders *)

Lemma OpenStandardMiningChannel_Encode_wire `{GoAlloc} m :
  OpenStandardMiningChannel_Encode m = (Some (OpenStandardMiningChannel_wire m).1, (OpenStandardMiningChannel_wire m).2).
Proof. solve_Encode OpenStandardMiningChannel_wire. Qed.

Lemma OpenStandardMiningChannel_Decode_wire m0 b m :
  OpenStandardMiningChannel_Decode m0 b = Ret (m, None) ↔
  ∃ bs, OpenStandardMiningChannel_wire m = (bs, None) ∧ bs `prefix_of` sbytes b.
Proof. apply Decode_of_Parses. parse_fields OpenStandardMiningChannel_wire. Qed.

#[export] Instance OpenStandardMiningChannel_codec : WireCodec OpenStandardMiningChannel := {|
  wire_of := OpenStandardMiningChannel_wire;
  Encode_wire _ m := Encode_of_wire _ _ (OpenStandardMiningChannel_Encode_wire m);
  Decode_wire := OpenStandardMiningChannel_Decode_wire |}.

Lemma OpenStandardMiningChannelSuccess_Encode_wire `{GoAlloc} m :
  OpenStandardMiningChannelSuccess_Encode m = (Some (OpenStandardMiningChannelSuccess_wire m).1, (OpenStandardMiningChannelSuccess_wire m).2).
Proof. solve_Encode OpenStandardMiningChannelSuccess_wire. Qed.

Lemma OpenStandardMiningChannelSuccess_Decode_wire m0 b m :
  OpenStandardMiningChannelSuccess_Decode m0 b = Ret (m, None) ↔
  ∃ bs, OpenStandardMiningChannelSuccess_wire m = (bs, None) ∧ bs `prefix_of` sbytes b.
Proof. apply Decode_of_Parses. parse_fields OpenStandardMiningChannelSuccess_wire. Qed.

#[export] Instance OpenStandardMiningChannelSuccess_codec : WireCodec OpenStandardMiningChannelSuccess := {|
  wire_of := OpenStandardMiningChannelSuccess_wire;
  Encode_wire _ m := Encode_of_wire _ _ (OpenStandardMiningChannelSuccess_Encode_wire m);
  Decode_wire := OpenStandardMiningChannelSuccess_Decode_wire |}.

Lemma OpenExtendedMiningChannel_Encode_wire `{GoAlloc} m :
  (OpenExtendedMiningChannel_Encode m).2 = (OpenExtendedMiningChannel_wire m).2 ∧
  ((OpenExtendedMiningChannel_wire m).2 = None → (OpenExtendedMiningChannel_Encode m).1 = Some (OpenExtendedMiningChannel_wire m).1).
Proof.
  unfold OpenExtendedMiningChannel_Encode, OpenExtendedMiningChannel_wire.
  apply Encode_embedded; [apply OpenStandardMiningChannel_Encode_wire|intros b ->]. solve_Encode wbytes.
Qed.

Lemma OpenExtendedMiningChannel_Decode_wire m0 b m :
  OpenExtendedMiningChannel_Decode m0 b = Ret (m, None) ↔
  ∃ bs, OpenExtendedMiningChannel_wire m = (bs, None) ∧ bs `prefix_of` sbytes b.
Proof. apply Decode_of_Parses. parse_embedded OpenStandardMiningChannel_wire OpenExtendedMiningChannel_wire. Qed.

#[export] Instance OpenExtendedMiningChannel_codec : WireCodec OpenExtendedMiningChannel := {|
  wire_of := OpenExtendedMiningChannel_wire;
  Encode_wire _ m := OpenExtendedMiningChannel_Encode_wire m;
  Decode_wire := OpenExtendedMiningChannel_Decode_wire |}.

Lemma OpenExtendedMiningChannelSuccess_Encode_wire `{GoAlloc} m :
  OpenExtendedMiningChannelSuccess_Encode m = (Some (OpenExtendedMiningChannelSuccess_wire m).1, (OpenExtendedMiningChannelSuccess_wire m).2).
Proof. solve_Encode OpenExtendedMiningChannelSuccess_wire. Qed.

Lemma OpenExtendedMiningChannelSuccess_Decode_wire m0 b m :
  OpenExtendedMiningChannelSuccess_Decode m0 b = Ret (m, None) ↔
  ∃ bs, OpenExtendedMiningChannelSuccess_wire m = (bs, None) ∧ bs `prefix_of` sbytes b.
Proof. apply Decode_of_Parses. parse_embedded OpenStandardMiningChannelSuccess_wire OpenExtendedMiningChannelSuccess_wire. Qed.

#[export] Instance OpenExtendedMiningChannelSuccess_codec : WireCodec OpenExtendedMiningChannelSuccess := {|
  wire_of := OpenExtendedMiningChannelSuccess_wire;
  Encode_wire _ m := Encode_of_wire _ _ (OpenExtendedMiningChannelSuccess_Encode_wire m);
  Decode_wire := OpenExtendedMiningChannelSuccess_Decode_wire |}.

Lemma OpenMiningChannelError_Encode_wire `{GoAlloc} m :
  OpenMiningChannelError_Encode m = (Some (OpenMiningChannelError_wire m).1, (OpenMiningChannelError_wire m).2).
Proof. solve_Encode OpenMiningChannelError_wire. Qed.

Lemma OpenMiningChannelError_Decode_wire m0 b m :
  OpenMiningChannelError_Decode m0 b = Ret (m, None) ↔
  ∃ bs, OpenMiningChannelError_wire m = (bs, None) ∧ bs `prefix_of` sbytes b.
Proof. apply Decode_of_Parses. parse_fields OpenMiningChannelError_wire. Qed.

#[export] Instance OpenMiningChannelError_codec : WireCodec OpenMiningChannelError := {|
  wire_of := OpenMiningChannelError_wire;
  Encode_wire _ m := Encode_of_wire _ _ (OpenMiningChannelError_Encode_wire m);
  Decode_wire := OpenMiningChannelError_Decode_wire |}.

Lemma UpdateChannel_Encode_wire `{GoAlloc} m :
  UpdateChannel_Encode m = (Some (UpdateChannel_wire m).1, (UpdateChannel_wire m).2).
Proof. solve_Encode UpdateChannel_wire. Qed.

Lemma UpdateChannel_Decode_wire m0 b m :
  UpdateChannel_Decode m0 b = Ret (m, None) ↔
  ∃ bs, UpdateChannel_wire m = (bs, None) ∧ bs `prefix_of` sbytes b.
Proof. apply Decode_of_Parses. parse_fields UpdateChannel_wire. Qed.

#[export] Instance UpdateChannel_codec : WireCodec UpdateChannel := {|
  wire_of := UpdateChannel_wire;
  Encode_wire _ m := Encode_of_wire _ _ (UpdateChannel_Encode_wire m);
  Decode_wire := UpdateChannel_Decode_wire |}.

Lemma UpdateChannelError_Encode_wire `{GoAlloc} m :
  UpdateChannelError_Encode m = (Some (UpdateChannelError_wire m).1, (UpdateChannelError_wire m).2).
Proof. solve_Encode UpdateChannelError_wire. Qed.

Lemma UpdateChannelError_Decode_wire m0 b m :
  UpdateChannelError_Decode m0 b = Ret (m, None) ↔
  ∃ bs, UpdateChannelError_wire m = (bs, None) ∧ bs `prefix_of` sbytes b.
Proof. apply Decode_of_Parses. parse_fields UpdateChannelError_wire. Qed.

#[export] Instance UpdateChannelError_codec : WireCodec UpdateChannelError := {|
  wire_of := UpdateChannelError_wire;
  Encode_wire _ m := Encode_of_wire _ _ (UpdateChannelError_Encode_wire m);
  Decode_wire := UpdateChannelError_Decode_wire |}.

Lemma CloseChannel_Encode_wire `{GoAlloc} m :
  CloseChannel_Encode m = (Some (CloseChannel_wire m).1, (CloseChannel_wire m).2).
Proof. solve_Encode CloseChannel_wire. Qed.

Lemma CloseChannel_Decode_wire m0 b m :
  CloseChannel_Decode m0 b = Ret (m, None) ↔
  ∃ bs, CloseChannel_wire m = (bs, None) ∧ bs `prefix_of` sbytes b.
Proof. apply Decode_of_Parses. parse_fields CloseChannel_wire. Qed.

#[export] Instance CloseChannel_codec : WireCodec CloseChannel := {|
  wire_of := CloseChannel_wire;
  Encode_wire _ m := Encode_of_wire _ _ (CloseChannel_Encode_wire m);
  Decode_wire := CloseChannel_Decode_wire |}.

Lemma SetExtranoncePrefix_Encode_wire `{GoAlloc} m :
  SetExtranoncePrefix_Encode m = (Some (SetExtranoncePrefix_wire m).1, (SetExtranoncePrefix_wire m).2).
Proof. solve_Encode SetExtranoncePrefix_wire. Qed.

Lemma SetExtranoncePrefix_Decode_wire m0 b m :
  SetExtranoncePrefix_Decode m0 b = Ret (m, None) ↔
  ∃ bs, SetExtranoncePrefix_wire m = (bs, None) ∧ bs `prefix_of` sbytes b.
Proof. apply Decode_of_Parses. parse_fields SetExtranoncePrefix_wire. Qed.

#[export] Instance SetExtranoncePrefix_codec : WireCodec SetExtranoncePrefix := {|
  wire_of := SetExtranoncePrefix_wire;
  Encode_wire _ m := Encode_of_wire _ _ (SetExtranoncePrefix_Encode_wire m);
  Decode_wire := SetExtranoncePrefix_Decode_wire |}.

Lemma SubmitSharesStandard_Encode_wire `{GoAlloc} m :
  SubmitSharesStandard_Encode m = (Some (SubmitSharesStandard_wire m).1, (SubmitSharesStandard_wire m).2).
Proof. solve_Encode SubmitSharesStandard_wire. Qed.

Lemma SubmitSharesStandard_Decode_wire m0 b m :
  SubmitSharesStandard_Decode m0 b = Ret (m, None) ↔
  ∃ bs, SubmitSharesStandard_wire m = (bs, None) ∧ bs `prefix_of` sbytes b.
Proof. apply Decode_of_Parses. parse_fields SubmitSharesStandard_wire. Qed.

#[export] Instance SubmitSharesStandard_codec : WireCodec SubmitSharesStandard := {|
  wire_of := SubmitSharesStandard_wire;
  Encode_wire _ m := Encode_of_wire _ _ (SubmitSharesStandard_Encode_wire m);
  Decode_wire := SubmitSharesStandard_Decode_wire |}.

Lemma SubmitSharesExtended_Encode_wire `{GoAlloc} m :
  (SubmitSharesExtended_Encode m).2 = (SubmitSharesExtended_wire m).2 ∧
  ((SubmitSharesExtended_wire m).2 = None → (SubmitSharesExtended_Encode m).1 = Some (SubmitSharesExtended_wire m).1).
Proof.
  unfold SubmitSharesExtended_Encode, SubmitSharesExtended_wire.
  apply Encode_embedded; [apply SubmitSharesStandard_Encode_wire|intros b ->]. solve_Encode wbytes.
Qed.

Lemma SubmitSharesExtended_Decode_wire m0 b m :
  SubmitSharesExtended_Decode m0 b = Ret (m, None) ↔
  ∃ bs, SubmitSharesExtended_wire m = (bs, None) ∧ bs `prefix_of` sbytes b.
Proof. apply Decode_of_Parses. parse_embedded SubmitSharesStandard_wire SubmitSharesExtended_wire. Qed.

#[export] Instance SubmitSharesExtended_codec : WireCodec SubmitSharesExtended := {|
  wire_of := SubmitSharesExtended_wire;
  Encode_wire _ m := SubmitSharesExtended_Encode_wire m;
  Decode_wire := SubmitSharesExtended_Decode_wire |}.

Lemma SubmitSharesSuccess_Encode_wire `{GoAlloc} m :
  SubmitSharesSuccess_Encode m = (Some (SubmitSharesSuccess_wire m).1, (SubmitSharesSuccess_wire m).2).
Proof. solve_Encode SubmitSharesSuccess_wire. Qed.

Lemma SubmitSharesSuccess_Decode_wire m0 b m :
  SubmitSharesSuccess_Decode m0 b = Ret (m, None) ↔
  ∃ bs, SubmitSharesSuccess_wire m = (bs, None) ∧ bs `prefix_of` sbytes b.
Proof. apply Decode_of_Parses. parse_fields SubmitSharesSuccess_wire. Qed.

#[export] Instance SubmitSharesSuccess_codec : WireCodec SubmitSharesSuccess := {|
  wire_of := SubmitSharesSuccess_wire;
  Encode_wire _ m := Encode_of_wire _ _ (SubmitSharesSuccess_Encode_wire m);
  Decode_wire := SubmitSharesSuccess_Decode_wire |}.

Lemma SubmitSharesError_Encode_wire `{GoAlloc} m :
  SubmitSharesError_Encode m = (Some (SubmitSharesError_wire m).1, (SubmitSharesError_wire m).2).
Proof. solve_Encode SubmitSharesError_wire. Qed.

Lemma SubmitSharesError_Decode_wire m0 b m :
  SubmitSharesError_Decode m0 b = Ret (m, None) ↔
  ∃ bs, SubmitSharesError_wire m = (bs, None) ∧ bs `prefix_of` sbytes b.
Proof. apply Decode_of_Parses. parse_fields SubmitSharesError_wire. Qed.

#[export] Instance SubmitSharesError_codec : WireCodec SubmitSharesError := {|
  wire_of := SubmitSharesError_wire;
  Encode_wire _ m := Encode_of_wire _ _ (SubmitSharesError_Encode_wire m);
  Decode_wire := SubmitSharesError_Decode_wire |}.

Lemma NewMiningJob_Encode_wire `{GoAlloc} m :
  NewMiningJob_Encode m = (Some (NewMiningJob_wire m).1, (NewMiningJob_wire m).2).
Proof. solve_Encode NewMiningJob_wire. Qed.

Lemma NewMiningJob_Decode_wire m0 b m :
  NewMiningJob_Decode m0 b = Ret (m, None) ↔
  ∃ bs, NewMiningJob_wire m = (bs, None) ∧ bs `prefix_of` sbytes b.
Proof. apply Decode_of_Parses. parse_fields NewMiningJob_wire. Qed.

#[export] Instance NewMiningJob_codec : WireCodec NewMiningJob := {|
  wire_of := NewMiningJob_wire;
  Encode_wire _ m := Encode_of_wire _ _ (NewMiningJob_Encode_wire m);
  Decode_wire := NewMiningJob_Decode_wire |}.

Lemma NewExtendedMiningJob_Encode_wire `{GoAlloc} m :
  NewExtendedMiningJob_Encode m = (Some (NewExtendedMiningJob_wire m).1, (NewExtendedMiningJob_wire m).2).
Proof. solve_Encode NewExtendedMiningJob_wire. Qed.

Lemma NewExtendedMiningJob_Decode_wire m0 b m :
  NewExtendedMiningJob_Decode m0 b = Ret (m, None) ↔
  ∃ bs, NewExtendedMiningJob_wire m = (bs, None) ∧ bs `prefix_of` sbytes b.
Proof. apply Decode_of_Parses. parse_fields NewExtendedMiningJob_wire. Qed.

#[export] Instance NewExtendedMiningJob_codec : WireCodec NewExtendedMiningJob := {|
  wire_of := NewExtendedMiningJob_wire;
  Encode_wire _ m := Encode_of_wire _ _ (NewExtendedMiningJob_Encode_wire m);
  Decode_wire := NewExtendedMiningJob_Decode_wire |}.

Lemma SetNewPrevHash_Encode_wire `{GoAlloc} m :
  SetNewPrevHash_Encode m = (Some (SetNewPrevHash_wire m).1, (SetNewPrevHash_wire m).2).
Proof. solve_Encode SetNewPrevHash_wire. Qed.

Lemma SetNewPrevHash_Decode_wire m0 b m :
  SetNewPrevHash_Decode m0 b = Ret (m, None) ↔
  ∃ bs, SetNewPrevHash_wire m = (bs, None) ∧ bs `prefix_of` sbytes b.
Proof. apply Decode_of_Parses. parse_fields SetNewPrevHash_wire. Qed.

#[export] Instance SetNewPrevHash_codec : WireCodec SetNewPrevHash := {|
  wire_of := SetNewPrevHash_wire;
  Encode_wire _ m := Encode_of_wire _ _ (SetNewPrevHash_Encode_wire m);
  Decode_wire := SetNewPrevHash_Decode_wire |}.

Lemma SetCustomMiningJobSuccess_Encode_wire `{GoAlloc} m :
  SetCustomMiningJobSuccess_Encode m = (Some (SetCustomMiningJobSuccess_wire m).1, (SetCustomMiningJobSuccess_wire m).2).
Proof. solve_Encode SetCustomMiningJobSuccess_wire. Qed.

Lemma SetCustomMiningJobSuccess_Decode_wire m0 b m :
  SetCustomMiningJobSuccess_Decode m0 b = Ret (m, None) ↔
  ∃ bs, SetCustomMiningJobSuccess_wire m = (bs, None) ∧ bs `prefix_of` sbytes b.
Proof. apply Decode_of_Parses. parse_fields SetCustomMiningJobSuccess_wire. Qed.

#[export] Instance SetCustomMiningJobSuccess_codec : WireCodec SetCustomMiningJobSuccess := {|
  wire_of := SetCustomMiningJobSuccess_wire;
  Encode_wire _ m := Encode_of_wire _ _ (SetCustomMiningJobSuccess_Encode_wire m);
  Decode_wire := SetCustomMiningJobSuccess_Decode_wire |}.

Lemma SetCustomMiningJobError_Encode_wire `{GoAlloc} m :
  SetCustomMiningJobError_Encode m = (Some (SetCustomMiningJobError_wire m).1, (SetCustomMiningJobError_wire m).2).
Proof. solve_Encode SetCustomMiningJobError_wire. Qed.

Lemma SetCustomMiningJobError_Decode_wire m0 b m :
  SetCustomMiningJobError_Decode m0 b = Ret (m, None) ↔
  ∃ bs, SetCustomMiningJobError_wire m = (bs, None) ∧ bs `prefix_of` sbytes b.
Proof. apply Decode_of_Parses. parse_fields SetCustomMiningJobError_wire. Qed.

#[export] Instance SetCustomMiningJobError_codec : WireCodec SetCustomMiningJobError := {|
  wire_of := SetCustomMiningJobError_wire;
  Encode_wire _ m := Encode_of_wire _ _ (SetCustomMiningJobError_Encode_wire m);
  Decode_wire := SetCustomMiningJobError_Decode_wire |}.

Lemma SetTarget_Encode_wire `{GoAlloc} m :
  SetTarget_Encode m = (Some (SetTarget_wire m).1, (SetTarget_wire m).2).
Proof. solve_Encode SetTarget_wire. Qed.

Lemma SetTarget_Decode_wire m0 b m :
  SetTarget_Decode m0 b = Ret (m, None) ↔
  ∃ bs, SetTarget_wire m = (bs, None) ∧ bs `prefix_of` sbytes b.
Proof. apply Decode_of_Parses. parse_fields SetTarget_wire. Qed.

#[export] Instance SetTarget_codec : WireCodec SetTarget := {|
  wire_of := SetTarget_wire;
  Encode_wire _ m := Encode_of_wire _ _ (SetTarget_Encode_wire m);
  Decode_wire := SetTarget_Decode_wire |}.

Lemma SetGroupChannel_Encode_wire `{GoAlloc} m :
  SetGroupChannel_Encode m = (Some (SetGroupChannel_wire m).1, (SetGroupChannel_wire m).2).
Proof. solve_Encode SetGroupChannel_wire. Qed.

Lemma SetGroupChannel_Decode_wire m0 b m :
  SetGroupChannel_Decode m0 b = Ret (m, None) ↔
  ∃ bs, SetGroupChannel_wire m = (bs, None) ∧ bs `prefix_of` sbytes b.
Proof. apply Decode_of_Parses. parse_fields SetGroupChannel_wire. Qed.

#[export] Instance SetGroupChannel_codec : WireCodec SetGroupChannel := {|
  wire_of := SetGroupChannel_wire;
  Encode_wire _ m := Encode_of_wire _ _ (SetGroupChannel_Encode_wire m);
  Decode_wire := SetGroupChannel_Decode_wire |}.


(** ** Bytes that are not an encoding *)

(** A 32-bit read over data that is not nil: the value and the rest, or a panic. *)
Lemma ReadU32_cases br :
  reader_ok br → br_data br ≠ None →
  if (length (rest br) <? 4)%nat then ReadU32 br = Panic IndexOutOfRange
  else ∃ v, ReadU32 br = Ret (v, advance br 4) ∧ reader_ok (advance br 4).
Proof.
  intros Hok Hd. destruct (Nat.ltb_spec (length (rest br)) 4) as [Hn|Hn].
  - destruct (read_short_some br 4 Hok Hd Hn) as [br' R]. destruct Hok as [He _].
    unfold ReadU32, unless_err, mbind, reader_bind. rewrite He.
    cbv [Z.of_nat Pos.of_succ_nat Pos.succ] in R. by rewrite R.
  - assert (length (take 4 (rest br)) = 4%nat) as Hl by (apply length_take_le; lia).
    pose proof (parses_complete _ _ Parses_ReadU32 br (to_u32 (le_get (take 4 (rest br))))
      (take 4 (rest br)) Hok) as R. rewrite Hl in R.
    eexists. split; [apply R|].
    + by apply w_u32_of_bytes.
    + apply take_prefix_of.
    + rewrite <- Hl. apply advance_ok; [done|apply take_prefix_of].
Qed.

(** [k] reads of 32 bits: all succeed, or one panics. *)
Lemma ReadU32_times k : ∀ br, reader_ok br → br_data br ≠ None →
  (length (rest br) < 4 * k)%nat → read_times ReadU32 k br = Panic IndexOutOfRange.
Proof.
  induction k as [|k IH]; intros br Hok Hd Hn; [lia|]. simpl read_times.
  pose proof (ReadU32_cases br Hok Hd) as Hc. unfold mbind, reader_bind.
  destruct (Nat.ltb_spec (length (rest br)) 4) as [H4|H4]; [by rewrite Hc|].
  destruct Hc as (v & -> & Hok'). rewrite IH; [done..|].
  rewrite rest_advance, length_drop. lia.
Qed.

(** ** Properties *)

(** C11: the encoder and the decoder of every message that opens, changes or closes
    a channel are inverse.  Encoding succeeds exactly when the strings have at most
    255 bytes, the extranonce prefixes at most 32, and, of [SetGroupChannel], there are
    at most 65535 channel ids; the encoding, followed by any
    bytes, decodes to the message; what decodes without error starts with the
    encoding of the result; and no encoding is a prefix of another message's. *)
Theorem channel_messages_codec `{GoAlloc} :
  CodecCorrect OpenStandardMiningChannel_Encode OpenStandardMiningChannel_Decode
    (λ m, len (osmc_UserIdentity m) ≤ 255) ∧
  CodecCorrect OpenStandardMiningChannelSuccess_Encode OpenStandardMiningChannelSuccess_Decode
    (λ m, len (osmcs_ExtranoncePrefix m) ≤ 32) ∧
  CodecCorrect OpenExtendedMiningChannel_Encode OpenExtendedMiningChannel_Decode
    (λ m, len (osmc_UserIdentity (oemc_OpenStandardMiningChannel m)) ≤ 255) ∧
  CodecCorrect OpenExtendedMiningChannelSuccess_Encode OpenExtendedMiningChannelSuccess_Decode
    (λ m, len (osmcs_ExtranoncePrefix (oemcs_OpenStandardMiningChannelSuccess m)) ≤ 32) ∧
  CodecCorrect OpenMiningChannelError_Encode OpenMiningChannelError_Decode
    (λ m, len (omce_ErrorCode m) ≤ 255) ∧
  CodecCorrect UpdateChannel_Encode UpdateChannel_Decode (λ _, True) ∧
  CodecCorrect UpdateChannelError_Encode UpdateChannelError_Decode
    (λ m, len (uce_ErrorCode m) ≤ 255) ∧
  CodecCorrect CloseChannel_Encode CloseChannel_Decode (λ m, len (cc_ReasonCode m) ≤ 255) ∧
  CodecCorrect SetExtranoncePrefix_Encode SetExtranoncePrefix_Decode
    (λ m, len (sep_ExtranoncePrefix m) ≤ 32) ∧
  CodecCorrect SetTarget_Encode SetTarget_Decode (λ _, True) ∧
  CodecCorrect SetGroupChannel_Encode SetGroupChannel_Decode
    (λ m, len (sgc_ChannelIDs m) ≤ 65535).
Proof.
  split_and!;
    [solve_codec_correct OpenStandardMiningChannel_wire
    |solve_codec_correct OpenStandardMiningChannelSuccess_wire
    |solve_codec_embedded OpenStandardMiningChannel_wire OpenExtendedMiningChannel_wire
    |solve_codec_correct OpenExtendedMiningChannelSuccess_wire
    |solve_codec_correct OpenMiningChannelError_wire
    |solve_codec_correct UpdateChannel_wire|solve_codec_correct UpdateChannelError_wire
    |solve_codec_correct CloseChannel_wire|solve_codec_correct SetExtranoncePrefix_wire
    |solve_codec_correct SetTarget_wire|solve_codec_correct SetGroupChannel_wire].
Qed.

(** C12: the encoder and the decoder of every message about jobs and shares are
    inverse, [SetCustomMiningJob] apart.  Encoding succeeds exactly when MinTime has
    at most one element, the Merkle path at most 255, the coinbase parts at most
    65535 bytes, the extranonce at most 32 and the strings at most 255; decoding
    inverts it in the sense of the channel messages' theorem. *)
Theorem job_messages_codec `{GoAlloc} :
  CodecCorrect SubmitSharesStandard_Encode SubmitSharesStandard_Decode (λ _, True) ∧
  CodecCorrect SubmitSharesExtended_Encode SubmitSharesExtended_Decode
    (λ m, len (ssx_Extranonce m) ≤ 32) ∧
  CodecCorrect SubmitSharesSuccess_Encode SubmitSharesSuccess_Decode (λ _, True) ∧
  CodecCorrect SubmitSharesError_Encode SubmitSharesError_Decode
    (λ m, len (sse_ErrorCode m) ≤ 255) ∧
  CodecCorrect NewMiningJob_Encode NewMiningJob_Decode (λ m, len (nmj_MinTime m) ≤ 1) ∧
  CodecCorrect NewExtendedMiningJob_Encode NewExtendedMiningJob_Decode
    (λ m, len (nemj_MinTime m) ≤ 1 ∧ len (nemj_MerklePath m) ≤ 255 ∧
          len (nemj_CoinbasePrefix m) ≤ 65535 ∧ len (nemj_CoinbaseSuffix m) ≤ 65535) ∧
  CodecCorrect SetNewPrevHash_Encode SetNewPrevHash_Decode (λ _, True) ∧
  CodecCorrect SetCustomMiningJobSuccess_Encode SetCustomMiningJobSuccess_Decode (λ _, True) ∧
  CodecCorrect SetCustomMiningJobError_Encode SetCustomMiningJobError_Decode
    (λ m, len (scmje_ErrorCode m) ≤ 255).
Proof.
  split_and!;
    [solve_codec_correct SubmitSharesStandard_wire
    |solve_codec_embedded SubmitSharesStandard_wire SubmitSharesExtended_wire
    |solve_codec_correct SubmitSharesSuccess_wire|solve_codec_correct SubmitSharesError_wire
    |solve_codec_correct NewMiningJob_wire|solve_codec_correct NewExtendedMiningJob_wire
    |solve_codec_correct SetNewPrevHash_wire|solve_codec_correct SetCustomMiningJobSuccess_wire
    |solve_codec_correct SetCustomMiningJobError_wire].
Qed.

(** [SubmitSharesStandard.Decode], which a pool runs on whatever a miner sends,
    decodes any 24 bytes, ignores what follows them, and reports the end of the
    data for a nil slice; on any other input, of 0 to 23 bytes, it panics. *)
Theorem SubmitSharesStandard_Decode_total `{GoAlloc} m0 :
  (∀ b, (24 ≤ length b)%nat →
     ∃ m, SubmitSharesStandard_Decode m0 (Some b) = Ret (m, None) ∧
          SubmitSharesStandard_Encode m = (Some (take 24 b), None)) ∧
  (∀ b, (length b < 24)%nat →
     SubmitSharesStandard_Decode m0 (Some b) = Panic IndexOutOfRange) ∧
  (∃ m, SubmitSharesStandard_Decode m0 None = Ret (m, eof_error)).
Proof.
  assert (∀ b, (length b < 24)%nat →
     SubmitSharesStandard_Decode m0 (Some b) = Panic IndexOutOfRange) as Hshort.
  { intros b Hb. pose proof (ReadU32_times 6 (NewBinaryReader (Some b)) (new_ok _)) as Ht.
    rewrite rest_new in Ht. simpl in Ht. specialize (Ht ltac:(done) ltac:(lia)).
    unfold SubmitSharesStandard_Decode, decode_with.
    revert Ht. unfold mbind, reader_bind, mret, reader_ret.
    repeat (destruct (ReadU32 _) as [[? ?]|]; [|by intros [= ->]]). done. }
  split_and!; [|done|eexists; reflexivity].
  intros b Hb. pose (word i := to_u32 (le_get (take 4 (drop i b)))).
  assert (∀ i, (i + 4 ≤ 24)%nat → w_u32 (word i) = (take 4 (drop i b), None)) as Hw.
  { intros i Hi. apply w_u32_of_bytes. rewrite length_take, length_drop. lia. }
  pose (m := {| sss_ChannelID := word 0%nat; sss_Sequence := word 4%nat; sss_JobID := word 8%nat;
                sss_Nonce := word 12%nat; sss_Time := word 16%nat; sss_Version := word 20%nat |}).
  assert (SubmitSharesStandard_wire m = (take 24 b, None)) as E.
  { unfold SubmitSharesStandard_wire, m. cbn [sss_ChannelID sss_Sequence sss_JobID sss_Nonce
      sss_Time sss_Version]. rewrite !Hw by lia. unfold wapp. simpl. f_equal.
    rewrite drop_0, !take_take_drop. done. }
  exists m. split.
  - apply SubmitSharesStandard_Decode_wire. exists (take 24 b). split; [done|apply take_prefix_of].
  - by rewrite SubmitSharesStandard_Encode_wire, E.
Qed.

(** The count byte of the optional MinTime must be 0 or 1, and any other value
    panics instead of being reported: [ReadOptionT] answers nil for it and the
    decoders assert its type.  So does a nil slice. *)
Theorem job_Decode_bad_option m0 m0' (ch job : u32) (tail : list u8) (n : u8) :
  1 < Zmod.unsigned n →
  let b := le_put 4 (Zmod.unsigned ch) ++ le_put 4 (Zmod.unsigned job) ++ n :: tail in
  NewMiningJob_Decode m0 (Some b) = Panic FailedTypeAssertion ∧
  NewExtendedMiningJob_Decode m0' (Some b) = Panic FailedTypeAssertion ∧
  NewMiningJob_Decode m0 None = Panic FailedTypeAssertion ∧
  NewExtendedMiningJob_Decode m0' None = Panic FailedTypeAssertion.
Proof.
  intros Hn b.
  assert (∀ A (k : u32 → u32 → list u32 → Reader A),
    (ch ← ReadU32; job ← ReadU32; t ← ReadOptionU32; k ch job t) (NewBinaryReader (Some b))
    = Panic FailedTypeAssertion) as Hp.
  { intros A k. unfold mbind, reader_bind.
    rewrite (parses_complete _ _ Parses_ReadU32 _ ch (le_put 4 (Zmod.unsigned ch)));
      [|apply new_ok|done|by eexists].
    pose proof (advance_ok (NewBinaryReader (Some b)) (le_put 4 (Zmod.unsigned ch)) (new_ok _)
      ltac:(by eexists)) as Hok1.
    rewrite (parses_complete _ _ Parses_ReadU32 _ job (le_put 4 (Zmod.unsigned job)));
      [|done|done|rewrite rest_advance; by eexists].
    pose proof (advance_ok _ (le_put 4 (Zmod.unsigned job)) Hok1
      ltac:(rewrite rest_advance; by eexists)) as Hok2.
    unfold ReadOptionU32, ReadOptionT, ReadSeq1, unless_err, mbind, reader_bind. simpl br_err.
    rewrite (parses_complete _ _ Parses_ReadU8 _ n [n]);
      [|done|apply w_u8_byte|rewrite !rest_advance, drop_drop; by eexists].
    unfold u8_int. by rewrite (proj2 (Z.ltb_lt _ _) Hn). }
  split_and!; [unfold NewMiningJob_Decode, decode_with|unfold NewExtendedMiningJob_Decode, decode_with
    |reflexivity..]; by rewrite Hp.
Qed.

Definition zero_job : NewMiningJob :=
  {| nmj_ChannelID := to_u32 0; nmj_JobID := to_u32 0; nmj_MinTime := []; nmj_Version := to_u32 0;
     nmj_MerkleRoot := zero_array 32 |}.
Definition zero_extended_job : NewExtendedMiningJob :=
  {| nemj_ChannelID := to_u32 0; nemj_JobID := to_u32 0; nemj_MinTime := [];
     nemj_Version := to_u32 0; nemj_VersionRollingAllowed := false; nemj_MerklePath := [];
     nemj_CoinbasePrefix := []; nemj_CoinbaseSuffix := [] |}.

Lemma job_Decode_bad_option_witness :
  NewMiningJob_Decode zero_job (Some (replicate 8 (to_u8 0) ++ [to_u8 2])) = Panic FailedTypeAssertion ∧
  NewExtendedMiningJob_Decode zero_extended_job None = Panic FailedTypeAssertion.
Proof.
  destruct (job_Decode_bad_option zero_job zero_extended_job (to_u32 0) (to_u32 0) [] (to_u8 2))
    as (H1 & _ & _ & H4); [reflexivity|]. split; [exact H1|exact H4].
Defined.
