(* ===== verification/CustomJob.v ===== *)
(** * SetCustomMiningJob (mining.go)

    The one message whose [Encode] and [Decode] do not agree.  The encoder writes
    the coinbase outputs and the Merkle path, with the [wire] package of btcd
    serializing each output; the decoder, whose source carries a FIXME, skips
    neither, so it takes the start of the outputs for the locktime, and leaves the
    receiver's outputs and path as they were.

    btcd's [wire.TxOut] and [wire.WriteTxOut] are third-party code: a type and the
    bytes the call writes, parameters of the model. *)
From S2P Require Import Prelude GoInts Constants Wire Builder Reader Sequences Codec.

Section CustomJob.
Context {TxOut : Type}.

Record SetCustomMiningJob := {
  scmj_ChannelID : u32;
  scmj_RequestID : u32;
  scmj_MiningJobToken : list u8;
  scmj_Version : u32;
  scmj_PrevHash : U256;
  scmj_MinTime : u32;
  scmj_Bits : u32;
  scmj_CoinbaseVersion : u32;
  scmj_CoinbasePrefix : list u8;
  scmj_CoinbaseSequence : u32;
  scmj_CoinbaseOutputs : list TxOut;
  scmj_CoinbaseLocktime : u32;
  scmj_MerklePath : list U256
}.

Definition SetCustomMiningJob_Decode (m : SetCustomMiningJob) :
    bslice → outcome (SetCustomMiningJob * error) :=
  decode_with (
    ChannelID ← ReadU32;
    RequestID ← ReadU32;
    MiningJobToken ← ReadBin255;
    Version ← ReadU32;
    PrevHash ← ReadU256;
    MinTime ← ReadU32;
    Bits ← ReadU32;
    CoinbaseVersion ← ReadU32;
    CoinbasePrefix ← ReadBin255;
    CoinbaseSequence ← ReadU32;
    CoinbaseLocktime ← ReadU32;
    mret {| scmj_ChannelID := ChannelID; scmj_RequestID := RequestID;
            scmj_MiningJobToken := MiningJobToken; scmj_Version := Version;
            scmj_PrevHash := PrevHash; scmj_MinTime := MinTime; scmj_Bits := Bits;
            scmj_CoinbaseVersion := CoinbaseVersion; scmj_CoinbasePrefix := CoinbasePrefix;
            scmj_CoinbaseSequence := CoinbaseSequence;
            scmj_CoinbaseOutputs := scmj_CoinbaseOutputs m;
            scmj_CoinbaseLocktime := CoinbaseLocktime;
            scmj_MerklePath := scmj_MerklePath m |}).

Section Encode.
Context `{GoAlloc}.
(** [wire.LatestEncoding], and the bytes [wire.WriteTxOut(&buf, pver, version, &txout)]
    leaves in an empty buffer; its error is discarded by the caller. *)
Context (LatestEncoding : u32) (WriteTxOut : u32 → Z → TxOut → list u8).

(** [int32(m.CoinbaseVersion)] reinterprets the bits.  [buf.Grow] only reserves room. *)
Definition encode_outputs (m : SetCustomMiningJob) : list u8 :=
  fold_left (λ out txout,
    out ++ WriteTxOut LatestEncoding (Zmod.signed (scmj_CoinbaseVersion m)) txout)
  (scmj_CoinbaseOutputs m) [].

Definition SetCustomMiningJob_Encode (m : SetCustomMiningJob) : bslice * error :=
  let coinbaseOutputs := encode_outputs m in
  Bytes (NewBinaryBuilder
    |> Grow 2048
    |> AddU32 (scmj_ChannelID m)
    |> AddU32 (scmj_RequestID m)
    |> AddBin255 (scmj_MiningJobToken m)
    |> AddU32 (scmj_Version m)
    |> AddU256 (scmj_PrevHash m)
    |> AddU32 (scmj_MinTime m)
    |> AddU32 (scmj_Bits m)
    |> AddU32 (scmj_CoinbaseVersion m)
    |> AddBin255 (scmj_CoinbasePrefix m)
    |> AddU32 (scmj_CoinbaseSequence m)
    |> AddBin64K coinbaseOutputs
    |> AddU32 (scmj_CoinbaseLocktime m)
    |> AddSeq255 {| u256s := scmj_MerklePath m |}).

(** ** Formats *)

(** The fields up to the outputs, which both methods agree on. *)
Definition scmj_head_wire (m : SetCustomMiningJob) : wire :=
  w_u32 (scmj_ChannelID m) ⋅ w_u32 (scmj_RequestID m) ⋅ w_bin255 (scmj_MiningJobToken m)
  ⋅ w_u32 (scmj_Version m) ⋅ w_array (scmj_PrevHash m) ⋅ w_u32 (scmj_MinTime m)
  ⋅ w_u32 (scmj_Bits m) ⋅ w_u32 (scmj_CoinbaseVersion m) ⋅ w_bin255 (scmj_CoinbasePrefix m)
  ⋅ w_u32 (scmj_CoinbaseSequence m).

Definition scmj_tail_wire (m : SetCustomMiningJob) : wire :=
  w_bin64k (encode_outputs m) ⋅ w_u32 (scmj_CoinbaseLocktime m)
  ⋅ w_seq255 w_array (scmj_MerklePath m).

Lemma Emits_AddSeq255_path l : Emits (AddSeq255 {| u256s := l |}) (w_seq255 w_array l).
Proof. exact (Emits_AddSeq255 {| u256s := l |}). Qed.
#[local] Hint Resolve Emits_AddSeq255_path | 0 : emits.

Definition scmj_wire (m : SetCustomMiningJob) : wire := scmj_head_wire m ⋅ scmj_tail_wire m.

Lemma SetCustomMiningJob_Encode_wire m :
  SetCustomMiningJob_Encode m = (Some (scmj_wire m).1, (scmj_wire m).2).
Proof. unfold scmj_wire, scmj_head_wire, scmj_tail_wire. solve_Encode SetCustomMiningJob_Encode. Qed.

End Encode.

(** What the decoder reads: the head, then a locktime. *)
Definition scmj_read_wire (m : SetCustomMiningJob) : wire :=
  scmj_head_wire m ⋅ w_u32 (scmj_CoinbaseLocktime m).

Lemma SetCustomMiningJob_Decode_wire m0 b m :
  SetCustomMiningJob_Decode m0 b = Ret (m, None) ↔
  (∃ bs, scmj_read_wire m = (bs, None) ∧ bs `prefix_of` sbytes b) ∧
  scmj_CoinbaseOutputs m = scmj_CoinbaseOutputs m0 ∧ scmj_MerklePath m = scmj_MerklePath m0.
Proof.
  pose (G m bs := scmj_read_wire m = (bs, None) ∧
    scmj_CoinbaseOutputs m = scmj_CoinbaseOutputs m0 ∧ scmj_MerklePath m = scmj_MerklePath m0).
  unfold SetCustomMiningJob_Decode. rewrite (decode_with_iff _ G); [unfold G; naive_solver|].
  eapply Parses_iff; cycle 1;
    [repeat (eapply Parses_bind; [solve [eauto with parses]|intros ?]); apply Parses_ret|].
  intros m' bs. unfold G, encoded, scmj_read_wire, scmj_head_wire. split.
  - intros. split_exists. split; [fields_to_wire|done].
  - intros (E & Ho & Hp). destruct m'. simpl in Ho, Hp. subst. wire_to_fields E.
Qed.

(** ** Properties *)

(** C40: decoding what [Encode] produced succeeds, but not with the message: the
    receiver's outputs and Merkle path stay, and the locktime is made of the first
    four bytes after the sequence number, which are the length of the encoded
    outputs and their first bytes. *)
Theorem SetCustomMiningJob_lossy `{GoAlloc} LatestEncoding WriteTxOut m m0 bs
    (E : SetCustomMiningJob_Encode LatestEncoding WriteTxOut m = (Some bs, None)) :
  let outs := encode_outputs LatestEncoding WriteTxOut m in
  len outs ≤ 65535 ∧
  SetCustomMiningJob_Decode m0 (Some bs) =
  Ret ({| scmj_ChannelID := scmj_ChannelID m; scmj_RequestID := scmj_RequestID m;
          scmj_MiningJobToken := scmj_MiningJobToken m; scmj_Version := scmj_Version m;
          scmj_PrevHash := scmj_PrevHash m; scmj_MinTime := scmj_MinTime m;
          scmj_Bits := scmj_Bits m; scmj_CoinbaseVersion := scmj_CoinbaseVersion m;
          scmj_CoinbasePrefix := scmj_CoinbasePrefix m;
          scmj_CoinbaseSequence := scmj_CoinbaseSequence m;
          scmj_CoinbaseOutputs := scmj_CoinbaseOutputs m0;
          scmj_CoinbaseLocktime := to_u32 (le_get (take 4
            (le_put 2 (len outs) ++ outs ++ le_put 4 (Zmod.unsigned (scmj_CoinbaseLocktime m)))));
          scmj_MerklePath := scmj_MerklePath m0 |}, None).
Proof.
  intros outs. rewrite SetCustomMiningJob_Encode_wire in E.
  apply wire_of_pair in E as Ew. apply wapp_ok in Ew as (b1 & b2 & -> & Eh & Et).
  apply wapp_ok in Et as (b3 & b4 & -> & E3 & _).
  apply wapp_ok in E3 as (b5 & b6 & -> & E5 & E6).
  apply w_bin_ok in E5 as [Hl ->]. apply wbytes_ok in E6 as ->.
  split; [done|]. apply SetCustomMiningJob_Decode_wire. split_and!; [|done..].
  set (lt := take 4 _).
  assert (length lt = 4%nat) as Hlt.
  { unfold lt. rewrite length_take, !length_app, !length_le_put. lia. }
  exists (b1 ++ lt). split.
  - unfold scmj_read_wire. apply wapp_ok. exists b1, lt. split; [done|]. split; [exact Eh|].
    by apply w_u32_of_bytes.
  - simpl. apply prefix_app. etransitivity; [apply take_prefix_of|].
    rewrite <- !app_assoc. by eexists; rewrite <- !app_assoc.
Qed.

End CustomJob.
Arguments SetCustomMiningJob : clear implicits.

(** A job without outputs and with locktime 1 is decoded with locktime 2^16. *)
Definition lossy_job : SetCustomMiningJob (list u8) := {|
  scmj_ChannelID := to_u32 1; scmj_RequestID := to_u32 2; scmj_MiningJobToken := [];
  scmj_Version := to_u32 3; scmj_PrevHash := zero_array 32; scmj_MinTime := to_u32 4;
  scmj_Bits := to_u32 5; scmj_CoinbaseVersion := to_u32 1; scmj_CoinbasePrefix := [];
  scmj_CoinbaseSequence := to_u32 6; scmj_CoinbaseOutputs := [];
  scmj_CoinbaseLocktime := to_u32 1; scmj_MerklePath := [] |}.

Definition lossy_encode : bslice * error :=
  SetCustomMiningJob_Encode (H := exact_alloc) (to_u32 1) (λ _ _ o, o) lossy_job.

Lemma SetCustomMiningJob_lossy_witness :
  lossy_encode = (Some (sbytes lossy_encode.1), None) ∧
  ∃ m, SetCustomMiningJob_Decode lossy_job lossy_encode.1 = Ret (m, None) ∧
       scmj_CoinbaseLocktime m = to_u32 65536.
Proof.
  assert (lossy_encode = (Some (sbytes lossy_encode.1), None)) as E by (vm_compute; reflexivity).
  split; [exact E|]. eexists. split.
  - rewrite E.
    apply (SetCustomMiningJob_lossy (H := exact_alloc) (to_u32 1) (λ _ _ o, o) lossy_job lossy_job).
    exact E.
  - vm_compute. reflexivity.
Defined.
