(* ===== verification/MessageTypes.v ===== *)
(** * Message type names (types.go)

    The lookup of a message type's name, and what a log line shows for it. *)
From S2P Require Import Prelude GoInts Constants.

(** The source's [switch], in its order: the first case that matches wins. *)
Definition message_names : list (MessageType * string) := [
  (MessageAllocateMiningJobToken, "AllocateMiningJobToken");
  (MessageAllocateMiningJobTokenSuccess, "AllocateMiningJobTokenSuccess");
  (MessageChannelEndpointChanged, "ChannelEndpointChanged");
  (MessageCloseChannel, "CloseChannel");
  (MessageDeclareMiningJob, "DeclareMiningJob");
  (MessageDeclareMiningJobError, "DeclareMiningJobError");
  (MessageDeclareMiningJobSuccess, "DeclareMiningJobSuccess");
  (MessageNewExtendedMiningJob, "NewExtendedMiningJob");
  (MessageNewMiningJob, "NewMiningJob");
  (MessageOpenExtendedMiningChannel, "OpenExtendedMiningChannel");
  (MessageOpenExtendedMiningChannelSuccess, "OpenExtendedMiningChannelSuccess");
  (MessageOpenMiningChannelError, "OpenMiningChannelError");
  (MessageOpenStandardMiningChannel, "OpenStandardMiningChannel");
  (MessageOpenStandardMiningChannelSuccess, "OpenStandardMiningChannelSuccess");
  (MessageProvideMissingTransactions, "ProvideMissingTransactions");
  (MessageProvideMissingTransactionsSuccess, "ProvideMissingTransactionsSuccess");
  (MessagePushSolution, "PushSolution");
  (MessageReconnect, "Reconnect");
  (MessageReserved, "Reserved");
  (MessageSetCustomMiningJob, "SetCustomMiningJob");
  (MessageSetCustomMiningJobError, "SetCustomMiningJobError");
  (MessageSetCustomMiningJobSuccess, "SetCustomMiningJobSuccess");
  (MessageSetExtranoncePrefix, "SetExtranoncePrefix");
  (MessageSetGroupChannel, "SetGroupChannel");
  (MessageSetNewPrevHash, "SetNewPrevHash");
  (MessageSetTarget, "SetTarget");
  (MessageSetupConnection, "SetupConnection");
  (MessageSetupConnectionError, "SetupConnectionError");
  (MessageSetupConnectionSuccess, "SetupConnectionSuccess");
  (MessageSubmitSharesError, "SubmitSharesError");
  (MessageSubmitSharesExtended, "SubmitSharesExtended");
  (MessageSubmitSharesStandard, "SubmitSharesStandard");
  (MessageSubmitSharesSuccess, "SubmitSharesSuccess");
  (MessageUpdateChannel, "UpdateChannel");
  (MessageUpdateChannelError, "UpdateChannelError")
]%string.

Fixpoint switch_case (t : MessageType) (cases : list (MessageType * string)) : option string :=
  match cases with
  | [] => None
  | (c, name) :: cases' => if decide (t = c) then Some name else switch_case t cases'
  end.

Definition MessageTypeToString (t : MessageType) : string * error :=
  match switch_case t message_names with
  | Some name => (name, None)
  | None => (""%string, Some "unknown message type"%string)
  end.

Definition MessageType_String (t : MessageType) : string := (MessageTypeToString t).1.

(** ** Properties *)

Lemma switch_case_in t cases name :
  switch_case t cases = Some name → (t, name) ∈ cases.
Proof.
  induction cases as [|[c n] cases IH]; [done|]. simpl. case_decide; [|by right; apply IH].
  intros [= ->]. subst. by left.
Qed.

Lemma NoDup_fst_names {A} (l : list (A * string)) t1 t2 name :
  NoDup l.*2 → (t1, name) ∈ l → (t2, name) ∈ l → t1 = t2.
Proof.
  induction l as [|[c n] l IH]; [by intros _ ?%elem_of_nil|].
  simpl. intros [Hn Hl]%NoDup_cons H1 H2.
  apply elem_of_cons in H1 as [[= -> ->]|H1]; apply elem_of_cons in H2 as [[= ->]|H2]; try done.
  - destruct Hn. by apply (list_elem_of_fmap_2 snd) in H2.
  - subst. destruct Hn. by apply (list_elem_of_fmap_2 snd) in H1.
  - by apply IH.
Qed.

Lemma switch_case_total t cases : t ∈ cases.*1 → switch_case t cases ≠ None.
Proof.
  induction cases as [|[c n] cases IH]; simpl; [by intros ?%elem_of_nil|].
  intros [->|Ht]%elem_of_cons; case_decide; by auto.
Qed.

Lemma names_nonempty : ""%string ∉ message_names.*2.
Proof. apply (bool_decide_unpack _). vm_compute. done. Qed.

Lemma MessageTypeToString_cases t :
  (∃ name, (t, name) ∈ message_names ∧ MessageTypeToString t = (name, None)) ∨
  (t ∉ message_names.*1 ∧ MessageTypeToString t = (""%string, Some "unknown message type"%string)).
Proof.
  unfold MessageTypeToString. destruct (switch_case t message_names) as [n|] eqn:E.
  - left. exists n. split; [by apply switch_case_in|done].
  - right. split; [|done]. intros Ht%switch_case_total. by destruct Ht.
Qed.

(** Every message type of the protocol constants has a name, no two types have
    the same one, and exactly the numbers without a constant are reported as
    unknown, with the empty string as their name. *)
Theorem message_names_injective :
  length message_names = 35%nat ∧
  (∀ t, t ∈ message_names.*1 ↔ (MessageTypeToString t).2 = None) ∧
  (∀ t, t ∉ message_names.*1 ↔ MessageType_String t = ""%string) ∧
  (∀ t1 t2, (MessageTypeToString t1).2 = None →
     MessageType_String t1 = MessageType_String t2 → t1 = t2).
Proof.
  assert (NoDup message_names.*2) as Hnd by (apply (bool_decide_unpack _); vm_compute; done).
  assert (∀ t n, (t, n) ∈ message_names → t ∈ message_names.*1) as H1
    by (intros t n; apply (list_elem_of_fmap_2 fst)).
  assert (∀ t n, (t, n) ∈ message_names → n ∈ message_names.*2) as H2
    by (intros t n; apply (list_elem_of_fmap_2 snd)).
  pose proof names_nonempty as Hne.
  split_and!; [done| | |]; unfold MessageType_String.
  - intros t. destruct (MessageTypeToString_cases t) as [(n & Hn & ->)|[Hn ->]]; naive_solver.
  - intros t. destruct (MessageTypeToString_cases t) as [(n & Hn & ->)|[Hn ->]]; naive_solver.
  - intros t1 t2. destruct (MessageTypeToString_cases t1) as [(n1 & Hn1 & ->)|[_ ->]]; [|done].
    intros _. destruct (MessageTypeToString_cases t2) as [(n2 & Hn2 & ->)|[_ ->]].
    + intros [= ->]. by eapply NoDup_fst_names.
    + intros [= ->]. by destruct Hne; eapply H2.
Qed.
