(* ===== verification/Frame.v ===== *)
(** * Frames and their TLV extension fields (types.go)

    [Frame] wraps an encoded message for the wire.  [Frame_Encode] also returns
    the frame, because the method sorts the frame's TLVs and changes its length and
    payload; [Frame_Decode] takes the bytes between the input's length and its
    capacity, because Go's slice expressions reach them. *)
From S2P Require Import Prelude GoInts Constants Wire Builder Reader Codec.

Record TLV := {
  tlv_ExtensionType : u16;
  tlv_FieldType : u8;
  tlv_Length : u16;
  tlv_Value : list u8
}.

Record Frame := {
  fr_ExtensionType : Extension;
  fr_MessageType : MessageType;
  fr_MessageLength : U24;
  fr_Payload : bslice;
  fr_TLVs : option (list TLV)      (* [None] is the nil slice *)
}.

(** [Frame{}] *)
Definition zero_frame : Frame :=
  {| fr_ExtensionType := to_u16 0; fr_MessageType := to_u8 0; fr_MessageLength := to_u32 0;
     fr_Payload := None; fr_TLVs := None |}.

Definition set_header (ext : Extension) (mt : MessageType) (l : U24) (f : Frame) : Frame :=
  {| fr_ExtensionType := ext; fr_MessageType := mt; fr_MessageLength := l;
     fr_Payload := fr_Payload f; fr_TLVs := fr_TLVs f |}.
Definition set_length (l : U24) (f : Frame) : Frame :=
  set_header (fr_ExtensionType f) (fr_MessageType f) l f.
Definition set_payload (p : bslice) (f : Frame) : Frame :=
  {| fr_ExtensionType := fr_ExtensionType f; fr_MessageType := fr_MessageType f;
     fr_MessageLength := fr_MessageLength f; fr_Payload := p; fr_TLVs := fr_TLVs f |}.
Definition set_TLVs (t : option (list TLV)) (f : Frame) : Frame :=
  {| fr_ExtensionType := fr_ExtensionType f; fr_MessageType := fr_MessageType f;
     fr_MessageLength := fr_MessageLength f; fr_Payload := fr_Payload f; fr_TLVs := t |}.

(** [append(b, l...)]: nothing appended to nil is nil. *)
Definition go_append (b : bslice) (l : list u8) : bslice :=
  match b, l with
  | None, [] => None
  | _, _ => Some (sbytes b ++ l)
  end.

(** ** [slices.SortStableFunc]

    Elements with equal keys keep their order, which leaves one result. *)
Section Sort.
Context {A : Type} (cmp : A → A → Z).

Fixpoint sort_insert (x : A) (l : list A) : list A :=
  match l with
  | [] => [x]
  | y :: l' => if cmp x y <=? 0 then x :: l else y :: sort_insert x l'
  end.

Definition SortStableFunc (l : list A) : list A := foldr sort_insert [] l.
End Sort.

Definition tlv_cmp (i j : TLV) : Z :=
  if Zmod.unsigned (tlv_ExtensionType j) <? Zmod.unsigned (tlv_ExtensionType i) then 1
  else if Zmod.unsigned (tlv_ExtensionType i) <? Zmod.unsigned (tlv_ExtensionType j) then -1
  else 0.

Section Encode.
Context `{GoAlloc}.

Definition TLV_Encode (t : TLV) : bslice * error :=
  Bytes (NewBinaryBuilder
    |> Grow (len (tlv_Value t) + 5)
    |> AddU16 (tlv_ExtensionType t)
    |> AddU8 (tlv_FieldType t)
    |> AddU16 (tlv_Length t)
    |> AddBin64K (tlv_Value t)).

(** [for _, tlv := range f.TLVs]: the first error stops the loop. *)
Fixpoint encode_tlvs (tlvs : list TLV) (tlvOut : BinaryBuilder) : string + BinaryBuilder :=
  match tlvs with
  | [] => inr tlvOut
  | tlv :: tlvs' =>
      let '(enc, err) := TLV_Encode tlv in
      match err with
      | Some e => inl e
      | None => encode_tlvs tlvs' (tlvOut |> AddBytes (sbytes enc))
      end
  end.

(** The part after the TLVs. *)
Definition Frame_emit (out : BinaryBuilder) (f : Frame) : bslice * error :=
  Bytes (out
    |> AddU16 (fr_ExtensionType f)
    |> AddU8 (fr_MessageType f)
    |> AddU24 (fr_MessageLength f)
    |> AddBytes (sbytes (fr_Payload f))).

Definition Frame_Encode (f : Frame) : (bslice * error) * Frame :=
  if negb (Zmod.unsigned (fr_MessageLength f) =? len (sbytes (fr_Payload f))) then
    ((None, Some "Frame.Encode: MessageLength != len(Payload)"%string), f)
  else
    let out := NewBinaryBuilder |> Grow (FrameHeaderSize + Zmod.unsigned (fr_MessageLength f)) in
    match fr_TLVs f with
    | None => (Frame_emit out f, f)
    | Some tlvs =>
        let sorted := SortStableFunc tlv_cmp tlvs in
        let f := set_TLVs (Some sorted) f in
        match encode_tlvs sorted NewBinaryBuilder with
        | inl e => ((None, Some e), f)
        | inr tlvOut =>
            let f := set_length
              (to_u32 (Zmod.unsigned (fr_MessageLength f) + Zmod.unsigned (to_u32 (Len tlvOut)))) f in
            let '(b, err) := Bytes tlvOut in
            match err with
            | Some _ => ((None, err), f)
            | None =>
                let f := set_payload (go_append (fr_Payload f) (sbytes b)) f in
                (Frame_emit out f, f)
            end
        end
    end.

(** ** Frames from messages and back *)

Definition NewFrameFromParams {M} `{Codable M} (messageType : MessageType)
    (extensionType : Extension) (params : M) : option Frame * error :=
  let '(b, err) := Encode params in
  match err with
  | Some _ => (None, err)
  | None =>
      let l := len (sbytes b) in
      if MaxU24 <? l then (None, Some "Frame.Encode: MessageLength > MaxU24"%string)
      else (Some {| fr_ExtensionType := extensionType; fr_MessageType := messageType;
                    fr_MessageLength := to_u32 l; fr_Payload := b; fr_TLVs := None |}, None)
  end.

(** [*f = *frame], unless there is an error. *)
Definition Frame_FromParamsExtension {M} `{Codable M} (f : Frame) (messageType : MessageType)
    (extensionType : Extension) (params : M) : Frame * error :=
  match NewFrameFromParams messageType extensionType params with
  | (_, Some e) => (f, Some e)
  | (Some frame, None) => (frame, None)
  | (None, None) => (f, None)
  end.

Definition Frame_FromParams {M} `{Codable M} (f : Frame) (messageType : MessageType)
    (params : M) : Frame * error :=
  Frame_FromParamsExtension f messageType ExtensionTypeCore params.

End Encode.

Definition Frame_ToParams {M} `{Codable M} (f : Frame) (params : M) : outcome (M * error) :=
  Decode params (fr_Payload f).

(** ** Decoding *)

Definition TLV_Decode : bslice → outcome (TLV * error) :=
  decode_with (
    ExtensionType ← ReadU16;
    FieldType ← ReadU8;
    Length ← ReadU16;
    Value ← ReadBytes (u16_int Length);
    mret {| tlv_ExtensionType := ExtensionType; tlv_FieldType := FieldType;
            tlv_Length := Length; tlv_Value := sbytes Value |}).

Definition Frame_DecodeHeader (f : Frame) : bslice → outcome (Frame * error) :=
  decode_with (
    ExtensionType ← ReadU16;
    MessageType ← ReadU8;
    MessageLength ← ReadU24;
    mret (set_header ExtensionType MessageType MessageLength f)).

Definition Frame_ReadPayload (f : Frame) : bslice → outcome (Frame * error) :=
  decode_with (
    Payload ← ReadBytes (u32_int (fr_MessageLength f));
    mret (set_payload Payload f)).

(** [b[lo:hi]], with [spare] the bytes between [len(b)] and [cap(b)]. *)
Definition slice_cap (b spare : list u8) (lo hi : Z) : outcome bslice :=
  if (0 <=? lo) && (lo <=? hi) && (hi <=? len (b ++ spare)) then
    Ret (Some (take (Z.to_nat (hi - lo)) (drop (Z.to_nat lo) (b ++ spare))))
  else Panic SliceBoundsOutOfRange.

(** The loop over the TLVs, from offset [from = n + lastLen].  Every turn consumes
    at least five bytes; [None] means the fuel did not suffice. *)
Fixpoint tlv_loop (fuel : nat) (f : Frame) (b : list u8) (from : Z) : option (outcome (Frame * error)) :=
  match fuel with
  | O => None
  | S fuel' =>
      if len b - from <? 5 then Some (Ret (f, None)) else
      match TLV_Decode (Some (drop (Z.to_nat from) b)) with
      | Panic p => Some (Panic p)
      | Ret (tlv, Some e) => Some (Ret (f, Some e))
      | Ret (tlv, None) =>
          tlv_loop fuel' (set_TLVs (Some (default [] (fr_TLVs f) ++ [tlv])) f) b
            (from + u16_int (tlv_Length tlv) + 5)
      end
  end.

Definition Frame_Decode (f : Frame) (b spare : list u8) : outcome (Frame * error) :=
  header ← slice_cap b spare 0 FrameHeaderSize;
  '(f, err) ← Frame_DecodeHeader f header;
  match err with
  | Some _ => mret (f, err)
  | None =>
      let n := FrameHeaderSize + Zmod.unsigned (fr_MessageLength f) in
      payload ← slice_cap b spare FrameHeaderSize n;
      '(f, err) ← Frame_ReadPayload f payload;
      match err with
      | Some _ => mret (f, err)
      | None =>
          if n + 5 <? len b then
            match tlv_loop (S (length b)) f b n with
            | Some o => o
            | None => Panic (ExplicitPanic "out of fuel")
            end
          else mret (f, None)
      end
  end.

(** ** Reading from a stream *)

(** An [io.Reader]: the bytes it will deliver, then the error it ends with. *)
Record stream := { st_data : list u8; st_end : string }.

(** [io.ReadFull(r, buf)] with [len(buf) = n]: the bytes read, the error, what is
    left of the stream. *)
Definition ReadFull (n : nat) (r : stream) : list u8 * error * stream :=
  if (n <=? length (st_data r))%nat then
    (take n (st_data r), None, {| st_data := drop n (st_data r); st_end := st_end r |})
  else
    let err := if decide (st_data r = [] ∨ st_end r ≠ "EOF"%string) then st_end r
               else "unexpected EOF"%string in
    (st_data r, Some err, {| st_data := []; st_end := st_end r |}).

(** [buf] after the read: what was read, over the zeroes of [make]. *)
Definition filled (n : nat) (l : list u8) : list u8 := l ++ replicate (n - length l) (to_u8 0).

Definition Frame_DecodeFromReader (f : Frame) (r : stream) : outcome (Frame * error * stream) :=
  let '(header, err, r) := ReadFull (Z.to_nat FrameHeaderSize) r in
  match err with
  | Some _ => mret (f, err, r)
  | None =>
      '(f, err) ← Frame_DecodeHeader f (Some header);
      match err with
      | Some _ => mret (f, err, r)
      | None =>
          let n := Z.to_nat (Zmod.unsigned (fr_MessageLength f)) in
          let '(payload, err, r) := ReadFull n r in
          mret (set_payload (Some (filled n payload)) f, err, r)
      end
  end.
