(* ===== verification/FrameFacts.v ===== *)
(** * Properties of frames (types.go)

    Sorting of the TLVs, what a frame's encoding is, which inputs decode and to
    what, where decoding panics, and frames carrying messages end to end. *)
From S2P Require Import Prelude GoInts Constants Wire Builder Reader Codec Frame.

(** ** Byte lists and integers *)

Lemma le_bytes l : l = le_put (length l) (le_get l).
Proof. symmetry. apply le_put_get. Qed.

Lemma w_u16_of_bytes l : length l = 2%nat → w_u16 (to_u16 (le_get l)) = (l, None).
Proof.
  intros Hl. apply wbytes_ok. rewrite <- Hl. symmetry. apply le_put_of_Z. unfold len. by rewrite Hl.
Qed.

Lemma u24_of_bytes l : length l = 3%nat → u24_grammar (to_u32 (le_get l)) l.
Proof.
  intros Hl. pose proof (le_get_range l) as Hr. unfold len in Hr. rewrite Hl in Hr.
  change (256 ^ Z.of_nat 3) with 16777216 in Hr. unfold u24_grammar, to_u32.
  rewrite bits.unsigned_of_Z_small by lia. change MaxU24 with 16777215.
  split; [lia|]. rewrite <- Hl. apply le_bytes.
Qed.

(** ** The header and the payload *)

(** The fields of six bytes. *)
Definition header_ext (l : list u8) : Extension := to_u16 (le_get (take 2 l)).
Definition header_type (l : list u8) : MessageType := nth 2 l (to_u8 0).
Definition header_length (l : list u8) : Z := le_get (take 3 (drop 3 l)).

Lemma DecodeHeader_six f l : length l = 6%nat →
  Frame_DecodeHeader f (Some l) =
  Ret (set_header (header_ext l) (header_type l) (to_u32 (header_length l)) f, None).
Proof.
  intros Hl. do 6 (destruct l as [|? l]; [done|]). destruct l; [|done].
  apply (decode_with_iff _ (λ m bs, ∃ e t n, m = set_header e t n f ∧
    bs = le_put 2 (Zmod.unsigned e) ++ [t] ++ le_put 3 (Zmod.unsigned n) ∧
    Zmod.unsigned n ≤ MaxU24)).
  - eapply Parses_iff; cycle 1;
      [repeat (eapply Parses_bind; [solve [eauto with parses]|intros ?]); apply Parses_ret|].
    intros m bs. simpl. split.
    + intros (e & b1 & ? & -> & E1 & t & b2 & ? & -> & E2 & n & b3 & b4 & -> & [Hn ->] & -> & ->).
      apply wbytes_ok in E1 as ->. unfold encoded in E2. rewrite w_u8_byte in E2.
      injection E2 as <-. exists e, t, n. rewrite app_nil_r. done.
    + intros (e & t & n & -> & -> & Hn). exists e, (le_put 2 (Zmod.unsigned e)), ([t] ++ le_put 3 (Zmod.unsigned n)).
      split; [done|]. split; [done|]. exists t, [t], (le_put 3 (Zmod.unsigned n)).
      split; [done|]. split; [apply w_u8_byte|]. exists n, (le_put 3 (Zmod.unsigned n)), [].
      rewrite app_nil_r. done.
  - eexists. split; [|reflexivity]. eexists _, _, _. split; [reflexivity|].
    unfold header_ext, header_length, header_type. cbn [take drop nth app sbytes].
    match goal with |- context [le_get [?a; ?b; ?c]] =>
      destruct (u24_of_bytes [a; b; c] eq_refl) as [Hn E] end.
    split; [|done]. rewrite <- E.
    match goal with |- context [to_u16 (le_get ?l)] =>
      pose proof (w_u16_of_bytes l eq_refl) as E2 end.
    apply wbytes_ok in E2. by rewrite <- E2.
Qed.

Lemma ReadPayload_exact f p :
  len p = Zmod.unsigned (fr_MessageLength f) →
  Frame_ReadPayload f (Some p) = Ret (set_payload (Some p) f, None).
Proof.
  intros Hp. unfold Frame_ReadPayload, decode_with, u32_int, mbind, reader_bind.
  rewrite <- Hp. unfold len. pose proof (u_range 32 (fr_MessageLength f) ltac:(lia)).
  rewrite ReadBytes_enough; [|apply new_ok|done|rewrite rest_new; simpl; lia|simpl; unfold len in Hp; lia].
  rewrite rest_new. simpl. by rewrite firstn_all.
Qed.

(** ** One TLV *)

(** The format the decoder expects: type, field, length, value. *)
Definition tlv_bytes (t : TLV) : list u8 :=
  le_put 2 (Zmod.unsigned (tlv_ExtensionType t)) ++ [tlv_FieldType t] ++
  le_put 2 (Zmod.unsigned (tlv_Length t)) ++ tlv_Value t.

Definition tlv_ok (t : TLV) : Prop := Zmod.unsigned (tlv_Length t) = len (tlv_Value t).

(** The three fields before the value, whatever is read next. *)
Lemma tlv_header_step {A} (k : u16 → u8 → u16 → Reader A) e t n (tail l : list u8) :
  l = le_put 2 (Zmod.unsigned e) ++ [t] ++ le_put 2 (Zmod.unsigned n) ++ tail →
  let br := advance (NewBinaryReader (Some l)) 5 in
  reader_ok br ∧ rest br = tail ∧
  (e ← ReadU16; t ← ReadU8; n ← ReadU16; k e t n) (NewBinaryReader (Some l)) = k e t n br.
Proof.
  intros Hr. change l with (rest (NewBinaryReader (Some l))) in Hr.
  assert (reader_ok (NewBinaryReader (Some l))) as Hok by apply new_ok.
  set (br := NewBinaryReader (Some l)) in *.
  match goal with |- context [(ReadU16 ≫= ?k) br] =>
    destruct (Parses_step ReadU16 k _ br e _ _ Parses_ReadU16 Hok eq_refl Hr)
      as (E1 & Hok1 & Hr1) end.
  rewrite E1. clear E1.
  match goal with |- context [(ReadU8 ≫= ?k) ?b] =>
    destruct (Parses_step ReadU8 k _ b t _ _ Parses_ReadU8 Hok1 (w_u8_byte t) Hr1)
      as (E2 & Hok2 & Hr2) end.
  rewrite E2. clear E2.
  match goal with |- context [(ReadU16 ≫= ?k) ?b] =>
    destruct (Parses_step ReadU16 k _ b n _ _ Parses_ReadU16 Hok2 eq_refl Hr2)
      as (E3 & Hok3 & Hr3) end.
  rewrite E3. rewrite !advance_advance in *. by rewrite !length_le_put in *.
Qed.

Lemma TLV_Decode_header e t n (tail l : list u8) :
  l = le_put 2 (Zmod.unsigned e) ++ [t] ++ le_put 2 (Zmod.unsigned n) ++ tail →
  reader_ok (advance (NewBinaryReader (Some l)) 5) ∧
  rest (advance (NewBinaryReader (Some l)) 5) = tail ∧
  TLV_Decode (Some l) =
  match ReadBytes (u16_int n) (advance (NewBinaryReader (Some l)) 5) with
  | Ret (v, br') => Ret ({| tlv_ExtensionType := e; tlv_FieldType := t; tlv_Length := n;
                            tlv_Value := sbytes v |}, br_err br')
  | Panic p => Panic p
  end.
Proof.
  intros Hl. unfold TLV_Decode, decode_with.
  match goal with |- context [(ReadU16 ≫= λ x, ReadU8 ≫= λ y, ReadU16 ≫= λ z, @?k x y z) _] =>
    destruct (tlv_header_step k e t n tail l Hl) as (Hok & Hr & ->) end.
  split; [done|]. split; [done|]. unfold mbind, reader_bind.
  by destruct (ReadBytes _ (advance _ 5)) as [[v br']|].
Qed.

(** Five bytes are always such a header. *)
Lemma tlv_header_of l : (5 ≤ length l)%nat →
  ∃ (e : u16) (t : u8) (n : u16), l = le_put 2 (Zmod.unsigned e) ++ [t] ++ le_put 2 (Zmod.unsigned n) ++ drop 5 l.
Proof.
  intros Hl. do 5 (destruct l as [|? l]; [simpl in Hl; lia|]).
  match goal with |- context [?a :: ?b :: ?c :: ?d :: ?e :: l] =>
    pose proof (w_u16_of_bytes [a; b] eq_refl) as E1%wbytes_ok;
    pose proof (w_u16_of_bytes [d; e] eq_refl) as E2%wbytes_ok;
    exists (to_u16 (le_get [a; b])), c, (to_u16 (le_get [d; e])) end.
  by rewrite <- E1, <- E2.
Qed.

Lemma TLV_Decode_bytes t tail : tlv_ok t →
  TLV_Decode (Some (tlv_bytes t ++ tail)) = Ret (t, None).
Proof.
  intros Ht. unfold tlv_bytes. rewrite <- !app_assoc. set (l := _ ++ _).
  destruct (TLV_Decode_header (tlv_ExtensionType t) (tlv_FieldType t) (tlv_Length t)
    (tlv_Value t ++ tail) l eq_refl) as (Hok & Hr & ->).
  unfold u16_int. rewrite Ht. unfold len.
  rewrite ReadBytes_enough; [|done|done| |].
  - rewrite Hr, take_app_length. by destruct t.
  - rewrite Hr, length_app. lia.
  - pose proof (u_range 16 (tlv_Length t) ltac:(lia)). unfold tlv_ok, len in Ht. simpl. lia.
Qed.

(** Five bytes or more are a header; the value is there or it is not. *)
Lemma TLV_Decode_cases l : (5 ≤ length l)%nat →
  ∃ t, TLV_Decode (Some l) = Ret (t, None) ∨ TLV_Decode (Some l) = Ret (t, eof_error).
Proof.
  intros Hl. destruct (tlv_header_of l Hl) as (e & c & n & El).
  destruct (TLV_Decode_header e c n _ l El) as (Hok & Hr & ->).
  pose proof (u_range 16 n ltac:(lia)) as Hn. unfold u16_int.
  rewrite <- (Z2Nat.id (Zmod.unsigned n)) by lia.
  match goal with |- context [ReadBytes _ ?br] =>
    destruct (decide (Z.to_nat (Zmod.unsigned n) ≤ length (rest br))%nat) as [Hle|Hle];
    [rewrite (ReadBytes_enough br) by (done || simpl; lia); eauto
    |destruct (ReadBytes_short br (Z.to_nat (Zmod.unsigned n))) as (br' & -> & ->);
       [done|done|lia|simpl; lia|eauto]]
  end.
Qed.

(** ** The loop over the TLVs *)

Definition append_tlvs (f : Frame) (ts : list TLV) : Frame :=
  match ts with
  | [] => f
  | _ => set_TLVs (Some (default [] (fr_TLVs f) ++ ts)) f
  end.

Lemma append_tlvs_cons f t ts :
  append_tlvs (set_TLVs (Some (default [] (fr_TLVs f) ++ [t])) f) ts = append_tlvs f (t :: ts).
Proof. destruct ts; simpl; [done|]. by rewrite <- app_assoc. Qed.

Lemma length_tlv_bytes t : tlv_ok t → len (tlv_bytes t) = u16_int (tlv_Length t) + 5.
Proof.
  unfold tlv_ok, u16_int, tlv_bytes, len. rewrite !length_app, !length_le_put. simpl. lia.
Qed.

Lemma tlv_loop_S fuel f b from :
  tlv_loop (S fuel) f b from =
  if len b - from <? 5 then Some (Ret (f, None)) else
  match TLV_Decode (Some (drop (Z.to_nat from) b)) with
  | Panic p => Some (Panic p)
  | Ret (tlv, Some e) => Some (Ret (f, Some e))
  | Ret (tlv, None) =>
      tlv_loop fuel (set_TLVs (Some (default [] (fr_TLVs f) ++ [tlv])) f) b
        (from + u16_int (tlv_Length tlv) + 5)
  end.
Proof. reflexivity. Qed.

(** One turn per byte is more than enough; no turn panics. *)
Lemma tlv_loop_total fuel : ∀ f b from,
  0 ≤ from → len b - from < Z.of_nat fuel →
  ∃ f' err, tlv_loop (S fuel) f b from = Some (Ret (f', err)) ∧
    (err = None ∨ err = eof_error) ∧
    fr_Payload f' = fr_Payload f ∧ fr_MessageLength f' = fr_MessageLength f ∧
    fr_ExtensionType f' = fr_ExtensionType f ∧ fr_MessageType f' = fr_MessageType f.
Proof.
  induction fuel as [|fuel IH]; intros f b from H0 Hf.
  all: rewrite tlv_loop_S; destruct (len b - from <? 5) eqn:E; bool_to_prop;
    [do 2 eexists; split; [done|]; auto|].
  { lia. }
  destruct (TLV_Decode_cases (drop (Z.to_nat from) b)) as (t & [Ht|Ht]);
    [unfold len in *; rewrite length_drop; lia| |]; rewrite Ht.
  - pose proof (u_range 16 (tlv_Length t) ltac:(lia)).
    destruct (IH (set_TLVs (Some (default [] (fr_TLVs f) ++ [t])) f) b
      (from + u16_int (tlv_Length t) + 5)) as (f' & e & -> & ? & ? & ? & ? & ?);
      [unfold u16_int; lia..|]. do 2 eexists. split; [done|]. auto.
  - do 2 eexists. split; [done|]. auto.
Qed.

(** What follows the payload is decoded as long as it is TLVs. *)
Lemma tlv_loop_decodes ts : ∀ fuel f b from garbage,
  0 ≤ from → drop (Z.to_nat from) b = concat (tlv_bytes <$> ts) ++ garbage →
  Forall tlv_ok ts → len garbage < 5 → (length ts < fuel)%nat →
  tlv_loop fuel f b from = Some (Ret (append_tlvs f ts, None)).
Proof.
  induction ts as [|t ts IH]; intros [|fuel] f b from garbage H0 Hd Hok Hg Hf; try (simpl in Hf; lia).
  - simpl. assert (len (drop (Z.to_nat from) b) < 5) as Hl by (rewrite Hd; done).
    unfold len in Hl. rewrite length_drop in Hl. unfold len.
    by rewrite (proj2 (Z.ltb_lt _ _)) by lia.
  - apply Forall_cons in Hok as [Ht Hok].
    change (concat (tlv_bytes <$> t :: ts)) with (tlv_bytes t ++ concat (tlv_bytes <$> ts)) in Hd.
    rewrite <- app_assoc in Hd.
    pose proof (length_tlv_bytes t Ht) as Hlt. unfold u16_int in *.
    pose proof (u_range 16 (tlv_Length t) ltac:(lia)) as Hr.
    assert (len (tlv_bytes t) ≤ len (drop (Z.to_nat from) b)) as Hl
      by (rewrite Hd, len_app; pose proof (len_nonneg (concat (tlv_bytes <$> ts) ++ garbage)); lia).
    unfold len in Hl. rewrite length_drop in Hl. unfold len in Hlt.
    rewrite tlv_loop_S, (proj2 (Z.ltb_ge _ _)) by (unfold len; lia).
    rewrite Hd, TLV_Decode_bytes by done.
    rewrite (IH _ _ _ _ garbage); [by rewrite append_tlvs_cons|unfold u16_int; lia| |done|done|simpl in Hf; lia].
    unfold u16_int. replace (Z.to_nat (from + Zmod.unsigned (tlv_Length t) + 5))
      with (Z.to_nat from + length (tlv_bytes t))%nat by lia.
    by rewrite <- drop_drop, Hd, drop_app_length.
Qed.

(** ** Decoding a frame *)

Definition decoded_frame (f : Frame) (c : list u8) : Frame :=
  let h := take 6 c in
  set_payload (Some (take (Z.to_nat (header_length h)) (drop 6 c)))
    (set_header (header_ext h) (header_type h) (to_u32 (header_length h)) f).

Lemma header_length_range h : length h = 6%nat → 0 ≤ header_length h < 16777216.
Proof.
  intros Hh. unfold header_length. pose proof (le_get_range (take 3 (drop 3 h))) as Hr.
  unfold len in Hr. rewrite length_take, length_drop, Hh in Hr. exact Hr.
Qed.

Lemma unsigned_header_length h : length h = 6%nat →
  Zmod.unsigned (to_u32 (header_length h)) = header_length h.
Proof. intros Hh. apply bits.unsigned_of_Z_small. pose proof (header_length_range h Hh). lia. Qed.

Lemma slice_cap_ok b spare lo hi :
  0 ≤ lo ≤ hi → hi ≤ len (b ++ spare) →
  slice_cap b spare lo hi = Ret (Some (take (Z.to_nat (hi - lo)) (drop (Z.to_nat lo) (b ++ spare)))).
Proof.
  intros [H0 H1] H2. unfold slice_cap.
  by rewrite (proj2 (Z.leb_le _ _) H0), (proj2 (Z.leb_le _ _) H1), (proj2 (Z.leb_le _ _) H2).
Qed.

Lemma slice_cap_out b spare lo hi :
  len (b ++ spare) < hi → slice_cap b spare lo hi = Panic SliceBoundsOutOfRange.
Proof.
  intros H2. unfold slice_cap. rewrite (proj2 (Z.leb_gt _ _) H2). by rewrite andb_false_r.
Qed.

(** The whole decoder, by what its input is. *)
Lemma Frame_Decode_eq f b spare :
  let c := b ++ spare in
  let n := 6 + header_length (take 6 c) in
  Frame_Decode f b spare =
  if len c <? 6 then Panic SliceBoundsOutOfRange
  else if len c <? n then Panic SliceBoundsOutOfRange
  else if n + 5 <? len b then
    match tlv_loop (S (length b)) (decoded_frame f c) b n with
    | Some o => o
    | None => Panic (ExplicitPanic "out of fuel")
    end
  else Ret (decoded_frame f c, None).
Proof.
  intros c n. unfold Frame_Decode. change FrameHeaderSize with 6.
  destruct (len c <? 6) eqn:E6; bool_to_prop; [by rewrite slice_cap_out|].
  rewrite slice_cap_ok by (unfold c in *; lia). change (Z.to_nat (6 - 0)) with 6%nat.
  change (Z.to_nat 0) with 0%nat. rewrite drop_0. fold c.
  assert (length (take 6 c) = 6%nat) as H6 by (unfold len in E6; rewrite length_take; lia).
  unfold mbind, outcome_bind. rewrite DecodeHeader_six by done.
  cbn [fr_MessageLength set_header]. rewrite unsigned_header_length by done. fold n.
  pose proof (header_length_range _ H6) as Hr.
  destruct (len c <? n) eqn:En; bool_to_prop; [by rewrite slice_cap_out|].
  rewrite slice_cap_ok by (unfold n, c in *; lia). fold c.
  replace (Z.to_nat (n - 6)) with (Z.to_nat (header_length (take 6 c))) by (unfold n; lia).
  change (Z.to_nat 6) with 6%nat.
  rewrite ReadPayload_exact; [reflexivity|].
  cbn [fr_MessageLength set_header]. rewrite unsigned_header_length by done.
  unfold len. rewrite length_take, length_drop. unfold len, n in En. lia.
Qed.

(** ** Encoding a frame *)

(** A frame's bytes, with the length given as an integer. *)
Definition frame_bytes (ext : Extension) (mt : MessageType) (n : Z) (payload : list u8) : list u8 :=
  le_put 2 (Zmod.unsigned ext) ++ [mt] ++ le_put 3 n ++ payload.

Section FrameEncode.
Context `{GoAlloc}.

Lemma Frame_emit_eq k f :
  Frame_emit (NewBinaryBuilder |> Grow k) f =
  (Some (frame_bytes (fr_ExtensionType f) (fr_MessageType f)
    (Zmod.unsigned (fr_MessageLength f)) (sbytes (fr_Payload f))), None).
Proof.
  assert (Built (NewBinaryBuilder |> Grow k) (wnil ⋅ wnil)) as Hb
    by (apply Built_step; [apply Emits_Grow|apply Built_new]).
  unfold Frame_emit.
  apply (Built_step _ _ _ _ (Emits_AddU16 (fr_ExtensionType f))) in Hb.
  apply (Built_step _ _ _ _ (Emits_AddU8 (fr_MessageType f))) in Hb.
  apply (Built_step _ _ _ _ (Emits_AddU24 (fr_MessageLength f))) in Hb.
  apply (Built_step _ _ _ _ (Emits_AddBytes (sbytes (fr_Payload f)))) in Hb.
  rewrite (Built_Bytes _ _ Hb), w_u8_byte. unfold frame_bytes, wapp, w_u16, w_u24, w_uint, wbytes, wnil.
  cbn [fst snd app]. by rewrite <- !app_assoc.
Qed.

(** What [TLV.Encode] writes: the length twice. *)
Definition tlv_enc_bytes (t : TLV) : list u8 :=
  le_put 2 (Zmod.unsigned (tlv_ExtensionType t)) ++ [tlv_FieldType t] ++
  le_put 2 (Zmod.unsigned (tlv_Length t)) ++ le_put 2 (len (tlv_Value t)) ++ tlv_Value t.

Lemma TLV_Encode_eq t :
  if len (tlv_Value t) <=? 65535 then TLV_Encode t = (Some (tlv_enc_bytes t), None)
  else ∃ bs e, TLV_Encode t = (bs, Some e).
Proof.
  assert (Built (NewBinaryBuilder |> Grow (len (tlv_Value t) + 5)) (wnil ⋅ wnil)) as Hb
    by (apply Built_step; [apply Emits_Grow|apply Built_new]).
  unfold TLV_Encode.
  apply (Built_step _ _ _ _ (Emits_AddU16 (tlv_ExtensionType t))) in Hb.
  apply (Built_step _ _ _ _ (Emits_AddU8 (tlv_FieldType t))) in Hb.
  apply (Built_step _ _ _ _ (Emits_AddU16 (tlv_Length t))) in Hb.
  apply (Built_step _ _ _ _ (Emits_AddBin64K (tlv_Value t))) in Hb.
  rewrite (Built_Bytes _ _ Hb), w_u8_byte.
  unfold wapp, w_u16, w_bin64k, w_bin, w_uint, wbytes, wnil, wfail, tlv_enc_bytes.
  destruct (len (tlv_Value t) <=? 65535) eqn:E; bool_to_prop.
  - rewrite (proj2 (Z.ltb_ge _ _) E). cbn [fst snd app]. by rewrite <- !app_assoc.
  - rewrite (proj2 (Z.ltb_lt _ _) E). cbn [fst snd]. eauto.
Qed.

Definition tlv_fits (t : TLV) : bool := len (tlv_Value t) <=? 65535.

Lemma encode_tlvs_eq ts : ∀ bb bs, Built bb (wbytes bs) →
  if forallb tlv_fits ts then
    ∃ out, encode_tlvs ts bb = inr out ∧ Built out (wbytes (bs ++ concat (tlv_enc_bytes <$> ts)))
  else ∃ e, encode_tlvs ts bb = inl e.
Proof.
  induction ts as [|t ts IH]; intros bb bs Hb.
  - simpl. exists bb. by rewrite app_nil_r.
  - pose proof (TLV_Encode_eq t) as Ht. cbn [forallb encode_tlvs]. fold (tlv_fits t) in Ht.
    destruct (tlv_fits t); simpl andb; cbn match.
    + rewrite Ht. cbn [sbytes].
      specialize (IH (AddBytes (tlv_enc_bytes t) bb) (bs ++ tlv_enc_bytes t)).
      change (concat (tlv_enc_bytes <$> t :: ts)) with (tlv_enc_bytes t ++ concat (tlv_enc_bytes <$> ts)).
      rewrite app_assoc. apply IH.
      change (wbytes (bs ++ tlv_enc_bytes t)) with (wbytes bs ⋅ wbytes (tlv_enc_bytes t)).
      apply Built_step; [apply Emits_AddBytes|done].
    + destruct Ht as (b & e & ->). eauto.
Qed.

(** The bytes of a frame's TLVs, in the order they are written. *)
Definition tlvs_enc_bytes (tlvs : list TLV) : list u8 :=
  concat (tlv_enc_bytes <$> SortStableFunc tlv_cmp tlvs).

Definition length_agrees (f : Frame) : bool :=
  Zmod.unsigned (fr_MessageLength f) =? len (sbytes (fr_Payload f)).

(** The frame after an encoding that reached its TLVs. *)
Definition encoded_frame (f : Frame) (tlvs : list TLV) : Frame :=
  let tb := tlvs_enc_bytes tlvs in
  set_payload (go_append (fr_Payload f) tb)
    (set_length (to_u32 (Zmod.unsigned (fr_MessageLength f) + len tb))
      (set_TLVs (Some (SortStableFunc tlv_cmp tlvs)) f)).

Lemma sbytes_go_append b l : sbytes (go_append b l) = sbytes b ++ l.
Proof. by destruct b, l. Qed.

Lemma to_u32_add_to_u32 x y : to_u32 (x + Zmod.unsigned (to_u32 y)) = to_u32 (x + y).
Proof.
  apply Zmod.unsigned_inj. unfold to_u32. rewrite !bits.unsigned_of_Z.
  by rewrite Zplus_mod_idemp_r.
Qed.

Lemma Frame_Encode_eq f :
  Frame_Encode f =
  if negb (length_agrees f) then
    ((None, Some "Frame.Encode: MessageLength != len(Payload)"%string), f)
  else match fr_TLVs f with
  | None => ((Some (frame_bytes (fr_ExtensionType f) (fr_MessageType f)
               (Zmod.unsigned (fr_MessageLength f)) (sbytes (fr_Payload f))), None), f)
  | Some tlvs =>
      match encode_tlvs (SortStableFunc tlv_cmp tlvs) NewBinaryBuilder with
      | inl e => ((None, Some e), set_TLVs (Some (SortStableFunc tlv_cmp tlvs)) f)
      | inr _ =>
          let f' := encoded_frame f tlvs in
          ((Some (frame_bytes (fr_ExtensionType f) (fr_MessageType f)
             (Zmod.unsigned (fr_MessageLength f'))
             (sbytes (fr_Payload f) ++ tlvs_enc_bytes tlvs)), None), f')
      end
  end.
Proof.
  unfold Frame_Encode, length_agrees. destruct (negb _); [done|].
  destruct (fr_TLVs f) as [tlvs|]; [|by rewrite Frame_emit_eq].
  pose proof (encode_tlvs_eq (SortStableFunc tlv_cmp tlvs) NewBinaryBuilder [] Built_new) as Ht.
  destruct (forallb _ _); destruct Ht as [x Ht]; [destruct Ht as [-> Hb]|by rewrite Ht].
  rewrite (Built_Bytes _ _ Hb). destruct Hb as [Hd _]. unfold Len. rewrite Hd.
  cbn [wbytes fst snd app sbytes]. rewrite to_u32_add_to_u32.
  change (concat (tlv_enc_bytes <$> SortStableFunc tlv_cmp tlvs)) with (tlvs_enc_bytes tlvs).
  rewrite Frame_emit_eq. cbn [fr_ExtensionType fr_MessageType fr_MessageLength fr_Payload set_payload
    set_length set_header set_TLVs encoded_frame]. by rewrite sbytes_go_append.
Qed.

End FrameEncode.

(** The header of [frame_bytes], read back. *)
Definition header_bytes (ext : Extension) (mt : MessageType) (n : Z) : list u8 :=
  le_put 2 (Zmod.unsigned ext) ++ [mt] ++ le_put 3 n.

Lemma frame_bytes_split ext mt n payload :
  frame_bytes ext mt n payload = header_bytes ext mt n ++ payload.
Proof. unfold frame_bytes, header_bytes. by rewrite <- !app_assoc. Qed.

Lemma header_bytes_fields ext mt n : 0 ≤ n ≤ MaxU24 →
  length (header_bytes ext mt n) = 6%nat ∧ header_ext (header_bytes ext mt n) = ext ∧
  header_type (header_bytes ext mt n) = mt ∧ header_length (header_bytes ext mt n) = n.
Proof.
  intros Hn. change MaxU24 with 16777215 in Hn.
  unfold header_bytes, header_ext, header_type, header_length. split_and!.
  - by rewrite !length_app, !length_le_put.
  - change (take 2 _) with (le_put 2 (Zmod.unsigned ext)). unfold to_u16.
    rewrite (le_get_put_unsigned 16) by done. apply of_Z_unsigned.
  - reflexivity.
  - change (take 3 _) with (le_put 3 n). rewrite le_get_put. apply Z.mod_small.
    change (256 ^ Z.of_nat 3) with 16777216. lia.
Qed.

Lemma DecodeHeader_bytes f ext mt n : 0 ≤ n ≤ MaxU24 →
  Frame_DecodeHeader f (Some (header_bytes ext mt n)) = Ret (set_header ext mt (to_u32 n) f, None).
Proof.
  intros Hn. destruct (header_bytes_fields ext mt n Hn) as (Hl & He & Ht & Hh).
  by rewrite DecodeHeader_six, He, Ht, Hh.
Qed.

(** Decoding what [frame_bytes] describes. *)
Lemma decoded_frame_bytes f ext mt payload tail :
  len payload ≤ MaxU24 →
  decoded_frame f (frame_bytes ext mt (len payload) payload ++ tail) =
  set_payload (Some payload) (set_header ext mt (to_u32 (len payload)) f) ∧
  header_length (take 6 (frame_bytes ext mt (len payload) payload ++ tail)) = len payload.
Proof.
  intros Hp. pose proof (len_nonneg payload) as H0.
  destruct (header_bytes_fields ext mt (len payload) ltac:(lia)) as (Hl & He & Ht & Hh).
  rewrite frame_bytes_split, <- app_assoc. unfold decoded_frame. rewrite <- Hl.
  rewrite take_app_length, drop_app_length, He, Ht, Hh. split; [|done].
  unfold len. by rewrite Nat2Z.id, take_app_length.
Qed.

(** ** Reading from a stream *)

Lemma ReadFull_enough n r : (n ≤ length (st_data r))%nat →
  ReadFull n r = (take n (st_data r), None, {| st_data := drop n (st_data r); st_end := st_end r |}).
Proof. intros Hn. unfold ReadFull. by rewrite (proj2 (Nat.leb_le _ _) Hn). Qed.

Lemma ReadFull_short n r : (length (st_data r) < n)%nat →
  ∃ e, ReadFull n r = (st_data r, Some e, {| st_data := []; st_end := st_end r |}).
Proof. intros Hn. unfold ReadFull. rewrite (proj2 (Nat.leb_gt _ _) Hn). eauto. Qed.

Lemma ReadFull_exact n l tail e : length l = n →
  ReadFull n {| st_data := l ++ tail; st_end := e |} = (l, None, {| st_data := tail; st_end := e |}).
Proof.
  intros Hl. unfold ReadFull. cbn [st_data st_end].
  rewrite length_app, (proj2 (Nat.leb_le _ _)) by lia.
  by rewrite take_app_length', drop_app_length'.
Qed.

Lemma ReadFull_ok n r l r' : ReadFull n r = (l, None, r') →
  length l = n ∧ st_data r = l ++ st_data r' ∧ st_end r' = st_end r.
Proof.
  unfold ReadFull. destruct (n <=? _)%nat eqn:E; [|done]. apply Nat.leb_le in E.
  intros [= <- <-]. cbn [st_data st_end]. rewrite length_take, take_drop. split_and!; [lia|done..].
Qed.

Lemma ReadFull_shrinks n r b err r' : ReadFull n r = (b, err, r') →
  st_end r' = st_end r ∧ (length (st_data r') ≤ length (st_data r))%nat ∧
  (err = None → length (st_data r') + n = length (st_data r))%nat.
Proof.
  unfold ReadFull. destruct (n <=? _)%nat eqn:E; [apply Nat.leb_le in E|]; intros [= <- <- <-];
    simpl; rewrite ?length_drop; split_and!; [done|lia|lia|done|lia|done].
Qed.
