(* ===== verification/FrameProps.v ===== *)
(** * What frames promise (types.go)

    The properties of [Frame.v]'s definitions, from the lemmas of [FrameFacts.v]. *)
From stdpp Require Import sorting.
From S2P Require Import Prelude GoInts Constants Wire Builder Reader Codec CoreMessages Frame FrameFacts.

(** ** The order of the TLVs *)

Definition ext_of (t : TLV) : Z := Zmod.unsigned (tlv_ExtensionType t).

Lemma tlv_cmp_le i j : (tlv_cmp i j <=? 0) = (ext_of i <=? ext_of j).
Proof.
  unfold tlv_cmp, ext_of. destruct (_ <? _) eqn:E1; bool_to_prop.
  - symmetry. apply Z.leb_gt. lia.
  - rewrite (proj2 (Z.leb_le (Zmod.unsigned _) _)) by lia. by destruct (_ <? _).
Qed.

Lemma sort_insert_perm x l : sort_insert tlv_cmp x l ≡ₚ x :: l.
Proof.
  induction l as [|y l IH]; [done|]. simpl. destruct (_ <=? 0); [done|].
  rewrite IH. apply Permutation_swap.
Qed.

Definition tlv_le (i j : TLV) : Prop := ext_of i ≤ ext_of j.

Lemma sort_insert_sorted x l :
  StronglySorted tlv_le l → StronglySorted tlv_le (sort_insert tlv_cmp x l).
Proof.
  induction 1 as [|y l Hs IH Hall]; simpl; [by repeat constructor|].
  rewrite tlv_cmp_le. destruct (_ <=? _) eqn:E; bool_to_prop.
  - constructor; [by constructor|]. constructor; [done|].
    eapply Forall_impl; [exact Hall|]. unfold tlv_le. intros z Hz. lia.
  - constructor; [done|]. rewrite sort_insert_perm. constructor; [unfold tlv_le; lia|done].
Qed.

Lemma sort_insert_filter k x l :
  filter (λ t, ext_of t = k) (sort_insert tlv_cmp x l) = filter (λ t, ext_of t = k) (x :: l).
Proof.
  induction l as [|y l IH]; [done|]. simpl sort_insert. rewrite tlv_cmp_le.
  destruct (_ <=? _) eqn:E; [done|]. bool_to_prop. rewrite !filter_cons, IH, filter_cons.
  repeat case_decide; try done. lia.
Qed.

Lemma sort_insert_min x l : Forall (tlv_le x) l → sort_insert tlv_cmp x l = x :: l.
Proof.
  destruct 1 as [|y l Hy _]; [done|]. simpl. rewrite tlv_cmp_le.
  by rewrite (proj2 (Z.leb_le _ _) Hy).
Qed.

Lemma Sort_sorted l : StronglySorted tlv_le (SortStableFunc tlv_cmp l).
Proof. induction l as [|x l IH]; [constructor|]. by apply sort_insert_sorted. Qed.

Lemma Sort_of_sorted l : StronglySorted tlv_le l → SortStableFunc tlv_cmp l = l.
Proof.
  induction 1 as [|x l Hs IH Hall]; [done|].
  change (sort_insert tlv_cmp x (SortStableFunc tlv_cmp l) = x :: l).
  rewrite IH. by apply sort_insert_min.
Qed.

(** Encoding puts the TLVs in ascending order of extension type, loses and
    invents none, and keeps those of one extension in the order they were in. *)
Theorem TLVs_sorted_stably l :
  SortStableFunc tlv_cmp l ≡ₚ l ∧
  StronglySorted (λ i j, ext_of i ≤ ext_of j) (SortStableFunc tlv_cmp l) ∧
  ∀ k, filter (λ t, ext_of t = k) (SortStableFunc tlv_cmp l) = filter (λ t, ext_of t = k) l.
Proof.
  split_and!; [|apply Sort_sorted|intros k]; induction l as [|x l IH]; try done; simpl.
  - by rewrite sort_insert_perm, IH.
  - rewrite sort_insert_filter, !filter_cons, IH. done.
Qed.

(** ** Decoding *)

(** C13: [Frame.Decode] of any bytes, with any spare capacity after them: it panics
    exactly when the capacity does not hold the header or the payload that the
    header announces; otherwise it returns, in a bounded number of turns of its
    loop, with the header's fields and the announced number of bytes as payload,
    and without an error unless a TLV is cut short.  The payload is taken up to
    the capacity, so a truncated frame in a larger buffer decodes without an error
    with the buffer's stale bytes in its payload. *)
Theorem Frame_Decode_total f b spare :
  let c := b ++ spare in
  if (len c <? 6) || (len c <? 6 + header_length (take 6 c)) then
    Frame_Decode f b spare = Panic SliceBoundsOutOfRange
  else ∃ f' err, Frame_Decode f b spare = Ret (f', err) ∧ (err = None ∨ err = eof_error) ∧
    fr_Payload f' = Some (take (Z.to_nat (header_length (take 6 c))) (drop 6 c)) ∧
    Zmod.unsigned (fr_MessageLength f') = header_length (take 6 c) ∧
    fr_ExtensionType f' = header_ext (take 6 c) ∧ fr_MessageType f' = header_type (take 6 c) ∧
    (len b ≤ 6 + header_length (take 6 c) + 5 → err = None ∧ fr_TLVs f' = fr_TLVs f).
Proof.
  intros c. rewrite Frame_Decode_eq. fold c.
  cbn zeta. destruct (len c <? 6) eqn:E6; [done|].
  destruct (len c <? 6 + header_length (take 6 c)) eqn:En; [done|]. bool_to_prop. cbn [orb].
  assert (length (take 6 c) = 6%nat) as H6 by (unfold len in E6; rewrite length_take; lia).
  pose proof (header_length_range _ H6) as Hr. pose proof (unsigned_header_length _ H6) as Hu.
  destruct (6 + _ + 5 <? len b) eqn:El; bool_to_prop.
  - destruct (tlv_loop_total (length b) (decoded_frame f c) b (6 + header_length (take 6 c)))
      as (f' & e & -> & He & Hp & Hl & Hx & Ht); [lia|unfold len; lia|].
    exists f', e. rewrite Hp, Hl, Hx, Ht. split_and!; try done. lia.
  - exists (decoded_frame f c), None. split_and!; auto.
Qed.

(** C14: a frame without TLVs, at most 2^24-1 bytes long, encodes to its header and
    payload and is left unchanged; decoding that, followed by the TLVs [ts] and
    fewer than five bytes more, gives the frame back, with [ts] appended to the
    receiver's TLVs.  The exception is the source's threshold: where no more than
    five bytes follow the payload nothing is decoded from them, not even the one
    empty TLV they may be. *)
Theorem Frame_roundtrip `{GoAlloc} f f0 ts garbage spare
    (Hnone : fr_TLVs f = None) (Hlen : length_agrees f = true)
    (Hmax : len (sbytes (fr_Payload f)) ≤ MaxU24)
    (Hts : Forall tlv_ok ts) (Hg : len garbage < 5) :
  let tail := concat (tlv_bytes <$> ts) ++ garbage in
  ∃ bs, Frame_Encode f = ((Some bs, None), f) ∧
    Frame_Decode f0 (bs ++ tail) spare =
    Ret (append_tlvs
      {| fr_ExtensionType := fr_ExtensionType f; fr_MessageType := fr_MessageType f;
         fr_MessageLength := fr_MessageLength f; fr_Payload := Some (sbytes (fr_Payload f));
         fr_TLVs := fr_TLVs f0 |}
      (if len tail <=? 5 then [] else ts), None).
Proof.
  intros tail. rewrite Frame_Encode_eq, Hlen, Hnone. simpl.
  apply Z.eqb_eq in Hlen. rewrite Hlen. set (p := sbytes (fr_Payload f)) in *.
  eexists. split; [reflexivity|].
  set (bs := frame_bytes _ _ _ _). rewrite Frame_Decode_eq. rewrite <- app_assoc.
  destruct (decoded_frame_bytes f0 (fr_ExtensionType f) (fr_MessageType f) p (tail ++ spare) Hmax)
    as [Hd Hl]. fold bs in Hd, Hl. cbn zeta. rewrite Hd, Hl. clear Hd Hl.
  assert (len bs = 6 + len p) as Hb.
  { unfold bs, frame_bytes, len. rewrite !length_app, !length_le_put. simpl. lia. }
  pose proof (len_nonneg p). pose proof (len_nonneg (tail ++ spare)).
  rewrite (len_app bs (tail ++ spare)), (len_app bs tail), Hb.
  rewrite (proj2 (Z.ltb_ge (6 + len p + len (tail ++ spare)) 6)) by lia.
  rewrite (proj2 (Z.ltb_ge (6 + len p + len (tail ++ spare)) (6 + len p))) by lia.
  assert (to_u32 (len p) = fr_MessageLength f) as ->
    by (rewrite <- Hlen; apply of_Z_unsigned).
  destruct (len tail <=? 5) eqn:Et; bool_to_prop.
  - by rewrite (proj2 (Z.ltb_ge (6 + len p + 5) (6 + len p + len tail))) by lia.
  - rewrite (proj2 (Z.ltb_lt (6 + len p + 5) (6 + len p + len tail))) by lia.
    rewrite (tlv_loop_decodes ts _ _ _ _ garbage); [reflexivity|lia| |done|done|].
    + replace (Z.to_nat (6 + len p)) with (length bs) by (unfold len in *; lia).
      by rewrite drop_app_length.
    + rewrite length_app. assert (length ts ≤ length tail)%nat; [|lia].
      unfold tail. rewrite length_app. clear. induction ts as [|t ts IH]; [simpl; lia|].
      change (concat (tlv_bytes <$> t :: ts)) with (tlv_bytes t ++ concat (tlv_bytes <$> ts)).
      rewrite length_app. unfold tlv_bytes at 1. rewrite !length_app, !length_le_put. simpl. lia.
Qed.

Definition sample_frame : Frame :=
  {| fr_ExtensionType := to_u16 1; fr_MessageType := to_u8 0x1a; fr_MessageLength := to_u32 2;
     fr_Payload := Some [to_u8 7; to_u8 8]; fr_TLVs := None |}.
Definition sample_tlv : TLV :=
  {| tlv_ExtensionType := to_u16 2; tlv_FieldType := to_u8 1; tlv_Length := to_u16 1;
     tlv_Value := [to_u8 9] |}.

Lemma Frame_roundtrip_witness :
  ∃ bs, Frame_Encode (H := exact_alloc) sample_frame = ((Some bs, None), sample_frame) ∧
    Frame_Decode zero_frame (bs ++ tlv_bytes sample_tlv ++ []) [] =
    Ret ({| fr_ExtensionType := to_u16 1; fr_MessageType := to_u8 0x1a;
            fr_MessageLength := to_u32 2; fr_Payload := Some [to_u8 7; to_u8 8];
            fr_TLVs := Some [sample_tlv] |}, None).
Proof.
  destruct (Frame_roundtrip (H := exact_alloc) sample_frame zero_frame [sample_tlv] [] [])
    as (bs & He & Hd).
  - reflexivity.
  - vm_compute. reflexivity.
  - vm_compute. discriminate.
  - constructor; [vm_compute; reflexivity|constructor].
  - reflexivity.
  - exists bs. split; [exact He|]. exact Hd.
Defined.

(** ** Encoding with TLVs *)

Lemma encode_tlvs_fits `{GoAlloc} tlvs :
  Forall (λ t, len (tlv_Value t) ≤ 65535) tlvs →
  ∃ out, encode_tlvs (SortStableFunc tlv_cmp tlvs) NewBinaryBuilder = inr out.
Proof.
  intros Hf. pose proof (encode_tlvs_eq (SortStableFunc tlv_cmp tlvs) NewBinaryBuilder [] Built_new) as Ht.
  assert (forallb tlv_fits (SortStableFunc tlv_cmp tlvs) = true) as E; [|rewrite E in Ht; naive_solver].
  apply forallb_forall. intros t Ht'%list_elem_of_In.
  assert (t ∈ tlvs) as Hin.
  { revert Ht'. clear. induction tlvs as [|x l IH]; [done|]. simpl. rewrite sort_insert_perm.
    intros [->|Ht]%elem_of_cons; [by left|right; auto]. }
  rewrite Forall_forall in Hf. specialize (Hf t Hin). unfold tlv_fits.
  by rewrite (proj2 (Z.leb_le _ _) Hf).
Qed.

(** Encoding a frame that has TLVs changes it: the encoded TLVs become part of
    its payload and of its length, and they stay in its list.  So the encoding is
    not a function of the frame's content: a second call, such as the one the
    examples make after logging the frame, succeeds as well and writes the TLVs
    twice. *)
Theorem Frame_Encode_accumulates `{GoAlloc} f tlvs
    (Htlvs : fr_TLVs f = Some tlvs) (Hlen : length_agrees f = true)
    (Hfits : Forall (λ t, len (tlv_Value t) ≤ 65535) tlvs)
    (Hmax : len (sbytes (fr_Payload f)) + 2 * len (tlvs_enc_bytes tlvs) < 2 ^ 32) :
  let p := sbytes (fr_Payload f) in
  let tb := tlvs_enc_bytes tlvs in
  let bytes q := frame_bytes (fr_ExtensionType f) (fr_MessageType f) (len q) q in
  ∃ f1 f2,
    Frame_Encode f = ((Some (bytes (p ++ tb)), None), f1) ∧
    Frame_Encode f1 = ((Some (bytes (p ++ tb ++ tb)), None), f2) ∧
    sbytes (fr_Payload f1) = p ++ tb ∧ fr_TLVs f1 = Some (SortStableFunc tlv_cmp tlvs) ∧
    sbytes (fr_Payload f2) = p ++ tb ++ tb.
Proof.
  intros p tb bytes. pose proof (len_nonneg p) as Hp. pose proof (len_nonneg tb) as Htb.
  fold p tb in Hmax. set (f1 := encoded_frame f tlvs).
  assert (Zmod.unsigned (fr_MessageLength f) = len p) as Hl by by apply Z.eqb_eq in Hlen.
  assert (Zmod.unsigned (fr_MessageLength f1) = len (p ++ tb)) as Hl1.
  { unfold f1, encoded_frame. cbn [fr_MessageLength set_payload set_length set_header set_TLVs].
    fold tb. rewrite Hl, len_app. apply bits.unsigned_of_Z_small. lia. }
  assert (sbytes (fr_Payload f1) = p ++ tb) as Hp1 by apply sbytes_go_append.
  assert (fr_TLVs f1 = Some (SortStableFunc tlv_cmp tlvs)) as Ht1 by done.
  assert (SortStableFunc tlv_cmp (SortStableFunc tlv_cmp tlvs) = SortStableFunc tlv_cmp tlvs)
    as Hss by apply Sort_of_sorted, Sort_sorted.
  assert (tlvs_enc_bytes (SortStableFunc tlv_cmp tlvs) = tb) as Htb1
    by (unfold tlvs_enc_bytes; by rewrite Hss).
  set (f2 := encoded_frame f1 (SortStableFunc tlv_cmp tlvs)).
  destruct (encode_tlvs_fits tlvs Hfits) as [out He].
  exists f1, f2. split_and!; [| |done|done|].
  - rewrite Frame_Encode_eq, Hlen, Htlvs, He. cbn [negb]. fold f1 p tb. cbn zeta. by rewrite Hl1.
  - rewrite Frame_Encode_eq. unfold length_agrees. rewrite Hl1, Hp1, Z.eqb_refl, Ht1, Hss, He.
    cbn [negb]. fold f2. cbn zeta. rewrite Htb1.
    assert (Zmod.unsigned (fr_MessageLength f2) = len (p ++ tb ++ tb)) as ->.
    { unfold f2, encoded_frame. cbn [fr_MessageLength set_payload set_length set_header set_TLVs].
      rewrite Htb1, Hl1, !len_app. etransitivity; [apply bits.unsigned_of_Z_small|]; lia. }
    unfold bytes. by rewrite <- app_assoc.
  - unfold f2, encoded_frame. cbn [fr_Payload set_payload set_length set_header set_TLVs].
    rewrite sbytes_go_append, Hp1, Htb1. by rewrite app_assoc.
Qed.

Lemma Frame_Encode_accumulates_witness :
  let f := set_TLVs (Some [sample_tlv]) sample_frame in
  ∃ f1 f2 b1 b2, Frame_Encode (H := exact_alloc) f = ((Some b1, None), f1) ∧
    Frame_Encode (H := exact_alloc) f1 = ((Some b2, None), f2) ∧
    sbytes (fr_Payload f2) = [to_u8 7; to_u8 8] ++ tlv_enc_bytes sample_tlv ++ tlv_enc_bytes sample_tlv.
Proof.
  intros f.
  destruct (Frame_Encode_accumulates (H := exact_alloc) f [sample_tlv])
    as (f1 & f2 & E1 & E2 & _ & _ & E5).
  - reflexivity.
  - vm_compute. reflexivity.
  - constructor; [vm_compute; discriminate|constructor].
  - vm_compute. reflexivity.
  - exists f1, f2. do 2 eexists. split; [exact E1|]. split; [exact E2|].
    rewrite E5. reflexivity.
Defined.

(** What [TLV.Encode] writes is not what [TLV.Decode] reads.  The encoder
    writes the length twice, as the field and as the prefix of the value; decoding
    its output succeeds, with a value that starts with the two bytes of the length
    and lacks the last bytes of the original. *)
Theorem TLV_Encode_not_Decode `{GoAlloc} t tail
    (Hok : tlv_ok t) :
  TLV_Encode t = (Some (tlv_enc_bytes t), None) ∧
  TLV_Decode (Some (tlv_enc_bytes t ++ tail)) =
  Ret ({| tlv_ExtensionType := tlv_ExtensionType t; tlv_FieldType := tlv_FieldType t;
          tlv_Length := tlv_Length t;
          tlv_Value := take (length (tlv_Value t)) (le_put 2 (len (tlv_Value t)) ++ tlv_Value t) |}, None).
Proof.
  pose proof (u_range 16 (tlv_Length t) ltac:(lia)) as Hr. unfold tlv_ok in Hok. split.
  - pose proof (TLV_Encode_eq t) as Ht. by rewrite (proj2 (Z.leb_le _ _)) in Ht by lia.
  - set (v := le_put 2 (len (tlv_Value t)) ++ tlv_Value t).
    set (t' := {| tlv_ExtensionType := _ |}).
    replace (tlv_enc_bytes t ++ tail) with (tlv_bytes t' ++ drop (length (tlv_Value t)) v ++ tail).
    + apply TLV_Decode_bytes. unfold tlv_ok, len, t'. cbn [tlv_Length tlv_Value].
      rewrite Hok. unfold len, v. rewrite length_take, length_app, length_le_put. lia.
    + unfold tlv_bytes, tlv_enc_bytes, t'. cbn [tlv_ExtensionType tlv_FieldType tlv_Length tlv_Value].
      fold v. rewrite <- !app_assoc. do 3 f_equal. rewrite app_assoc. by rewrite take_drop.
Qed.

Lemma TLV_Encode_not_Decode_witness :
  TLV_Decode (Some (tlv_enc_bytes sample_tlv)) =
  Ret ({| tlv_ExtensionType := to_u16 2; tlv_FieldType := to_u8 1; tlv_Length := to_u16 1;
          tlv_Value := [to_u8 1] |}, None).
Proof.
  rewrite <- (app_nil_r (tlv_enc_bytes sample_tlv)).
  apply (TLV_Encode_not_Decode (H := exact_alloc) sample_tlv []). vm_compute. reflexivity.
Defined.

(** ** Messages in frames *)

(** C1: a message sent in a frame arrives.  For every message type that keeps the
    codec contract, if its encoding has at most 2^24-1 bytes, [FromParamsExtension]
    builds a frame, which encodes; decoding its bytes, and then its payload, gives
    the extension, the type and the message, whatever the receivers held. *)
Theorem message_through_frame `{GoAlloc} {M} `{WireCodec M} (m m0 : M) (f f0 : Frame) mt ext bs spare
    (Henc : Encode m = (Some bs, None)) (Hmax : len bs ≤ MaxU24) :
  ∃ fs out fr,
    Frame_FromParamsExtension f mt ext m = (fs, None) ∧
    Frame_Encode fs = ((Some out, None), fs) ∧
    Frame_Decode f0 out spare = Ret (fr, None) ∧
    fr_MessageType fr = mt ∧ fr_ExtensionType fr = ext ∧
    Zmod.unsigned (fr_MessageLength fr) = len bs ∧ fr_TLVs fr = fr_TLVs f0 ∧
    Frame_ToParams fr m0 = Ret (m, None).
Proof.
  unfold Frame_FromParamsExtension, NewFrameFromParams. rewrite Henc. change (sbytes (Some bs)) with bs.
  rewrite (proj2 (Z.ltb_ge _ _) Hmax). 
  set (fs := {| fr_ExtensionType := ext; fr_MessageType := mt; fr_MessageLength := to_u32 (len bs);
                fr_Payload := Some bs; fr_TLVs := None |}).
  assert (Zmod.unsigned (to_u32 (len bs)) = len bs) as Hu.
  { apply bits.unsigned_of_Z_small. pose proof (len_nonneg bs).
    change MaxU24 with 16777215 in Hmax. lia. }
  assert (length_agrees fs = true) as Hl by (unfold length_agrees, fs; simpl; rewrite Hu; apply Z.eqb_refl).
  exists fs, (frame_bytes ext mt (len bs) bs).
  destruct (decoded_frame_bytes f0 ext mt bs spare Hmax) as [Hd Hh].
  eexists. split; [reflexivity|]. split.
  { rewrite Frame_Encode_eq, Hl. unfold fs. cbn [negb fr_TLVs fr_Payload sbytes fr_MessageLength
      fr_ExtensionType fr_MessageType]. by rewrite Hu. }
  split.
  { rewrite Frame_Decode_eq. cbn zeta. rewrite Hd, Hh.
    assert (len (frame_bytes ext mt (len bs) bs) = 6 + len bs) as Hb.
    { unfold frame_bytes, len. rewrite !length_app, !length_le_put. simpl. lia. }
    pose proof (len_nonneg spare). pose proof (len_nonneg bs). rewrite len_app, Hb.
    by rewrite !(proj2 (Z.ltb_ge _ _)) by lia. }
  split_and!; try done. unfold Frame_ToParams. cbn [fr_Payload set_payload].
  rewrite <- (app_nil_r bs). by apply Decode_Encode.
Qed.

Lemma message_through_frame_witness :
  let m := {| rc_NewHost := [to_u8 104]; rc_NewPort := to_u16 3333 |} in
  ∃ fs out fr,
    Frame_FromParams (H := exact_alloc) zero_frame MessageReconnect m = (fs, None) ∧
    Frame_Encode (H := exact_alloc) fs = ((Some out, None), fs) ∧
    Frame_Decode zero_frame out [] = Ret (fr, None) ∧
    Frame_ToParams fr {| rc_NewHost := []; rc_NewPort := to_u16 0 |} = Ret (m, None).
Proof.
  intros m.
  destruct (message_through_frame (H := exact_alloc) m {| rc_NewHost := []; rc_NewPort := to_u16 0 |}
    zero_frame zero_frame MessageReconnect ExtensionTypeCore
    (sbytes (Reconnect_Encode (H := exact_alloc) m).1) [])
    as (fs & out & fr & E1 & E2 & E3 & _ & _ & _ & _ & E4).
  - vm_compute. reflexivity.
  - vm_compute. discriminate.
  - exists fs, out, fr. split; [exact E1|]. split; [exact E2|]. split; [exact E3|exact E4].
Defined.

(** Reading a frame from a stream never panics.  It returns the frame when the
    stream holds it, consuming exactly its bytes, so that what follows is the next
    frame; when the stream ends early it returns the stream's error, or
    "unexpected EOF" when it ended inside the header or the payload. *)
Theorem Frame_DecodeFromReader_total f r :
  let h := take 6 (st_data r) in
  if (length (st_data r) <? 6)%nat then
    ∃ e, Frame_DecodeFromReader f r = Ret (f, Some e, {| st_data := []; st_end := st_end r |})
  else if len (st_data r) <? 6 + header_length h then
    ∃ f' e, Frame_DecodeFromReader f r = Ret (f', Some e, {| st_data := []; st_end := st_end r |})
  else Frame_DecodeFromReader f r =
    Ret (decoded_frame f (st_data r), None,
         {| st_data := drop (6 + Z.to_nat (header_length h)) (st_data r); st_end := st_end r |}).
Proof.
  intros h. unfold Frame_DecodeFromReader. change (Z.to_nat FrameHeaderSize) with 6%nat.
  destruct (Nat.ltb_spec (length (st_data r)) 6) as [H6|H6].
  { destruct (ReadFull_short 6 r H6) as [e ->]. by exists e. }
  assert (length h = 6%nat) as Hh by (unfold h; rewrite length_take; lia).
  rewrite ReadFull_enough by done. fold h.
  unfold mbind, outcome_bind, mret, outcome_ret. rewrite DecodeHeader_six by done.
  cbn [fr_MessageLength set_header]. rewrite unsigned_header_length by done.
  pose proof (header_length_range h Hh) as Hr. unfold len.
  set (r' := {| st_data := drop 6 (st_data r); st_end := st_end r |}).
  assert (length (st_data r') = (length (st_data r) - 6)%nat) as Hl by apply length_drop.
  destruct (Z.ltb_spec (Z.of_nat (length (st_data r))) (6 + header_length h)) as [Hn|Hn].
  - destruct (ReadFull_short (Z.to_nat (header_length h)) r') as [e ->]; [lia|]. eexists _, _. reflexivity.
  - rewrite ReadFull_enough by lia. unfold r', decoded_frame. cbn [st_data st_end]. rewrite drop_drop.
    fold h. unfold filled. rewrite length_take, length_drop.
    replace (_ - _)%nat with 0%nat by lia. simpl. by rewrite app_nil_r.
Qed.
