(* ===== verification/Memory.v ===== *)
(** * Go slices in a store

    The rest of the development takes byte slices as values.  Here a slice is what it
    is at run time, a window on an array that other slices may share: [append] writes
    into the array where the capacity allows it. *)
From stdpp Require Import gmap fin_maps.
From S2P Require Import Prelude GoInts Wire Builder Reader Frame.

(** Arrays by location. *)
Notation store := (gmap nat (list u8)).

Record slice := Slice {
  sl_loc : nat;
  sl_off : nat;
  sl_len : nat;
  sl_cap : nat
}.

#[export] Instance slice_eq_dec : EqDecision slice.
Proof. solve_decision. Defined.

(** The array a slice points into, and the part of it that is the slice's. *)
Definition array_of (h : store) (s : slice) : list u8 := default [] (h !! sl_loc s).
Definition load (h : store) (s : slice) : list u8 := take (sl_len s) (drop (sl_off s) (array_of h s)).
(** The bytes between the length and the capacity. *)
Definition spare (h : store) (s : slice) : list u8 :=
  take (sl_cap s - sl_len s) (drop (sl_off s + sl_len s) (array_of h s)).

(** A nil slice is [None]. *)
Definition load_opt (h : store) (s : option slice) : bslice := load h <$> s.

Definition slice_ok (h : store) (s : slice) : Prop :=
  ∃ a, h !! sl_loc s = Some a ∧ (sl_off s + sl_cap s ≤ length a ∧ sl_len s ≤ sl_cap s)%nat.

(** [s[lo:hi]] reaches up to the capacity. *)
Definition reslice (s : slice) (lo hi : Z) : outcome slice :=
  if (0 <=? lo) && (lo <=? hi) && (hi <=? Z.of_nat (sl_cap s)) then
    Ret (Slice (sl_loc s) (sl_off s + Z.to_nat lo) (Z.to_nat (hi - lo)) (sl_cap s - Z.to_nat lo))
  else Panic SliceBoundsOutOfRange.

(** [a[off:]] overwritten with [bs], which fit. *)
Definition overwrite (off : nat) (bs a : list u8) : list u8 :=
  take off a ++ bs ++ drop (off + length bs) a.

Definition write_at (h : store) (loc off : nat) (bs : list u8) : store :=
  <[loc := overwrite off bs (default [] (h !! loc))]> h.

Section Append.
Context `{GoAlloc}.

(** A new array with [l] and, behind it, zeroes up to the capacity. *)
Definition alloc (h : store) (l : list u8) (cap : Z) : store * slice :=
  let loc := fresh (dom h) in
  (<[loc := l ++ replicate (Z.to_nat cap - length l) (to_u8 0)]> h,
   Slice loc 0 (length l) (length l `max` Z.to_nat cap)).

(** [append(s, bs...)]. *)
Definition append (h : store) (s : option slice) (bs : list u8) : store * option slice :=
  match s, bs with
  | None, [] => (h, None)
  | None, _ => let '(h, s) := alloc h bs (growslice 0 (len bs)) in (h, Some s)
  | Some s, _ =>
      if (sl_len s + length bs <=? sl_cap s)%nat then
        (write_at h (sl_loc s) (sl_off s + sl_len s) bs,
         Some (Slice (sl_loc s) (sl_off s) (sl_len s + length bs) (sl_cap s)))
      else
        let n := Z.of_nat (sl_len s) + len bs in
        let '(h, s) := alloc h (load h s ++ bs) (growslice (Z.of_nat (sl_cap s)) n) in (h, Some s)
  end.
End Append.

(** ** Lemmas *)

Lemma length_load h s : slice_ok h s → length (load h s) = sl_len s.
Proof.
  intros (a & Ha & Hc & Hl). unfold load, array_of. rewrite Ha. simpl.
  rewrite length_take, length_drop. lia.
Qed.

Lemma length_overwrite off bs a : (off + length bs ≤ length a)%nat →
  length (overwrite off bs a) = length a.
Proof. intros Hl. unfold overwrite. rewrite !length_app, length_take, length_drop. lia. Qed.

(** The store after a write: other arrays, and the array written, cell by cell. *)
Lemma lookup_overwrite off bs a i : (off + length bs ≤ length a)%nat →
  overwrite off bs a !! i =
  if decide (off ≤ i < off + length bs)%nat then bs !! (i - off)%nat else a !! i.
Proof.
  intros Hl. unfold overwrite. assert (length (take off a) = off) as Ht by (rewrite length_take; lia).
  case_decide as E.
  - rewrite lookup_app_r, Ht by lia. by rewrite lookup_app_l by lia.
  - destruct (decide (i < off)%nat).
    + rewrite lookup_app_l by lia. by rewrite lookup_take_lt by lia.
    + rewrite lookup_app_r, Ht by lia. rewrite lookup_app_r by lia.
      rewrite lookup_drop. f_equal. lia.
Qed.

(** Two windows on one array that do not overlap. *)
Definition apart (lo1 n1 lo2 n2 : nat) : Prop := (lo1 + n1 ≤ lo2 ∨ lo2 + n2 ≤ lo1 ∨ n1 = 0 ∨ n2 = 0)%nat.

Lemma load_write_apart h s loc off bs a :
  h !! loc = Some a → (off + length bs ≤ length a)%nat →
  sl_loc s ≠ loc ∨ apart off (length bs) (sl_off s) (sl_len s) →
  load (write_at h loc off bs) s = load h s.
Proof.
  intros Ha Hl Hs. unfold load, array_of, write_at. rewrite Ha. cbn [default id].
  destruct (decide (sl_loc s = loc)) as [E|E].
  2:{ f_equal. f_equal. f_equal. apply lookup_insert_ne. congruence. }
  destruct Hs as [?|Hs]; [done|]. rewrite E, lookup_insert_eq, Ha. cbn [default id].
  apply list_eq. intros i. rewrite !lookup_take, !lookup_drop.
  case_decide; [|done]. cbn [id]. rewrite lookup_overwrite by done. case_decide; [|done].
  unfold apart in Hs. lia.
Qed.

Lemma load_write_exact h loc off bs a cap :
  h !! loc = Some a → (off + length bs ≤ length a)%nat →
  load (write_at h loc off bs) (Slice loc off (length bs) cap) = bs.
Proof.
  intros Ha Hl. unfold load, array_of, write_at. cbn [sl_loc sl_off sl_len].
  rewrite Ha, lookup_insert_eq. simpl. unfold overwrite.
  rewrite drop_app_length' by (rewrite length_take; lia). by rewrite take_app_length.
Qed.

Lemma slice_ok_write h s loc off bs a :
  h !! loc = Some a → (off + length bs ≤ length a)%nat → slice_ok h s → slice_ok (write_at h loc off bs) s.
Proof.
  intros Ha Hl (a' & Ha' & H). unfold write_at, slice_ok. rewrite Ha. simpl.
  destruct (decide (sl_loc s = loc)) as [E|E].
  - rewrite E, lookup_insert_eq. rewrite E, Ha in Ha'. injection Ha' as <-.
    eexists. split; [done|]. by rewrite length_overwrite.
  - rewrite lookup_insert_ne by done. eauto.
Qed.

Lemma alloc_fresh h l cap h' s : alloc h l cap = (h', s) →
  load h' s = l ∧ slice_ok h' s ∧ (∀ s', slice_ok h s' → slice_ok h' s' ∧ load h' s' = load h s') ∧
  ∀ s', slice_ok h s' → sl_loc s' ≠ sl_loc s.
Proof.
  unfold alloc. intros [= <- <-]. set (loc := fresh (dom h)).
  assert (∀ s', slice_ok h s' → sl_loc s' ≠ loc) as Hfresh.
  { intros s' (a & Ha & _) E. apply (is_fresh (dom h)). fold loc. rewrite <- E.
    apply elem_of_dom. by exists a. }
  split_and!.
  - unfold load, array_of. cbn [sl_loc sl_off sl_len]. rewrite lookup_insert_eq. simpl.
    cbn [from_option id]. rewrite drop_0. apply take_app_length.
  - eexists. cbn [sl_loc sl_off sl_cap sl_len]. rewrite lookup_insert_eq. split; [done|].
    rewrite length_app, length_replicate. lia.
  - intros s' Hs'. pose proof (Hfresh s' Hs') as Hne. unfold slice_ok, load, array_of.
    rewrite lookup_insert_ne by done. done.
  - exact Hfresh.
Qed.

(** What lies behind a slice, within its capacity. *)
Definition spare_apart (s s' : slice) : Prop :=
  sl_loc s ≠ sl_loc s' ∨
  apart (sl_off s + sl_len s) (sl_cap s - sl_len s) (sl_off s') (sl_len s').

(** [append] as everyone sees it: the result reads as the bytes appended, and slices
    that the spare capacity does not reach read as before. *)
Lemma append_spec `{GoAlloc} h s bs h' s' :
  append h s bs = (h', s') → (∀ s0, s = Some s0 → slice_ok h s0) →
  load_opt h' s' = go_append (load_opt h s) bs ∧
  (∀ s1, s' = Some s1 → slice_ok h' s1) ∧
  (∀ t, slice_ok h t → slice_ok h' t) ∧
  (∀ t, slice_ok h t → (∀ s0, s = Some s0 → spare_apart s0 t) → load h' t = load h t).
Proof.
  intros E Hok. unfold append in E. destruct s as [s|].
  - specialize (Hok s eq_refl) as (a & Ha & Hc & Hlc).
    destruct (_ <=? _)%nat eqn:El; [apply Nat.leb_le in El|apply Nat.leb_gt in El].
    + injection E as <- <-.
      assert (sl_off s + sl_len s + length bs ≤ length a)%nat as Hw by lia.
      split_and!.
      * simpl. f_equal. unfold load at 1, array_of, write_at. cbn [sl_loc sl_off sl_len].
        rewrite Ha, lookup_insert_eq. simpl. unfold load, array_of. rewrite Ha. simpl.
        unfold overwrite. rewrite drop_app_le by (rewrite length_take; lia).
        rewrite skipn_firstn_comm. replace (_ + _ - _)%nat with (sl_len s) by lia.
        rewrite app_assoc. apply take_app_length'.
        rewrite length_app, length_take, length_drop. lia.
      * intros s1 [= <-]. unfold slice_ok, write_at. cbn [sl_loc sl_off sl_len sl_cap].
        rewrite Ha, lookup_insert_eq. simpl. eexists. split; [done|].
        rewrite length_overwrite by lia. lia.
      * intros t. by apply (slice_ok_write _ _ _ _ _ a).
      * intros t Ht Hap. apply (load_write_apart _ _ _ _ _ a); [done|lia|].
        destruct (Hap s eq_refl) as [?|Hap']; [by left|]. right. unfold apart in *. lia.
    + destruct (alloc _ _ _) as [h1 s1] eqn:Ea. injection E as <- <-.
      apply alloc_fresh in Ea as (Hl & Hs1 & Hold & _). simpl. rewrite Hl. split_and!; [done| | |].
      * intros s2 [= <-]. done.
      * intros t Ht. by apply Hold.
      * intros t Ht _. by apply Hold.
  - destruct bs as [|b bs].
    + injection E as <- <-. split_and!; done.
    + destruct (alloc _ _ _) as [h1 s1] eqn:Ea. injection E as <- <-.
      apply alloc_fresh in Ea as (Hl & Hs1 & Hold & _). simpl. rewrite Hl. split_and!; [done| | |].
      * intros s2 [= <-]. done.
      * intros t Ht. by apply Hold.
      * intros t Ht _. by apply Hold.
Qed.
