(* ===== verification/FrameMem.v ===== *)
(** * Frames over shared byte slices (types.go)

    [Frame.v] takes a frame's payload and its TLVs' values as values.  At run time they
    are slices: [Frame.Decode] leaves windows on the buffer it was given, and
    [Frame.Encode] appends to the payload in place where the capacity allows it.  Here
    the two methods act on a store; they are shown to refine those of [Frame.v], and
    where they do more than those say, to do exactly that. *)
From stdpp Require Import gmap.
From S2P Require Import Prelude GoInts Constants Wire Builder Reader Codec Frame FrameFacts Memory.

Record mTLV := {
  mt_ExtensionType : u16;
  mt_FieldType : u8;
  mt_Length : u16;
  mt_Value : option slice
}.

Record mFrame := {
  mf_ExtensionType : Extension;
  mf_MessageType : MessageType;
  mf_MessageLength : U24;
  mf_Payload : option slice;
  mf_TLVs : option (list mTLV)
}.

Definition zero_mframe : mFrame :=
  {| mf_ExtensionType := to_u16 0; mf_MessageType := to_u8 0; mf_MessageLength := to_u32 0;
     mf_Payload := None; mf_TLVs := None |}.

Definition set_mheader (ext : Extension) (mt : MessageType) (l : U24) (f : mFrame) : mFrame :=
  {| mf_ExtensionType := ext; mf_MessageType := mt; mf_MessageLength := l;
     mf_Payload := mf_Payload f; mf_TLVs := mf_TLVs f |}.
Definition set_mlength (l : U24) (f : mFrame) : mFrame :=
  set_mheader (mf_ExtensionType f) (mf_MessageType f) l f.
Definition set_mpayload (p : option slice) (f : mFrame) : mFrame :=
  {| mf_ExtensionType := mf_ExtensionType f; mf_MessageType := mf_MessageType f;
     mf_MessageLength := mf_MessageLength f; mf_Payload := p; mf_TLVs := mf_TLVs f |}.
Definition set_mTLVs (t : option (list mTLV)) (f : mFrame) : mFrame :=
  {| mf_ExtensionType := mf_ExtensionType f; mf_MessageType := mf_MessageType f;
     mf_MessageLength := mf_MessageLength f; mf_Payload := mf_Payload f; mf_TLVs := t |}.

(** What a frame's slices hold. *)
Definition view_tlv (h : store) (t : mTLV) : TLV :=
  {| tlv_ExtensionType := mt_ExtensionType t; tlv_FieldType := mt_FieldType t;
     tlv_Length := mt_Length t; tlv_Value := sbytes (load_opt h (mt_Value t)) |}.
Definition view (h : store) (f : mFrame) : Frame :=
  {| fr_ExtensionType := mf_ExtensionType f; fr_MessageType := mf_MessageType f;
     fr_MessageLength := mf_MessageLength f; fr_Payload := load_opt h (mf_Payload f);
     fr_TLVs := map (view_tlv h) <$> mf_TLVs f |}.

(** ** Decoding *)

(** [br.read(l)] and [br.ReadBytes(l)] of a reader on the slice [s]: the result is a
    window on [s]'s array. *)
Definition read_slice (s : slice) (l : Z) : Reader (option slice) := λ br,
  match br_err br with
  | Some _ => Ret (None, br)
  | None =>
      let n := Z.of_nat (sl_len s) in
      let p := Z.of_nat (br_pos br) in
      if n <? p + l then
        b ← reslice s n n;
        Ret (Some b, {| br_data := br_data br; br_pos := Z.to_nat n; br_err := eof_error |})
      else
        b ← reslice s p (p + l);
        Ret (Some b, {| br_data := br_data br; br_pos := Z.to_nat (p + l); br_err := None |})
  end.

Definition ReadBytes_slice (s : slice) (length : Z) : Reader (option slice) := unless_err None (λ br,
  if 2 ^ 63 <=? Z.of_nat (br_pos br) + length then Panic SliceBoundsOutOfRange
  else read_slice s length br).

Definition mTLV_Decode (h : store) (b : slice) : outcome (mTLV * error) :=
  decode_with (
    ExtensionType ← ReadU16;
    FieldType ← ReadU8;
    Length ← ReadU16;
    Value ← ReadBytes_slice b (u16_int Length);
    mret {| mt_ExtensionType := ExtensionType; mt_FieldType := FieldType;
            mt_Length := Length; mt_Value := Value |}) (Some (load h b)).

Definition mFrame_DecodeHeader (h : store) (f : mFrame) (b : slice) : outcome (mFrame * error) :=
  decode_with (
    ExtensionType ← ReadU16;
    MessageType ← ReadU8;
    MessageLength ← ReadU24;
    mret (set_mheader ExtensionType MessageType MessageLength f)) (Some (load h b)).

Definition mFrame_ReadPayload (h : store) (f : mFrame) (b : slice) : outcome (mFrame * error) :=
  decode_with (
    Payload ← ReadBytes_slice b (u32_int (mf_MessageLength f));
    mret (set_mpayload Payload f)) (Some (load h b)).

(** [f.TLVs = append(f.TLVs, tlv)] *)
Definition add_tlv (t : mTLV) (f : mFrame) : mFrame :=
  set_mTLVs (Some (default [] (mf_TLVs f) ++ [t])) f.

Fixpoint mtlv_loop (fuel : nat) (h : store) (f : mFrame) (b : slice) (from : Z) :
    option (outcome (mFrame * error)) :=
  match fuel with
  | O => None
  | S fuel' =>
      let l := Z.of_nat (sl_len b) in
      if l - from <? 5 then Some (Ret (f, None)) else
      match reslice b from l ≫= mTLV_Decode h with
      | Panic p => Some (Panic p)
      | Ret (tlv, Some e) => Some (Ret (f, Some e))
      | Ret (tlv, None) => mtlv_loop fuel' h (add_tlv tlv f) b (from + u16_int (mt_Length tlv) + 5)
      end
  end.

(** The store is only read. *)
Definition mFrame_Decode (h : store) (f : mFrame) (b : slice) : outcome (mFrame * error) :=
  header ← reslice b 0 FrameHeaderSize;
  '(f, err) ← mFrame_DecodeHeader h f header;
  match err with
  | Some _ => mret (f, err)
  | None =>
      let n := FrameHeaderSize + Zmod.unsigned (mf_MessageLength f) in
      payload ← reslice b FrameHeaderSize n;
      '(f, err) ← mFrame_ReadPayload h f payload;
      match err with
      | Some _ => mret (f, err)
      | None =>
          if n + 5 <? Z.of_nat (sl_len b) then
            match mtlv_loop (S (sl_len b)) h f b n with
            | Some o => o
            | None => Panic (ExplicitPanic "out of fuel")
            end
          else mret (f, None)
      end
  end.

(** ** Encoding *)

Section Encode.
Context `{GoAlloc}.

Definition mtlv_cmp (i j : mTLV) : Z :=
  if Zmod.unsigned (mt_ExtensionType j) <? Zmod.unsigned (mt_ExtensionType i) then 1
  else if Zmod.unsigned (mt_ExtensionType i) <? Zmod.unsigned (mt_ExtensionType j) then -1
  else 0.

(** The builders' buffers are their own arrays, which nothing else points into; they
    stay values.  The one write to a shared array is [f.Payload = append(f.Payload, b...)]. *)
Definition mFrame_Encode (h : store) (f : mFrame) : (bslice * error) * store * mFrame :=
  if negb (Zmod.unsigned (mf_MessageLength f) =? len (sbytes (load_opt h (mf_Payload f)))) then
    ((None, Some "Frame.Encode: MessageLength != len(Payload)"%string), h, f)
  else
    let out := NewBinaryBuilder |> Grow (FrameHeaderSize + Zmod.unsigned (mf_MessageLength f)) in
    match mf_TLVs f with
    | None => (Frame_emit out (view h f), h, f)
    | Some tlvs =>
        let sorted := SortStableFunc mtlv_cmp tlvs in
        let f := set_mTLVs (Some sorted) f in
        match encode_tlvs (map (view_tlv h) sorted) NewBinaryBuilder with
        | inl e => ((None, Some e), h, f)
        | inr tlvOut =>
            let f := set_mlength
              (to_u32 (Zmod.unsigned (mf_MessageLength f) + Zmod.unsigned (to_u32 (Len tlvOut)))) f in
            let '(b, err) := Bytes tlvOut in
            match err with
            | Some _ => ((None, err), h, f)
            | None =>
                let '(h, p) := append h (mf_Payload f) (sbytes b) in
                let f := set_mpayload p f in
                (Frame_emit out (view h f), h, f)
            end
        end
    end.
End Encode.

(** ** Windows *)

Lemma load_spare h s : slice_ok h s → load h s ++ spare h s = take (sl_cap s) (drop (sl_off s) (array_of h s)).
Proof.
  intros (a & Ha & Hc & Hl). unfold load, spare. rewrite <- drop_drop.
  rewrite <- (take_drop (sl_len s) (take (sl_cap s) _)). rewrite take_take, Nat.min_l by done.
  by rewrite skipn_firstn_comm.
Qed.

Lemma len_load_spare h s : slice_ok h s → len (load h s ++ spare h s) = Z.of_nat (sl_cap s).
Proof.
  intros Hs. rewrite load_spare by done. destruct Hs as (a & Ha & Hc & Hl). unfold len, array_of.
  rewrite Ha. cbn [default id]. rewrite length_take, length_drop. cbn [from_option id]. lia.
Qed.

(** [b[lo:hi]] in the store and on values. *)
Lemma reslice_view h s lo hi : slice_ok h s →
  (λ s', Some (load h s')) <$> reslice s lo hi = slice_cap (load h s) (spare h s) lo hi ∧
  ∀ s', reslice s lo hi = Ret s' → slice_ok h s'.
Proof.
  intros Hs. pose proof (len_load_spare h s Hs) as Hlen. unfold reslice, slice_cap. rewrite Hlen.
  destruct (_ && _) eqn:E; [|done]. bool_to_prop. split.
  - simpl. do 2 f_equal. rewrite load_spare by done. unfold load. simpl.
    rewrite skipn_firstn_comm, take_take, drop_drop. f_equal. lia.
  - intros s' [= <-]. destruct Hs as (a & Ha & Hc & Hl). exists a. simpl. split; [done|]. lia.
Qed.

Lemma reslice_view_len h s lo hi : slice_ok h s → hi ≤ Z.of_nat (sl_len s) →
  (λ s', Some (load h s')) <$> reslice s lo hi = slice_range (Some (load h s)) lo hi.
Proof.
  intros Hs Hhi. rewrite (proj1 (reslice_view h s lo hi Hs)).
  pose proof (length_load h s Hs) as Hl. unfold slice_cap, slice_range.
  change (sbytes (Some (load h s))) with (load h s).
  rewrite len_load_spare by done.
  assert (Z.of_nat (sl_len s) = len (load h s)) as Hn by (unfold len; by rewrite Hl).
  destruct Hs as (a & Ha & Hc & Hle). rewrite (proj2 (Z.leb_le hi (len (load h s)))) by lia.
  rewrite (proj2 (Z.leb_le hi (Z.of_nat (sl_cap s)))) by lia.
  destruct (_ && _) eqn:E; [|done]. bool_to_prop. simpl. do 2 f_equal.
  rewrite drop_app_le by lia. apply take_app_le. rewrite length_drop. lia.
Qed.

(** ** Decoders on slices and on values *)

(** [rd'] does to the values what [rd] does to the slices. *)
Definition Mirrors {A B} (h : store) (s : slice) (g : A → B) (rd : Reader A) (rd' : Reader B) : Prop :=
  ∀ br, br_wf br → br_data br = Some (load h s) →
    (λ r, (g r.1, r.2)) <$> rd br = rd' br.

Lemma Mirrors_same {A} h s (rd : Reader A) : Mirrors h s id rd rd.
Proof. intros br _ _. by destruct (rd br) as [[]|]. Qed.

Lemma Mirrors_ret {A B} h s (g : A → B) a b : g a = b → Mirrors h s g (mret a) (mret b).
Proof. by intros <- br _ _. Qed.

Lemma Mirrors_bind {A B C D} h s (g : A → B) (g' : C → D) rd rd' k k' :
  Mirrors h s g rd rd' → Keeps rd → (∀ a, Mirrors h s g' (k a) (k' (g a))) →
  Mirrors h s g' (rd ≫= k) (rd' ≫= k').
Proof.
  intros Hr Hkeep Hk br Hw Hd. unfold mbind, reader_bind. rewrite <- (Hr br Hw Hd).
  destruct (rd br) as [[a br1]|] eqn:E; [|done]. simpl.
  destruct (Hkeep _ _ _ E Hw) as [Hw1 Hd1]. apply Hk; [done|congruence].
Qed.

Lemma Mirrors_decode {A B} h s (g : A → B) rd rd' : Mirrors h s g rd rd' →
  (λ r, (g r.1, r.2)) <$> decode_with rd (Some (load h s)) = decode_with rd' (Some (load h s)).
Proof.
  intros H. unfold decode_with. rewrite <- H by (unfold br_wf; simpl; lia || done).
  by destruct (rd _) as [[]|].
Qed.

Lemma Mirrors_read h s l : slice_ok h s → Mirrors h s (load_opt h) (read_slice s l) (read l).
Proof.
  intros Hs br Hw Hd. unfold read_slice, read. destruct (br_err br); [done|]. rewrite Hd.
  change (sbytes (Some (load h s))) with (load h s). unfold len. rewrite (length_load h s Hs).
  unfold mbind, outcome_bind.
  destruct (_ <? _) eqn:E; bool_to_prop; rewrite <- (reslice_view_len h s) by (done || lia);
    by destruct (reslice s _ _).
Qed.

Lemma Mirrors_ReadBytes h s l : slice_ok h s →
  Mirrors h s (load_opt h) (ReadBytes_slice s l) (ReadBytes l).
Proof.
  intros Hs br Hw Hd. unfold ReadBytes_slice, ReadBytes, unless_err.
  destruct (br_err br); [done|]. destruct (_ <=? _); [done|]. by apply Mirrors_read.
Qed.

Lemma mTLV_Decode_view h s : slice_ok h s →
  (λ r, (view_tlv h r.1, r.2)) <$> mTLV_Decode h s = TLV_Decode (Some (load h s)).
Proof.
  intros Hs. unfold mTLV_Decode, TLV_Decode. apply Mirrors_decode.
  repeat (eapply Mirrors_bind; [apply Mirrors_same|solve [auto with keeps]|intros ?]).
  intros br Hw Hd. unfold mbind, reader_bind. rewrite <- (Mirrors_ReadBytes h s) by done.
  by destruct (ReadBytes_slice _ _ _) as [[]|].
Qed.

Lemma mFrame_DecodeHeader_view h f s :
  (λ r, (view h r.1, r.2)) <$> mFrame_DecodeHeader h f s = Frame_DecodeHeader (view h f) (Some (load h s)).
Proof.
  unfold mFrame_DecodeHeader, Frame_DecodeHeader. apply Mirrors_decode.
  repeat (eapply Mirrors_bind; [apply Mirrors_same|solve [auto with keeps]|intros ?]).
  by apply Mirrors_ret.
Qed.

Lemma mFrame_ReadPayload_view h f s : slice_ok h s →
  (λ r, (view h r.1, r.2)) <$> mFrame_ReadPayload h f s = Frame_ReadPayload (view h f) (Some (load h s)).
Proof.
  intros Hs. unfold mFrame_ReadPayload, Frame_ReadPayload. apply Mirrors_decode.
  intros br Hw Hd. unfold mbind, reader_bind. rewrite <- (Mirrors_ReadBytes h s) by done.
  by destruct (ReadBytes_slice _ _ _) as [[]|].
Qed.

Lemma view_add_tlv h t f :
  view h (add_tlv t f) = set_TLVs (Some (default [] (fr_TLVs (view h f)) ++ [view_tlv h t])) (view h f).
Proof. unfold view, add_tlv, set_TLVs. simpl. destruct (mf_TLVs f); simpl; [by rewrite map_app|done]. Qed.

Lemma mtlv_loop_view fuel h b : slice_ok h b → ∀ f from, 0 ≤ from →
  (λ o : outcome _, (λ r, (view h r.1, r.2)) <$> o) <$> mtlv_loop fuel h f b from = tlv_loop fuel (view h f) (load h b) from.
Proof.
  intros Hb. pose proof (length_load h b Hb) as Hl.
  induction fuel as [|fuel IH]; intros f from H0; [done|]. cbn [mtlv_loop tlv_loop].
  assert (len (load h b) = Z.of_nat (sl_len b)) as Hlen by (unfold len; by rewrite Hl). rewrite Hlen.
  destruct (_ <? 5) eqn:E; bool_to_prop; [done|].
  assert ((λ s', Some (load h s')) <$> reslice b from (Z.of_nat (sl_len b)) =
    Ret (Some (drop (Z.to_nat from) (load h b)))) as Ers.
  { rewrite reslice_view_len by (done || lia). unfold slice_range.
    change (sbytes (Some (load h b))) with (load h b). rewrite Hlen, Z.leb_refl.
    rewrite (proj2 (Z.leb_le 0 from)), (proj2 (Z.leb_le from _)) by lia. simpl. do 2 f_equal.
    apply firstn_all2. rewrite length_drop. lia. }
  destruct (reslice b _ _) as [s|] eqn:Es; [|done]. injection Ers as Ers.
  pose proof (proj2 (reslice_view h b _ _ Hb) s Es) as Hs.
  change (Ret s ≫= mTLV_Decode h) with (mTLV_Decode h s). rewrite <- Ers, <- (mTLV_Decode_view h s) by done.
  destruct (mTLV_Decode h s) as [[t [e|]]|]; [done| |done]. simpl.
  pose proof (u_range 16 (mt_Length t) ltac:(lia)).
  rewrite IH, view_add_tlv by (unfold u16_int; lia). done.
Qed.

Lemma mFrame_Decode_view h f b : slice_ok h b →
  (λ r, (view h r.1, r.2)) <$> mFrame_Decode h f b = Frame_Decode (view h f) (load h b) (spare h b).
Proof.
  intros Hb. unfold mFrame_Decode, Frame_Decode, mbind, outcome_bind.
  destruct (reslice_view h b 0 FrameHeaderSize Hb) as [<- Hok1].
  destruct (reslice b 0 FrameHeaderSize) as [s1|]; [|done]. cbn [fmap outcome_fmap].
  rewrite <- mFrame_DecodeHeader_view. destruct (mFrame_DecodeHeader h f s1) as [[f1 [e|]]|]; [done| |done].
  cbn [fmap outcome_fmap fst snd].
  change (fr_MessageLength (view h f1)) with (mf_MessageLength f1).
  destruct (reslice_view h b FrameHeaderSize (FrameHeaderSize + Zmod.unsigned (mf_MessageLength f1)) Hb)
    as [<- Hok2].
  destruct (reslice b FrameHeaderSize _) as [s2|]; [|done]. cbn [fmap outcome_fmap].
  rewrite <- (mFrame_ReadPayload_view h f1 s2) by auto.
  destruct (mFrame_ReadPayload h f1 s2) as [[f2 [e|]]|]; [done| |done].
  cbn [fmap outcome_fmap fst snd]. unfold len. rewrite (length_load h b Hb).
  destruct (_ <? _); [|done]. pose proof (u_range 32 (mf_MessageLength f1) ltac:(lia)).
  rewrite <- (mtlv_loop_view (S (sl_len b)) h b Hb f2) by (change FrameHeaderSize with 6; lia).
  by destruct (mtlv_loop _ _ _ _ _) as [[[]|]|].
Qed.

(** ** Where a decoded frame points *)

(** [s] is a window on [b], with all the capacity behind it. *)
Definition within (b s : slice) : Prop :=
  sl_loc s = sl_loc b ∧ (sl_off b ≤ sl_off s)%nat ∧
  (sl_off s + sl_cap s = sl_off b + sl_cap b ∧ sl_len s ≤ sl_cap s)%nat.

(** [s] is [b[lo:hi]]. *)
Definition window (b : slice) (lo hi : Z) (s : slice) : Prop :=
  within b s ∧ Z.of_nat (sl_off s) = Z.of_nat (sl_off b) + lo ∧ Z.of_nat (sl_len s) = hi - lo.

Lemma reslice_window b lo hi s : reslice b lo hi = Ret s → window b lo hi s.
Proof.
  unfold reslice, window, within. destruct (_ && _) eqn:E; [|done]. bool_to_prop.
  intros [= <-]. simpl. lia.
Qed.

Lemma within_trans b s t : within b s → within s t → within b t.
Proof. intros (E & ? & ? & ?) (E' & ? & ? & ?). unfold within. rewrite E', E. lia. Qed.

Lemma within_ok h b s : slice_ok h b → within b s → slice_ok h s.
Proof. intros (a & Ha & ?) (E & ? & ? & ?). exists a. rewrite E. split; [done|]. lia. Qed.

Lemma ReadBytes_slice_cases h s k br v br' :
  slice_ok h s → br_err br = None → 0 ≤ k → ReadBytes_slice s k br = Ret (v, br') →
  ∃ w, v = Some w ∧ within s w ∧
    (br_err br' = None → window s (Z.of_nat (br_pos br)) (Z.of_nat (br_pos br) + k) w).
Proof.
  intros Hs He Hk. unfold ReadBytes_slice, unless_err, read_slice. rewrite He.
  destruct (_ <=? _); [done|].
  destruct (_ <? _); unfold mbind, outcome_bind; destruct (reslice s _ _) as [w|] eqn:Ew; try done;
    intros [= <- <-]; apply reslice_window in Ew; exists w; (split; [done|]);
    (split; [apply Ew|done]).
Qed.

Lemma mTLV_Decode_window h s t e :
  slice_ok h s → (5 ≤ sl_len s)%nat → mTLV_Decode h s = Ret (t, e) →
  ∃ v, mt_Value t = Some v ∧ within s v ∧
    (e = None → window s 5 (5 + Zmod.unsigned (mt_Length t)) v).
Proof.
  intros Hs Hl. rewrite <- (length_load h s Hs) in Hl.
  destruct (tlv_header_of _ Hl) as (x & y & z & El). unfold mTLV_Decode, decode_with.
  match goal with |- context [(ReadU16 ≫= λ e', ReadU8 ≫= λ t', ReadU16 ≫= λ n', @?k e' t' n') _] =>
    destruct (tlv_header_step k x y z _ _ El) as (Hok & Hr & ->) end.
  unfold mbind, reader_bind. destruct (ReadBytes_slice _ _ _) as [[v br']|] eqn:E; [|done].
  intros [= <- <-]. pose proof (u_range 16 z ltac:(lia)).
  assert (0 ≤ u16_int z) as H0 by (unfold u16_int; lia).
  destruct (ReadBytes_slice_cases _ _ _ _ _ _ Hs (proj1 Hok) H0 E)
    as (w & -> & Hw & Hwin). exists w. split; [done|]. split; [done|]. intros He. apply Hwin, He.
Qed.

(** The slices of a frame. *)
Definition mf_slices (f : mFrame) : list slice :=
  option_list (mf_Payload f) ++ omap mt_Value (default [] (mf_TLVs f)).

Lemma mf_slices_add_tlv t f : mf_slices (add_tlv t f) = mf_slices f ++ option_list (mt_Value t).
Proof.
  unfold mf_slices, add_tlv. cbn [mf_Payload mf_TLVs set_mTLVs default from_option id]. rewrite omap_app, app_assoc. by f_equal.
Qed.

(** The loop appends TLVs whose values are windows; the first is behind five bytes. *)
Lemma mtlv_loop_windows h b fuel : slice_ok h b → ∀ f from f' e, 0 ≤ from →
  mtlv_loop fuel h f b from = Some (Ret (f', e)) →
  mf_Payload f' = mf_Payload f ∧
  mf_MessageLength f' = mf_MessageLength f ∧
  (∀ s, s ∈ mf_slices f' → s ∈ mf_slices f ∨ within b s) ∧
  ∃ ts, default [] (mf_TLVs f') = default [] (mf_TLVs f) ++ ts ∧
    (∀ t, head ts = Some t →
      ∃ v, mt_Value t = Some v ∧ window b (from + 5) (from + 5 + Zmod.unsigned (mt_Length t)) v).
Proof.
  intros Hb. induction fuel as [|fuel IH]; intros f from f' e H0 E; [done|]. cbn [mtlv_loop] in E.
  destruct (_ <? 5) eqn:El; bool_to_prop.
  { injection E as <- <-. split_and!; [done|done|by left|]. exists []. by rewrite app_nil_r. }
  unfold mbind, outcome_bind in E. destruct (reslice b _ _) as [s|] eqn:Es; [|done].
  apply reslice_window in Es as (Hin & Ho & Hl).
  destruct (mTLV_Decode h s) as [[t [e'|]]|] eqn:Et; [|destruct (mTLV_Decode_window h s t None)
    as (v & Hv & Hsv & Hw); [by apply (within_ok h b)|lia|done|]|done].
  { injection E as <- <-. split_and!; [done|done|by left|]. exists []. by rewrite app_nil_r. }
  pose proof (u_range 16 (mt_Length t) ltac:(lia)). unfold u16_int in E.
  assert (0 ≤ from + Zmod.unsigned (mt_Length t) + 5) as H1 by lia.
  destruct (IH _ _ _ _ H1 E) as (Hp & Hm & Hsl & ts & Hts & _). split_and!; [done|done| |].
  - intros w Hw'. destruct (Hsl w Hw') as [Hin'|]; [|by right].
    rewrite mf_slices_add_tlv, elem_of_app, Hv in Hin'. destruct Hin' as [|Hin']; [by left|right].
    simpl in Hin'. apply list_elem_of_singleton in Hin' as ->. by apply (within_trans b s).
  - exists (t :: ts). split; [by rewrite Hts; simpl; rewrite <- app_assoc|].
    intros t' [= <-]. exists v. split; [done|]. destruct (Hw eq_refl) as (_ & Ho' & Hl').
    split; [by apply (within_trans b s)|lia].
Qed.

Lemma mFrame_DecodeHeader_slices h f s f' e :
  mFrame_DecodeHeader h f s = Ret (f', e) → mf_Payload f' = mf_Payload f ∧ mf_TLVs f' = mf_TLVs f.
Proof.
  unfold mFrame_DecodeHeader, decode_with, mbind, reader_bind, mret, reader_ret.
  destruct (ReadU16 _) as [[x br1]|]; [|done]. destruct (ReadU8 _) as [[y br2]|]; [|done].
  destruct (ReadU24 _) as [[z br3]|]; [|done]. by intros [= <- <-].
Qed.

Lemma mFrame_ReadPayload_exact h f s :
  slice_ok h s → Z.of_nat (sl_len s) = Zmod.unsigned (mf_MessageLength f) →
  ∃ p, mFrame_ReadPayload h f s = Ret (set_mpayload (Some p) f, None) ∧
    window s 0 (Zmod.unsigned (mf_MessageLength f)) p.
Proof.
  intros (a & _ & _ & Hc) Hl. unfold mFrame_ReadPayload, decode_with, mbind, reader_bind.
  unfold ReadBytes_slice, unless_err, read_slice, u32_int. cbn [NewBinaryReader br_err br_pos].
  pose proof (u_range 32 (mf_MessageLength f) ltac:(lia)) as Hn. rewrite Hl.
  rewrite (proj2 (Z.leb_gt _ _)) by lia. rewrite (proj2 (Z.ltb_ge _ _)) by lia.
  unfold mbind, outcome_bind.
  destruct (reslice s _ _) as [p|] eqn:E.
  - exists p. split; [done|]. by apply reslice_window in E.
  - unfold reslice in E. rewrite (proj2 (Z.leb_le 0 _)) in E by lia.
    rewrite (proj2 (Z.leb_le _ (_ + _))), (proj2 (Z.leb_le _ (Z.of_nat _))) in E by lia. done.
Qed.

(** The whole decoder: the payload is six bytes into the buffer. *)
Lemma mFrame_Decode_windows h f b f' e :
  slice_ok h b → mFrame_Decode h f b = Ret (f', e) →
  let n := Zmod.unsigned (mf_MessageLength f') in
  (∃ p, mf_Payload f' = Some p ∧ window b 6 (6 + n) p) ∧
  (∀ s, s ∈ mf_slices f' → s ∈ omap mt_Value (default [] (mf_TLVs f)) ∨ within b s) ∧
  ∃ ts, default [] (mf_TLVs f') = default [] (mf_TLVs f) ++ ts ∧
    (∀ t, head ts = Some t →
      ∃ v, mt_Value t = Some v ∧ window b (11 + n) (11 + n + Zmod.unsigned (mt_Length t)) v).
Proof.
  intros Hb. unfold mFrame_Decode, mbind, outcome_bind. change FrameHeaderSize with 6.
  destruct (reslice b 0 6) as [s1|] eqn:E1; [|done].
  pose proof (proj2 (reslice_view h b 0 6 Hb) s1 E1) as Hok1.
  apply reslice_window in E1 as (_ & _ & Hl1).
  pose proof (mFrame_DecodeHeader_view h f s1) as Hv.
  rewrite DecodeHeader_six in Hv by (rewrite length_load by done; lia).
  destruct (mFrame_DecodeHeader h f s1) as [[f1 e1]|] eqn:Ed; [|done].
  assert (e1 = None) as -> by (simpl in Hv; congruence).
  destruct (mFrame_DecodeHeader_slices _ _ _ _ _ Ed) as [Hp1 Ht1].
  pose proof (u_range 32 (mf_MessageLength f1) ltac:(lia)) as Hn.
  destruct (reslice b 6 _) as [s2|] eqn:E2; [|done]. apply reslice_window in E2 as (Hin2 & Ho2 & Hl2).
  destruct (mFrame_ReadPayload_exact h f1 s2) as (p & -> & Hinp & Hop & Hlp);
    [by apply (within_ok h b)|lia|].
  set (f2 := set_mpayload (Some p) f1).
  assert (window b 6 (6 + Zmod.unsigned (mf_MessageLength f2)) p) as Hp
    by (split; [by apply (within_trans b s2)|simpl; lia]).
  assert (∀ s, s ∈ mf_slices f2 → s ∈ omap mt_Value (default [] (mf_TLVs f)) ∨ within b s) as Hsl.
  { intros s. unfold mf_slices. simpl. rewrite Ht1, elem_of_cons. intros [->|]; [right; apply Hp|by left]. }
  destruct (_ <? _).
  - destruct (mtlv_loop _ _ _ _ _) as [[[f3 e3]|]|] eqn:El; try done. intros [= <- <-].
    apply mtlv_loop_windows in El as (Hp3 & Hm3 & Hs3 & ts & Hts & Hhd); [|done|lia].
    rewrite Hm3, Hp3. split_and!; [by exists p|intros s Hs; destruct (Hs3 s Hs); auto|].
    exists ts. rewrite Hts. unfold f2. simpl. rewrite Ht1. split; [done|]. intros t Ht.
    destruct (Hhd t Ht) as (v & Hv' & Hw). exists v. split; [done|].
    replace (11 + _) with (6 + Zmod.unsigned (mf_MessageLength f1) + 5) by lia. exact Hw.
  - intros [= <- <-]. split_and!; [by exists p|done|]. exists []. rewrite app_nil_r.
    unfold f2. simpl. by rewrite Ht1.
Qed.

(** ** Encoding in the store *)

Lemma sort_insert_view h t ts :
  map (view_tlv h) (sort_insert mtlv_cmp t ts) = sort_insert tlv_cmp (view_tlv h t) (map (view_tlv h) ts).
Proof.
  induction ts as [|u ts IH]; [done|]. simpl. change (tlv_cmp (view_tlv h t) (view_tlv h u)) with (mtlv_cmp t u).
  destruct (_ <=? 0); [done|]. simpl. by rewrite IH.
Qed.

Lemma SortStableFunc_view h ts :
  map (view_tlv h) (SortStableFunc mtlv_cmp ts) = SortStableFunc tlv_cmp (map (view_tlv h) ts).
Proof. induction ts as [|t ts IH]; [done|]. simpl. by rewrite <- IH, <- sort_insert_view. Qed.

Lemma msort_insert_perm t ts : sort_insert mtlv_cmp t ts ≡ₚ t :: ts.
Proof.
  induction ts as [|u ts IH]; [done|]. simpl. destruct (_ <=? 0); [done|]. rewrite IH. constructor.
Qed.

Lemma mSort_perm ts : SortStableFunc mtlv_cmp ts ≡ₚ ts.
Proof. induction ts as [|t ts IH]; [done|]. simpl. by rewrite msort_insert_perm, IH. Qed.

(** The TLVs' values read the same in two stores. *)
Lemma map_view_tlv h h' ts :
  (∀ v, v ∈ omap mt_Value ts → load h' v = load h v) → map (view_tlv h') ts = map (view_tlv h) ts.
Proof.
  induction ts as [|t ts IH]; intros Hv; [done|]. simpl. f_equal.
  - unfold view_tlv, load_opt. destruct (mt_Value t) eqn:E; [|done]. simpl. rewrite Hv; [done|].
    simpl. rewrite E. left.
  - apply IH. intros v Hin. apply Hv. simpl. destruct (mt_Value t); [by right|done].
Qed.

Definition mframe_ok (h : store) (f : mFrame) : Prop := ∀ s, s ∈ mf_slices f → slice_ok h s.

(** What [Frame.Encode] writes over: the spare bytes behind the payload. *)
Definition behind_payload (f : mFrame) (s : slice) : Prop :=
  ∀ p, mf_Payload f = Some p → spare_apart p s.

Section EncodeFacts.
Context `{GoAlloc}.

Lemma Frame_emit_fields k f g :
  fr_ExtensionType f = fr_ExtensionType g → fr_MessageType f = fr_MessageType g →
  fr_MessageLength f = fr_MessageLength g → fr_Payload f = fr_Payload g →
  Frame_emit (NewBinaryBuilder |> Grow k) f = Frame_emit (NewBinaryBuilder |> Grow k) g.
Proof. intros E1 E2 E3 E4. by rewrite !Frame_emit_eq, E1, E2, E3, E4. Qed.

Lemma mFrame_Encode_view h f r h' f' :
  mframe_ok h f → mFrame_Encode h f = (r, h', f') →
  r = (Frame_Encode (view h f)).1 ∧ mframe_ok h' f' ∧
  (∀ s, slice_ok h s → slice_ok h' s ∧ (behind_payload f s → load h' s = load h s)) ∧
  ((∀ v, v ∈ omap mt_Value (default [] (mf_TLVs f)) → behind_payload f v) →
    view h' f' = (Frame_Encode (view h f)).2).
Proof.
  intros Hok. unfold mFrame_Encode, Frame_Encode.
  change (fr_MessageLength (view h f)) with (mf_MessageLength f).
  change (fr_Payload (view h f)) with (load_opt h (mf_Payload f)).
  change (fr_TLVs (view h f)) with (map (view_tlv h) <$> mf_TLVs f).
  destruct (negb _); [by intros [= <- <- <-]|].
  pose proof Hok as Hok0. unfold mframe_ok, mf_slices in Hok.
  destruct (mf_TLVs f) as [ts|] eqn:Ets; [|by intros [= <- <- <-]]. cbn [fmap option_fmap option_map].
  rewrite <- SortStableFunc_view. set (sorted := SortStableFunc mtlv_cmp ts).
  assert (omap mt_Value sorted ≡ₚ omap mt_Value ts) as Hperm by (by rewrite (mSort_perm ts : sorted ≡ₚ ts)).
  simpl in Hok. setoid_rewrite <- Hperm in Hok. simpl. setoid_rewrite <- Hperm.
  destruct (encode_tlvs _ _) as [e|out]; [by intros [= <- <- <-]|].
  destruct (Bytes out) as [b [e|]]; [by intros [= <- <- <-]|].
  destruct (append h (mf_Payload f) (sbytes b)) as [h1 p1] eqn:Ea.
  apply append_spec in Ea as (Hl & Hp1 & Hokall & Happ).
  2:{ intros s0 Hs0. apply Hok. rewrite Hs0. left. }
  intros [= <- <- <-]. split_and!.
  - apply Frame_emit_fields; done.
  - intros s. unfold mf_slices. simpl. rewrite elem_of_app. intros [Hs|Hs]; [|].
    + destruct p1 as [p|]; [|by apply elem_of_nil in Hs]. apply list_elem_of_singleton in Hs as ->. auto.
    + apply Hokall, Hok. rewrite elem_of_app. by right.
  - intros s Hs. split; [by apply Hokall|]. intros Hb. by apply Happ.
  - intros Hv. unfold view, set_mpayload, set_mlength, set_mheader, set_mTLVs. simpl. rewrite Hl.
    unfold set_payload, set_length, set_header, set_TLVs. simpl. do 2 f_equal.
    apply map_view_tlv. intros v Hin. apply Happ; [|by apply Hv].
    apply Hok. rewrite elem_of_app. by right.
Qed.
End EncodeFacts.

(** ** A decoded frame, encoded *)

(** A slice inside the bytes written reads them. *)
Lemma load_write_inside h loc off bs a s :
  h !! loc = Some a → (off + length bs ≤ length a)%nat → sl_loc s = loc →
  (off ≤ sl_off s ∧ sl_off s + sl_len s ≤ off + length bs)%nat →
  load (write_at h loc off bs) s = take (sl_len s) (drop (sl_off s - off) bs).
Proof.
  intros Ha Hl Hs Hin. unfold load, array_of, write_at. rewrite Ha, Hs, lookup_insert_eq.
  cbn [default from_option id]. apply list_eq. intros i. rewrite !lookup_take, !lookup_drop.
  case_decide; [|done]. rewrite lookup_overwrite by done. rewrite decide_True by lia. f_equal. lia.
Qed.

Section Corruption.
Context `{GoAlloc}.

Lemma encode_one_tlv t : tlv_fits t = true →
  ∃ out, encode_tlvs [t] NewBinaryBuilder = inr out ∧ Bytes out = (Some (tlv_enc_bytes t), None).
Proof.
  intros Hf. pose proof (encode_tlvs_eq [t] NewBinaryBuilder [] Built_new) as He. simpl forallb in He.
  rewrite Hf in He. destruct He as (out & E & Hb). exists out. split; [done|].
  rewrite (Built_Bytes _ _ Hb). simpl. by rewrite app_nil_r.
Qed.

(** C24: the methods of [Frame], on a store, refine the ones on values.  [Frame.Decode]
    gives the frame, the error or the panic that it gives on the buffer's bytes, and
    copies nothing: the payload is the window six bytes into the buffer, with the rest
    of the buffer as its spare capacity, and the TLVs' values that it adds are windows
    too.  [Frame.Encode] returns the bytes and the error that it returns on values;
    slices that the spare capacity behind the payload does not reach read as before, and
    where that holds of the frame's own TLVs the frame is left as on values. *)
Theorem frame_methods_refine h f (Hf : mframe_ok h f) :
  (∀ b, slice_ok h b →
    (λ r, (view h r.1, r.2)) <$> mFrame_Decode h f b = Frame_Decode (view h f) (load h b) (spare h b) ∧
    ∀ f' err, mFrame_Decode h f b = Ret (f', err) →
      (∃ p, mf_Payload f' = Some p ∧ window b 6 (6 + Zmod.unsigned (mf_MessageLength f')) p) ∧
      ∀ s, s ∈ mf_slices f' → s ∈ omap mt_Value (default [] (mf_TLVs f)) ∨ within b s) ∧
  let '(r, h', f') := mFrame_Encode h f in
  r = (Frame_Encode (view h f)).1 ∧ mframe_ok h' f' ∧
  (∀ s, slice_ok h s → behind_payload f s → load h' s = load h s) ∧
  ((∀ v, v ∈ omap mt_Value (default [] (mf_TLVs f)) → behind_payload f v) →
    view h' f' = (Frame_Encode (view h f)).2).
Proof.
  split.
  - intros b Hb. split; [by apply mFrame_Decode_view|]. intros f' err E.
    destruct (mFrame_Decode_windows h f b f' err Hb E) as (? & ? & _). done.
  - destruct (mFrame_Encode h f) as [[r h'] f'] eqn:E.
    destruct (mFrame_Encode_view h f r h' f' Hf E) as (? & ? & Hs & ?). split_and!; try done.
    intros s Hs1 Hs2. by apply Hs.
Qed.

(** A frame decoded from a buffer with two bytes to spare behind its one TLV does
    not survive being encoded: the TLV's own encoding, which has its length twice, is
    appended over the buffer, and the TLV's value now begins with the value's length. *)
Theorem Encode_corrupts_decoded_TLV h b f t v
    (Hb : slice_ok h b) (HD : mFrame_Decode h zero_mframe b = Ret (f, None))
    (Ht : mf_TLVs f = Some [t]) (Hv : mt_Value t = Some v)
    (Hcap : 6 + Zmod.unsigned (mf_MessageLength f) + 7 + Z.of_nat (sl_len v) ≤ Z.of_nat (sl_cap b)) :
  ∃ bs h' f', mFrame_Encode h f = ((Some bs, None), h', f') ∧ mf_TLVs f' = Some [t] ∧
    load h' v = take (sl_len v) (le_put 2 (Z.of_nat (sl_len v)) ++ load h v).
Proof.
  destruct (mFrame_Decode_windows h zero_mframe b f None Hb HD)
    as ((p & Hp & Hinp & Hop & Hlp) & _ & ts & Hts & Hhd).
  rewrite Ht in Hts. simpl in Hts. subst ts. destruct (Hhd t eq_refl) as (v' & Ev & Hinv & Hov & Hlv).
  rewrite Hv in Ev. injection Ev as <-. clear Hhd HD.
  pose proof (u_range 16 (mt_Length t) ltac:(lia)) as Hn.
  pose proof (u_range 32 (mf_MessageLength f) ltac:(lia)) as Hm.
  assert (length (load h v) = sl_len v) as Hll by (apply length_load; by apply (within_ok h b)).
  assert (len (load h v) = Z.of_nat (sl_len v)) as Hlen by (unfold len; by rewrite Hll).
  destruct (encode_one_tlv (view_tlv h t)) as (out & Eo & Eb).
  { unfold tlv_fits, view_tlv. simpl. rewrite Hv. simpl. rewrite Hlen. apply Z.leb_le. lia. }
  assert (length (tlv_enc_bytes (view_tlv h t)) = 7 + sl_len v)%nat as Htb.
  { unfold tlv_enc_bytes. rewrite !length_app, !length_le_put. simpl. rewrite Hv. simpl. lia. }
  destruct Hb as (a & Ha & Hca & _), Hinp as (Hlocp & Hpo & Hpc & _), Hinv as (Hlocv & Hvo & Hvc & _).
  unfold mFrame_Encode. rewrite Ht, Hp. simpl load_opt. simpl sbytes. unfold len.
  rewrite length_load by (exists a; rewrite Hlocp; split; [done|lia]).
  rewrite (proj2 (Z.eqb_eq _ _)) by lia. cbn [negb].
  change (SortStableFunc mtlv_cmp [t]) with [t]. cbn [map]. rewrite Eo, Eb. cbn [append mf_Payload set_mlength set_mheader set_mTLVs sbytes].
  rewrite Hp. change (sbytes (Some ?x)) with x. cbn [append]. rewrite Htb, (proj2 (Nat.leb_le _ _)) by lia.
  rewrite Frame_emit_eq. do 3 eexists. split; [done|]. split; [done|].
  rewrite Hlocp, (load_write_inside _ _ _ _ a) by (done || lia).
  replace (sl_off v - _)%nat with 5%nat by lia. unfold tlv_enc_bytes. simpl.
  rewrite Hv. simpl. by rewrite Hlen.
Qed.
End Corruption.

(** ** A concrete buffer

    A frame of two bytes of payload, with a TLV whose value is two bytes, in a buffer
    with two bytes more. *)
Definition sample_bytes : list u8 :=
  to_u8 <$> [0; 0; 1; 2; 0; 0;  5; 6;  1; 0; 3; 2; 0; 7; 8].
Definition sample_store : store := {[ 0%nat := sample_bytes ++ [to_u8 0; to_u8 0] ]}.
Definition sample_buffer : slice := Slice 0 0 15 17.
Definition sample_tlv : mTLV :=
  {| mt_ExtensionType := to_u16 1; mt_FieldType := to_u8 3; mt_Length := to_u16 2;
     mt_Value := Some (Slice 0 13 2 4) |}.
Definition sample_mframe : mFrame :=
  {| mf_ExtensionType := to_u16 0; mf_MessageType := to_u8 1; mf_MessageLength := to_u32 2;
     mf_Payload := Some (Slice 0 6 2 11); mf_TLVs := Some [sample_tlv] |}.

Lemma sample_slice_ok off n c : (off + c ≤ 17 ∧ n ≤ c)%nat → slice_ok sample_store (Slice 0 off n c).
Proof. intros Hc. exists (sample_bytes ++ [to_u8 0; to_u8 0]). split; [reflexivity|]. exact Hc. Qed.

Lemma sample_mframe_ok : mframe_ok sample_store sample_mframe.
Proof.
  intros s Hs. unfold mf_slices in Hs. simpl in Hs. rewrite !elem_of_cons in Hs.
  destruct Hs as [->|[->|Hs]]; [apply sample_slice_ok; lia..|by inversion Hs].
Qed.

Lemma sample_Decode : mFrame_Decode sample_store zero_mframe sample_buffer = Ret (sample_mframe, None).
Proof. vm_compute. reflexivity. Qed.

Lemma frame_methods_refine_witness :
  (∃ p, mf_Payload sample_mframe = Some p ∧ window sample_buffer 6 8 p) ∧
  ((mFrame_Encode (H := exact_alloc) sample_store sample_mframe).1).1 =
  (Frame_Encode (H := exact_alloc) (view sample_store sample_mframe)).1.
Proof.
  assert (mframe_ok sample_store zero_mframe) as H0 by (intros s Hs; by inversion Hs).
  destruct (frame_methods_refine (H := exact_alloc) sample_store zero_mframe H0) as [HD _].
  destruct (HD sample_buffer) as [_ HD']; [apply sample_slice_ok; lia|]. split.
  - exact (proj1 (HD' sample_mframe None sample_Decode)).
  - destruct (frame_methods_refine (H := exact_alloc) sample_store sample_mframe sample_mframe_ok) as [_ HE].
    destruct (mFrame_Encode (H := exact_alloc) sample_store sample_mframe) as [[r h'] f'].
    exact (proj1 HE).
Defined.

Lemma Encode_corrupts_decoded_TLV_witness : ∃ bs h' f',
  mFrame_Encode (H := exact_alloc) sample_store sample_mframe = ((Some bs, None), h', f') ∧
  load sample_store (Slice 0 13 2 4) = [to_u8 7; to_u8 8] ∧
  load h' (Slice 0 13 2 4) = [to_u8 2; to_u8 0].
Proof.
  destruct (Encode_corrupts_decoded_TLV (H := exact_alloc) sample_store sample_buffer sample_mframe
    sample_tlv (Slice 0 13 2 4)) as (bs & h' & f' & HE & _ & Hl).
  - apply sample_slice_ok. lia.
  - exact sample_Decode.
  - reflexivity.
  - reflexivity.
  - vm_compute. discriminate.
  - exists bs, h', f'. split; [exact HE|]. split; [reflexivity|]. rewrite Hl. reflexivity.
Defined.
