(* ===== verification/BuilderMem.v ===== *)
(** * BinaryBuilder over shared byte slices (binary.go)

    Builder.v takes the bytes of a builder as a value.  Here they are a slice of an array
    in the store: [append] writes into the array where the capacity allows it, and the
    slice that [Bytes] hands out stays a window on that array while the builder goes on.
    The methods are those of Builder.v, line by line, on the store. *)
From stdpp Require Import gmap.
From S2P Require Import Prelude GoInts Constants Wire Builder Memory.

Record mBuilder := {
  mb_data : slice;
  mb_err : error
}.

(** The store, and the builder a method is called on. *)
Definition bstate : Type := store * mBuilder.

(** A slice argument: of an array that nobody else has, such as [u[:]] of a parameter,
    or a window on one that others may have. *)
Inductive barg :=
| Own (l : list u8)
| Window (t : slice).

Definition arg_bytes (h : store) (a : barg) : list u8 :=
  match a with Own l => l | Window t => load h t end.
Definition arg_len (a : barg) : Z :=
  match a with Own l => len l | Window t => Z.of_nat (sl_len t) end.

Section Methods.
Context `{GoAlloc}.

Definition mbb_append (bin : list u8) (st : bstate) : bstate :=
  let '(h, bb) := st in
  let '(h, s) := append h (Some (mb_data bb)) bin in
  (h, {| mb_data := default (mb_data bb) s; mb_err := mb_err bb |}).

Definition mbb_fail (msg : string) (st : bstate) : bstate :=
  let '(h, bb) := st in (h, {| mb_data := mb_data bb; mb_err := Some msg |}).

Definition m_unless_failed (f : bstate → bstate) (st : bstate) : bstate :=
  match mb_err st.2 with Some _ => st | None => f st end.

(** [newData := make([]byte, l, c+size); copy(newData, bb.data); bb.data = newData] *)
Definition mGrow (size : Z) (st : bstate) : bstate :=
  let '(h, bb) := st in
  if size <=? 0 then st else
  let l := Z.of_nat (sl_len (mb_data bb)) in
  let c := Z.of_nat (sl_cap (mb_data bb)) in
  if c - l <? size then
    let '(h, s) := alloc h (load h (mb_data bb)) (c + size) in
    (h, {| mb_data := s; mb_err := mb_err bb |})
  else st.

(** The slice is handed out, not copied. *)
Definition mBytes (st : bstate) : slice * error :=
  match mb_err st.2 with
  | Some e => (mb_data st.2, Some e)
  | None => (mb_data st.2, None)
  end.

Definition mAddBool (boo : bool) : bstate → bstate := m_unless_failed (λ st,
  if boo then mbb_append [to_u8 1] st else mbb_append [to_u8 0] st).
Definition mAddU8 (u : u8) : bstate → bstate := m_unless_failed (λ st, mbb_append [u] st).
Definition mAddU16 (u : u16) : bstate → bstate := m_unless_failed (λ st,
  mbb_append (le_put 2 (Zmod.unsigned u)) st).
Definition mAddU24 (u : U24) : bstate → bstate := m_unless_failed (λ st,
  let enc := le_put 4 (Zmod.unsigned u) in mbb_append (take 3 enc) st).
Definition mAddU32 (u : u32) : bstate → bstate := m_unless_failed (λ st,
  mbb_append (le_put 4 (Zmod.unsigned u)) st).
Definition mAddU64 (u : u64) : bstate → bstate := m_unless_failed (λ st,
  mbb_append (le_put 8 (Zmod.unsigned u)) st).
Definition mAddF32 (f : float32) : bstate → bstate := m_unless_failed (λ st,
  mbb_append (le_put 4 (Zmod.unsigned f)) st).

(** The argument is read when it is appended. *)
Definition mAddBytes (bin : barg) : bstate → bstate := m_unless_failed (λ st,
  if arg_len bin =? 0 then st else mbb_append (arg_bytes st.1 bin) st).

Definition mAddU256 (u : U256) : bstate → bstate := m_unless_failed (λ st,
  st |> mGrow 32 |> mAddBytes (Own (arr_bytes u))).
Definition mAddStr255 (s : gostring) : bstate → bstate := m_unless_failed (λ st,
  let l := len s in
  if 255 <? l then mbb_fail "AddStr: len > 255" st
  else st |> mGrow (l + 1) |> mAddU8 (to_u8 l) |> mAddBytes (Own s)).
Definition mAddBin32 (s : barg) : bstate → bstate := m_unless_failed (λ st,
  let l := arg_len s in
  if 32 <? l then mbb_fail "AddBin32: len > 32" st
  else st |> mGrow (l + 1) |> mAddU8 (to_u8 l) |> mAddBytes s).
Definition mAddBin255 (s : barg) : bstate → bstate := m_unless_failed (λ st,
  let l := arg_len s in
  if 255 <? l then mbb_fail "AddBin255: len > 255" st
  else st |> mGrow (l + 1) |> mAddU8 (to_u8 l) |> mAddBytes s).
Definition mAddBin64K (s : barg) : bstate → bstate := m_unless_failed (λ st,
  let l := arg_len s in
  if limit64k <? l then mbb_fail "AddBin64K: len > 65535" st
  else st |> mGrow (l + 2) |> mAddU16 (to_u16 l) |> mAddBytes s).
Definition mAddBin16M (s : barg) : bstate → bstate := m_unless_failed (λ st,
  let l := arg_len s in
  if limit16m <? l then mbb_fail "AddBin16M: len > 2^24-1" st
  else st |> mGrow (l + 3) |> mAddU24 (to_u32 l) |> mAddBytes s).
Definition mAddSignature (sig : Signature) : bstate → bstate := m_unless_failed (λ st,
  mbb_append (arr_bytes sig) st).
Definition mAddShortTXID (txid : array 6) : bstate → bstate := m_unless_failed (λ st,
  mbb_append (arr_bytes txid) st).

(** [data: make([]byte, 0)] *)
Definition mNewBinaryBuilder (h : store) : bstate :=
  let '(h, s) := alloc h [] 0 in (h, {| mb_data := s; mb_err := None |}).

(** ** What a method does to the store *)

(** The builder as a value. *)
Definition babs (h : store) (bb : mBuilder) : BinaryBuilder :=
  {| bb_data := load h (mb_data bb); bb_cap := Z.of_nat (sl_cap (mb_data bb)); bb_err := mb_err bb |}.

(** A slice that the builder's next writes do not reach: of another array, or no longer
    than what the builder holds of its own. *)
Definition below (t : slice) (bb : mBuilder) : Prop :=
  sl_loc t ≠ sl_loc (mb_data bb) ∨
  (sl_off t + sl_len t ≤ sl_off (mb_data bb) + sl_len (mb_data bb))%nat.

(** The argument [a] stands for the bytes [c]. *)
Definition arg_ok (st : bstate) (a : barg) (c : list u8) : Prop :=
  match a with
  | Own l => l = c
  | Window t => slice_ok st.1 t ∧ below t st.2 ∧ load st.1 t = c
  end.

(** From [st] to [st'] the builder wrote only where no such slice reads. *)
Definition kept (st st' : bstate) : Prop :=
  slice_ok st'.1 (mb_data st'.2) ∧
  (∀ a c, arg_ok st a c → arg_ok st' a c) ∧
  (∀ t, slice_ok st.1 t → slice_ok st'.1 t) ∧
  (∀ t, slice_ok st.1 t → sl_loc t ≠ sl_loc (mb_data st.2) → sl_loc t ≠ sl_loc (mb_data st'.2)).

(** The method [f] is [g] on values, given that its arguments stand for these bytes. *)
Definition adds (args : list (barg * list u8)) (f : bstate → bstate) (g : BinaryBuilder → BinaryBuilder) : Prop :=
  ∀ st, slice_ok st.1 (mb_data st.2) → Forall (λ ac, arg_ok st ac.1 ac.2) args →
  babs (f st).1 (f st).2 = g (babs st.1 st.2) ∧ kept st (f st).

Lemma kept_refl st : slice_ok st.1 (mb_data st.2) → kept st st.
Proof. intros Hok. unfold kept. auto. Qed.

Lemma kept_trans st1 st2 st3 : kept st1 st2 → kept st2 st3 → kept st1 st3.
Proof. intros (? & ? & ? & ?) (? & ? & ? & ?). unfold kept. split_and!; eauto. Qed.

Lemma adds_then args f1 f2 g1 g2 : adds args f1 g1 → adds args f2 g2 →
  adds args (λ st, st |> f1 |> f2) (λ bb, bb |> g1 |> g2).
Proof.
  intros H1 H2 st Hok Hargs. destruct (H1 st Hok Hargs) as [E1 K1].
  pose proof K1 as (Hok1 & Hargs1 & _). destruct (H2 (f1 st)) as [E2 K2].
  - exact Hok1.
  - eapply Forall_impl; [exact Hargs|]. intros [a c] Ha. by apply Hargs1.
  - split; [by rewrite E2, E1|by eapply kept_trans].
Qed.

Lemma adds_unless_failed args f g : adds args f g → adds args (m_unless_failed f) (unless_failed g).
Proof.
  intros Hf st Hok Hargs. unfold m_unless_failed, unless_failed. cbn [babs bb_err].
  destruct (mb_err st.2); [by split; [|apply kept_refl]|by apply Hf].
Qed.

Lemma adds_if (b : bool) args f1 f2 g1 g2 : adds args f1 g1 → adds args f2 g2 →
  adds args (λ st, if b then f1 st else f2 st) (λ bb, if b then g1 bb else g2 bb).
Proof. by destruct b. Qed.

Lemma adds_fail args msg : adds args (mbb_fail msg) (bb_fail msg).
Proof. intros [h bb] Hok Hargs. split; [done|]. unfold kept. auto. Qed.

Lemma adds_id args : adds args (λ st, st) (λ bb, bb).
Proof. intros st Hok Hargs. by split; [|apply kept_refl]. Qed.

(** The slice moves to a new array. *)
Lemma kept_alloc h bb l cap h' s : alloc h l cap = (h', s) →
  kept (h, bb) (h', {| mb_data := s; mb_err := mb_err bb |}).
Proof.
  intros E. apply alloc_fresh in E as (Hl & Hs & Hold & Hne). unfold kept. cbn [fst snd mb_data].
  split_and!; [done| |by intros t Ht; apply Hold|by intros t Ht _; apply Hne].
  intros [l'|t] c; [done|]. intros (Ht & _ & Hc). cbn [arg_ok fst snd] in *.
  destruct (Hold t Ht) as [? ->]. split; [done|]. split; [left; by apply Hne|done].
Qed.

Lemma adds_append args bin : adds args (mbb_append bin) (bb_append bin).
Proof.
  intros [h [s err]] Hok _. cbn [fst snd mb_data] in Hok. unfold mbb_append. cbn [mb_data mb_err].
  destruct (append h (Some s) bin) as [h' s'] eqn:E.
  pose proof (append_spec h (Some s) bin h' s' E) as (Hload & Hs' & Hkeep & Hsame); [by intros ? [= <-]|].
  pose proof (length_load h s Hok) as Hlen. cbn [append] in E.
  destruct (_ <=? _)%nat eqn:El; [apply Nat.leb_le in El|apply Nat.leb_gt in El].
  - injection E as <- <-. cbn [default from_option id]. split.
    + unfold babs, bb_append. cbn [fst snd mb_data mb_err bb_data bb_cap bb_err sl_cap]. apply (inj Some) in Hload. rewrite Hload.
      f_equal. unfold len. rewrite Hlen, (proj2 (Z.leb_le _ _)) by lia. done.
    + unfold kept. cbn [fst snd mb_data]. split_and!; [by apply Hs'| |done|done].
      intros [l|t] c; [done|]. intros (Ht & Hb & Hc). unfold below in Hb. cbn [arg_ok fst snd mb_data] in *.
      split; [by apply Hkeep|]. split; [unfold below; cbn; lia|].
      rewrite <- Hc. apply Hsame; [done|]. intros s0 [= <-]. unfold spare_apart, apart. lia.
  - destruct (alloc _ _ _) as [h1 s1] eqn:Ea. injection E as <- <-. cbn [default from_option id]. split.
    + unfold babs, bb_append. cbn [fst snd mb_data mb_err bb_data bb_cap bb_err]. apply (inj Some) in Hload. rewrite Hload.
      f_equal. unfold len. rewrite Hlen, (proj2 (Z.leb_gt _ _)) by lia.
      unfold alloc in Ea. injection Ea as _ <-. cbn [sl_cap]. rewrite length_app, Hlen.
      match goal with |- context [growslice ?c ?n] => pose proof (growslice_enough c n) end.
      unfold len in *. lia.
    + by eapply (kept_alloc h {| mb_data := s; mb_err := err |}).
Qed.

Lemma adds_Grow args size : adds args (mGrow size) (Grow size).
Proof.
  intros [h bb] Hok _. cbn [fst snd] in Hok. unfold mGrow, Grow. cbn [fst snd].
  destruct (size <=? 0) eqn:Es; bool_to_prop; [by split; [|apply kept_refl]|].
  unfold babs at 2 3 4. cbn [bb_data bb_cap]. unfold len. rewrite (length_load _ _ Hok).
  destruct (_ <? _) eqn:El; bool_to_prop; [|by split; [|apply kept_refl]].
  destruct (alloc _ _ _) as [h' s] eqn:Ea. split; [|by eapply kept_alloc].
  pose proof (alloc_fresh _ _ _ _ _ Ea) as [Hl _]. unfold babs. cbn [fst snd mb_data mb_err]. rewrite Hl. f_equal.
  unfold alloc in Ea. injection Ea as _ <-. cbn [sl_cap]. rewrite (length_load _ _ Hok).
  pose proof Hok as (a & _ & _ & Hle). cbn [bb_cap]. lia.
Qed.

Lemma arg_len_bytes st a c : arg_ok st a c → arg_len a = len c ∧ arg_bytes st.1 a = c.
Proof.
  destruct a as [l|t]; cbn [arg_ok arg_len arg_bytes]; [by intros ->|].
  intros (Ht & _ & <-). unfold len. by rewrite (length_load _ _ Ht).
Qed.

Lemma adds_AddBytes args a c : (a, c) ∈ args → adds args (mAddBytes a) (AddBytes c).
Proof.
  intros Hin. apply adds_unless_failed. intros st Hok Hargs.
  rewrite Forall_forall in Hargs. destruct (arg_len_bytes st a c (Hargs _ Hin)) as [-> ->].
  destruct (_ =? _); [by apply (adds_id [])|by apply (adds_append [])].
Qed.

(** A method that prefixes a length. *)
Lemma adds_counted args a c msg lim (grow : Z → Z) (mput : Z → bstate → bstate) (put : Z → BinaryBuilder → BinaryBuilder) :
  (a, c) ∈ args → (∀ l, adds args (mput l) (put l)) →
  adds args
    (m_unless_failed (λ st, let l := arg_len a in
       if lim <? l then mbb_fail msg st else st |> mGrow (grow l) |> mput l |> mAddBytes a))
    (unless_failed (λ bb, let l := len c in
       if lim <? l then bb_fail msg bb else bb |> Grow (grow l) |> put l |> AddBytes c)).
Proof.
  intros Hin Hput. apply adds_unless_failed. intros st Hok Hargs.
  assert (arg_len a = len c) as El by (rewrite Forall_forall in Hargs; by apply (arg_len_bytes st a c (Hargs _ Hin))).
  cbv zeta. rewrite El. destruct (lim <? len c); [by apply (adds_fail [])|].
  apply (adds_then args (λ st, st |> mGrow (grow (len c)) |> mput (len c)) (mAddBytes a)
    (λ bb, bb |> Grow (grow (len c)) |> put (len c)) (AddBytes c)); [|by apply adds_AddBytes|done..].
  apply (adds_then args (mGrow (grow (len c))) (mput (len c)) (Grow (grow (len c))) (put (len c)));
    [apply adds_Grow|apply Hput].
Qed.

End Methods.

(** ** The methods as data *)

(** A call, with its argument; the slices are of type [A]. *)
Inductive badd (A : Type) :=
| BGrow (size : Z)
| BBool (boo : bool)
| BU8 (u : u8)
| BU16 (u : u16)
| BU24 (u : U24)
| BU32 (u : u32)
| BU64 (u : u64)
| BF32 (f : float32)
| BU256 (u : U256)
| BStr255 (s : gostring)
| BBytes (a : A)
| BBin32 (a : A)
| BBin255 (a : A)
| BBin64K (a : A)
| BBin16M (a : A)
| BSignature (sig : Signature)
| BShortTXID (txid : array 6).
#[global] Arguments BGrow {A}. #[global] Arguments BBool {A}. #[global] Arguments BU8 {A}.
#[global] Arguments BU16 {A}. #[global] Arguments BU24 {A}. #[global] Arguments BU32 {A}.
#[global] Arguments BU64 {A}. #[global] Arguments BF32 {A}. #[global] Arguments BU256 {A}.
#[global] Arguments BStr255 {A}. #[global] Arguments BBytes {A}. #[global] Arguments BBin32 {A}.
#[global] Arguments BBin255 {A}. #[global] Arguments BBin64K {A}. #[global] Arguments BBin16M {A}.
#[global] Arguments BSignature {A}. #[global] Arguments BShortTXID {A}.

Definition badd_mapM {A B} (f : A → option B) (c : badd A) : option (badd B) :=
  match c with
  | BGrow n => Some (BGrow n)
  | BBool b => Some (BBool b)
  | BU8 u => Some (BU8 u)
  | BU16 u => Some (BU16 u)
  | BU24 u => Some (BU24 u)
  | BU32 u => Some (BU32 u)
  | BU64 u => Some (BU64 u)
  | BF32 x => Some (BF32 x)
  | BU256 u => Some (BU256 u)
  | BStr255 s => Some (BStr255 s)
  | BBytes a => BBytes <$> f a
  | BBin32 a => BBin32 <$> f a
  | BBin255 a => BBin255 <$> f a
  | BBin64K a => BBin64K <$> f a
  | BBin16M a => BBin16M <$> f a
  | BSignature s => Some (BSignature s)
  | BShortTXID t => Some (BShortTXID t)
  end.

Section Programs.
Context `{GoAlloc}.

Definition mcall (c : badd barg) : bstate → bstate :=
  match c with
  | BGrow n => mGrow n
  | BBool b => mAddBool b
  | BU8 u => mAddU8 u
  | BU16 u => mAddU16 u
  | BU24 u => mAddU24 u
  | BU32 u => mAddU32 u
  | BU64 u => mAddU64 u
  | BF32 x => mAddF32 x
  | BU256 u => mAddU256 u
  | BStr255 s => mAddStr255 s
  | BBytes a => mAddBytes a
  | BBin32 a => mAddBin32 a
  | BBin255 a => mAddBin255 a
  | BBin64K a => mAddBin64K a
  | BBin16M a => mAddBin16M a
  | BSignature s => mAddSignature s
  | BShortTXID t => mAddShortTXID t
  end.

Definition vcall (c : badd (list u8)) : BinaryBuilder → BinaryBuilder :=
  match c with
  | BGrow n => Grow n
  | BBool b => AddBool b
  | BU8 u => AddU8 u
  | BU16 u => AddU16 u
  | BU24 u => AddU24 u
  | BU32 u => AddU32 u
  | BU64 u => AddU64 u
  | BF32 x => AddF32 x
  | BU256 u => AddU256 u
  | BStr255 s => AddStr255 s
  | BBytes a => AddBytes a
  | BBin32 a => AddBin32 a
  | BBin255 a => AddBin255 a
  | BBin64K a => AddBin64K a
  | BBin16M a => AddBin16M a
  | BSignature s => AddSignature s
  | BShortTXID t => AddShortTXID t
  end.

(** Every method refines its namesake, whatever slices it is given that the builder does
    not write to. *)
Lemma adds_call {A} (fm : A → option barg) (fv : A → option (list u8)) (c : badd A) st :
  slice_ok st.1 (mb_data st.2) → (∀ a, option_Forall2 (arg_ok st) (fm a) (fv a)) →
  option_Forall2 (λ mc vc, babs (mcall mc st).1 (mcall mc st).2 = vcall vc (babs st.1 st.2) ∧ kept st (mcall mc st))
    (badd_mapM fm c) (badd_mapM fv c).
Proof.
  intros Hok Hargs.
  assert (∀ l f g, adds [(Own l, l)] f g → babs (f st).1 (f st).2 = g (babs st.1 st.2) ∧ kept st (f st)) as H0
    by (intros l f g Hfg; apply Hfg; [done|by repeat constructor]).
  assert (∀ K K' a, (∀ b d, adds [(b, d)] (mcall (K b)) (vcall (K' d))) →
    option_Forall2 (λ mc vc, babs (mcall mc st).1 (mcall mc st).2 = vcall vc (babs st.1 st.2) ∧ kept st (mcall mc st))
      (K <$> fm a) (K' <$> fv a)) as H1.
  { intros K K' a HK. destruct (Hargs a) as [b d Hbd|]; constructor. apply (HK b d); [done|].
    constructor; [done|constructor]. }
  destruct c; cbn [badd_mapM]; try (constructor; cbn [mcall vcall]); try (apply H1; intros b d; cbn [mcall vcall]).
  1-8: apply (H0 []).
  - apply adds_Grow.
  - apply adds_unless_failed, adds_if; apply adds_append.
  - apply adds_unless_failed, adds_append.
  - apply adds_unless_failed, adds_append.
  - apply adds_unless_failed, (adds_append _ (take 3 _)).
  - apply adds_unless_failed, adds_append.
  - apply adds_unless_failed, adds_append.
  - apply adds_unless_failed, adds_append.
  - apply (H0 (arr_bytes u)), adds_unless_failed, adds_then; [apply adds_Grow|apply adds_AddBytes; by left].
  - apply (H0 s), (adds_counted _ (Own s) s "AddStr: len > 255" 255 (λ l, l + 1) (λ l, mAddU8 (to_u8 l)) (λ l, AddU8 (to_u8 l)));
      [by left|intros l; apply adds_unless_failed, adds_append].
  - apply adds_AddBytes. by left.
  - apply (adds_counted _ b d "AddBin32: len > 32" 32 (λ l, l + 1) (λ l, mAddU8 (to_u8 l)) (λ l, AddU8 (to_u8 l)));
      [by left|intros l; apply adds_unless_failed, adds_append].
  - apply (adds_counted _ b d "AddBin255: len > 255" 255 (λ l, l + 1) (λ l, mAddU8 (to_u8 l)) (λ l, AddU8 (to_u8 l)));
      [by left|intros l; apply adds_unless_failed, adds_append].
  - apply (adds_counted _ b d "AddBin64K: len > 65535" limit64k (λ l, l + 2) (λ l, mAddU16 (to_u16 l)) (λ l, AddU16 (to_u16 l)));
      [by left|intros l; apply adds_unless_failed, adds_append].
  - apply (adds_counted _ b d "AddBin16M: len > 2^24-1" limit16m (λ l, l + 3) (λ l, mAddU24 (to_u32 l)) (λ l, AddU24 (to_u32 l)));
      [by left|intros l; apply adds_unless_failed, (adds_append _ (take 3 _))].
  - apply (H0 []), adds_unless_failed, adds_append.
  - apply (H0 []), adds_unless_failed, adds_append.
Qed.

(** ** Programs with several builders *)

(** A slice argument is written in the program, or was handed out by a [Bytes] before. *)
Inductive carg :=
| Literal (l : list u8)
| Handed (k : nat).

Inductive bcmd :=
| CNew
| CAdd (i : nat) (c : badd carg)
| CBytes (i : nat).

(** Builders, and what the calls of [Bytes] gave, in order. *)
Record msys := {
  ms_store : store;
  ms_builders : list mBuilder;
  ms_out : list (slice * error)
}.

Record vsys := {
  vs_builders : list BinaryBuilder;
  vs_out : list (list u8 * error)
}.

Definition m_arg (s : msys) (a : carg) : option barg :=
  match a with Literal l => Some (Own l) | Handed k => Window ∘ fst <$> ms_out s !! k end.
Definition v_arg (s : vsys) (a : carg) : option (list u8) :=
  match a with Literal l => Some l | Handed k => fst <$> vs_out s !! k end.

Definition m_exec (cmd : bcmd) (s : msys) : option msys :=
  match cmd with
  | CNew =>
      let '(h, bb) := mNewBinaryBuilder (ms_store s) in
      Some {| ms_store := h; ms_builders := ms_builders s ++ [bb]; ms_out := ms_out s |}
  | CAdd i c =>
      bb ← ms_builders s !! i;
      c ← badd_mapM (m_arg s) c;
      let '(h, bb) := mcall c (ms_store s, bb) in
      Some {| ms_store := h; ms_builders := <[i := bb]> (ms_builders s); ms_out := ms_out s |}
  | CBytes i =>
      bb ← ms_builders s !! i;
      Some {| ms_store := ms_store s; ms_builders := ms_builders s;
              ms_out := ms_out s ++ [mBytes (ms_store s, bb)] |}
  end.

Definition v_exec (cmd : bcmd) (s : vsys) : option vsys :=
  match cmd with
  | CNew => Some {| vs_builders := vs_builders s ++ [NewBinaryBuilder]; vs_out := vs_out s |}
  | CAdd i c =>
      bb ← vs_builders s !! i;
      c ← badd_mapM (v_arg s) c;
      Some {| vs_builders := <[i := vcall c bb]> (vs_builders s); vs_out := vs_out s |}
  | CBytes i =>
      bb ← vs_builders s !! i;
      let '(b, err) := Bytes bb in
      Some {| vs_builders := vs_builders s; vs_out := vs_out s ++ [(sbytes b, err)] |}
  end.

Fixpoint m_run (cmds : list bcmd) (s : msys) : option msys :=
  match cmds with [] => Some s | c :: cmds => m_exec c s ≫= m_run cmds end.
Fixpoint v_run (cmds : list bcmd) (s : vsys) : option vsys :=
  match cmds with [] => Some s | c :: cmds => v_exec c s ≫= v_run cmds end.

Definition m_init (h : store) : msys := {| ms_store := h; ms_builders := []; ms_out := [] |}.
Definition v_init : vsys := {| vs_builders := []; vs_out := [] |}.

(** Everything read back from the store. *)
Definition sys_abs (s : msys) : vsys :=
  {| vs_builders := babs (ms_store s) <$> ms_builders s;
     vs_out := prod_map (load (ms_store s)) id <$> ms_out s |}.

Record sys_ok (s : msys) : Prop := {
  so_builder i bb : ms_builders s !! i = Some bb → slice_ok (ms_store s) (mb_data bb);
  so_apart i j bb bb' : ms_builders s !! i = Some bb → ms_builders s !! j = Some bb' → i ≠ j →
    sl_loc (mb_data bb) ≠ sl_loc (mb_data bb');
  so_out k t e : ms_out s !! k = Some (t, e) → slice_ok (ms_store s) t;
  so_below k t e i bb : ms_out s !! k = Some (t, e) → ms_builders s !! i = Some bb → below t bb
}.

Lemma init_ok h : sys_ok (m_init h).
Proof. by split. Qed.

Lemma m_v_arg s i bb : sys_ok s → ms_builders s !! i = Some bb → ∀ a,
  option_Forall2 (arg_ok (ms_store s, bb)) (m_arg s a) (v_arg (sys_abs s) a).
Proof.
  intros Hs Hi [l|k]; [by constructor|]. cbn [m_arg v_arg sys_abs vs_out]. rewrite list_lookup_fmap.
  destruct (ms_out s !! k) as [[t e]|] eqn:Ek; constructor. cbn [fst snd arg_ok].
  split; [by eapply so_out|]. split; [by eapply so_below|done].
Qed.

(** A call on one builder leaves the others, and all that was handed out. *)
Lemma add_ok s i bb h' bb' : sys_ok s → ms_builders s !! i = Some bb →
  kept (ms_store s, bb) (h', bb') →
  let s' := {| ms_store := h'; ms_builders := <[i := bb']> (ms_builders s); ms_out := ms_out s |} in
  sys_ok s' ∧ vs_out (sys_abs s') = vs_out (sys_abs s) ∧
  vs_builders (sys_abs s') = <[i := babs h' bb']> (vs_builders (sys_abs s)).
Proof.
  intros Hs Hi (Hok & Harg & Hall & Hne) s'. cbn [fst snd] in *.
  assert (∀ j bbj, ms_builders s !! j = Some bbj → j ≠ i →
    slice_ok (ms_store s) (mb_data bbj) ∧ sl_loc (mb_data bbj) ≠ sl_loc (mb_data bb)) as Hother.
  { intros j bbj Hj Hji. split; [by eapply so_builder|by eapply (so_apart s Hs j i)]. }
  assert (∀ k t e, ms_out s !! k = Some (t, e) → arg_ok (h', bb') (Window t) (load (ms_store s) t)) as Hout.
  { intros k t e Hk. apply Harg. cbn. split; [by eapply so_out|]. split; [by eapply so_below|done]. }
  assert (∀ j bbj, <[i := bb']> (ms_builders s) !! j = Some bbj →
    (j = i ∧ bbj = bb') ∨ (j ≠ i ∧ ms_builders s !! j = Some bbj)) as Hlook.
  { intros j bbj Hj. apply list_lookup_insert_Some in Hj. naive_solver. }
  split; [split; cbn [s' ms_store ms_builders ms_out]|split].
  - intros j bbj [[-> ->]|[Hji Hj]]%Hlook; [done|]. by apply Hall, (so_builder s Hs j).
  - intros j1 j2 b1 b2 [[-> ->]|[H1 Hj1]]%Hlook [[-> ->]|[H2 Hj2]]%Hlook Hj12; [done| | |by eapply (so_apart s Hs j1 j2)].
    + destruct (Hother _ _ Hj2 H2) as [? ?]. apply not_eq_sym. by apply Hne.
    + destruct (Hother _ _ Hj1 H1) as [? ?]. by apply Hne.
  - intros k t e Hk. apply Hall. by eapply so_out.
  - intros k t e j bbj Hk [[-> ->]|[Hji Hj]]%Hlook; [by apply (Hout k t e)|by eapply so_below].
  - cbn [s' sys_abs vs_out ms_store ms_out]. apply list_fmap_ext. intros k [t e] Hk. unfold prod_map. cbn [fst snd].
    destruct (Hout k t e Hk) as (_ & _ & El). cbn [fst] in El. by rewrite El.
  - cbn [s' sys_abs vs_builders ms_store ms_builders]. rewrite list_fmap_insert.
    apply list_eq. intros j. destruct (decide (j = i)) as [->|Hji].
    + apply lookup_lt_Some in Hi. by rewrite !list_lookup_insert_eq by by rewrite length_fmap.
    + rewrite !list_lookup_insert_ne, !list_lookup_fmap by done.
      destruct (ms_builders s !! j) as [bbj|] eqn:Ej; [|done]. cbn [fmap option_fmap option_map]. unfold babs.
      destruct (Hother j bbj Ej Hji) as [Hj1 Hj2].
      destruct (Harg (Window (mb_data bbj)) (load (ms_store s) (mb_data bbj))) as (_ & _ & El).
      { split; [done|]. split; [by left|done]. }
      cbn [fst] in El. by rewrite El.
Qed.

Lemma exec_refines cmd s : sys_ok s →
  match m_exec cmd s with
  | Some s' => v_exec cmd (sys_abs s) = Some (sys_abs s') ∧ sys_ok s'
  | None => v_exec cmd (sys_abs s) = None
  end.
Proof.
  intros Hs. destruct cmd as [|i c|i]; cbn [m_exec v_exec].
  - unfold mNewBinaryBuilder. destruct (alloc _ _ _) as [h' s1] eqn:Ea.
    pose proof (alloc_fresh _ _ _ _ _ Ea) as (Hl & Hok1 & Hold & Hne).
    assert (sl_cap s1 = 0%nat) as Hcap by (unfold alloc in Ea; by injection Ea as _ <-).
    split; [|split; cbn [ms_store ms_builders ms_out]].
    + unfold sys_abs. cbn [vs_builders vs_out ms_store ms_builders ms_out]. f_equal. f_equal.
      * rewrite fmap_app. cbn [fmap list_fmap]. unfold babs at 3. cbn [mb_data mb_err]. rewrite Hl, Hcap.
        f_equal. apply list_fmap_ext. intros i bb Hi. unfold babs.
        destruct (Hold (mb_data bb)) as [_ ->]; [by eapply so_builder|done].
      * apply list_fmap_ext. intros k [t e] Hk. unfold prod_map. cbn [fst snd].
        destruct (Hold t) as [_ ->]; [by eapply so_out|done].
    + intros i bb [[_ Hi]|[_ Hi]]%lookup_snoc_Some.
      * by eapply Hold, so_builder.
      * by subst bb.
    + intros i j b1 b2 [[H1 Hi]|[H1 Hi]]%lookup_snoc_Some [[H2 Hj]|[H2 Hj]]%lookup_snoc_Some Hij; subst.
      * by eapply (so_apart s Hs i j).
      * by eapply Hne, (so_builder s Hs i).
      * apply not_eq_sym. by eapply Hne, (so_builder s Hs j).
      * lia.
    + intros k t e Hk. by eapply Hold, so_out.
    + intros k t e i bb Hk [[_ Hi]|[_ Hi]]%lookup_snoc_Some; [by eapply so_below|]. subst bb.
      left. by eapply Hne, so_out.
  - cbn [sys_abs vs_builders]. rewrite list_lookup_fmap.
    destruct (ms_builders s !! i) as [bb|] eqn:Ei; [|done]. cbn [mbind option_bind fmap option_fmap option_map].
    destruct (adds_call (m_arg s) (v_arg (sys_abs s)) c (ms_store s, bb)) as [mc vc [E K]|];
      [by eapply so_builder|by apply (m_v_arg s i)| |done].
    cbn [fst snd mbind option_bind] in *. destruct (mcall mc (ms_store s, bb)) as [h' bb']. cbn [fst snd] in *.
    destruct (add_ok s i bb h' bb' Hs Ei K) as (Hok' & Ho & Hb).
    split; [|exact Hok']. rewrite <- E. unfold sys_abs in *. cbn in *. by rewrite <- Ho, <- Hb.
  - cbn [sys_abs vs_builders]. rewrite list_lookup_fmap.
    destruct (ms_builders s !! i) as [bb|] eqn:Ei; [|done]. cbn [mbind option_bind fmap option_fmap option_map].
    assert (mBytes (ms_store s, bb) = (mb_data bb, mb_err bb)) as -> by (unfold mBytes; by destruct (mb_err _)).
    assert (Bytes (babs (ms_store s) bb) = (Some (load (ms_store s) (mb_data bb)), mb_err bb)) as ->
      by (unfold Bytes, babs; cbn; by destruct (mb_err bb)).
    split; [|split; cbn [ms_store ms_builders ms_out]].
    + unfold sys_abs. cbn [vs_builders vs_out ms_store ms_builders ms_out]. by rewrite fmap_app.
    + apply so_builder, Hs.
    + apply so_apart, Hs.
    + intros k t e [[_ Hk]|[_ Hk]]%lookup_snoc_Some; [by eapply so_out|]. injection Hk as <- _. by eapply so_builder.
    + intros k t e j bbj [[_ Hk]|[_ Hk]]%lookup_snoc_Some Hj; [by eapply so_below|]. injection Hk as <- _.
      unfold below. destruct (decide (i = j)) as [<-|Hij]; [|left; by eapply (so_apart s Hs i j)].
      rewrite Ei in Hj. injection Hj as <-. by right.
Qed.

(** C19: sharing is not observable.  A program makes builders, calls their methods in
    any order (Grow and those that append a scalar, a string, bytes, a signature or a short
    id; the methods for sequences and options are not among the calls), with slices of its own or slices that a [Bytes] handed out before, also
    the builder's own, and calls [Bytes] at any time.  Run on the store, where the
    slices handed out are windows on the builders' arrays, which go on being written,
    it has after every such sequence the builders (bytes, capacity and error) and reads
    in the slices handed out the bytes that it has and reads when every builder and
    every slice is a value of its own. *)
Theorem builders_refine_values (h : store) (cmds : list bcmd) :
  sys_abs <$> m_run cmds (m_init h) = v_run cmds v_init.
Proof.
  change v_init with (sys_abs (m_init h)). generalize (init_ok h). generalize (m_init h).
  induction cmds as [|c cmds IH]; intros s Hs; [done|]. cbn [m_run v_run].
  pose proof (exec_refines c s Hs) as Hc. destruct (m_exec c s) as [s'|]; [|by rewrite Hc].
  destruct Hc as [-> Hs']. cbn [mbind option_bind]. by apply IH.
Qed.

End Programs.
(** What the theorem does not cover: a caller that appends to a slice it was handed.  Its
    byte goes into the spare capacity of the builder's array, and the builder's next
    method overwrites it. *)
Example appended_to_Bytes :
  let st := mAddU8 (H := exact_alloc) (to_u8 1) (mGrow 4 (mNewBinaryBuilder ∅)) in
  let '(h, t) := append (H := exact_alloc) st.1 (Some (mBytes st).1) [to_u8 9] in
  let st' := mAddU8 (H := exact_alloc) (to_u8 7) (h, st.2) in
  load_opt h t = Some [to_u8 1; to_u8 9] ∧ load_opt st'.1 t = Some [to_u8 1; to_u8 7].
Proof. split; reflexivity. Qed.
