(* ===== verification/Cipher.v ===== *)
(** * Cipher states and frame encryption (noise.go)

    [CipherState] is a key and a nonce counter over an AEAD.  The AEAD
    (ChaCha20-Poly1305, [golang.org/x/crypto]) is third-party code: the class
    [AEAD] is its interface and [AEADLaws] what the package relies on.  A method
    returns its result and the state after it. *)
From S2P Require Import Prelude GoInts Constants Wire Builder Reader Codec Frame.

Class AEAD := {
  (* key, nonce, plaintext or ciphertext, additional data *)
  Seal : array 32 → list u8 → list u8 → list u8 → list u8;
  Open : array 32 → list u8 → list u8 → list u8 → option (list u8)
}.

(** Opening inverts sealing under the same key, nonce and data; a ciphertext is its
    plaintext and a tag of 16 bytes, and what is opened is 16 bytes shorter. *)
Class AEADLaws `{AEAD} : Prop := {
  Open_Seal k n p ad : Open k n (Seal k n p ad) ad = Some p;
  Seal_length k n p ad : len (Seal k n p ad) = len p + MacLen;
  Open_length k n c ad p : Open k n c ad = Some p → len c = len p + MacLen
}.

(** The conversion [uint64(math.Pow(2, 64))]: the float is out of the integer's range
    and Go leaves the result to the implementation. *)
Class GoFloat := { uint64_of_2_64 : u64 }.

Definition maxNoiseNonce `{GoFloat} : u64 := Zmod.sub uint64_of_2_64 (to_u64 1).

Record CipherState := {
  cs_k : list u8;               (* encryption key; empty: none *)
  cs_n : u64;                   (* nonce *)
  cs_gcm : option (array 32)    (* the AEAD, by the key it was made with *)
}.

(** [CipherState{}] *)
Definition zero_cipher : CipherState := {| cs_k := []; cs_n := to_u64 0; cs_gcm := None |}.

Definition set_n (n : u64) (cs : CipherState) : CipherState :=
  {| cs_k := cs_k cs; cs_n := n; cs_gcm := cs_gcm cs |}.

(** [chacha20poly1305.New] fails for keys that are not 32 bytes long only. *)
Definition InitializeKey (k : array 32) (cs : CipherState) : CipherState * error :=
  ({| cs_k := arr_bytes k; cs_n := to_u64 0; cs_gcm := Some k |}, None).

(** The nonce for a counter value: four zero bytes and the counter. *)
Definition nonce_bytes (n : u64) : list u8 := replicate 4 (to_u8 0) ++ le_put 8 (Zmod.unsigned n).

Definition getNonce (cs : CipherState) : list u8 * CipherState :=
  (nonce_bytes (cs_n cs), set_n (Zmod.add (cs_n cs) (to_u64 1)) cs).

Definition PlainTextLenToCipherTextLen (plainTextLen : Z) : Z :=
  let rem := Z.rem plainTextLen MaxPlaintextChunkSize in
  let rem := if 0 <? rem then rem + MacLen else rem in
  Z.quot plainTextLen MaxPlaintextChunkSize * MaxNoiseFrameSize + rem.

Section Cipher.
Context {ae : AEAD} {fl : GoFloat}.

Definition EncryptWithAd (ad plaintext : list u8) (cs : CipherState) :
    outcome (bslice * error * CipherState) :=
  if len (cs_k cs) =? 0 then mret (Some plaintext, None, cs)
  else if decide (cs_n cs = maxNoiseNonce) then
    mret (None, Some "nonce space exhausted"%string, cs)
  else match cs_gcm cs with
  | None => Panic NilDereference
  | Some key =>
      let '(nonce, cs) := getNonce cs in
      mret (Some (Seal key nonce plaintext ad), None, cs)
  end.

(** A failed [Open] puts the counter back. *)
Definition DecryptWithAd (ad ciphertext : list u8) (cs : CipherState) :
    outcome (bslice * error * CipherState) :=
  if len (cs_k cs) =? 0 then mret (Some ciphertext, None, cs)
  else if decide (cs_n cs = maxNoiseNonce) then
    mret (None, Some "nonce space exhausted"%string, cs)
  else match cs_gcm cs with
  | None => Panic NilDereference
  | Some key =>
      let '(nonce, cs) := getNonce cs in
      match Open key nonce ciphertext ad with
      | None => mret (None, Some "chacha20poly1305: message authentication failed"%string,
                      set_n (Zmod.add (cs_n cs) (Zmod.opp (to_u64 1))) cs)
      | Some out => mret (Some out, None, cs)
      end
  end.

Definition Encrypt (plaintext : list u8) := EncryptWithAd [] plaintext.
Definition Decrypt (ciphertext : list u8) := DecryptWithAd [] ciphertext.

(** ** Frames *)

(** [fmt.Errorf(msg + ": %s", err)] *)
Definition wrap_error (msg e : string) : error := Some (msg ++ ": " ++ e)%string.

(** The result, the cipher state and the frame, which [Frame.Encode] may change.  The
    encoding has a header, so the slice expressions are in range. *)
Definition EncryptFrame {go : GoAlloc} (frame : Frame) (cs : CipherState) :
    outcome (bslice * error * CipherState * Frame) :=
  let '((encoded, err), frame) := Frame_Encode frame in
  match err with
  | Some _ => mret (None, err, cs, frame)
  | None =>
      h ← slice_range encoded 0 FrameHeaderSize;
      '(header, err, cs) ← EncryptWithAd [] (sbytes h) cs;
      match err with
      | Some e => mret (None, wrap_error "error while encrypting header" e, cs, frame)
      | None =>
          p ← slice_range encoded FrameHeaderSize (len (sbytes encoded));
          '(out, err, cs) ← EncryptWithAd [] (sbytes p) cs;
          match err with
          | Some e => mret (None, wrap_error "error while encrypting payload" e, cs, frame)
          | None => mret (go_append header (sbytes out), None, cs, frame)
          end
      end
  end.

(** The same bytes, handed to [w.Write]; what the writer answers is the result. *)
Definition EncryptFrameToWriter {go : GoAlloc} {W} (Write : list u8 → W → Z * error * W)
    (frame : Frame) (w : W) (cs : CipherState) : outcome (Z * error * W * CipherState * Frame) :=
  let '((encoded, err), frame) := Frame_Encode frame in
  match err with
  | Some _ => mret (0, err, w, cs, frame)
  | None =>
      h ← slice_range encoded 0 FrameHeaderSize;
      '(header, err, cs) ← Encrypt (sbytes h) cs;
      match err with
      | Some e => mret (0, wrap_error "error while encrypting header" e, w, cs, frame)
      | None =>
          p ← slice_range encoded FrameHeaderSize (len (sbytes encoded));
          '(payload, err, cs) ← Encrypt (sbytes p) cs;
          match err with
          | Some e => mret (0, wrap_error "error while encrypting payload" e, w, cs, frame)
          | None => mret (Write (sbytes (go_append header (sbytes payload))) w, cs, frame)
          end
      end
  end.

(** Decryption, against the two ways of reading: [R] is the reader's state and
    [full n] is [io.ReadFull] of [n] bytes from it. *)
Section DecryptFrame.
Context {R : Type} (full : nat → R → outcome (list u8 * error * R)).

(** The result is a frame or nil, with the error, the reader and the cipher state.
    [DecodeHeader]'s error is not looked at. *)
Definition decrypt_frame_from (r : R) (cs : CipherState) :
    outcome (option Frame * error * R * CipherState) :=
  '(header, err, r) ← full (Z.to_nat NoiseHeaderSize) r;
  match err with
  | Some _ => mret (None, err, r, cs)
  | None =>
      if len header <? NoiseHeaderSize then
        mret (None, Some "header ciphertext too short"%string, r, cs)
      else
      '(decrypted, err, cs) ← DecryptWithAd [] header cs;
      match err with
      | Some e => mret (None, wrap_error "error while decrypting header" e, r, cs)
      | None =>
          '(frame, _) ← Frame_DecodeHeader zero_frame decrypted;
          let payloadLen := PlainTextLenToCipherTextLen (Zmod.unsigned (fr_MessageLength frame)) in
          '(payload, err, r) ← full (Z.to_nat payloadLen) r;
          match err with
          | Some _ => mret (None, err, r, cs)
          | None =>
              if len payload <? payloadLen then
                mret (None, Some "payload ciphertext too short"%string, r, cs)
              else
              '(decrypted, err, cs) ← DecryptWithAd [] payload cs;
              match err with
              | Some e => mret (None, wrap_error "error while decrypting payload" e, r, cs)
              | None => mret (Some (set_payload decrypted frame), None, r, cs)
              end
          end
      end
  end.
End DecryptFrame.

(** [io.ReadFull(r, buf)] with [r] a [BinaryReader]: its [Read] fills the buffer or
    fails without copying, and an empty buffer is not read into at all. *)
Definition br_ReadFull (n : nat) (br : BinaryReader) : outcome (list u8 * error * BinaryReader) :=
  if (n =? 0)%nat then mret ([], None, br) else
  '((b, l, err), br) ← Read n br;
  if Z.of_nat n <=? l then mret (b, None, br) else mret (b, err, br).

Definition DecryptFrame (f : bslice) (cs : CipherState) :
    outcome (option Frame * error * CipherState) :=
  '(frame, err, _, cs) ← decrypt_frame_from br_ReadFull (NewBinaryReader f) cs;
  mret (frame, err, cs).

Definition stream_ReadFull (n : nat) (r : stream) : outcome (list u8 * error * stream) :=
  mret (ReadFull n r).

Definition DecryptFrameFromReader (r : stream) (cs : CipherState) :
    outcome (option Frame * error * stream * CipherState) :=
  decrypt_frame_from stream_ReadFull r cs.

End Cipher.
