(* ===== verification/CipherProps.v ===== *)
(** * What the cipher states promise (noise.go)

    The lemmas behind Transport.v: a state with a key, its counter, sequences of
    messages, ciphertext lengths, and encrypted frames at a given counter. *)
From S2P Require Import Prelude GoInts Constants Wire Builder Reader Codec Frame FrameFacts Cipher.

Section CipherProps.
Context {ae : AEAD} {laws : AEADLaws} {fl : GoFloat}.

(** A cipher state with a key. *)
Definition keyed (key : array 32) (n : u64) : CipherState :=
  {| cs_k := arr_bytes key; cs_n := n; cs_gcm := Some key |}.

Definition exhausted : error := Some "nonce space exhausted"%string.

Lemma keyed_k key n : (len (cs_k (keyed key n)) =? 0) = false.
Proof. apply Z.eqb_neq. unfold keyed, len. simpl. rewrite length_arr. lia. Qed.

Lemma EncryptWithAd_keyed key n ad p :
  EncryptWithAd ad p (keyed key n) =
  if decide (n = maxNoiseNonce) then Ret (None, exhausted, keyed key n)
  else Ret (Some (Seal key (nonce_bytes n) p ad), None, keyed key (Zmod.add n (to_u64 1))).
Proof. unfold EncryptWithAd. rewrite keyed_k. cbn [cs_n keyed]. case_decide; reflexivity. Qed.

Lemma add_sub_one (n : u64) : Zmod.add (Zmod.add n (to_u64 1)) (Zmod.opp (to_u64 1)) = n.
Proof. rewrite <- Zmod.add_assoc, Zmod.add_opp_same_r. apply Zmod.add_0_r. Qed.

Lemma DecryptWithAd_keyed key n ad c :
  DecryptWithAd ad c (keyed key n) =
  if decide (n = maxNoiseNonce) then Ret (None, exhausted, keyed key n)
  else match Open key (nonce_bytes n) c ad with
  | None => Ret (None, Some "chacha20poly1305: message authentication failed"%string, keyed key n)
  | Some p => Ret (Some p, None, keyed key (Zmod.add n (to_u64 1)))
  end.
Proof.
  unfold DecryptWithAd. rewrite keyed_k. cbn [cs_n keyed]. case_decide; [done|]. simpl.
  destruct (Open _ _ _ _); [done|]. unfold set_n, keyed. simpl. by rewrite add_sub_one.
Qed.

(** ** Counters *)

Definition max_nonce : Z := Zmod.unsigned maxNoiseNonce.

Lemma max_nonce_range : 0 ≤ max_nonce < 2 ^ 64.
Proof. apply (u_range 64). lia. Qed.

Lemma to_u64_is_max i : 0 ≤ i < 2 ^ 64 → to_u64 i = maxNoiseNonce ↔ i = max_nonce.
Proof.
  intros Hi. unfold max_nonce. split.
  - intros <-. symmetry. by apply bits.unsigned_of_Z_small.
  - intros ->. apply of_Z_unsigned.
Qed.

Lemma to_u64_succ i : Zmod.add (to_u64 i) (to_u64 1) = to_u64 (i + 1).
Proof.
  apply Zmod.unsigned_inj. unfold to_u64. rewrite Zmod.unsigned_add, !bits.unsigned_of_Z.
  rewrite <- Zplus_mod. done.
Qed.

Lemma nonce_bytes_inj i j :
  0 ≤ i < 2 ^ 64 → 0 ≤ j < 2 ^ 64 → nonce_bytes (to_u64 i) = nonce_bytes (to_u64 j) → i = j.
Proof.
  intros Hi Hj E. unfold nonce_bytes in E. apply app_inv_head in E.
  apply (f_equal le_get) in E. rewrite !(le_get_put_unsigned 64) in E by done.
  unfold to_u64 in E. by rewrite !bits.unsigned_of_Z_small in E.
Qed.

(** A sequence of messages, each with its additional data, through one state. *)
Fixpoint encrypt_all (msgs : list (list u8 * list u8)) (cs : CipherState) :
    outcome (list (bslice * error) * CipherState) :=
  match msgs with
  | [] => mret ([], cs)
  | (ad, p) :: msgs =>
      '(c, err, cs) ← EncryptWithAd ad p cs;
      '(cs', cs) ← encrypt_all msgs cs;
      mret ((c, err) :: cs', cs)
  end.

Fixpoint decrypt_all (msgs : list (list u8 * list u8)) (cs : CipherState) :
    outcome (list (bslice * error) * CipherState) :=
  match msgs with
  | [] => mret ([], cs)
  | (ad, c) :: msgs =>
      '(p, err, cs) ← DecryptWithAd ad c cs;
      '(ps, cs) ← decrypt_all msgs cs;
      mret ((p, err) :: ps, cs)
  end.

Definition sealed_at (key : array 32) (start : Z) (i : nat) (m : list u8 * list u8) : bslice * error :=
  if start + Z.of_nat i <? max_nonce then
    (Some (Seal key (nonce_bytes (to_u64 (start + Z.of_nat i))) m.2 m.1), None)
  else (None, exhausted).

Lemma imap_cons_shift {A B} (f : Z → nat → A → B) start x l :
  (∀ i y, f start (S i) y = f (start + 1) i y) →
  imap (f start) (x :: l) = f start 0%nat x :: imap (f (start + 1)) l.
Proof. intros Hf. simpl. f_equal. apply imap_ext. intros i y _. apply Hf. Qed.

Lemma sealed_at_shift key start i m : sealed_at key start (S i) m = sealed_at key (start + 1) i m.
Proof. unfold sealed_at. by replace (start + Z.of_nat (S i)) with (start + 1 + Z.of_nat i) by lia. Qed.

Lemma encrypt_all_from key msgs : ∀ start, 0 ≤ start ≤ max_nonce →
  encrypt_all msgs (keyed key (to_u64 start)) =
  Ret (imap (sealed_at key start) msgs,
       keyed key (to_u64 (Z.min (start + len msgs) max_nonce))).
Proof.
  pose proof max_nonce_range as Hm.
  induction msgs as [|[ad p] msgs IH]; intros start Hs.
  - change (len (@nil (list u8 * list u8))) with 0. by rewrite Z.add_0_r, Z.min_l by lia.
  - cbn [encrypt_all]. rewrite EncryptWithAd_keyed. rewrite len_cons.
    pose proof (len_nonneg msgs).
    case_decide as E.
    + apply to_u64_is_max in E; [|lia]. unfold mbind, outcome_bind, mret, outcome_ret.
      rewrite IH by lia.
      rewrite (Z.min_r (start + len msgs)), (Z.min_r (start + (1 + len msgs))) by lia.
      subst start. f_equal. f_equal.
      assert (∀ i m, sealed_at key max_nonce i m = (None, exhausted)) as Hx.
      { intros i m. unfold sealed_at. by rewrite (proj2 (Z.ltb_ge _ _)) by lia. }
      simpl. rewrite Hx. f_equal. apply imap_ext. intros i m _. unfold compose. by rewrite !Hx.
    + assert (start ≠ max_nonce) as Hne by (intros ->; apply E; by apply to_u64_is_max).
      unfold mbind, outcome_bind, mret, outcome_ret. rewrite to_u64_succ, IH by lia.
      rewrite imap_cons_shift by apply sealed_at_shift.
      unfold sealed_at at 2. rewrite Z.add_0_r, (proj2 (Z.ltb_lt _ _)) by lia.
      by replace (start + 1 + len msgs) with (start + (1 + len msgs)) by lia.
Qed.

(** ** Ciphertext lengths *)

Lemma PlainTextLen_chunks n : 0 ≤ n →
  PlainTextLenToCipherTextLen n = n + 16 * ((n + 65518) / 65519).
Proof.
  intros Hn. unfold PlainTextLenToCipherTextLen.
  change MaxPlaintextChunkSize with 65519. change MaxNoiseFrameSize with 65535.
  change MacLen with 16. rewrite Z.rem_mod_nonneg, Z.quot_div_nonneg by lia.
  destruct (0 <? n mod 65519) eqn:E; bool_to_prop; Z.div_mod_to_equations; lia.
Qed.

Lemma PlainTextLen_small n : 1 ≤ n ≤ MaxPlaintextChunkSize → PlainTextLenToCipherTextLen n = n + 16.
Proof. change MaxPlaintextChunkSize with 65519. intros Hn. rewrite PlainTextLen_chunks by lia. Z.div_mod_to_equations. lia. Qed.

(** ** Frames *)

Definition plain_frame (f : Frame) : Prop :=
  fr_TLVs f = None ∧ length_agrees f = true ∧ len (sbytes (fr_Payload f)) ≤ MaxU24.

(** The two ciphertexts of a frame sent at counter [n]. *)
Definition sealed_header (key : array 32) (n : Z) (f : Frame) : list u8 :=
  Seal key (nonce_bytes (to_u64 n))
    (header_bytes (fr_ExtensionType f) (fr_MessageType f) (len (sbytes (fr_Payload f)))) [].
Definition sealed_payload (key : array 32) (n : Z) (f : Frame) : list u8 :=
  Seal key (nonce_bytes (to_u64 (n + 1))) (sbytes (fr_Payload f)) [].

Lemma EncryptWithAd_at key n ad p : 0 ≤ n < max_nonce →
  EncryptWithAd ad p (keyed key (to_u64 n)) =
  Ret (Some (Seal key (nonce_bytes (to_u64 n)) p ad), None, keyed key (to_u64 (n + 1))).
Proof.
  intros Hn. pose proof max_nonce_range. rewrite EncryptWithAd_keyed, decide_False.
  - by rewrite to_u64_succ.
  - rewrite to_u64_is_max by lia. lia.
Qed.

Lemma DecryptWithAd_at key n ad c : 0 ≤ n < max_nonce →
  DecryptWithAd ad c (keyed key (to_u64 n)) =
  match Open key (nonce_bytes (to_u64 n)) c ad with
  | None => Ret (None, Some "chacha20poly1305: message authentication failed"%string, keyed key (to_u64 n))
  | Some p => Ret (Some p, None, keyed key (to_u64 (n + 1)))
  end.
Proof.
  intros Hn. pose proof max_nonce_range. rewrite DecryptWithAd_keyed, decide_False.
  - by rewrite to_u64_succ.
  - rewrite to_u64_is_max by lia. lia.
Qed.

Lemma plain_frame_encoding {go : GoAlloc} f : plain_frame f →
  Frame_Encode f =
  ((Some (header_bytes (fr_ExtensionType f) (fr_MessageType f) (len (sbytes (fr_Payload f)))
          ++ sbytes (fr_Payload f)), None), f).
Proof.
  intros (Hn & Hl & _). rewrite Frame_Encode_eq, Hl, Hn. cbn [negb].
  apply Z.eqb_eq in Hl. by rewrite Hl, frame_bytes_split.
Qed.

Lemma slice_header (h p : list u8) : length h = 6%nat →
  slice_range (Some (h ++ p)) 0 FrameHeaderSize = Ret (Some h) ∧
  slice_range (Some (h ++ p)) FrameHeaderSize (len (h ++ p)) = Ret (Some p).
Proof.
  intros Hh. change FrameHeaderSize with 6. rewrite !slice_range_in; simpl sbytes;
    rewrite ?len_app; pose proof (len_nonneg p); unfold len in *; try lia.
  change (Z.to_nat (6 - 0)) with 6%nat. change (Z.to_nat 0) with 0%nat. change (Z.to_nat 6) with 6%nat.
  rewrite Hh. replace (Z.to_nat _) with (length p) by lia. rewrite <- Hh.
  simpl. by rewrite drop_0, take_app_length, drop_app_length, firstn_all.
Qed.

Lemma EncryptFrame_at {go : GoAlloc} key n f : plain_frame f → 0 ≤ n → n + 2 ≤ max_nonce →
  EncryptFrame f (keyed key (to_u64 n)) =
  Ret (Some (sealed_header key n f ++ sealed_payload key n f), None, keyed key (to_u64 (n + 2)), f).
Proof.
  intros Hf Hn Hmax. unfold EncryptFrame. rewrite (plain_frame_encoding f Hf).
  destruct Hf as (_ & _ & Hlen). pose proof (len_nonneg (sbytes (fr_Payload f))).
  destruct (header_bytes_fields (fr_ExtensionType f) (fr_MessageType f)
    (len (sbytes (fr_Payload f))) ltac:(lia)) as (Hh & _).
  destruct (slice_header _ (sbytes (fr_Payload f)) Hh) as [E1 E2].
  unfold mbind, outcome_bind. rewrite E1. cbn [sbytes default from_option id].
  rewrite EncryptWithAd_at by lia. simpl sbytes in *. rewrite E2.
  cbn [sbytes default from_option id]. rewrite EncryptWithAd_at by lia.
  replace (n + 1 + 1) with (n + 2) by lia. unfold sealed_header, sealed_payload. reflexivity.
Qed.

(** Decryption once the header's ciphertext has been read. *)
Lemma decrypt_frame_after_header {R} (full : nat → R → outcome (list u8 * error * R)) key n f r r1 :
  plain_frame f → 0 ≤ n < max_nonce →
  full 22%nat r = Ret (sealed_header key n f, None, r1) →
  let payloadLen := PlainTextLenToCipherTextLen (len (sbytes (fr_Payload f))) in
  decrypt_frame_from full r (keyed key (to_u64 n)) =
  match full (Z.to_nat payloadLen) r1 with
  | Panic p => Panic p
  | Ret (_, Some e, r) => Ret (None, Some e, r, keyed key (to_u64 (n + 1)))
  | Ret (payload, None, r) =>
      if len payload <? payloadLen then
        Ret (None, Some "payload ciphertext too short"%string, r, keyed key (to_u64 (n + 1)))
      else match DecryptWithAd [] payload (keyed key (to_u64 (n + 1))) with
      | Panic p => Panic p
      | Ret (_, Some e, cs) => Ret (None, wrap_error "error while decrypting payload" e, r, cs)
      | Ret (decrypted, None, cs) =>
          Ret (Some {| fr_ExtensionType := fr_ExtensionType f; fr_MessageType := fr_MessageType f;
                       fr_MessageLength := fr_MessageLength f; fr_Payload := decrypted;
                       fr_TLVs := None |}, None, r, cs)
      end
  end.
Proof.
  intros (Hnone & Hag & Hlen) Hn E1. unfold decrypt_frame_from.
  change (Z.to_nat NoiseHeaderSize) with 22%nat. rewrite E1. unfold mbind, outcome_bind.
  pose proof (len_nonneg (sbytes (fr_Payload f))).
  pose proof (header_bytes_fields (fr_ExtensionType f) (fr_MessageType f)
    (len (sbytes (fr_Payload f))) ltac:(lia)) as (Hh & _).
  assert (len (sealed_header key n f) = 22) as Hl1.
  { unfold sealed_header. rewrite Seal_length. unfold len at 1. by rewrite Hh. }
  rewrite (proj2 (Z.ltb_ge _ _)) by (change NoiseHeaderSize with 22; lia).
  rewrite DecryptWithAd_at by lia. unfold sealed_header. rewrite Open_Seal.
  rewrite DecodeHeader_bytes by lia. cbn [fr_MessageLength set_header].
  apply Z.eqb_eq in Hag.
  assert (to_u32 (len (sbytes (fr_Payload f))) = fr_MessageLength f) as ->
    by (rewrite <- Hag; apply of_Z_unsigned).
  rewrite Hag. by repeat split_match.
Qed.

(** Decryption of what a reader delivers as two buffers of the right sizes. *)
Lemma decrypt_frame_at {R} (full : nat → R → outcome (list u8 * error * R)) key n f r r1 r2 :
  plain_frame f → 1 ≤ len (sbytes (fr_Payload f)) ≤ MaxPlaintextChunkSize →
  0 ≤ n → n + 2 ≤ max_nonce →
  full 22%nat r = Ret (sealed_header key n f, None, r1) →
  full (16 + length (sbytes (fr_Payload f)))%nat r1 = Ret (sealed_payload key n f, None, r2) →
  decrypt_frame_from full r (keyed key (to_u64 n)) =
  Ret (Some f, None, r2, keyed key (to_u64 (n + 2))).
Proof.
  intros Hf Hp Hn Hmax E1 E2.
  rewrite (decrypt_frame_after_header full key n f r r1 Hf ltac:(lia) E1). cbn zeta.
  rewrite PlainTextLen_small by done.
  replace (Z.to_nat _) with (16 + length (sbytes (fr_Payload f)))%nat by (unfold len; lia).
  rewrite E2.
  assert (len (sealed_payload key n f) = len (sbytes (fr_Payload f)) + 16) as Hl2.
  { unfold sealed_payload. by rewrite Seal_length. }
  rewrite (proj2 (Z.ltb_ge _ _)) by lia.
  rewrite DecryptWithAd_at by lia. unfold sealed_payload. rewrite Open_Seal.
  replace (n + 1 + 1) with (n + 2) by lia. destruct Hf as (Hnone & _).
  destruct f as [e t l [p|] ts]; simpl in *; [by subst ts|unfold len in Hp; simpl in Hp; lia].
Qed.

End CipherProps.
