(* ===== verification/Transport.v ===== *)
(** * The encrypted transport (noise.go)

    Properties of cipher states and of encrypted frames, for any AEAD that keeps its
    laws and any platform's value of the nonce limit; a transparent AEAD shows that
    the laws can hold. *)
From S2P Require Import Prelude GoInts Constants Wire Builder Reader Codec Frame FrameFacts.
From S2P Require Import Cipher CipherProps.

(** ** An instance of the laws *)

(** The plaintext and a tag, a function of the key, the nonce and the data. *)
Definition tag_aead (tag : array 32 → list u8 → list u8 → array 16) : AEAD := {|
  Seal k n p ad := p ++ arr_bytes (tag k n ad);
  Open k n c ad :=
    if decide ((16 ≤ length c)%nat ∧ drop (length c - 16) c = arr_bytes (tag k n ad))
    then Some (take (length c - 16) c) else None |}.

Lemma tag_aead_laws tag : @AEADLaws (tag_aead tag).
Proof.
  split; simpl.
  - intros k n p ad. pose proof (length_arr 16 (tag k n ad)) as Ht.
    assert ((length (p ++ arr_bytes (tag k n ad)) - 16)%nat = length p) as ->
      by (rewrite length_app, Ht; lia).
    rewrite drop_app_length, take_app_length, decide_True; [done|].
    split; [rewrite length_app, Ht; lia|done].
  - intros k n p ad. rewrite len_app. unfold len at 2. by rewrite length_arr.
  - intros k n c ad p. case_decide as E; [|done]. intros [= <-]. destruct E as [E _].
    unfold len. rewrite length_take. change MacLen with 16. lia.
Qed.

(** A constant tag. *)
Definition toy_aead : AEAD := tag_aead (λ _ _ _, zero_array 16).
Lemma toy_aead_laws : @AEADLaws toy_aead.
Proof. apply tag_aead_laws. Qed.

(** The nonce as the tag. *)
Definition nonce_aead : AEAD := tag_aead (λ _ n _, to_array 16 n).

(** One value the conversion may have, 2^63; the limit is then 2^63-1. *)
Definition half_range_float : GoFloat := {| uint64_of_2_64 := to_u64 (2 ^ 63) |}.

Section Transport.
Context {ae : AEAD} {fl : GoFloat}.

(** C9: a key is never used twice with one nonce, however many messages are
    encrypted: the [i]-th message after [InitializeKey] is sealed under the nonce of
    [i], and these are different for all counters below the limit; from the limit on
    [EncryptWithAd] refuses, for any value the platform gives the limit, and the
    counter stays there. *)
Theorem nonces_never_repeat key cs msgs :
  encrypt_all msgs (InitializeKey key cs).1 =
  Ret (imap (λ i m,
    if Z.of_nat i <? max_nonce
    then (Some (Seal key (nonce_bytes (to_u64 (Z.of_nat i))) m.2 m.1), None)
    else (None, exhausted)) msgs,
    keyed key (to_u64 (Z.min (len msgs) max_nonce))) ∧
  (∀ i j, 0 ≤ i < max_nonce → 0 ≤ j < max_nonce →
     nonce_bytes (to_u64 i) = nonce_bytes (to_u64 j) → i = j).
Proof.
  pose proof max_nonce_range as Hm. split.
  - assert (0 ≤ 0 ≤ max_nonce) as Hz by lia. exact (encrypt_all_from key msgs 0 Hz).
  - intros i j Hi Hj. apply nonce_bytes_inj; lia.
Qed.

(** [DecryptWithAd] under a key either returns what the AEAD opens and advances
    the counter by one, or reports an error and leaves the state as it was: a forged
    or corrupted message does not put the receiver out of step.  Without a key
    either direction passes the bytes through. *)
Theorem DecryptWithAd_rolls_back key n ad c :
  (Open key (nonce_bytes n) c ad = None ∨ n = maxNoiseNonce →
     ∃ e, DecryptWithAd ad c (keyed key n) = Ret (None, Some e, keyed key n)) ∧
  (∀ p, Open key (nonce_bytes n) c ad = Some p → n ≠ maxNoiseNonce →
     DecryptWithAd ad c (keyed key n) = Ret (Some p, None, keyed key (Zmod.add n (to_u64 1)))) ∧
  DecryptWithAd ad c zero_cipher = Ret (Some c, None, zero_cipher) ∧
  EncryptWithAd ad c zero_cipher = Ret (Some c, None, zero_cipher).
Proof.
  rewrite DecryptWithAd_keyed. split_and!; [| |done|done].
  - intros [Ho|Hn]; [rewrite Ho|rewrite decide_True by done; eauto].
    case_decide; eauto.
  - intros p -> Hn. by rewrite decide_False.
Qed.

(** The length arithmetic of ciphertexts: [PlainTextLenToCipherTextLen] adds one
    tag per started chunk of 65519 bytes.  [EncryptWithAd] adds one tag in all, so
    the two agree exactly for 1 to 65519 bytes. *)
Theorem PlainTextLen_spec n : 0 ≤ n →
  PlainTextLenToCipherTextLen n = n + MacLen * ((n + MaxPlaintextChunkSize - 1) / MaxPlaintextChunkSize) ∧
  (PlainTextLenToCipherTextLen n = n + MacLen ↔ 1 ≤ n ≤ MaxPlaintextChunkSize).
Proof.
  intros Hn. rewrite PlainTextLen_chunks by done. change MacLen with 16.
  change MaxPlaintextChunkSize with 65519. split.
  - by replace (n + 65519 - 1) with (n + 65518) by lia.
  - Z.div_mod_to_equations. lia.
Qed.

Context {laws : AEADLaws}.

(** Sender and receiver stay in step: any sequence of messages, as long as the
    counter allows, encrypts, and decrypting the ciphertexts in order gives back
    every message, with both states the same again. *)
Theorem transport_in_order key start msgs
    (Hs : 0 ≤ start) (Hmax : start + len msgs ≤ max_nonce) :
  ∃ cts, length cts = length msgs ∧
    encrypt_all msgs (keyed key (to_u64 start)) =
      Ret ((λ c, (Some c, None)) <$> cts, keyed key (to_u64 (start + len msgs))) ∧
    decrypt_all (zip msgs.*1 cts) (keyed key (to_u64 start)) =
      Ret ((λ m, (Some m.2, None)) <$> msgs, keyed key (to_u64 (start + len msgs))).
Proof.
  revert start Hs Hmax. induction msgs as [|[ad p] msgs IH]; intros start Hs Hmax.
  - exists []. rewrite len_nil, Z.add_0_r. done.
  - rewrite len_cons in *. pose proof (len_nonneg msgs).
    destruct (IH (start + 1) ltac:(lia) ltac:(lia)) as (cts & Hl & E1 & E2).
    exists (Seal key (nonce_bytes (to_u64 start)) p ad :: cts). split; [by simpl; f_equal|].
    replace (start + (1 + len msgs)) with (start + 1 + len msgs) by lia.
    cbn [encrypt_all decrypt_all fmap list_fmap zip zip_with fst snd].
    rewrite EncryptWithAd_at, DecryptWithAd_at, Open_Seal by lia.
    unfold mbind, outcome_bind. change (list_fmap _ _ fst msgs) with (msgs.*1). rewrite E1, E2. done.
Qed.

(** ** Frames *)

Context {go : GoAlloc}.

Lemma br_ReadFull_enough n br :
  reader_ok br → br_data br ≠ None → (0 < n ≤ length (rest br))%nat →
  br_ReadFull n br = Ret (take n (rest br), None, advance br n).
Proof.
  intros Hok Hd Hn. unfold br_ReadFull. rewrite (proj2 (Nat.eqb_neq _ _)) by lia.
  unfold Read. rewrite (proj1 Hok), (proj2 (Z.leb_gt _ _)) by lia.
  destruct (read_enough br n Hok ltac:(lia)) as (b & Er & Hb & _).
  unfold mbind, outcome_bind, reader_bind, mret, reader_ret. rewrite Er, Hb. cbn [get_err br_err advance].
  unfold len. rewrite !length_take, (proj2 (Z.leb_le _ _)) by lia.
  by rewrite take_take, Nat.min_id.
Qed.

(** Reading the two ciphertexts of a frame, from a stream and from a buffer. *)
Definition frame_ct (key : array 32) (n : Z) (f : Frame) : list u8 :=
  sealed_header key n f ++ sealed_payload key n f.

Lemma frame_ct_lengths key n f : plain_frame f →
  length (sealed_header key n f) = 22%nat ∧
  length (sealed_payload key n f) = (16 + length (sbytes (fr_Payload f)))%nat.
Proof.
  intros (_ & _ & Hlen). pose proof (len_nonneg (sbytes (fr_Payload f))).
  destruct (header_bytes_fields (fr_ExtensionType f) (fr_MessageType f)
    (len (sbytes (fr_Payload f))) ltac:(lia)) as (Hh & _).
  pose proof (Seal_length key (nonce_bytes (to_u64 n)) (header_bytes (fr_ExtensionType f)
    (fr_MessageType f) (len (sbytes (fr_Payload f)))) []) as S1.
  pose proof (Seal_length key (nonce_bytes (to_u64 (n + 1))) (sbytes (fr_Payload f)) []) as S2.
  unfold sealed_header, sealed_payload. change MacLen with 16 in *.
  set (h := header_bytes _ _ _) in *. clearbody h. unfold len in *. lia.
Qed.

Lemma DecryptFrameFromReader_at key n f tail e :
  plain_frame f → 1 ≤ len (sbytes (fr_Payload f)) ≤ MaxPlaintextChunkSize →
  0 ≤ n → n + 2 ≤ max_nonce →
  DecryptFrameFromReader {| st_data := frame_ct key n f ++ tail; st_end := e |} (keyed key (to_u64 n))
  = Ret (Some f, None, {| st_data := tail; st_end := e |}, keyed key (to_u64 (n + 2))).
Proof.
  intros Hf Hp Hn Hmax. destruct (frame_ct_lengths key n f Hf) as [L1 L2].
  apply (decrypt_frame_at _ _ _ _ _ {| st_data := sealed_payload key n f ++ tail; st_end := e |});
    [done..| |]; unfold stream_ReadFull, frame_ct; rewrite <- ?app_assoc.
  - unfold ReadFull. cbn [st_data st_end]. rewrite length_app, (proj2 (Nat.leb_le _ _)) by lia.
    by rewrite <- L1, take_app_length, drop_app_length.
  - unfold ReadFull. cbn [st_data st_end]. rewrite length_app, (proj2 (Nat.leb_le _ _)) by lia.
    by rewrite <- L2, take_app_length, drop_app_length.
Qed.

Lemma DecryptFrame_at key n f tail :
  plain_frame f → 1 ≤ len (sbytes (fr_Payload f)) ≤ MaxPlaintextChunkSize →
  0 ≤ n → n + 2 ≤ max_nonce →
  DecryptFrame (Some (frame_ct key n f ++ tail)) (keyed key (to_u64 n))
  = Ret (Some f, None, keyed key (to_u64 (n + 2))).
Proof.
  intros Hf Hp Hn Hmax. destruct (frame_ct_lengths key n f Hf) as [L1 L2]. unfold DecryptFrame.
  set (br := NewBinaryReader _).
  assert (rest br = sealed_header key n f ++ sealed_payload key n f ++ tail) as Hr
    by (unfold br, frame_ct; rewrite rest_new; simpl; by rewrite <- app_assoc).
  assert (reader_ok (advance br 22)) as Hok.
  { rewrite <- L1. apply advance_ok; [apply new_ok|]. rewrite Hr. by eexists. }
  assert (rest (advance br 22) = sealed_payload key n f ++ tail) as Hr2
    by (rewrite rest_advance, Hr, <- L1; apply drop_app_length).
  unfold mbind, outcome_bind.
  rewrite (decrypt_frame_at br_ReadFull key n f br (advance br 22)
    (advance (advance br 22) (16 + length (sbytes (fr_Payload f))))); [done..| |].
  - rewrite br_ReadFull_enough; [|apply new_ok|done|rewrite Hr, length_app; lia].
    by rewrite Hr, <- L1, take_app_length.
  - rewrite br_ReadFull_enough; [|done|done|rewrite Hr2, length_app; lia].
    by rewrite Hr2, <- L2, take_app_length.
Qed.

Lemma EncryptFrameToWriter_at {W} (Write : list u8 → W → Z * error * W) w key n f :
  plain_frame f → 0 ≤ n → n + 2 ≤ max_nonce →
  EncryptFrameToWriter Write f w (keyed key (to_u64 n)) =
  Ret (Write (frame_ct key n f) w, keyed key (to_u64 (n + 2)), f).
Proof.
  intros Hf Hn Hmax. pose proof (EncryptFrame_at key n f Hf Hn Hmax) as E.
  unfold EncryptFrame, EncryptFrameToWriter, Encrypt in *. rewrite (plain_frame_encoding f Hf) in *.
  unfold mbind, outcome_bind in *.
  repeat (split_match_in E; try discriminate). injection E as Hct Hcs.
  by rewrite Hct, Hcs.
Qed.

(** An encrypted frame arrives.  For a frame without TLVs and with 1 to 65519
    bytes of payload, [EncryptFrame] returns 22 bytes of header and the payload with
    its tag, [EncryptFrameToWriter] hands the same bytes to the writer, and both
    decryptions, of a buffer and from a stream, return the frame, whatever follows
    it; the stream is left at what follows, and all states have advanced by two. *)
Theorem frame_encryption_roundtrip {W} (Write : list u8 → W → Z * error * W) w key n f tail e
    (Hf : plain_frame f) (Hp : 1 ≤ len (sbytes (fr_Payload f)) ≤ MaxPlaintextChunkSize)
    (Hn : 0 ≤ n) (Hmax : n + 2 ≤ max_nonce) :
  ∃ ct, len ct = 22 + len (sbytes (fr_Payload f)) + MacLen ∧
    EncryptFrame f (keyed key (to_u64 n)) = Ret (Some ct, None, keyed key (to_u64 (n + 2)), f) ∧
    EncryptFrameToWriter Write f w (keyed key (to_u64 n)) =
      Ret (Write ct w, keyed key (to_u64 (n + 2)), f) ∧
    DecryptFrame (Some (ct ++ tail)) (keyed key (to_u64 n)) =
      Ret (Some f, None, keyed key (to_u64 (n + 2))) ∧
    DecryptFrameFromReader {| st_data := ct ++ tail; st_end := e |} (keyed key (to_u64 n)) =
      Ret (Some f, None, {| st_data := tail; st_end := e |}, keyed key (to_u64 (n + 2))).
Proof.
  exists (frame_ct key n f). destruct (frame_ct_lengths key n f Hf) as [L1 L2].
  split_and!.
  - unfold frame_ct, len. rewrite length_app, L1, L2. change MacLen with 16. lia.
  - by apply EncryptFrame_at.
  - by apply EncryptFrameToWriter_at.
  - by apply DecryptFrame_at.
  - by apply DecryptFrameFromReader_at.
Qed.

(** A frame this transport carries. *)
Definition sendable (f : Frame) : Prop :=
  plain_frame f ∧ 1 ≤ len (sbytes (fr_Payload f)) ≤ MaxPlaintextChunkSize.

(** One side of a connection: frames written one after another to a buffer. *)
Fixpoint send_frames (fs : list Frame) (w : list u8) (cs : CipherState) :
    outcome (list error * list u8 * CipherState) :=
  match fs with
  | [] => mret ([], w, cs)
  | f :: fs =>
      '(_, err, w, cs, _) ← EncryptFrameToWriter (λ b w, (len b, None, w ++ b)) f w cs;
      '(errs, w, cs) ← send_frames fs w cs;
      mret (err :: errs, w, cs)
  end.

(** The other: [k] frames read from the stream. *)
Fixpoint receive_frames (k : nat) (r : stream) (cs : CipherState) :
    outcome (list (option Frame * error) * stream * CipherState) :=
  match k with
  | O => mret ([], r, cs)
  | S k =>
      '(f, err, r, cs) ← DecryptFrameFromReader r cs;
      '(fs, r, cs) ← receive_frames k r cs;
      mret ((f, err) :: fs, r, cs)
  end.

Lemma frames_pass key fs tail e : Forall sendable fs →
  ∀ w start, 0 ≤ start → start + 2 * len fs ≤ max_nonce → ∃ wire,
    send_frames fs w (keyed key (to_u64 start)) =
      Ret ((λ _, None) <$> fs, w ++ wire, keyed key (to_u64 (start + 2 * len fs))) ∧
    receive_frames (length fs) {| st_data := wire ++ tail; st_end := e |} (keyed key (to_u64 start)) =
      Ret ((λ f, (Some f, None)) <$> fs, {| st_data := tail; st_end := e |},
           keyed key (to_u64 (start + 2 * len fs))).
Proof.
  intros Hfs. induction Hfs as [|f fs [Hf Hp] Hfs IH]; intros w start Hs Hmax.
  - exists []. change (len (@nil Frame)) with 0. rewrite Z.mul_0_r, Z.add_0_r, app_nil_r. done.
  - rewrite len_cons in *. pose proof (len_nonneg fs).
    destruct (IH (w ++ frame_ct key start f) (start + 2)) as (wire & E1 & E2); [lia..|].
    exists (frame_ct key start f ++ wire).
    replace (start + 2 * (1 + len fs)) with (start + 2 + 2 * len fs) by lia.
    cbn [send_frames receive_frames length fmap list_fmap].
    rewrite EncryptFrameToWriter_at, <- app_assoc, DecryptFrameFromReader_at by (done || lia).
    unfold mbind, outcome_bind. rewrite E1, E2, app_assoc. done.
Qed.

(** A session of frames: any number of frames of the sizes above, sent one after
    another over one connection, are received in the same order, unchanged and
    without errors, and the two states stay in step. *)
Theorem frames_in_order key start fs tail e
    (Hfs : Forall sendable fs) (Hs : 0 ≤ start) (Hmax : start + 2 * len fs ≤ max_nonce) :
  ∃ wire, send_frames fs [] (keyed key (to_u64 start)) =
      Ret ((λ _, None) <$> fs, wire, keyed key (to_u64 (start + 2 * len fs))) ∧
    receive_frames (length fs) {| st_data := wire ++ tail; st_end := e |} (keyed key (to_u64 start)) =
      Ret ((λ f, (Some f, None)) <$> fs, {| st_data := tail; st_end := e |},
           keyed key (to_u64 (start + 2 * len fs))).
Proof. exact (frames_pass key fs tail e Hfs [] start Hs Hmax). Qed.

(** Under a key, decrypting does not panic and leaves the state keyed. *)
Lemma DecryptWithAd_keyed_total key n ad c : ∃ b err m,
  DecryptWithAd ad c (keyed key n) = Ret (b, err, keyed key m) ∧
  (err = None → ∃ p, b = Some p ∧ Open key (nonce_bytes n) c ad = Some p).
Proof.
  rewrite DecryptWithAd_keyed. case_decide; [by do 3 eexists|].
  destruct (Open _ _ _ _); do 3 eexists; (split; [reflexivity|]); [eauto|done].
Qed.

Lemma DecryptFrameFromReader_keyed key n r : ∃ f err r' m,
  DecryptFrameFromReader r (keyed key n) = Ret (f, err, r', keyed key m) ∧ (err = None → f ≠ None).
Proof.
  unfold DecryptFrameFromReader, decrypt_frame_from, stream_ReadFull, mbind, outcome_bind, mret, outcome_ret.
  change (Z.to_nat NoiseHeaderSize) with 22%nat.
  destruct (ReadFull 22 r) as [[h [e|]] r1] eqn:E1; [by do 4 eexists|].
  apply ReadFull_ok in E1 as (Hh & _). unfold len. rewrite Hh.
  change (Z.of_nat 22 <? NoiseHeaderSize) with false. cbn iota.
  destruct (DecryptWithAd_keyed_total key n [] h) as (b & err & m & -> & Hb).
  destruct err as [e|]; [by do 4 eexists|]. destruct (Hb eq_refl) as (p & -> & Ho).
  apply Open_length in Ho. unfold len in Ho. rewrite Hh in Ho. change MacLen with 16 in Ho.
  rewrite DecodeHeader_six by lia.
  destruct (ReadFull _ r1) as [[q [e|]] r2]; [by do 4 eexists|].
  destruct (_ <? _); [by do 4 eexists|].
  destruct (DecryptWithAd_keyed_total key m [] q) as (b2 & err2 & m2 & -> & Hb2).
  destruct err2; by do 4 eexists.
Qed.

Lemma br_ReadFull_short n br :
  reader_ok br → br_data br ≠ None → (length (rest br) < n)%nat →
  ∃ br', br_ReadFull n br = Ret ([], eof_error, br').
Proof.
  intros Hok Hd Hn. unfold br_ReadFull. rewrite (proj2 (Nat.eqb_neq _ _)) by lia.
  unfold Read. rewrite (proj1 Hok), (proj2 (Z.leb_gt _ _)) by lia.
  destruct (read_short br n Hok Hn) as (b & Er & Hb & _).
  unfold mbind, outcome_bind, reader_bind, mret, reader_ret. rewrite Er, Hb. cbn [get_err br_err].
  rewrite take_nil, (proj2 (Z.leb_gt _ _)) by (unfold len; simpl; lia). eauto.
Qed.

(** C32: frames of other sizes are lost.  A frame with an empty payload, or with more
    than 65519 bytes, encrypts without an error, to 22 + length + 16 bytes; but its
    receiver expects no payload ciphertext at all, or one tag per 65519 bytes, so
    decrypting exactly those bytes fails, and the receiver has then advanced by one
    where the sender has advanced by two. *)
Theorem frame_size_limits key n f
    (Hf : plain_frame f)
    (Hp : len (sbytes (fr_Payload f)) = 0 ∨ MaxPlaintextChunkSize < len (sbytes (fr_Payload f)))
    (Hn : 0 ≤ n) (Hmax : n + 2 ≤ max_nonce) :
  ∃ ct e, EncryptFrame f (keyed key (to_u64 n)) = Ret (Some ct, None, keyed key (to_u64 (n + 2)), f) ∧
    len ct = 22 + len (sbytes (fr_Payload f)) + MacLen ∧
    DecryptFrame (Some ct) (keyed key (to_u64 n)) = Ret (None, Some e, keyed key (to_u64 (n + 1))).
Proof.
  destruct (frame_ct_lengths key n f Hf) as [L1 L2]. exists (frame_ct key n f).
  assert (len (frame_ct key n f) = 22 + len (sbytes (fr_Payload f)) + MacLen) as Hl.
  { unfold frame_ct, len. rewrite length_app, L1, L2. change MacLen with 16. lia. }
  pose proof (EncryptFrame_at key n f Hf Hn Hmax) as He. fold (frame_ct key n f) in He.
  enough (∃ e, DecryptFrame (Some (frame_ct key n f)) (keyed key (to_u64 n)) =
               Ret (None, Some e, keyed key (to_u64 (n + 1)))) as [e Hd] by (exists e; done).
  unfold DecryptFrame. set (br := NewBinaryReader _).
  assert (rest br = sealed_header key n f ++ sealed_payload key n f) as Hr by reflexivity.
  assert (reader_ok (advance br 22)) as Hok.
  { rewrite <- L1. apply advance_ok; [apply new_ok|]. rewrite Hr. by eexists. }
  assert (rest (advance br 22) = sealed_payload key n f) as Hr2
    by (rewrite rest_advance, Hr, <- L1; apply drop_app_length).
  assert (br_ReadFull 22 br = Ret (sealed_header key n f, None, advance br 22)) as E1.
  { rewrite br_ReadFull_enough; [|apply new_ok|done|rewrite Hr, length_app; lia].
    by rewrite Hr, <- L1, take_app_length. }
  assert (0 ≤ n < max_nonce) as Hn1 by lia.
  unfold mbind, outcome_bind. rewrite (decrypt_frame_after_header _ key n f br _ Hf Hn1 E1).
  cbn zeta. destruct Hp as [Hp|Hp].
  - rewrite Hp. change (PlainTextLenToCipherTextLen 0) with 0. change (Z.to_nat 0) with 0%nat.
    unfold br_ReadFull. simpl. rewrite DecryptWithAd_at by lia.
    destruct (Open _ _ [] []) as [p|] eqn:Eo; [|eexists; reflexivity].
    apply Open_length in Eo. change MacLen with 16 in Eo. pose proof (len_nonneg p).
    rewrite len_nil in Eo. lia.
  - change MaxPlaintextChunkSize with 65519 in Hp. rewrite PlainTextLen_chunks by lia.
    destruct (br_ReadFull_short (Z.to_nat (len (sbytes (fr_Payload f)) +
      16 * ((len (sbytes (fr_Payload f)) + 65518) / 65519))) (advance br 22)) as [br' ->];
      [done|done| |eexists; reflexivity].
    assert (2 ≤ (len (sbytes (fr_Payload f)) + 65518) / 65519) as Hq
      by (apply Z.div_le_lower_bound; lia).
    rewrite Hr2, L2. unfold len in *. lia.
Qed.

End Transport.

(** ** Witnesses: the transparent AEAD, the limit 2^63-1, and a frame of two bytes *)

Definition toy_key : array 32 := zero_array 32.
Definition two_byte_frame : Frame :=
  {| fr_ExtensionType := to_u16 0; fr_MessageType := to_u8 0x1a; fr_MessageLength := to_u32 2;
     fr_Payload := Some [to_u8 7; to_u8 8]; fr_TLVs := None |}.
Definition empty_frame : Frame :=
  {| fr_ExtensionType := to_u16 0; fr_MessageType := to_u8 0x1a; fr_MessageLength := to_u32 0;
     fr_Payload := Some []; fr_TLVs := None |}.

Lemma two_byte_frame_sendable : sendable two_byte_frame.
Proof. split; [split; [done|split; [by vm_compute|by vm_compute]]|by vm_compute]. Qed.

Lemma empty_frame_plain : plain_frame empty_frame.
Proof. split; [done|split; by vm_compute]. Qed.

Lemma PlainTextLen_spec_witness :
  0 ≤ 65520 ∧ PlainTextLenToCipherTextLen 65520 = 65520 + MacLen * 2 ∧
  PlainTextLenToCipherTextLen 0 ≠ 0 + MacLen.
Proof.
  destruct (PlainTextLen_spec 65520) as [E _]; [discriminate|].
  split; [discriminate|]. split; [exact E|].
  intros E0. apply (PlainTextLen_spec 0) in E0; [|discriminate].
  destruct E0 as [E0 _]. by apply E0.
Defined.

Lemma transport_in_order_witness :
  ∃ cts, length cts = 2%nat ∧
    encrypt_all (ae := toy_aead) (fl := half_range_float) [([], [to_u8 1]); ([], [to_u8 2])]
      (keyed toy_key (to_u64 0)) = Ret ((λ c, (Some c, None)) <$> cts, keyed toy_key (to_u64 2)).
Proof.
  destruct (transport_in_order (ae := toy_aead) (fl := half_range_float) (laws := toy_aead_laws)
    toy_key 0 [([], [to_u8 1]); ([], [to_u8 2])]) as (cts & Hl & E & _).
  - reflexivity.
  - vm_compute. discriminate.
  - exists cts. split; [exact Hl|exact E].
Defined.

Lemma frame_encryption_roundtrip_witness :
  ∃ ct, EncryptFrame (ae := toy_aead) (fl := half_range_float) (go := exact_alloc) two_byte_frame
          (keyed toy_key (to_u64 0))
        = Ret (Some ct, None, keyed toy_key (to_u64 2), two_byte_frame) ∧
    DecryptFrame (ae := toy_aead) (fl := half_range_float) (Some (ct ++ [])) (keyed toy_key (to_u64 0))
        = Ret (Some two_byte_frame, None, keyed toy_key (to_u64 2)).
Proof.
  destruct (frame_encryption_roundtrip (ae := toy_aead) (fl := half_range_float)
    (laws := toy_aead_laws) (go := exact_alloc) (λ b (w : list u8), (len b, None, w ++ b)) []
    toy_key 0 two_byte_frame [] "EOF") as (ct & _ & E1 & _ & E2 & _).
  - apply two_byte_frame_sendable.
  - apply two_byte_frame_sendable.
  - reflexivity.
  - vm_compute. discriminate.
  - exists ct. split; [exact E1|exact E2].
Defined.

Lemma frames_in_order_witness :
  ∃ wire r, receive_frames (ae := toy_aead) (fl := half_range_float) 2
      {| st_data := wire ++ []; st_end := "EOF" |} (keyed toy_key (to_u64 0))
    = Ret ([(Some two_byte_frame, None); (Some two_byte_frame, None)], r, keyed toy_key (to_u64 4)).
Proof.
  destruct (frames_in_order (ae := toy_aead) (fl := half_range_float) (laws := toy_aead_laws)
    (go := exact_alloc) toy_key 0 [two_byte_frame; two_byte_frame] [] "EOF") as (wire & _ & E).
  - repeat constructor; apply two_byte_frame_sendable.
  - reflexivity.
  - vm_compute. discriminate.
  - exists wire. eexists. exact E.
Defined.

Lemma frame_size_limits_witness :
  ∃ ct e, EncryptFrame (ae := toy_aead) (fl := half_range_float) (go := exact_alloc) empty_frame
            (keyed toy_key (to_u64 0))
          = Ret (Some ct, None, keyed toy_key (to_u64 2), empty_frame) ∧
    DecryptFrame (ae := toy_aead) (fl := half_range_float) (Some ct) (keyed toy_key (to_u64 0))
          = Ret (None, Some e, keyed toy_key (to_u64 1)).
Proof.
  destruct (frame_size_limits (ae := toy_aead) (fl := half_range_float) (laws := toy_aead_laws)
    (go := exact_alloc) toy_key 0 empty_frame) as (ct & e & E1 & _ & E2).
  - apply empty_frame_plain.
  - left. reflexivity.
  - reflexivity.
  - vm_compute. discriminate.
  - exists ct, e. split; [exact E1|exact E2].
Defined.
