(* ===== verification/SecureChannel.v ===== *)
(** * What a cipher state pair promises against an attacker (noise.go)

    The specification is an authenticated channel: what is accepted at one end was sent at
    the other, in the same order, without gaps and without repetitions.  The attacker
    chooses every message that is sent and every ciphertext and additional data that is
    delivered.  The two ends refine the channel unless the attacker forges: delivers a
    ciphertext that opens, at the receiver's counter, and that the sender did not make
    for this counter and this data. *)
From S2P Require Import Prelude GoInts Constants Wire Builder Reader Codec Frame FrameFacts.
From S2P Require Import Cipher CipherProps Transport.

(** ** The specification *)

(** A message: its additional data and its plaintext. *)
Definition message : Type := list u8 * list u8.

(** What the two ends see: a message sent (with the counter and the ciphertext, which the
    specification does not look at), a refusal to send, a message accepted, a rejection. *)
Inductive event :=
| Sent (n : u64) (m : message) (c : list u8)
| Refused
| Accepted (m : message)
| Rejected.

(** Everything sent, and how much of it was accepted. *)
Record fifo := { ff_sent : list message; ff_taken : nat }.

Definition fifo_empty : fifo := {| ff_sent := []; ff_taken := 0 |}.

Inductive fifo_step : fifo → event → fifo → Prop :=
| fifo_send n m c sent k :
    fifo_step {| ff_sent := sent; ff_taken := k |} (Sent n m c) {| ff_sent := sent ++ [m]; ff_taken := k |}
| fifo_refuse q : fifo_step q Refused q
| fifo_accept m sent k : sent !! k = Some m →
    fifo_step {| ff_sent := sent; ff_taken := k |} (Accepted m) {| ff_sent := sent; ff_taken := S k |}
| fifo_reject q : fifo_step q Rejected q.

Inductive fifo_run : fifo → list event → fifo → Prop :=
| fifo_nil q : fifo_run q [] q
| fifo_snoc q evs q1 e q2 : fifo_run q evs q1 → fifo_step q1 e q2 → fifo_run q (evs ++ [e]) q2.

Definition sends (evs : list event) : list message :=
  omap (λ e, match e with Sent _ m _ => Some m | _ => None end) evs.
Definition accepts (evs : list event) : list message :=
  omap (λ e, match e with Accepted m => Some m | _ => None end) evs.

(** The channel's promise, in terms of the events. *)
Lemma fifo_run_prefix evs q : fifo_run fifo_empty evs q →
  ff_sent q = sends evs ∧ accepts evs = take (ff_taken q) (sends evs) ∧ (ff_taken q ≤ length (sends evs))%nat.
Proof.
  assert (∀ q0, fifo_run q0 evs q → q0 = fifo_empty → ff_sent q = sends evs ∧
    accepts evs = take (ff_taken q) (sends evs) ∧ (ff_taken q ≤ length (sends evs))%nat) as H;
    [|intros Hr; by apply (H fifo_empty)].
  unfold sends, accepts. induction 1 as [q|q evs q1 e q2 Hr IH Hs]; [by intros ->|].
  intros ->. destruct (IH eq_refl) as (Es & Ea & Hl). rewrite !omap_app, Ea.
  destruct Hs as [n m c sent k|q1|m sent k Hm|q1]; cbn [ff_sent ff_taken omap list_omap option_bind] in *;
    rewrite ?app_nil_r, ?length_app.
  - rewrite <- Es in *. split; [done|]. rewrite take_app_le by done. split; [done|lia].
  - done.
  - rewrite <- Es in *. split; [done|]. rewrite (take_S_r _ _ _ Hm). split; [done|].
    by apply lookup_lt_Some in Hm.
  - done.
Qed.

(** ** The two ends *)

Record channel := { ch_send : CipherState; ch_recv : CipherState }.

Inductive action :=
| Send (m : message)
| Deliver (ad c : list u8).

Section Channel.
Context {ae : AEAD} {fl : GoFloat}.

Definition channel_act (a : action) (ch : channel) : outcome (event * channel) :=
  match a with
  | Send m =>
      '(c, err, cs) ← EncryptWithAd m.1 m.2 (ch_send ch);
      let ch' := {| ch_send := cs; ch_recv := ch_recv ch |} in
      match err with
      | None => mret (Sent (cs_n (ch_send ch)) m (sbytes c), ch')
      | Some _ => mret (Refused, ch')
      end
  | Deliver ad c =>
      '(p, err, cs) ← DecryptWithAd ad c (ch_recv ch);
      let ch' := {| ch_send := ch_send ch; ch_recv := cs |} in
      match err with
      | None => mret (Accepted (ad, sbytes p), ch')
      | Some _ => mret (Rejected, ch')
      end
  end.

Fixpoint channel_run (acts : list action) (ch : channel) : outcome (list event * channel) :=
  match acts with
  | [] => mret ([], ch)
  | a :: acts =>
      '(e, ch) ← channel_act a ch;
      '(evs, ch) ← channel_run acts ch;
      mret (e :: evs, ch)
  end.

Definition channel_start (key : array 32) (n : Z) : channel :=
  {| ch_send := keyed key (to_u64 n); ch_recv := keyed key (to_u64 n) |}.

(** After the events [evs], a ciphertext opens at counter [n] that was not sent with it. *)
Definition forgery (key : array 32) (evs : list event) (n : u64) (ad c : list u8) : Prop :=
  is_Some (Open key (nonce_bytes n) c ad) ∧ ∀ p, Sent n (ad, p) c ∉ evs.

(** The attacker's actions include a forgery. *)
Definition forges (key : array 32) (ch : channel) (acts : list action) : Prop :=
  ∃ acts1 ad c acts2 evs1 ch1, acts = acts1 ++ Deliver ad c :: acts2 ∧
    channel_run acts1 ch = Ret (evs1, ch1) ∧ forgery key evs1 (cs_n (ch_recv ch1)) ad c.

Lemma channel_run_snoc acts a ch : channel_run (acts ++ [a]) ch =
  ('(evs, ch) ← channel_run acts ch;
   '(e, ch) ← channel_act a ch;
   mret (evs ++ [e], ch)).
Proof.
  revert ch. induction acts as [|b acts IH]; intros ch; cbn [channel_run app].
  - unfold mbind, outcome_bind, mret, outcome_ret. by destruct (channel_act a ch) as [[e ch1]|].
  - unfold mbind, outcome_bind, mret, outcome_ret in *. destruct (channel_act b ch) as [[e ch1]|]; [|done].
    rewrite IH. destruct (channel_run acts ch1) as [[evs ch2]|]; [|done].
    by destruct (channel_act a ch2) as [[e' ch3]|].
Qed.

Lemma forges_snoc key ch acts a : forges key ch acts → forges key ch (acts ++ [a]).
Proof.
  intros (acts1 & ad & c & acts2 & evs1 & ch1 & -> & H). exists acts1, ad, c, (acts2 ++ [a]), evs1, ch1.
  by rewrite <- app_assoc.
Qed.

(** The events say what was sealed under which counter. *)
Definition sealed_log (key : array 32) (n : Z) (evs : list event) : Prop :=
  ∀ u m c, Sent u m c ∈ evs → ∃ i : nat, u = to_u64 (n + Z.of_nat i) ∧ sends evs !! i = Some m ∧
    c = Seal key (nonce_bytes u) m.2 m.1.

Lemma sealed_log_snoc key n evs m : sealed_log key n evs →
  let u := to_u64 (n + Z.of_nat (length (sends evs))) in
  sealed_log key n (evs ++ [Sent u m (Seal key (nonce_bytes u) m.2 m.1)]).
Proof.
  intros Hl u u' m' c' [Hin|Hin]%elem_of_app; unfold sends; rewrite omap_app; fold (sends evs).
  - destruct (Hl u' m' c' Hin) as (i & -> & Hi & ->). exists i. split; [done|]. split; [|done].
    by apply lookup_app_l_Some.
  - apply list_elem_of_singleton in Hin as [= -> -> ->]. exists (length (sends evs)). split; [done|].
    split; [|done]. by rewrite lookup_app_r, Nat.sub_diag by lia.
Qed.

Lemma sealed_log_other key n evs e : sealed_log key n evs → (∀ u m c, e ≠ Sent u m c) →
  sealed_log key n (evs ++ [e]) ∧ sends (evs ++ [e]) = sends evs.
Proof.
  intros Hl He. assert (sends (evs ++ [e]) = sends evs) as Es.
  { unfold sends. rewrite omap_app. destruct e; cbn; rewrite ?app_nil_r; try done. by edestruct He. }
  split; [|done]. intros u m c [Hin|Hin]%elem_of_app; rewrite Es; [by apply Hl|].
  apply list_elem_of_singleton in Hin as <-. by edestruct He.
Qed.

(** The two ends, the events so far and, without a forgery, the specification's state. *)
Definition in_step (key : array 32) (n : Z) (acts : list action) (evs : list event) (ch : channel) : Prop :=
  ∃ k : nat, n + Z.of_nat k ≤ max_nonce ∧ n + len (sends evs) ≤ max_nonce ∧
    ch = {| ch_send := keyed key (to_u64 (n + len (sends evs))); ch_recv := keyed key (to_u64 (n + Z.of_nat k)) |} ∧
    sealed_log key n evs ∧
    (fifo_run fifo_empty evs {| ff_sent := sends evs; ff_taken := k |} ∨
     forges key (channel_start key n) acts).

Lemma send_in_step key n acts evs ch m : 0 ≤ n → in_step key n acts evs ch →
  ∃ e ch', channel_act (Send m) ch = Ret (e, ch') ∧ in_step key n (acts ++ [Send m]) (evs ++ [e]) ch'.
Proof.
  intros Hn (k & Hk & Hs & -> & Hlog & Hspec). pose proof (len_nonneg (sends evs)). pose proof max_nonce_range.
  unfold channel_act. cbn [ch_send ch_recv]. rewrite EncryptWithAd_keyed.
  case_decide as E; unfold mbind, outcome_bind, mret, outcome_ret.
  - do 2 eexists. split; [done|].
    destruct (sealed_log_other key n evs Refused Hlog) as [Hlog' Es]; [done|].
    exists k. rewrite Es. split_and!; try done. destruct Hspec as [Hr|Hf]; [left|right; by apply forges_snoc].
    eapply fifo_snoc; [done|constructor].
  - assert (n + len (sends evs) ≠ max_nonce) as Hne by (intros Em; apply E, to_u64_is_max; lia).
    do 2 eexists. split; [done|]. cbn [cs_n keyed sbytes default from_option id].
    pose proof (sealed_log_snoc key n evs m Hlog) as Hlog'. cbv zeta in Hlog'. fold (len (sends evs)) in Hlog'.
    assert (∀ u c, sends (evs ++ [Sent u m c]) = sends evs ++ [m]) as Es
      by (intros; unfold sends; by rewrite omap_app).
    exists k. rewrite !Es, len_app. change (len [m]) with 1. rewrite to_u64_succ, Z.add_assoc.
    split; [done|]. split; [lia|]. split; [done|]. split; [done|].
    destruct Hspec as [Hr|Hf]; [left|right; by apply forges_snoc]. eapply fifo_snoc; [done|constructor].
Qed.

Lemma deliver_in_step {laws : AEADLaws} key n acts evs ch ad c : 0 ≤ n →
  channel_run acts (channel_start key n) = Ret (evs, ch) → in_step key n acts evs ch →
  ∃ e ch', channel_act (Deliver ad c) ch = Ret (e, ch') ∧ in_step key n (acts ++ [Deliver ad c]) (evs ++ [e]) ch'.
Proof.
  intros Hn Hrun (k & Hk & Hs & -> & Hlog & Hspec). pose proof max_nonce_range.
  unfold channel_act. cbn [ch_send ch_recv]. rewrite DecryptWithAd_keyed.
  destruct (sealed_log_other key n evs Rejected Hlog) as [Hlog1 Es1]; [done|].
  assert (∀ ch', ch' = {| ch_send := keyed key (to_u64 (n + len (sends evs)));
      ch_recv := keyed key (to_u64 (n + Z.of_nat k)) |} →
    in_step key n (acts ++ [Deliver ad c]) (evs ++ [Rejected]) ch') as Hrej.
  { intros ch' ->. exists k. rewrite Es1. split_and!; try done.
    destruct Hspec as [Hr|Hf]; [left|right; by apply forges_snoc]. eapply fifo_snoc; [done|constructor]. }
  case_decide as E; unfold mbind, outcome_bind, mret, outcome_ret; [do 2 eexists; split; [done|by apply Hrej]|].
  destruct (Open key _ c ad) as [p|] eqn:Eo; [|do 2 eexists; split; [done|by apply Hrej]].
  assert (n + Z.of_nat k ≠ max_nonce) as Hne by (intros Em; apply E, to_u64_is_max; lia).
  do 2 eexists. split; [done|]. cbn [sbytes default from_option id].
  destruct (sealed_log_other key n evs (Accepted (ad, p)) Hlog) as [Hlog2 Es2]; [done|].
  exists (S k). rewrite Es2, to_u64_succ. split; [lia|]. split; [done|].
  split; [do 3 f_equal; lia|]. split; [done|].
  destruct Hspec as [Hr|Hf]; [|right; by apply forges_snoc].
  destruct (decide (sends evs !! k = Some (ad, p))) as [Hm|Hm].
  { left. eapply fifo_snoc; [done|]. by constructor. }
  right. exists acts, ad, c, [], evs. eexists. split; [done|]. split; [exact Hrun|]. cbn [ch_recv cs_n keyed].
  split; [by eexists|]. intros p' Hin. destruct (Hlog _ _ _ Hin) as (i & Eu & Hi & ->). cbn [fst snd] in *.
  rewrite Open_Seal in Eo. injection Eo as <-. apply Hm. etrans; [|exact Hi]. f_equal.
  apply (f_equal nonce_bytes), nonce_bytes_inj in Eu; [lia|lia|].
  apply lookup_lt_Some in Hi. unfold len in Hs. lia.
Qed.

Lemma channel_run_in_step {laws : AEADLaws} key n acts : 0 ≤ n ≤ max_nonce →
  ∃ evs ch, channel_run acts (channel_start key n) = Ret (evs, ch) ∧ in_step key n acts evs ch.
Proof.
  intros Hn. induction acts as [|a acts (evs & ch & Hrun & Hin)] using rev_ind.
  - do 2 eexists. split; [done|]. exists O. change (len (sends [])) with 0. change (Z.of_nat 0) with 0. rewrite Z.add_0_r.
    split_and!; try done; try lia.
    + intros u m c Hx. by apply not_elem_of_nil in Hx.
    + left. apply fifo_nil.
  - rewrite channel_run_snoc, Hrun. unfold mbind, outcome_bind, mret, outcome_ret.
    destruct a as [m|ad c].
    + destruct (send_in_step key n acts evs ch m) as (e & ch' & -> & H'); [lia|done|]. by do 2 eexists.
    + destruct (deliver_in_step key n acts evs ch ad c) as (e & ch' & -> & H'); [lia|done..|]. by do 2 eexists.
Qed.

(** C7: two cipher states with one key refine an authenticated channel.  Whatever
    messages the attacker has one end send and whatever it delivers to the other, in any
    order: no call panics, and the events are the channel's, or the attacker has forged.
    So without a forgery the messages accepted, with their additional data, are the first
    ones sent, in order, without gaps and without repetitions, however many deliveries
    were rejected in between. *)
Theorem cipher_states_refine_channel {laws : AEADLaws} key n acts (Hn : 0 ≤ n ≤ max_nonce) :
  ∃ evs ch, channel_run acts (channel_start key n) = Ret (evs, ch) ∧
    ((∃ q, fifo_run fifo_empty evs q) ∧ accepts evs `prefix_of` sends evs ∨
     forges key (channel_start key n) acts).
Proof.
  destruct (channel_run_in_step key n acts Hn) as (evs & ch & Hrun & k & _ & _ & _ & _ & Hspec).
  exists evs, ch. split; [done|]. destruct Hspec as [Hr|Hf]; [left|by right].
  split; [by eexists|]. apply fifo_run_prefix in Hr as (_ & -> & _). apply prefix_take.
Qed.

End Channel.

(** ** Witness: two messages, the first of them delivered twice *)

Lemma cipher_states_refine_channel_witness :
  let m1 := ([], [to_u8 7]) in
  let m2 := ([to_u8 1], [to_u8 8]) in
  let seal n m := Seal (AEAD := nonce_aead) toy_key (nonce_bytes (to_u64 n)) m.2 m.1 in
  let acts := [Send m1; Send m2; Deliver [] (seal 0 m1); Deliver [] (seal 0 m1); Deliver [to_u8 1] (seal 1 m2)] in
  let start := channel_start toy_key 0 in
  ∃ evs ch, channel_run (ae := nonce_aead) (fl := half_range_float) acts start = Ret (evs, ch) ∧
    accepts evs = [m1; m2] ∧
    ((∃ q, fifo_run fifo_empty evs q) ∧ accepts evs `prefix_of` sends evs ∨
     forges (ae := nonce_aead) (fl := half_range_float) toy_key start acts).
Proof.
  intros m1 m2 seal acts start.
  destruct (cipher_states_refine_channel (ae := nonce_aead) (fl := half_range_float) (laws := tag_aead_laws _)
    toy_key 0 acts) as (evs & ch & E & H).
  - vm_compute. split; discriminate.
  - exists evs, ch. split; [exact E|]. split; [|exact H].
    apply (f_equal (λ o, match o with Ret (l, _) => accepts l | Panic _ => [] end)) in E.
    cbn beta iota in E. rewrite <- E. vm_compute. reflexivity.
Defined.
