(* ===== verification/FrameChannel.v ===== *)
(** * Frames against an attacker (noise.go)

    A frame travels as two ciphertexts, of its header and of its payload, under two
    successive counters.  The attacker owns the stream: the receiver reads whatever bytes
    it is given.  Up to the first error it accepts frames that were sent, in order; after
    an error it can take a payload for a header. *)
From S2P Require Import Prelude GoInts Constants Wire Builder Reader Codec Frame FrameFacts FrameProps.
From S2P Require Import Cipher CipherProps Transport.

Section FrameChannel.
Context {ae : AEAD} {laws : AEADLaws} {fl : GoFloat}.

(** The frame that the opened header [d] and payload [pl] give. *)
Definition opened_frame (d pl : list u8) : Frame :=
  {| fr_ExtensionType := header_ext d; fr_MessageType := header_type d;
     fr_MessageLength := to_u32 (header_length d); fr_Payload := Some pl; fr_TLVs := None |}.

(** What is accepted opened, twice, at the counters in turn. *)
Lemma DecryptFrameFromReader_accepts key n r g r' cs' : 0 ≤ n ≤ max_nonce →
  DecryptFrameFromReader r (keyed key (to_u64 n)) = Ret (Some g, None, r', cs') →
  n + 2 ≤ max_nonce ∧ cs' = keyed key (to_u64 (n + 2)) ∧
  ∃ h p d pl, st_data r = h ++ p ++ st_data r' ∧ st_end r' = st_end r ∧
    Open key (nonce_bytes (to_u64 n)) h [] = Some d ∧ length d = 6%nat ∧
    Open key (nonce_bytes (to_u64 (n + 1))) p [] = Some pl ∧
    length p = Z.to_nat (PlainTextLenToCipherTextLen (header_length d)) ∧ g = opened_frame d pl.
Proof.
  intros Hn. pose proof max_nonce_range.
  unfold DecryptFrameFromReader, decrypt_frame_from, stream_ReadFull, mbind, outcome_bind, mret, outcome_ret.
  change (Z.to_nat NoiseHeaderSize) with 22%nat.
  destruct (ReadFull 22 r) as [[h [?|]] r1] eqn:E1; [done|]. apply ReadFull_ok in E1 as (Hh & Hd1 & He1).
  destruct (_ <? _); [done|].
  rewrite DecryptWithAd_keyed. case_decide as Em; [done|]. rewrite to_u64_is_max in Em by lia.
  destruct (Open _ _ h _) as [d|] eqn:Eo; [|done].
  assert (length d = 6%nat) as Hd.
  { apply Open_length in Eo. change MacLen with 16 in Eo. unfold len in Eo. lia. }
  rewrite DecodeHeader_six by done. cbn [set_header fr_MessageLength]. rewrite unsigned_header_length by done.
  destruct (ReadFull _ r1) as [[p [?|]] r2] eqn:E2; [done|]. apply ReadFull_ok in E2 as (Hp & Hd2 & He2).
  destruct (_ <? _); [done|]. rewrite to_u64_succ.
  rewrite DecryptWithAd_keyed. case_decide as Em2; [done|]. rewrite to_u64_is_max in Em2 by lia.
  destruct (Open _ _ p _) as [pl|] eqn:Eq; [|done]. intros [= <- <- <-].
  split; [lia|]. split; [by rewrite to_u64_succ, <- Z.add_assoc|].
  exists h, p, d, pl. split_and!; try done; congruence.
Qed.

(** What the sender of [fs] sealed under counter [m], starting from [n]. *)
Definition sealed_frames (key : array 32) (n : Z) (fs : list Frame) (m : Z) (c : list u8) : Prop :=
  ∃ i f, fs !! i = Some f ∧
    (m = n + 2 * Z.of_nat i ∧ c = sealed_header key m f ∨
     m = n + 2 * Z.of_nat i + 1 ∧ c = sealed_payload key (m - 1) f).

(** Among the bytes [data] there are some that open at a counter the receiver can have, and
    that the sender did not seal under it. *)
Definition stream_forgery (key : array 32) (n : Z) (fs : list Frame) (data : list u8) : Prop :=
  ∃ pre c post m, data = pre ++ c ++ post ∧ n ≤ m ≤ n + 2 * len fs + 1 ∧
    is_Some (Open key (nonce_bytes (to_u64 m)) c []) ∧ ¬ sealed_frames key n fs m c.

(** The results of reading frames, up to the first error. *)
Fixpoint until_error (res : list (option Frame * error)) : list Frame :=
  match res with
  | (Some f, None) :: res => f :: until_error res
  | _ => []
  end.

Lemma sealed_frames_header key n fs i c : sealed_frames key n fs (n + 2 * Z.of_nat i) c →
  ∃ f, fs !! i = Some f ∧ c = sealed_header key (n + 2 * Z.of_nat i) f.
Proof.
  intros (j & f & Hf & [[E ->]|[E _]]); [|lia]. assert (j = i) as -> by lia. eauto.
Qed.
Lemma sealed_frames_payload key n fs i c : sealed_frames key n fs (n + 2 * Z.of_nat i + 1) c →
  ∃ f, fs !! i = Some f ∧ c = sealed_payload key (n + 2 * Z.of_nat i) f.
Proof.
  intros (j & f & Hf & [[E _]|[E ->]]); [lia|]. assert (j = i) as -> by lia.
  exists f. split; [done|]. f_equal. lia.
Qed.

(** Both ciphertexts of one frame open to it. *)
Lemma opened_sealed key n f d pl : plain_frame f →
  Open key (nonce_bytes (to_u64 n)) (sealed_header key n f) [] = Some d →
  Open key (nonce_bytes (to_u64 (n + 1))) (sealed_payload key n f) [] = Some pl →
  length (sealed_payload key n f) = Z.to_nat (PlainTextLenToCipherTextLen (header_length d)) →
  opened_frame d pl = f.
Proof.
  intros Hf. unfold sealed_header, sealed_payload. rewrite !Open_Seal. intros [= <-] [= <-] Hl.
  destruct (frame_ct_lengths key n f Hf) as [_ Hp]. unfold sealed_payload in Hp. rewrite Hp in Hl. clear Hp.
  destruct Hf as (Hn & Hag & Hlen). pose proof (len_nonneg (sbytes (fr_Payload f))).
  destruct (header_bytes_fields (fr_ExtensionType f) (fr_MessageType f) (len (sbytes (fr_Payload f))) ltac:(lia))
    as (_ & He & Ht & Hh). rewrite Hh in Hl. unfold opened_frame. rewrite He, Ht, Hh.
  apply Z.eqb_eq in Hag. rewrite <- Hag. unfold to_u32. rewrite of_Z_unsigned.
  destruct f as [e t l [p|] ts]; simpl in *; [by subst ts|]. done.
Qed.

Context {go : GoAlloc}.

Lemma receive_frames_keyed key k : ∀ m r, ∃ res r' m', receive_frames k r (keyed key m) = Ret (res, r', keyed key m').
Proof.
  induction k as [|k IH]; intros m r; [by do 3 eexists|]. cbn [receive_frames].
  destruct (DecryptFrameFromReader_keyed key m r) as (f & err & r1 & m1 & -> & _). unfold mbind, outcome_bind.
  destruct (IH m1 r1) as (res & r' & m' & ->). by do 3 eexists.
Qed.

Lemma stream_forgery_app key n fs b data : stream_forgery key n fs data → stream_forgery key n fs (b ++ data).
Proof.
  intros (pre & c & post & m & -> & H). exists (b ++ pre), c, post, m. by rewrite <- app_assoc.
Qed.

(** An accepted frame is the [i]-th, or one of its two parts was forged. *)
Lemma accepted_sent key n fs i r g r' cs' : Forall plain_frame fs → 0 ≤ n → (i ≤ length fs)%nat →
  n + 2 * Z.of_nat i ≤ max_nonce →
  DecryptFrameFromReader r (keyed key (to_u64 (n + 2 * Z.of_nat i))) = Ret (Some g, None, r', cs') →
  n + 2 * Z.of_nat (S i) ≤ max_nonce ∧ cs' = keyed key (to_u64 (n + 2 * Z.of_nat (S i))) ∧
  (∃ b, st_data r = b ++ st_data r') ∧
  (fs !! i = Some g ∨ stream_forgery key n fs (st_data r)).
Proof.
  intros Hfs Hn Hi Hmax E.
  apply DecryptFrameFromReader_accepts in E as (Hmax2 & -> & h & p & d & pl & Ed & _ & Eh & Hd & Ep & Hp & ->);
    [|lia].
  replace (n + 2 * Z.of_nat (S i)) with (n + 2 * Z.of_nat i + 2) by lia.
  split; [done|]. split; [done|]. split; [exists (h ++ p); by rewrite <- app_assoc|].
  assert (∀ c m pre post, st_data r = pre ++ c ++ post → n ≤ m ≤ n + 2 * len fs + 1 →
    is_Some (Open key (nonce_bytes (to_u64 m)) c []) → ¬ sealed_frames key n fs m c →
    stream_forgery key n fs (st_data r)) as Hforge by (intros; by do 4 eexists).
  assert (fs !! i = None ∨ ∃ f, fs !! i = Some f) as [Ef|[f Ef]] by (destruct (fs !! i); eauto).
  - right. apply (Hforge h (n + 2 * Z.of_nat i) [] (p ++ st_data r')); [done|unfold len; lia|by eexists|].
    intros (f & Hf & _)%sealed_frames_header. congruence.
  - pose proof (Forall_lookup_1 _ _ _ _ Hfs Ef) as Hpl. pose proof (lookup_lt_Some _ _ _ Ef) as Hlt.
    destruct (decide (h = sealed_header key (n + 2 * Z.of_nat i) f)) as [->|Hh].
    + destruct (decide (p = sealed_payload key (n + 2 * Z.of_nat i) f)) as [->|Hp'].
      * left. rewrite Ef. f_equal. symmetry. by apply (opened_sealed key (n + 2 * Z.of_nat i)).
      * right. eapply (Hforge p (n + 2 * Z.of_nat i + 1)); [exact Ed|unfold len; lia|by eexists|].
        intros (f' & Hf & ->)%sealed_frames_payload. congruence.
    + right. apply (Hforge h (n + 2 * Z.of_nat i) [] (p ++ st_data r')); [done|unfold len; lia|by eexists|].
      intros (f' & Hf & ->)%sealed_frames_header. congruence.
Qed.

(** From the [i]-th frame on. *)
Lemma receive_from key n fs k : Forall plain_frame fs → 0 ≤ n → ∀ i r,
  (i ≤ length fs)%nat → n + 2 * Z.of_nat i ≤ max_nonce →
  ∃ res r' m', receive_frames k r (keyed key (to_u64 (n + 2 * Z.of_nat i))) = Ret (res, r', keyed key m') ∧
    (until_error res `prefix_of` drop i fs ∨ stream_forgery key n fs (st_data r)).
Proof.
  intros Hfs Hn. induction k as [|k IH]; intros i r Hi Hmax.
  { do 3 eexists. split; [done|]. left. apply prefix_nil. }
  cbn [receive_frames].
  destruct (DecryptFrameFromReader_keyed key (to_u64 (n + 2 * Z.of_nat i)) r) as (g & err & r1 & m1 & E & Hg).
  rewrite E. unfold mbind, outcome_bind. destruct err as [e|].
  { destruct (receive_frames_keyed key k m1 r1) as (res & r' & m' & ->). do 3 eexists. split; [done|].
    left. destruct g; apply prefix_nil. }
  destruct g as [g|]; [clear Hg|by destruct Hg].
  destruct (accepted_sent key n fs i r g r1 _ Hfs Hn Hi Hmax E) as (Hmax' & -> & [b Eb] & Hs).
  destruct (decide (S i ≤ length fs)%nat) as [Hi'|Hi'].
  - destruct (IH (S i) r1 Hi' Hmax') as (res & r' & m' & -> & Hres). do 3 eexists. split; [done|].
    destruct Hs as [Hs|Hf]; [|by right]. destruct Hres as [Hres|Hf]; [left|right; rewrite Eb; by apply stream_forgery_app].
    rewrite (drop_S _ _ _ Hs). cbn [until_error]. by apply prefix_cons.
  - destruct (receive_frames_keyed key k (to_u64 (n + 2 * Z.of_nat (S i))) r1) as (res & r' & m' & ->).
    do 3 eexists. split; [done|]. right. destruct Hs as [Hs|Hf]; [|done].
    apply lookup_lt_Some in Hs. lia.
Qed.

(** C8: whatever the stream holds, the frames accepted before the first error are the
    first frames sent.  A sender seals any frames without TLVs, of any size, from a
    counter; a receiver at that counter reads from any bytes whatsoever, as often as it
    likes.  No read panics, and the frames up to the first error are a prefix of those
    sent, equal in every field; or among the bytes are some that open at one of the
    counters in use and that the sender did not seal under it. *)
Theorem frames_accepted_were_sent key n fs k r
    (Hfs : Forall plain_frame fs) (Hn : 0 ≤ n ≤ max_nonce) :
  ∃ res r' m', receive_frames k r (keyed key (to_u64 n)) = Ret (res, r', keyed key m') ∧
    (until_error res `prefix_of` fs ∨ stream_forgery key n fs (st_data r)).
Proof.
  destruct (receive_from key n fs k Hfs ltac:(lia) 0 r) as (res & r' & m' & E & H); [lia|lia|].
  change (Z.of_nat 0) with 0 in E. rewrite Z.mul_0_r, Z.add_0_r in E. rewrite drop_0 in H. eauto.
Qed.

(** C31: after an error this ends.  Of two frames the sender sends, let the first have a
    payload of six bytes that read as the header of a frame of six bytes.  The attacker
    inserts, between the first header's ciphertext and the first payload's, 22 bytes that
    do not open in the payload's place, and lets everything else pass as it was sent: the
    read fails, and the next one opens the first payload as a header and the second
    header as its payload.  It accepts a frame that was never sent, and the
    attacker has forged nothing. *)
Theorem spliced_frame_accepted key n f1 f2 ext mt bad tail e
    (H1 : sendable f1) (H2 : sendable f2) (Hp1 : sbytes (fr_Payload f1) = header_bytes ext mt 6)
    (Hbad : Open key (nonce_bytes (to_u64 (n + 1))) bad [] = None) (Hlen : length bad = 22%nat)
    (Hn : 0 ≤ n) (Hmax : n + 3 ≤ max_nonce) :
  let h2 := header_bytes (fr_ExtensionType f2) (fr_MessageType f2) (len (sbytes (fr_Payload f2))) in
  let data := sealed_header key n f1 ++ bad ++ sealed_payload key n f1 ++ sealed_header key (n + 2) f2 ++ tail in
  ∃ err, receive_frames 2 {| st_data := data; st_end := e |} (keyed key (to_u64 n)) =
    Ret ([(None, Some err);
          (Some {| fr_ExtensionType := ext; fr_MessageType := mt; fr_MessageLength := to_u32 6;
                   fr_Payload := Some h2; fr_TLVs := None |}, None)],
         {| st_data := tail; st_end := e |}, keyed key (to_u64 (n + 3))).
Proof.
  intros h2 data. destruct H1 as [F1 _], H2 as [F2 _].
  assert (∀ x y l, 0 ≤ l ≤ MaxU24 → length (header_bytes x y l) = 6%nat) as H6
    by (intros x y l Hl; by apply header_bytes_fields).
  pose proof (len_nonneg (sbytes (fr_Payload f2))) as Hl2.
  assert (length h2 = 6%nat) as Hh2 by (apply H6; destruct F2 as (_ & _ & ?); lia).
  set (g := {| fr_ExtensionType := ext; fr_MessageType := mt; fr_MessageLength := to_u32 6;
               fr_Payload := Some h2; fr_TLVs := None |}).
  assert (len (sbytes (fr_Payload g)) = 6) as Hg 
    by (change (sbytes (fr_Payload g)) with h2; unfold len; by rewrite Hh2).
  assert (plain_frame g) as Fg.
  { split; [done|]. rewrite Hg. split; [|done]. unfold length_agrees. rewrite Hg. reflexivity. }
  assert (sealed_header key (n + 1) g = sealed_payload key n f1) as Eh.
  { unfold sealed_header, sealed_payload. rewrite Hg, Hp1. done. }
  assert (sealed_payload key (n + 1) g = sealed_header key (n + 2) f2) as Ep.
  { unfold sealed_header, sealed_payload. by replace (n + 1 + 1) with (n + 2) by lia. }
  assert (len (sbytes (fr_Payload f1)) = 6) as L1 by (rewrite Hp1; unfold len; by rewrite H6).
  destruct (frame_ct_lengths key n f1 F1) as [Lh _].
  assert (∃ err, DecryptFrameFromReader {| st_data := data; st_end := e |} (keyed key (to_u64 n)) =
    Ret (None, Some err, {| st_data := frame_ct key (n + 1) g ++ tail; st_end := e |}, keyed key (to_u64 (n + 1))))
    as [err E1].
  { unfold DecryptFrameFromReader.
    rewrite (decrypt_frame_after_header stream_ReadFull key n f1 _
      {| st_data := bad ++ frame_ct key (n + 1) g ++ tail; st_end := e |} F1); [|lia|].
    2:{ unfold stream_ReadFull, data, frame_ct. rewrite ReadFull_exact, Eh, Ep by done. by rewrite <- app_assoc. }
    rewrite L1. change (PlainTextLenToCipherTextLen 6) with 22. cbv zeta. change (Z.to_nat 22) with 22%nat.
    unfold stream_ReadFull, mret, outcome_ret. rewrite ReadFull_exact by done.
    rewrite (proj2 (Z.ltb_ge _ _)) by (unfold len; rewrite Hlen; lia).
    rewrite DecryptWithAd_at, Hbad by lia. by eexists. }
  exists err. cbn [receive_frames]. rewrite E1. unfold mbind, outcome_bind.
  rewrite DecryptFrameFromReader_at; [|done|rewrite Hg; change MaxPlaintextChunkSize with 65519; lia|lia|lia].
  replace (n + 1 + 2) with (n + 3) by lia. done.
Qed.

End FrameChannel.

(** ** Witnesses *)

(** Six bytes that read as a header for six bytes. *)
Definition header_like_frame : Frame :=
  {| fr_ExtensionType := to_u16 0; fr_MessageType := to_u8 0x1a; fr_MessageLength := to_u32 6;
     fr_Payload := Some (header_bytes (to_u16 0) (to_u8 0x1b) 6); fr_TLVs := None |}.

(** The frames arrive, or with the tag as the nonce there is something to be found. *)
Lemma frames_accepted_were_sent_witness : ∃ res r' m',
  let r := {| st_data := frame_ct (ae := nonce_aead) toy_key 0 two_byte_frame ++ [to_u8 1]; st_end := "EOF" |} in
  receive_frames (ae := nonce_aead) (fl := half_range_float) 3 r (keyed toy_key (to_u64 0)) =
    Ret (res, r', keyed toy_key m') ∧
  (until_error res `prefix_of` [two_byte_frame; two_byte_frame] ∨
   stream_forgery (ae := nonce_aead) toy_key 0 [two_byte_frame; two_byte_frame] (st_data r)).
Proof.
  apply (frames_accepted_were_sent (ae := nonce_aead) (laws := tag_aead_laws _) (fl := half_range_float)
    toy_key 0 [two_byte_frame; two_byte_frame] 3).
  - repeat constructor; vm_compute; (reflexivity || discriminate).
  - vm_compute. split; discriminate.
Defined.

Lemma spliced_frame_accepted_witness : ∃ err r' g,
  let k := toy_key in
  receive_frames (ae := nonce_aead) (fl := half_range_float) 2
    {| st_data := sealed_header (ae := nonce_aead) k 0 header_like_frame ++ replicate 22 (to_u8 255) ++
         sealed_payload (ae := nonce_aead) k 0 header_like_frame ++
         sealed_header (ae := nonce_aead) k 2 two_byte_frame ++ []; st_end := "EOF" |}
    (keyed k (to_u64 0)) = Ret ([(None, Some err); (Some g, None)], r', keyed k (to_u64 3)) ∧
  fr_MessageType g = to_u8 0x1b.
Proof.
  destruct (spliced_frame_accepted (ae := nonce_aead) (laws := tag_aead_laws _) (fl := half_range_float)
    toy_key 0 header_like_frame two_byte_frame (to_u16 0) (to_u8 0x1b) (replicate 22 (to_u8 255)) [] "EOF")
    as [err E].
  - repeat split; vm_compute; (reflexivity || discriminate).
  - apply two_byte_frame_sendable.
  - reflexivity.
  - vm_compute. reflexivity.
  - reflexivity.
  - lia.
  - vm_compute. discriminate.
  - eexists err, _, _. split; [exact E|reflexivity].
Defined.
