(* ===== verification/CipherConc.v ===== *)
(** * Concurrent use of a cipher state (noise.go)

    [CipherState.n] is an [atomic.Uint64], and the comments of [Encrypt] and
    [EncryptWithAd] promise safety for concurrent access.  The model: threads that
    are each inside one call of [EncryptWithAd] on the same state, whose atomic
    actions ([Load] for the limit, [Load] for the nonce, [Add]) interleave freely.
    [Seal] itself touches no shared state. *)
From stdpp Require Import relations.
From S2P Require Import Prelude GoInts Constants Wire Builder Reader Codec Frame FrameFacts.
From S2P Require Import Cipher CipherProps Transport.

(** Where a thread is in its call. *)
Inductive pc :=
| Start                  (* before [cs.n.Load() == maxNoiseNonce] *)
| Checked                (* before the [Load] of [getNonce] *)
| Loaded (nonce : u64)   (* before the [Add] of [getNonce] *)
| Sealed (nonce : u64)   (* returned, having sealed under this counter's nonce *)
| Refused.               (* returned the "nonce space exhausted" error *)

Record shared := {
  sh_n : u64;
  sh_threads : list pc
}.

Section Conc.
Context {fl : GoFloat}.

(** One atomic action of one thread, on the counter. *)
Inductive thread_step : u64 → pc → u64 → pc → Prop :=
| step_check n : n ≠ maxNoiseNonce → thread_step n Start n Checked
| step_refuse : thread_step maxNoiseNonce Start maxNoiseNonce Refused
| step_load n : thread_step n Checked n (Loaded n)
| step_add n v : thread_step n (Loaded v) (Zmod.add n (to_u64 1)) (Sealed v).

(** Any thread may act next. *)
Inductive conc_step : shared → shared → Prop :=
| conc_thread n l i p n' p' :
    l !! i = Some p → thread_step n p n' p' →
    conc_step {| sh_n := n; sh_threads := l |} {| sh_n := n'; sh_threads := <[i := p']> l |}.

(** With a lock around the call: a thread acts only while no other is inside. *)
Definition inside (p : pc) : bool :=
  match p with Checked | Loaded _ => true | _ => false end.

Inductive locked_step : shared → shared → Prop :=
| locked_thread n l i p n' p' :
    l !! i = Some p → thread_step n p n' p' →
    (∀ j q, j ≠ i → l !! j = Some q → inside q = false) →
    locked_step {| sh_n := n; sh_threads := l |} {| sh_n := n'; sh_threads := <[i := p']> l |}.

Definition start_state (n : u64) (k : nat) : shared :=
  {| sh_n := n; sh_threads := replicate k Start |}.

(** ** One call alone is [EncryptWithAd] *)

Lemma thread_run_alone {ae : AEAD} key n ad p :
  (n ≠ maxNoiseNonce →
     rtc conc_step (start_state n 1)
       {| sh_n := Zmod.add n (to_u64 1); sh_threads := [Sealed n] |} ∧
     EncryptWithAd ad p (keyed key n) =
       Ret (Some (Seal key (nonce_bytes n) p ad), None, keyed key (Zmod.add n (to_u64 1)))) ∧
  (n = maxNoiseNonce →
     rtc conc_step (start_state n 1) {| sh_n := n; sh_threads := [Refused] |} ∧
     EncryptWithAd ad p (keyed key n) = Ret (None, exhausted, keyed key n)).
Proof.
  rewrite EncryptWithAd_keyed. split; intros Hn.
  - rewrite decide_False by done. split; [|done].
    eapply rtc_l; [eapply (conc_thread _ _ 0 Start); [done|by apply step_check]|].
    eapply rtc_l; [eapply (conc_thread _ _ 0 Checked); [done|constructor]|].
    eapply rtc_l; [eapply (conc_thread _ _ 0 (Loaded _)); [done|constructor]|]. apply rtc_refl.
  - rewrite decide_True by done. split; [|done]. subst n.
    eapply rtc_l; [eapply (conc_thread _ _ 0 Start); [done|apply step_refuse]|]. apply rtc_refl.
Qed.

(** ** The invariant of locked executions *)

Definition sealed_by (s : shared) (i : nat) (v : u64) : Prop := sh_threads s !! i = Some (Sealed v).

Record locked_inv (n0 : Z) (s : shared) : Prop := {
  li_range : n0 ≤ Zmod.unsigned (sh_n s) ≤ max_nonce;
  li_inside i p : sh_threads s !! i = Some p → inside p = true → Zmod.unsigned (sh_n s) < max_nonce;
  li_loaded i v : sh_threads s !! i = Some (Loaded v) → v = sh_n s;
  li_sealed i v : sealed_by s i v → n0 ≤ Zmod.unsigned v < Zmod.unsigned (sh_n s);
  li_distinct i j v : sealed_by s i v → sealed_by s j v → i = j
}.

Lemma locked_inv_start n0 k : 0 ≤ n0 ≤ max_nonce → locked_inv n0 (start_state (to_u64 n0) k).
Proof.
  intros Hn. pose proof max_nonce_range. split; unfold sealed_by; simpl.
  - unfold to_u64. rewrite bits.unsigned_of_Z_small by lia. lia.
  - by intros i p [-> _]%lookup_replicate.
  - by intros i v [? _]%lookup_replicate.
  - by intros i v [? _]%lookup_replicate.
  - by intros i j v [? _]%lookup_replicate.
Qed.

Lemma lookup_insert_cases (l : list pc) i j p q :
  <[i := p]> l !! j = Some q → (j = i ∧ q = p) ∨ (j ≠ i ∧ l !! j = Some q).
Proof. rewrite list_lookup_insert_Some. naive_solver. Qed.

Lemma unsigned_add_one (n : u64) : Zmod.unsigned n < max_nonce →
  Zmod.unsigned (Zmod.add n (to_u64 1)) = Zmod.unsigned n + 1.
Proof.
  intros Hn. pose proof max_nonce_range. pose proof (u_range 64 n ltac:(lia)).
  rewrite Zmod.unsigned_add. unfold to_u64. rewrite bits.unsigned_of_Z_small by lia.
  apply Z.mod_small. lia.
Qed.

Lemma not_max_lt (n : u64) : Zmod.unsigned n ≤ max_nonce → n ≠ maxNoiseNonce → Zmod.unsigned n < max_nonce.
Proof.
  intros Hle Hne. assert (Zmod.unsigned n ≠ max_nonce); [|lia].
  intros E. apply Hne, Zmod.unsigned_inj. exact E.
Qed.

(** Entry-wise reasoning about an updated thread list. *)
Ltac updated H := apply lookup_insert_cases in H as [[-> H]|[? H]]; [try discriminate H|].

Lemma locked_inv_step n0 s s' : locked_inv n0 s → locked_step s s' → locked_inv n0 s'.
Proof.
  intros Hinv Hstep. destruct Hstep as [n l i p n' p' Hp Ht Ho].
  destruct Hinv as [Hr Hin Hlo Hse Hdi]. unfold sealed_by in *. cbn [sh_n sh_threads] in *.
  assert (∀ j k v, <[i := p']> l !! j = Some (Sealed v) → <[i := p']> l !! k = Some (Sealed v) →
    (p' = Sealed v → ∀ j, l !! j ≠ Some (Sealed v)) → j = k) as Hdist.
  { intros j k v Hj Hk Hnew. apply lookup_insert_cases in Hj as [[-> Hj]|[? Hj]];
      apply lookup_insert_cases in Hk as [[-> Hk]|[? Hk]]; [done| | |by eapply Hdi].
    - by destruct (Hnew (eq_sym Hj) k).
    - by destruct (Hnew (eq_sym Hk) j). }
  inversion Ht; subst; split; unfold sealed_by; cbn [sh_n sh_threads]; try done;
    try (intros j k w Hj Hk; apply (Hdist j k w Hj Hk); try done).
  - intros j q Hj Hi. updated Hj; [apply not_max_lt; [lia|done]|by eapply Hin].
  - intros j w Hj. updated Hj. by eapply Hlo.
  - intros j w Hj. updated Hj. by eapply Hse.
  - intros j q Hj Hi. updated Hj; [by subst q|by eapply Hin].
  - intros j w Hj. updated Hj. by eapply Hlo.
  - intros j w Hj. updated Hj. by eapply Hse.
  - intros j q Hj Hi. updated Hj; by eapply Hin.
  - intros j w Hj. updated Hj; [by injection Hj|by eapply Hlo].
  - intros j w Hj. updated Hj. by eapply Hse.
  - pose proof (Hin i _ Hp eq_refl). rewrite unsigned_add_one by done. lia.
  - intros j q Hj Hi. updated Hj; [by subst q|]. by rewrite (Ho j q) in Hi.
  - intros j w Hj. updated Hj. by specialize (Ho j _ ltac:(done) Hj).
  - intros j w Hj. pose proof (Hin i _ Hp eq_refl). rewrite unsigned_add_one by done.
    pose proof (Hlo i _ Hp). updated Hj; [injection Hj as ->; subst; lia|].
    apply Hse in Hj. lia.
  - intros [= ->] j' Hj'. apply Hse in Hj'. rewrite (Hlo i _ Hp) in Hj'. lia.
Qed.

(** ** Properties *)

(** C38: the promise of safe concurrent access does not hold.  From any counter below
    the limit, two calls at once can both seal under the same nonce; and with the
    counter one below the limit one of them can seal under the limit itself. *)
Theorem concurrent_calls_reuse_nonce n (Hn : n ≠ maxNoiseNonce) :
  (∃ n', rtc conc_step (start_state n 2) {| sh_n := n'; sh_threads := [Sealed n; Sealed n] |}) ∧
  (Zmod.add n (to_u64 1) = maxNoiseNonce → ∃ n',
     rtc conc_step (start_state n 2) {| sh_n := n'; sh_threads := [Sealed n; Sealed maxNoiseNonce] |}).
Proof.
  assert (rtc conc_step (start_state n 2) {| sh_n := n; sh_threads := [Checked; Checked] |}) as Hc.
  { eapply rtc_l; [eapply (conc_thread _ _ 0 Start); [done|by apply step_check]|].
    eapply rtc_l; [eapply (conc_thread _ _ 1 Start); [done|by apply step_check]|]. apply rtc_refl. }
  split.
  - eexists. etransitivity; [exact Hc|].
    eapply rtc_l; [eapply (conc_thread _ _ 0 Checked); [done|constructor]|].
    eapply rtc_l; [eapply (conc_thread _ _ 1 Checked); [done|constructor]|].
    eapply rtc_l; [eapply (conc_thread _ _ 0 (Loaded _)); [done|constructor]|].
    eapply rtc_l; [eapply (conc_thread _ _ 1 (Loaded _)); [done|constructor]|]. apply rtc_refl.
  - intros <-. eexists. etransitivity; [exact Hc|].
    eapply rtc_l; [eapply (conc_thread _ _ 0 Checked); [done|constructor]|].
    eapply rtc_l; [eapply (conc_thread _ _ 0 (Loaded _)); [done|constructor]|].
    eapply rtc_l; [eapply (conc_thread _ _ 1 Checked); [done|constructor]|].
    eapply rtc_l; [eapply (conc_thread _ _ 1 (Loaded _)); [done|constructor]|]. apply rtc_refl.
Qed.

(** Behind a lock the calls are safe.  In every state that any number of threads
    can reach from a counter [n0], one call at a time, no two of them have sealed
    under the same nonce, none under the limit, and the counter is in between. *)
Theorem locked_calls_never_reuse_nonce n0 k s (Hn : 0 ≤ n0 ≤ max_nonce)
    (Hrun : rtc locked_step (start_state (to_u64 n0) k) s) :
  n0 ≤ Zmod.unsigned (sh_n s) ≤ max_nonce ∧
  (∀ i v, sh_threads s !! i = Some (Sealed v) → n0 ≤ Zmod.unsigned v < Zmod.unsigned (sh_n s)) ∧
  (∀ i j v, sh_threads s !! i = Some (Sealed v) → sh_threads s !! j = Some (Sealed v) → i = j).
Proof.
  assert (locked_inv n0 s) as [Hr _ _ Hse Hdi]; [|split_and!; [lia..|exact Hse|exact Hdi]].
  pose proof (locked_inv_start n0 k Hn) as Hi. revert Hi.
  induction Hrun as [s|s1 s2 s3 Hs Hrun IH]; [done|]. intros Hi. by apply IH, (locked_inv_step n0 s1).
Qed.

End Conc.

Lemma concurrent_calls_reuse_nonce_witness :
  ∃ n', rtc (conc_step (fl := half_range_float)) (start_state (to_u64 0) 2)
    {| sh_n := n'; sh_threads := [Sealed (to_u64 0); Sealed (to_u64 0)] |}.
Proof.
  apply (concurrent_calls_reuse_nonce (fl := half_range_float) (to_u64 0)).
  intros E. apply (f_equal Zmod.unsigned) in E. vm_compute in E. discriminate E.
Defined.

Lemma locked_calls_never_reuse_nonce_witness :
  0 ≤ Zmod.unsigned (sh_n (start_state (to_u64 0) 2)) ≤ max_nonce (fl := half_range_float).
Proof.
  apply (locked_calls_never_reuse_nonce (fl := half_range_float) 0 2 (start_state (to_u64 0) 2)).
  - split; vm_compute; discriminate.
  - apply rtc_refl.
Defined.
