(* ===== verification/CipherConcDec.v ===== *)
(** * Concurrent decryption (noise.go)

    Threads that are each inside one call of [DecryptWithAd] on the same state.  The
    atomic actions of a call are the [Load] of the check, the [Load] and the [Add] of
    [getNonce], and, when [Open] fails, the [Add] that puts the counter back; [Open]
    itself touches no shared state. *)
From stdpp Require Import relations.
From S2P Require Import Prelude GoInts Constants Wire Builder Reader Codec Frame FrameFacts.
From S2P Require Import Cipher CipherProps Transport.

(** Where a thread is in its call. *)
Inductive dpc :=
| DStart                              (* before the check of the limit *)
| DChecked                            (* before the [Load] of [getNonce] *)
| DLoaded (nonce : u64)               (* before the [Add] of [getNonce] *)
| DAdded (nonce : u64)                (* before [Open] *)
| DFailing                            (* [Open] failed, before the [Add] that rolls back *)
| DOpened (nonce : u64) (p : list u8) (* returned the plaintext *)
| DFailed                             (* returned [Open]'s error *)
| DRefused.                           (* returned the "nonce space exhausted" error *)

Definition returned (p : dpc) : bool :=
  match p with DOpened _ _ | DFailed | DRefused => true | _ => false end.

Record dshared := {
  ds_n : u64;
  ds_threads : list dpc
}.

Section Conc.
Context {ae : AEAD} {fl : GoFloat} (key : array 32).

(** One atomic action of a thread that decrypts [c] with [ad]. *)
Inductive decrypt_step (ad c : list u8) : u64 → dpc → u64 → dpc → Prop :=
| dstep_check n : n ≠ maxNoiseNonce → decrypt_step ad c n DStart n DChecked
| dstep_refuse : decrypt_step ad c maxNoiseNonce DStart maxNoiseNonce DRefused
| dstep_load n : decrypt_step ad c n DChecked n (DLoaded n)
| dstep_add n v : decrypt_step ad c n (DLoaded v) (Zmod.add n (to_u64 1)) (DAdded v)
| dstep_open n v p : Open key (nonce_bytes v) c ad = Some p →
    decrypt_step ad c n (DAdded v) n (DOpened v p)
| dstep_fail n v : Open key (nonce_bytes v) c ad = None → decrypt_step ad c n (DAdded v) n DFailing
| dstep_back n : decrypt_step ad c n DFailing (Zmod.add n (Zmod.opp (to_u64 1))) DFailed.

(** Any thread may act next; thread [i] decrypts [msgs !! i]. *)
Inductive dconc_step (msgs : list (list u8 * list u8)) : dshared → dshared → Prop :=
| dconc_thread n l i m p n' p' :
    l !! i = Some p → msgs !! i = Some m → decrypt_step m.1 m.2 n p n' p' →
    dconc_step msgs {| ds_n := n; ds_threads := l |} {| ds_n := n'; ds_threads := <[i := p']> l |}.

Definition dstart (n : u64) (k : nat) : dshared := {| ds_n := n; ds_threads := replicate k DStart |}.

(** ** The counter *)

(** What a thread has added to the counter. *)
Definition added (p : dpc) : Z :=
  match p with DAdded _ | DFailing | DOpened _ _ => 1 | _ => 0 end.
Definition total (l : list dpc) : Z := foldr Z.add 0 (added <$> l).

Lemma total_insert l i p q : l !! i = Some p → total (<[i := q]> l) = total l - added p + added q.
Proof.
  unfold total. revert i. induction l as [|x l IH]; intros [|i] H; simplify_eq/=; [lia|].
  rewrite (IH i H). lia.
Qed.

Lemma total_start k : total (replicate k DStart) = 0.
Proof. by induction k. Qed.

Lemma to_u64_pred z : Zmod.add (to_u64 z) (Zmod.opp (to_u64 1)) = to_u64 (z - 1).
Proof.
  rewrite <- (add_sub_one (to_u64 (z - 1))), to_u64_succ. by replace (z - 1 + 1) with z by lia.
Qed.

Lemma dconc_counter msgs n0 s : (∃ k, rtc (dconc_step msgs) (dstart (to_u64 n0) k) s) →
  ds_n s = to_u64 (n0 + total (ds_threads s)).
Proof.
  intros [k Hrun]. remember (dstart (to_u64 n0) k) as s0 eqn:E0.
  assert (ds_n s0 = to_u64 (n0 + total (ds_threads s0))) as Hi
    by (subst s0; simpl; by rewrite total_start, Z.add_0_r).
  clear E0. induction Hrun as [s|s1 s2 s3 Hs Hrun IH]; [done|]. apply IH. clear IH Hrun.
  destruct Hs as [n l i m p n' p' Hp Hm Ht]. cbn [ds_n ds_threads] in *.
  rewrite (total_insert l i p p' Hp).
  destruct Ht; cbn [added];
    first [rewrite Hi, to_u64_succ|rewrite Hi, to_u64_pred|etransitivity; [exact Hi|]]; f_equal; lia.
Qed.

Definition opened (p : dpc) : bool := match p with DOpened _ _ => true | _ => false end.

Lemma total_returned l : Forall (λ p, returned p = true) l →
  total l = len (filter (λ p, opened p = true) l).
Proof.
  intros H. induction H as [|p l Hp _ IH]; [done|].
  change (total (p :: l)) with (added p + total l). rewrite IH. destruct p; try discriminate Hp; rewrite filter_cons; simpl; rewrite ?len_cons; lia.
Qed.

(** A step with its result as computed. *)
Lemma thread_acts msgs i n l l' m p n' p' :
  l !! i = Some p → msgs !! i = Some m → decrypt_step m.1 m.2 n p n' p' → l' = <[i := p']> l →
  dconc_step msgs {| ds_n := n; ds_threads := l |} {| ds_n := n'; ds_threads := l' |}.
Proof. intros Hp Hm Hs ->. by eapply dconc_thread. Qed.

(** Thread [i] acts. *)
Ltac act i := eapply rtc_l;
  [eapply (thread_acts _ i);
   [reflexivity|reflexivity|first [by apply dstep_fail|by econstructor]|reflexivity]|].

(** One call alone is [DecryptWithAd]. *)
Lemma decrypt_run_alone n ad c : n ≠ maxNoiseNonce →
  ∃ q n', rtc (dconc_step [(ad, c)]) (dstart n 1) {| ds_n := n'; ds_threads := [q] |} ∧
    DecryptWithAd ad c (keyed key n) =
      match q with
      | DOpened _ p => Ret (Some p, None, keyed key n')
      | _ => Ret (None, Some "chacha20poly1305: message authentication failed"%string, keyed key n')
      end ∧ returned q = true.
Proof.
  intros Hn. rewrite DecryptWithAd_keyed, decide_False by done.
  assert (rtc (dconc_step [(ad, c)]) (dstart n 1)
    {| ds_n := Zmod.add n (to_u64 1); ds_threads := [DAdded n] |}) as Hr.
  { act 0%nat. act 0%nat. act 0%nat. apply rtc_refl. }
  destruct (Open key (nonce_bytes n) c ad) as [p|] eqn:Eo.
  - exists (DOpened n p), (Zmod.add n (to_u64 1)). split; [|done]. etransitivity; [exact Hr|].
    act 0%nat. apply rtc_refl.
  - exists DFailed, n. split; [|done]. etransitivity; [exact Hr|].
    act 0%nat. act 0%nat. rewrite add_sub_one. apply rtc_refl.
Qed.

(** ** Properties *)

(** C30: the counter survives concurrent decryption.  However the calls of any number
    of threads interleave, from any counter, the counter is at every moment the one
    at the start plus one for each call that has advanced it and not put it back,
    modulo 2^64; once all have returned it has grown by exactly the number of
    messages opened, so failed calls leave no trace in it. *)
Theorem concurrent_decrypts_count n0 k msgs s
    (Hrun : rtc (dconc_step msgs) (dstart (to_u64 n0) k) s) :
  ds_n s = to_u64 (n0 + total (ds_threads s)) ∧
  (Forall (λ p, returned p = true) (ds_threads s) →
     ds_n s = to_u64 (n0 + len (filter (λ p, opened p = true) (ds_threads s)))).
Proof.
  assert (ds_n s = to_u64 (n0 + total (ds_threads s))) as E by (apply (dconc_counter msgs); by exists k).
  split; [exact E|]. intros H. by rewrite E, total_returned.
Qed.

(** But messages do not.  Of two concurrent calls, from a counter below the limit:
    one with a forged message can make the other refuse a genuine one, sealed for
    exactly this counter; and two calls with the same genuine message can both
    accept it, the second a replay, after which the counter is one ahead of the
    sender's and the sender's next message is refused. *)
Theorem concurrent_decrypts_lose_messages n ad c p forged
    (Hn : n ≠ maxNoiseNonce) (Hn1 : Zmod.add n (to_u64 1) ≠ maxNoiseNonce)
    (Hgenuine : Open key (nonce_bytes n) c ad = Some p)
    (Hforged : Open key (nonce_bytes n) forged ad = None)
    (Hother : Open key (nonce_bytes (Zmod.add n (to_u64 1))) c ad = None) :
  rtc (dconc_step [(ad, c); (ad, forged)]) (dstart n 2) {| ds_n := n; ds_threads := [DFailed; DFailed] |} ∧
  rtc (dconc_step [(ad, c); (ad, c)]) (dstart n 2)
    {| ds_n := Zmod.add (Zmod.add n (to_u64 1)) (to_u64 1); ds_threads := [DOpened n p; DOpened n p] |} ∧
  (∀ c', Zmod.add (Zmod.add n (to_u64 1)) (to_u64 1) ≠ maxNoiseNonce →
     Open key (nonce_bytes (Zmod.add (Zmod.add n (to_u64 1)) (to_u64 1))) c' ad = None →
     ∃ e, DecryptWithAd ad c' (keyed key (Zmod.add (Zmod.add n (to_u64 1)) (to_u64 1))) =
       Ret (None, Some e, keyed key (Zmod.add (Zmod.add n (to_u64 1)) (to_u64 1)))).
Proof.
  split; [|split].
  - unfold dstart. simpl replicate.
    act 1%nat. act 1%nat. act 1%nat. act 0%nat. act 0%nat. act 0%nat.
    act 0%nat. act 0%nat. act 1%nat. act 1%nat. rewrite !add_sub_one. apply rtc_refl.
  - unfold dstart. simpl replicate.
    act 0%nat. act 1%nat. act 0%nat. act 1%nat. act 0%nat. act 1%nat. act 0%nat. act 1%nat. apply rtc_refl.
  - intros c' Hlim Ho. rewrite DecryptWithAd_keyed, decide_False, Ho by done. eauto.
Qed.
End Conc.

(** ** Witnesses: the nonce as the tag *)

Lemma concurrent_decrypts_count_witness :
  let s := {| ds_n := to_u64 7; ds_threads := [DChecked; DStart] |} in
  ds_n s = to_u64 (7 + total (ds_threads s)).
Proof.
  intros s.
  destruct (concurrent_decrypts_count (ae := nonce_aead) (fl := half_range_float) toy_key 7 2
    [([], []); ([], [])] s) as [E _]; [|exact E].
  apply rtc_once. apply (thread_acts toy_key _ 0 _ _ _ ([], []) DStart _ DChecked);
    [reflexivity..| |reflexivity].
  apply dstep_check. intros E. apply (f_equal Zmod.unsigned) in E. vm_compute in E. discriminate E.
Defined.

Lemma concurrent_decrypts_lose_messages_witness :
  let c := Seal (AEAD := nonce_aead) toy_key (nonce_bytes (to_u64 0)) [to_u8 5] [] in
  rtc (dconc_step (ae := nonce_aead) (fl := half_range_float) toy_key [([], c); ([], c)])
    (dstart (to_u64 0) 2)
    {| ds_n := Zmod.add (Zmod.add (to_u64 0) (to_u64 1)) (to_u64 1);
       ds_threads := [DOpened (to_u64 0) [to_u8 5]; DOpened (to_u64 0) [to_u8 5]] |}.
Proof.
  apply (concurrent_decrypts_lose_messages (ae := nonce_aead) (fl := half_range_float) toy_key
    (to_u64 0) [] (Seal (AEAD := nonce_aead) toy_key (nonce_bytes (to_u64 0)) [to_u8 5] [])
    [to_u8 5] []).
  - intros E. apply (f_equal Zmod.unsigned) in E. vm_compute in E. discriminate E.
  - intros E. apply (f_equal Zmod.unsigned) in E. vm_compute in E. discriminate E.
  - reflexivity.
  - reflexivity.
  - reflexivity.
Defined.
