(* ===== verification/FrameEquiv.v ===== *)
(** * The two ways to decrypt and to encrypt a frame (noise.go)

    [DecryptFrame] and [DecryptFrameFromReader] are written out twice in the source,
    over different readers, and so are [EncryptFrame] and [EncryptFrameToWriter].
    Here each pair is shown to be one operation, on all inputs. *)
From S2P Require Import Prelude GoInts Constants Wire Builder Reader Codec Frame FrameFacts.
From S2P Require Import Cipher CipherProps.

(** ** Two readers with the same bytes ahead of them *)

Section Simulation.
Context {ae : AEAD} {fl : GoFloat}.
Context {R1 R2 : Type} (full1 : nat → R1 → outcome (list u8 * error * R1))
  (full2 : nat → R2 → outcome (list u8 * error * R2)).
Context (same : R1 → R2 → Prop).

(** Reading in full succeeds with the same bytes, staying related, or fails in both. *)
Definition reads_alike : Prop := ∀ n r1 r2, same r1 r2 →
  (∃ b r1' r2', full1 n r1 = Ret (b, None, r1') ∧ full2 n r2 = Ret (b, None, r2') ∧ same r1' r2') ∨
  (∃ b1 b2 e1 e2 r1' r2', full1 n r1 = Ret (b1, Some e1, r1') ∧ full2 n r2 = Ret (b2, Some e2, r2')).

(** The same frame and the same cipher state, and an error in both or in neither,
    where the readers stay related. *)
Definition alike (o1 : outcome (option Frame * error * R1 * CipherState))
    (o2 : outcome (option Frame * error * R2 * CipherState)) : Prop :=
  match o1, o2 with
  | Ret (f1, None, r1, cs1), Ret (f2, None, r2, cs2) => f1 = f2 ∧ cs1 = cs2 ∧ same r1 r2
  | Ret (f1, Some _, _, cs1), Ret (f2, Some _, _, cs2) => f1 = f2 ∧ cs1 = cs2
  | Panic p1, Panic p2 => p1 = p2
  | _, _ => False
  end.

Lemma decrypt_frame_alike r1 r2 cs : reads_alike → same r1 r2 →
  alike (decrypt_frame_from full1 r1 cs) (decrypt_frame_from full2 r2 cs).
Proof.
  intros Hfull Hr. unfold decrypt_frame_from, mbind, outcome_bind.
  destruct (Hfull (Z.to_nat NoiseHeaderSize) r1 r2 Hr)
    as [(b & r1' & r2' & -> & -> & Hr')|(? & ? & ? & ? & ? & ? & -> & ->)]; [|done].
  destruct (len b <? NoiseHeaderSize); [done|].
  destruct (DecryptWithAd [] b cs) as [[[h [e|]] cs']|p]; [done| |done].
  destruct (Frame_DecodeHeader zero_frame h) as [[f e]|p]; [|done].
  destruct (Hfull (Z.to_nat (PlainTextLenToCipherTextLen (Zmod.unsigned (fr_MessageLength f)))) r1' r2' Hr')
    as [(b2 & r1'' & r2'' & -> & -> & Hr'')|(? & ? & ? & ? & ? & ? & -> & ->)]; [|done].
  destruct (_ <? _); [done|].
  by destruct (DecryptWithAd [] b2 cs') as [[[pl [e'|]] cs'']|p].
Qed.
End Simulation.

Section Equiv.
Context {ae : AEAD} {fl : GoFloat}.

Definition same_rest (b : bslice) (br : BinaryReader) (st : stream) : Prop :=
  reader_ok br ∧ br_data br = b ∧ rest br = st_data st.

Lemma br_ReadFull_cases n br : reader_ok br →
  (n ≤ length (rest br))%nat ∧ br_ReadFull n br = Ret (take n (rest br), None, advance br n) ∨
  (length (rest br) < n)%nat ∧ ∃ b br', br_ReadFull n br = Ret (b, eof_error, br').
Proof.
  intros Hok. unfold br_ReadFull. destruct (n =? 0)%nat eqn:E0.
  - apply Nat.eqb_eq in E0 as ->. left. split; [lia|]. by rewrite advance_0 by apply Hok.
  - apply Nat.eqb_neq in E0. unfold Read. rewrite (proj1 Hok), (proj2 (Z.leb_gt _ _)) by lia.
    unfold mbind, outcome_bind, reader_bind, mret, reader_ret.
    destruct (decide (n ≤ length (rest br))%nat) as [Hn|Hn]; [left|right]; (split; [lia|]).
    + destruct (read_enough br n Hok Hn) as (b & -> & Hb & _). rewrite Hb. cbn [get_err br_err advance].
      unfold len. rewrite !length_take, (proj2 (Z.leb_le _ _)) by lia. by rewrite take_take, Nat.min_id.
    + destruct (read_short br n Hok) as (b & -> & Hb & _); [lia|]. rewrite Hb. cbn [get_err br_err].
      rewrite take_nil, (proj2 (Z.leb_gt _ _)) by (unfold len; simpl; lia). eauto.
Qed.

Lemma readers_alike b : reads_alike br_ReadFull stream_ReadFull (same_rest b).
Proof.
  intros n br [d e] (Hok & Hb & Hd). simpl in Hd. unfold stream_ReadFull, ReadFull. cbn [st_data st_end].
  destruct (br_ReadFull_cases n br Hok) as [[Hn ->]|(Hn & l & br' & ->)]; rewrite Hd in *.
  - left. rewrite (proj2 (Nat.leb_le _ _)) by done. do 3 eexists. split; [done|]. split; [done|].
    split; [|split; [done|by rewrite rest_advance, Hd]].
    pose proof (advance_ok br (take n d) Hok) as H. rewrite length_take, Nat.min_l in H by done.
    apply H. rewrite Hd. apply take_prefix_of.
  - right. rewrite (proj2 (Nat.leb_gt _ _)) by done. do 6 eexists. done.
Qed.

Lemma EncryptFrame_as_ToWriter {go : GoAlloc} {W} (Write : list u8 → W → Z * error * W) w f cs :
  EncryptFrameToWriter Write f w cs =
  ('(out, err, cs, f) ← EncryptFrame f cs;
   match err with
   | Some _ => mret (0, err, w, cs, f)
   | None => mret (Write (sbytes out) w, cs, f)
   end).
Proof.
  unfold EncryptFrameToWriter, EncryptFrame, Encrypt, mbind, outcome_bind.
  destruct (Frame_Encode f) as [[encoded [e|]] f']; [done|].
  destruct (slice_range encoded 0 _) as [h|p]; [|done].
  destruct (EncryptWithAd [] (sbytes h) cs) as [[[header [e|]] cs']|p]; [done| |done].
  destruct (slice_range encoded _ _) as [h2|p]; [|done].
  by destruct (EncryptWithAd [] (sbytes h2) cs') as [[[out [e|]] cs'']|p].
Qed.

(** C29: each direction is one operation.  For all frames and all cipher states, with
    and without a key, [EncryptFrameToWriter] is [EncryptFrame] followed by one
    [Write] of its result, or its error and no write.  For all bytes, a nil slice
    included, and all cipher states, [DecryptFrame] and [DecryptFrameFromReader]
    return the same frame and leave the same cipher state, fail on the same inputs
    and panic on the same inputs; on success the stream is left at a suffix of the
    bytes. *)
Theorem frame_transport_equiv :
  (∀ (go : GoAlloc) W (Write : list u8 → W → Z * error * W) w f cs,
    EncryptFrameToWriter Write f w cs =
    ('(out, err, cs, f) ← EncryptFrame f cs;
     match err with
     | Some _ => mret (0, err, w, cs, f)
     | None => mret (Write (sbytes out) w, cs, f)
     end)) ∧
  (∀ b e cs,
    match DecryptFrame b cs, DecryptFrameFromReader {| st_data := sbytes b; st_end := e |} cs with
    | Ret (f1, e1, cs1), Ret (f2, e2, st, cs2) =>
        f1 = f2 ∧ cs1 = cs2 ∧ (e1 = None ↔ e2 = None) ∧ (e2 = None → ∃ n, st_data st = drop n (sbytes b))
    | Panic p1, Panic p2 => p1 = p2
    | _, _ => False
    end).
Proof.
  split; [intros; apply EncryptFrame_as_ToWriter|]. intros b e cs.
  pose proof (decrypt_frame_alike br_ReadFull stream_ReadFull (same_rest b) (NewBinaryReader b)
    {| st_data := sbytes b; st_end := e |} cs (readers_alike b)
    (conj (new_ok b) (conj eq_refl eq_refl))) as H.
  unfold DecryptFrame, DecryptFrameFromReader, mbind, outcome_bind, alike in *.
  destruct (decrypt_frame_from br_ReadFull _ _) as [[[[f1 [e1|]] r1] cs1]|p1];
    destruct (decrypt_frame_from stream_ReadFull _ _) as [[[[f2 [e2|]] r2] cs2]|p2]; try done.
  - destruct H as [-> ->]. done.
  - destruct H as (-> & -> & _ & <- & <-). split_and!; [done..|]. intros _. by eexists.
Qed.
End Equiv.
