(* ===== verification/Hashes.v ===== *)
(** * Hash functions of the handshake (noise.go)

    SHA-256 is third-party code ([minio/sha256-simd]): the class [SHA256].  HMAC is
    Go's [crypto/hmac] over it. *)
From S2P Require Import Prelude GoInts Constants.

Class SHA256 := { sha256 : list u8 → array 32 }.

Section Hashes.
Context {sha : SHA256}.

(** [crypto/hmac] with the 64-byte blocks of SHA-256: a longer key is hashed, and the
    key is padded with zeroes to a block. *)
Definition hmac_block : nat := 64.

Definition hmac_key (key : list u8) : list u8 :=
  let key := if (hmac_block <? length key)%nat then arr_bytes (sha256 key) else key in
  key ++ replicate (hmac_block - length key) (to_u8 0).

Definition xor_pad (pad : u8) (key : list u8) : list u8 := (λ b, Zmod.xor b pad) <$> key.

(** [Sum(nil)] is 32 bytes long, so the results are arrays. *)
Definition HmacHash (key data : list u8) : array 32 :=
  let key := hmac_key key in
  let inner := sha256 (xor_pad (to_u8 0x36) key ++ data) in
  sha256 (xor_pad (to_u8 0x5c) key ++ arr_bytes inner).

Definition HKDF (chainingKey inputKeyMaterial : list u8) : array 32 * array 32 :=
  let temp := arr_bytes (HmacHash chainingKey inputKeyMaterial) in
  let out1 := HmacHash temp [to_u8 1] in
  let out2 := HmacHash temp (arr_bytes out1 ++ [to_u8 2]) in
  (out1, out2).

(** [hash.Sum(b)] appends the digest of what was written, here nothing, to [b]. *)
Definition TaggedHash (a b c : list u8) : array 32 :=
  let tag := gostring_of "bip324_ellswift_xonly_ecdh" ++ arr_bytes (sha256 []) in
  sha256 (tag ++ tag ++ a ++ b ++ c).

(** The initial chaining key and handshake hash. *)
Definition handshakeInit : array 32 * array 32 :=
  let digest := sha256 (gostring_of ProtocolName) in
  let hashOutput := sha256 (arr_bytes digest) in
  (digest, hashOutput).

(** BIP 340 and BIP 324's tagged hash, which the comments of [TaggedHash] describe. *)
Definition tagged_hash_spec (label : list u8) (a b c : list u8) : array 32 :=
  let tag := arr_bytes (sha256 label) in sha256 (tag ++ tag ++ a ++ b ++ c).

(** The two differ in what is hashed: [TaggedHash]'s message is longer by the label and
    the digest of nothing in place of one digest, twice, so equal results would be a
    collision of SHA-256. *)
Lemma TaggedHash_other_message a b c :
  let label := gostring_of "bip324_ellswift_xonly_ecdh" in
  ∃ tag1 tag2, TaggedHash a b c = sha256 (tag1 ++ tag1 ++ a ++ b ++ c) ∧
    tagged_hash_spec label a b c = sha256 (tag2 ++ tag2 ++ a ++ b ++ c) ∧
    tag1 = label ++ arr_bytes (sha256 []) ∧ tag2 = arr_bytes (sha256 label) ∧
    len (tag1 ++ tag1 ++ a ++ b ++ c) = len (tag2 ++ tag2 ++ a ++ b ++ c) + 52.
Proof.
  cbn zeta. do 2 eexists. split; [reflexivity|]. split; [reflexivity|]. split; [done|]. split; [done|].
  unfold len. rewrite !length_app, !length_arr. change (length (gostring_of _)) with 26%nat. lia.
Qed.

End Hashes.
