(* ===== verification/Keys.v ===== *)
(** * Keys and certificates (noise.go, ellswift.go)

    secp256k1 arithmetic, Schnorr signatures and base58 are btcd's: the classes
    [Secp256k1], [Schnorr] and [Base58] are the calls the package makes, the
    [..Laws] classes what it relies on.  Randomness is an argument: the bytes that
    [rand.Read], which never fails, delivers. *)
From S2P Require Import Prelude GoInts Constants Wire Builder Reader Sequences Codec Hashes.

(** ** Third-party interfaces *)

Class Secp256k1 := {
  PrivateKey : Type;
  PublicKey : Type;
  FieldVal : Type;
  JacobianPoint : Type;
  PrivKeyFromBytes : array 32 → PrivateKey;
  priv_Serialize : PrivateKey → array 32;
  priv_PubKey : PrivateKey → PublicKey;
  priv_IsZero : PrivateKey → bool;            (* the scalar, [Key.IsZero()] *)
  pub_X : PublicKey → array 32;               (* [X().FillBytes(make([]byte, 32))] *)
  ScalarBaseMultNonConst : PrivateKey → JacobianPoint;
  ToAffine : JacobianPoint → JacobianPoint;
  jacobian_X : JacobianPoint → FieldVal;
  field_SetBytes : array 32 → FieldVal * bool; (* the value, and whether it overflowed *)
  field_Normalize : FieldVal → FieldVal;
  field_Bytes : FieldVal → array 32;
  XSwiftECInv : FieldVal → FieldVal → Z → option FieldVal;
  XSwiftEC : FieldVal → FieldVal → FieldVal + string;
  V2Ecdh : PrivateKey → EllswiftPubkey → EllswiftPubkey → bool → array 32 + string
}.

(** A private key's serialization reads back. *)
Class Secp256k1Laws {ec : Secp256k1} : Prop := {
  priv_roundtrip k : PrivKeyFromBytes (priv_Serialize k) = k
}.

Class Schnorr {ec : Secp256k1} := {
  SchnorrSig : Type;
  SchnorrPub : Type;
  schnorr_Sign : PrivateKey → array 32 → SchnorrSig + string;
  sig_Serialize : SchnorrSig → array 64;
  ParseSignature : array 64 → SchnorrSig + string;
  ParsePubKey : array 32 → SchnorrPub + string;
  sig_Verify : SchnorrSig → array 32 → SchnorrPub → bool
}.

(** BIP 340: a signature made parses back, the signer's x-only public key parses, and
    the signature verifies under it for the message signed. *)
Class SchnorrLaws {ec : Secp256k1} {sch : Schnorr} : Prop := {
  sig_roundtrip k m s : schnorr_Sign k m = inl s → ParseSignature (sig_Serialize s) = inl s;
  sign_verifies k m s : schnorr_Sign k m = inl s →
    ∃ p, ParsePubKey (pub_X (priv_PubKey k)) = inl p ∧ sig_Verify s m p = true
}.

Class Base58 := {
  CheckEncode : list u8 → u8 → gostring;
  CheckDecode : gostring → (list u8 * u8) + string
}.
Class Base58Laws {b58 : Base58} : Prop := {
  CheckDecode_Encode b v : CheckDecode (CheckEncode b v) = inl (b, v)
}.

(** ** Certificates *)

Record SIGNATURE_NOISE_MESSAGE := {
  snm_Version : u16;
  snm_ValidFrom : u32;
  snm_NotValidAfter : u32;
  snm_Signature : Signature
}.

Definition SIGNATURE_NOISE_MESSAGE_Decode (m : SIGNATURE_NOISE_MESSAGE) (data : bslice) :
    outcome (SIGNATURE_NOISE_MESSAGE * error) :=
  if negb (len (sbytes data) =? 74) then
    mret (m, Some "invalid signature noise message length"%string)
  else decode_with (
    Version ← ReadU16;
    ValidFrom ← ReadU32;
    NotValidAfter ← ReadU32;
    Signature ← ReadSignature;
    mret {| snm_Version := Version; snm_ValidFrom := ValidFrom;
            snm_NotValidAfter := NotValidAfter; snm_Signature := Signature |}) data.

Section CertEncode.
Context {go : GoAlloc}.

Definition SIGNATURE_NOISE_MESSAGE_Encode (m : SIGNATURE_NOISE_MESSAGE) : bslice * error :=
  Bytes (NewBinaryBuilder
    |> Grow 74
    |> AddU16 (snm_Version m)
    |> AddU32 (snm_ValidFrom m)
    |> AddU32 (snm_NotValidAfter m)
    |> AddSignature (snm_Signature m)).

Definition SIGNATURE_NOISE_MESSAGE_EncodeNoSig (m : SIGNATURE_NOISE_MESSAGE) : bslice * error :=
  Bytes (NewBinaryBuilder
    |> Grow 10
    |> AddU16 (snm_Version m)
    |> AddU32 (snm_ValidFrom m)
    |> AddU32 (snm_NotValidAfter m)).

Context {sha : SHA256} {ec : Secp256k1} {sch : Schnorr}.

Definition set_signature (s : Signature) (m : SIGNATURE_NOISE_MESSAGE) : SIGNATURE_NOISE_MESSAGE :=
  {| snm_Version := snm_Version m; snm_ValidFrom := snm_ValidFrom m;
     snm_NotValidAfter := snm_NotValidAfter m; snm_Signature := s |}.

Definition NewSignedCertificate (authorityPrivkey : PrivateKey) (staticPubkey : Pubkey)
    (validFrom notValidAfter : u32) : option SIGNATURE_NOISE_MESSAGE * error :=
  let m := {| snm_Version := to_u16 CertificateFormatVersion; snm_ValidFrom := validFrom;
              snm_NotValidAfter := notValidAfter; snm_Signature := zero_array 64 |} in
  let '(buf, err) := SIGNATURE_NOISE_MESSAGE_EncodeNoSig m in
  match err with
  | Some _ => (None, err)
  | None =>
      let buf := sbytes buf ++ arr_bytes staticPubkey in
      let hash := sha256 buf in
      match schnorr_Sign authorityPrivkey hash with
      | inr e => (None, Some e)
      | inl sig => (Some (set_signature (sig_Serialize sig) m), None)
      end
  end.

(** [now] is [time.Now().Unix()]; the pointer [cert] may be nil. *)
Definition VerifyServerCertificate (now : Z) (cert : option SIGNATURE_NOISE_MESSAGE)
    (authorityPubkey staticPubkey : Pubkey) : outcome (bool * error) :=
  match cert with
  | None => Panic NilDereference
  | Some cert =>
      if negb (Zmod.unsigned (snm_Version cert) =? CertificateFormatVersion) then
        mret (false, Some "unsupported certificate format version"%string)
      else if Zmod.unsigned (to_u32 now) <? Zmod.unsigned (snm_ValidFrom cert) then
        mret (false, Some "certificate is not yet valid"%string)
      else if Zmod.unsigned (snm_NotValidAfter cert) <? Zmod.unsigned (to_u32 now) then
        mret (false, Some "certificate has expired"%string)
      else
        let '(buf, err) := SIGNATURE_NOISE_MESSAGE_EncodeNoSig cert in
        match err with
        | Some _ => mret (false, err)
        | None =>
            match ParseSignature (snm_Signature cert) with
            | inr e => mret (false, Some e)
            | inl sig =>
                match ParsePubKey authorityPubkey with
                | inr e => mret (false, Some e)
                | inl pub =>
                    let buf := sbytes buf ++ arr_bytes staticPubkey in
                    let hash := sha256 buf in
                    mret (sig_Verify sig hash pub, None)
                end
            end
        end
  end.

End CertEncode.

(** ** Authority keys *)

Section AuthorityKey.
Context {b58 : Base58}.

Definition SerializeAuthorityKey (pubkey : Pubkey) : gostring :=
  let pfx := [to_u8 0] in
  CheckEncode (pfx ++ arr_bytes pubkey) (to_u8 1).

(** [version != 1 || decoded[0] != 0]: the index is reached for version 1 only. *)
Definition DeserializeAuthorityKey (authorityKey : gostring) : outcome (bslice * error) :=
  match CheckDecode authorityKey with
  | inr e => mret (None, Some e)
  | inl (decoded, version) =>
      let bad := Some "invalid pubkey base58check version, not [1, 0]"%string in
      if negb (Zmod.unsigned version =? 1) then mret (None, bad) else
      d ← index decoded 0;
      if negb (Zmod.unsigned d =? 0) then mret (None, bad)
      else mret (Some (drop 1 decoded), None)
  end.

End AuthorityKey.

(** ** ElligatorSwift encodings (ellswift.go) *)

Section Ellswift.
Context {ec : Secp256k1}.

Definition getXCoord (privKey : PrivateKey) : FieldVal :=
  let result := ScalarBaseMultNonConst privKey in
  let result := ToAffine result in
  jacobian_X result.

(** [u.SetBytes(&b)], normalized if it overflowed. *)
Definition field_of_bytes (b : array 32) : FieldVal :=
  let '(u, overflow) := field_SetBytes b in
  if (overflow : bool) then field_Normalize u else u.

Definition XElligatorSwiftAux (x : FieldVal) (auxRand : array 32) (caseNum : u8) :
    option (FieldVal * FieldVal) * error :=
  let u := field_of_bytes auxRand in
  match XSwiftECInv u x (Zmod.unsigned (Zmod.and caseNum (to_u8 7))) with
  | None => (None, Some "t not found"%string)
  | Some t => (Some (u, t), None)
  end.

(** The search loop: every turn draws 32 bytes and one byte.  [None]: every draw
    given failed, and the loop goes on. *)
Fixpoint XElligatorSwift (draws : list (array 32 * u8)) (x : FieldVal) :
    option (FieldVal * FieldVal * array 32 * u8) :=
  match draws with
  | [] => None
  | (randUBytes, randCaseByte) :: draws =>
      let u := field_of_bytes randUBytes in
      let caseNum := Zmod.and randCaseByte (to_u8 7) in
      match XSwiftECInv u x (Zmod.unsigned caseNum) with
      | Some t => Some (u, t, randUBytes, caseNum)
      | None => XElligatorSwift draws x
      end
  end.

Definition ellswift_bytes (u t : FieldVal) : EllswiftPubkey :=
  to_array 64 (arr_bytes (field_Bytes u) ++ arr_bytes (field_Bytes t)).

Definition EllswiftRecreateFromBytes (privKeyBytes auxRand : array 32) (caseNum : u8) :
    option PrivateKey * EllswiftPubkey * error :=
  let privKey := PrivKeyFromBytes privKeyBytes in
  let x := getXCoord privKey in
  match XElligatorSwiftAux x auxRand caseNum with
  | (Some (u, t), None) => (Some privKey, ellswift_bytes u t, None)
  | (_, err) => (None, zero_array 64, err)
  end.

Definition EllswiftCreate (randPrivKeyBytes : array 32) (draws : list (array 32 * u8)) :
    option (PrivateKey * EllswiftPubkey * array 32 * u8) :=
  let privKey := PrivKeyFromBytes randPrivKeyBytes in
  let x := getXCoord privKey in
  '(u, t, auxRand, caseNum) ← XElligatorSwift draws x;
  Some (privKey, ellswift_bytes u t, auxRand, caseNum).

(** ** Key pairs *)

Record Keypair := {
  kp_Private : option PrivateKey;   (* pointers, nil in [Keypair{}] *)
  kp_Public : option PublicKey;
  kp_publicX : list u8;
  kp_publicEllswift : array 64;
  kp_auxRand : array 32;
  kp_caseNum : u8
}.

Definition SerializeEllswift (kp : Keypair) : EllswiftPubkey := kp_publicEllswift kp.
Definition SerializeEllswiftBytes (kp : Keypair) : list u8 := arr_bytes (kp_publicEllswift kp).
Definition PublicKeyBytes (kp : Keypair) : list u8 := kp_publicX kp.
Definition Keypair_PublicKey (kp : Keypair) : outcome Pubkey :=
  slice_to_array 32 (Some (PublicKeyBytes kp)).

Definition NewKeypair (randPrivKeyBytes : array 32) (draws : list (array 32 * u8)) : option Keypair :=
  '(priv, ellswiftPub, auxRand, caseNum) ← EllswiftCreate randPrivKeyBytes draws;
  let pub := priv_PubKey priv in
  Some {| kp_Private := Some priv; kp_Public := Some pub; kp_publicX := arr_bytes (pub_X pub);
          kp_publicEllswift := ellswiftPub; kp_auxRand := auxRand; kp_caseNum := caseNum |}.

Definition NewKeypairFrom (privKey auxRand : array 32) (caseNum : u8) : option Keypair * error :=
  match EllswiftRecreateFromBytes privKey auxRand caseNum with
  | (Some priv, ellswiftPub, None) =>
      let pub := priv_PubKey priv in
      (Some {| kp_Private := Some priv; kp_Public := Some pub; kp_publicX := arr_bytes (pub_X pub);
               kp_publicEllswift := ellswiftPub; kp_auxRand := auxRand; kp_caseNum := caseNum |}, None)
  | (_, _, err) => (None, err)
  end.

Definition Keypair_Encode {go : GoAlloc} (kp : Keypair) : outcome (bslice * error) :=
  match kp_Private kp with
  | None => Panic NilDereference
  | Some priv =>
      mret (Bytes (NewBinaryBuilder
        |> Grow 65
        |> AddBytes (arr_bytes (priv_Serialize priv))
        |> AddBytes (arr_bytes (kp_auxRand kp))
        |> AddU8 (kp_caseNum kp)))
  end.

(** The three values read; the conversions to arrays panic on short reads. *)
Definition read_keypair : Reader (array 32 * array 32 * u8) :=
  p ← ReadBytes 32;
  privkey ← lift (slice_to_array 32 p);
  a ← ReadBytes 32;
  auxRand ← lift (slice_to_array 32 a);
  caseNum ← ReadU8;
  mret (privkey, auxRand, caseNum).

(** The receiver keeps what was assigned before an error. *)
Definition Keypair_Decode (kp : Keypair) (b : bslice) : outcome (Keypair * error) :=
  '((privkey, auxRand, caseNum), err) ← decode_with read_keypair b;
  match err with
  | Some _ =>
      mret ({| kp_Private := kp_Private kp; kp_Public := kp_Public kp; kp_publicX := kp_publicX kp;
               kp_publicEllswift := kp_publicEllswift kp; kp_auxRand := auxRand;
               kp_caseNum := caseNum |}, err)
  | None =>
      let '(priv, ellswiftPub, err) := EllswiftRecreateFromBytes privkey auxRand caseNum in
      match err, priv with
      | None, Some k =>
          let pub := priv_PubKey k in
          mret ({| kp_Private := Some k; kp_Public := Some pub; kp_publicX := arr_bytes (pub_X pub);
                   kp_publicEllswift := ellswiftPub; kp_auxRand := auxRand; kp_caseNum := caseNum |},
                None)
      | _, _ =>
          mret ({| kp_Private := priv; kp_Public := kp_Public kp; kp_publicX := kp_publicX kp;
                   kp_publicEllswift := ellswiftPub; kp_auxRand := auxRand; kp_caseNum := caseNum |},
                err)
      end
  end.

End Ellswift.

(** ** What the handshake relies on *)

(** [e] is an ElligatorSwift encoding of the public key of [k]. *)
Definition ellswift_of {ec : Secp256k1} (k : PrivateKey) (e : EllswiftPubkey) : Prop :=
  ∃ b c t, XSwiftECInv (field_of_bytes b) (getXCoord k) c = Some t ∧
    e = ellswift_bytes (field_of_bytes b) t.

(** BIP 324, for keys that are not zero: an encoding decodes to the key's x
    coordinate; and the two sides of an exchange compute the same secret, the one
    as initiator and the other not. *)
Class EllswiftLaws {ec : Secp256k1} : Prop := {
  XSwiftEC_decodes k e : priv_IsZero k = false → ellswift_of k e →
    ∃ x, XSwiftEC (field_SetBytes (to_array 32 (take 32 (arr_bytes e)))).1
                  (field_SetBytes (to_array 32 (drop 32 (arr_bytes e)))).1 = inl x ∧
      field_Bytes (field_Normalize x) = pub_X (priv_PubKey k);
  V2Ecdh_agrees k1 k2 e1 e2 : priv_IsZero k1 = false → priv_IsZero k2 = false →
    ellswift_of k1 e1 → ellswift_of k2 e2 →
    ∃ secret, V2Ecdh k1 e2 e1 true = inl secret ∧ V2Ecdh k2 e1 e2 false = inl secret
}.
