(* ===== verification/KeysProps.v ===== *)
(** * What certificates and keys promise (noise.go, ellswift.go)

    The certificate's encoding, its signature and its validity; the storage format
    of key pairs, the search for an ElligatorSwift encoding, authority keys.  The
    laws of the third-party code are hypotheses; the toy instances at the end show
    that they can hold. *)
From S2P Require Import Prelude GoInts Constants Wire Builder Reader Sequences Codec Hashes Keys.

(** ** Certificates *)

Definition cert_fields (m : SIGNATURE_NOISE_MESSAGE) : wire :=
  w_u16 (snm_Version m) ⋅ w_u32 (snm_ValidFrom m) ⋅ w_u32 (snm_NotValidAfter m).
Definition cert_wire (m : SIGNATURE_NOISE_MESSAGE) : wire :=
  w_u16 (snm_Version m) ⋅ w_u32 (snm_ValidFrom m) ⋅ w_u32 (snm_NotValidAfter m)
  ⋅ w_array (snm_Signature m).

(** The bytes of a certificate, and the ones its signature covers. *)
Definition cert_bytes (m : SIGNATURE_NOISE_MESSAGE) : list u8 := (cert_wire m).1.
Definition signed_bytes (m : SIGNATURE_NOISE_MESSAGE) (static : Pubkey) : list u8 :=
  (cert_fields m).1 ++ arr_bytes static.

Lemma length_cert_bytes m : length (cert_bytes m) = 74%nat.
Proof.
  unfold cert_bytes, cert_wire, w_u16, w_u32, w_uint, w_array, wapp, wbytes. cbn [fst snd].
  rewrite !length_app, !length_le_put, length_arr. reflexivity.
Qed.

Lemma cert_wire_ok m : cert_wire m = (cert_bytes m, None).
Proof. reflexivity. Qed.

Section CertFormat.
Context {go : GoAlloc}.

Lemma cert_Encode m : SIGNATURE_NOISE_MESSAGE_Encode m = (Some (cert_bytes m), None).
Proof.
  assert (∀ m, SIGNATURE_NOISE_MESSAGE_Encode m = (Some (cert_wire m).1, (cert_wire m).2)) as E
    by solve_Encode cert_wire.
  apply E.
Qed.

Lemma cert_EncodeNoSig m : SIGNATURE_NOISE_MESSAGE_EncodeNoSig m = (Some (cert_fields m).1, None).
Proof.
  assert (∀ m, SIGNATURE_NOISE_MESSAGE_EncodeNoSig m = (Some (cert_fields m).1, (cert_fields m).2))
    as E by solve_Encode cert_fields.
  apply E.
Qed.

Definition read_cert : Reader SIGNATURE_NOISE_MESSAGE :=
  Version ← ReadU16;
  ValidFrom ← ReadU32;
  NotValidAfter ← ReadU32;
  Signature ← ReadSignature;
  mret {| snm_Version := Version; snm_ValidFrom := ValidFrom;
          snm_NotValidAfter := NotValidAfter; snm_Signature := Signature |}.

Lemma Parses_cert : Parses read_cert (encoded cert_wire).
Proof. parse_fields cert_wire. Qed.

Lemma cert_Decode m0 m b :
  sbytes b = cert_bytes m → SIGNATURE_NOISE_MESSAGE_Decode m0 b = Ret (m, None).
Proof.
  intros Hb. unfold SIGNATURE_NOISE_MESSAGE_Decode.
  assert (len (sbytes b) = 74) as -> by (unfold len; by rewrite Hb, length_cert_bytes).
  cbn [negb Z.eqb Pos.eqb]. apply (Decode_of_Parses read_cert cert_wire b m Parses_cert).
  exists (cert_bytes m). split; [apply cert_wire_ok|by rewrite Hb].
Qed.

(** Every string of 74 bytes is a certificate's encoding. *)
Lemma cert_bytes_surj l : length l = 74%nat → ∃ m, cert_bytes m = l.
Proof.
  intros Hl.
  assert (∃ b1 b2 b3 b4, l = b1 ++ b2 ++ b3 ++ b4 ∧ length b1 = 2%nat ∧ length b2 = 4%nat ∧
    length b3 = 4%nat ∧ length b4 = 64%nat) as (b1 & b2 & b3 & b4 & -> & L1 & L2 & L3 & L4).
  { exists (take 2 l), (take 4 (drop 2 l)), (take 4 (drop 6 l)), (drop 10 l).
    rewrite !length_take, !length_drop, Hl. split; [|split_and!; lia].
    assert (drop 10 l = drop 4 (drop 6 l)) as -> by (rewrite drop_drop; done).
    assert (drop 6 l = drop 4 (drop 2 l)) as -> by (rewrite drop_drop; done).
    by rewrite !take_drop. }
  exists {| snm_Version := to_u16 (le_get b1); snm_ValidFrom := to_u32 (le_get b2);
            snm_NotValidAfter := to_u32 (le_get b3); snm_Signature := to_array 64 b4 |}.
  unfold cert_bytes, cert_wire, w_u16, w_u32, w_uint, w_array, wapp, wbytes, to_u16, to_u32.
  cbn [fst snd snm_Version snm_ValidFrom snm_NotValidAfter snm_Signature].
  assert (16 = 8 * len b1) as W1 by (unfold len; by rewrite L1).
  assert (32 = 8 * len b2) as W2 by (unfold len; by rewrite L2).
  assert (32 = 8 * len b3) as W3 by (unfold len; by rewrite L3).
  apply le_put_of_Z in W1, W2, W3. rewrite L1 in W1. rewrite L2 in W2. rewrite L3 in W3.
  rewrite W1, W2, W3.
  by rewrite arr_bytes_to_array, <- !app_assoc.
Qed.

(** The certificate's 74-byte format.  Every certificate encodes, to 74 bytes that
    decode to it; a byte string decodes exactly if it is 74 bytes long, into the
    certificate whose encoding it is, and any other length is an error that leaves
    the receiver alone: decoding never panics. *)
Theorem certificate_format :
  (∀ m, ∃ bs, SIGNATURE_NOISE_MESSAGE_Encode m = (Some bs, None) ∧ len bs = 74 ∧
     ∀ m0, SIGNATURE_NOISE_MESSAGE_Decode m0 (Some bs) = Ret (m, None)) ∧
  (∀ m0 b,
     (len (sbytes b) = 74 ∧ ∃ m, SIGNATURE_NOISE_MESSAGE_Decode m0 b = Ret (m, None) ∧
        SIGNATURE_NOISE_MESSAGE_Encode m = (Some (sbytes b), None)) ∨
     (len (sbytes b) ≠ 74 ∧ ∃ e, SIGNATURE_NOISE_MESSAGE_Decode m0 b = Ret (m0, Some e))).
Proof.
  split.
  - intros m. exists (cert_bytes m). rewrite cert_Encode. unfold len. rewrite length_cert_bytes.
    split; [done|]. split; [done|]. intros m0. by apply cert_Decode.
  - intros m0 b. destruct (decide (len (sbytes b) = 74)) as [E|E]; [left|right]; (split; [done|]).
    + destruct (cert_bytes_surj (sbytes b)) as [m Hm]; [unfold len in E; lia|]. exists m.
      rewrite cert_Encode, Hm. split; [by apply cert_Decode|done].
    + unfold SIGNATURE_NOISE_MESSAGE_Decode. rewrite (proj2 (Z.eqb_neq _ _)) by done. eauto.
Qed.

End CertFormat.

(** ** Signing and verifying *)

Lemma signed_bytes_inj m1 m2 p1 p2 :
  signed_bytes m1 p1 = signed_bytes m2 p2 →
  snm_Version m1 = snm_Version m2 ∧ snm_ValidFrom m1 = snm_ValidFrom m2 ∧
  snm_NotValidAfter m1 = snm_NotValidAfter m2 ∧ p1 = p2.
Proof.
  unfold signed_bytes, cert_fields, w_u16, w_u32, w_uint, wapp, wbytes. cbn [fst snd].
  rewrite <- !app_assoc. intros E.
  apply app_inj_1 in E as [E1 E]; [|by rewrite !length_le_put].
  apply app_inj_1 in E as [E2 E]; [|by rewrite !length_le_put].
  apply app_inj_1 in E as [E3 E4]; [|by rewrite !length_le_put].
  apply (f_equal le_get) in E1, E2, E3.
  rewrite !(le_get_put_unsigned 16) in E1 by done.
  rewrite !(le_get_put_unsigned 32) in E2, E3 by done.
  split_and!; [by apply Zmod.unsigned_inj..|by apply array_ext].
Qed.

Section Signing.
Context {go : GoAlloc} {sha : SHA256} {ec : Secp256k1} {sch : Schnorr}.

(** What decides about a certificate before its signature is looked at. *)
Definition validity_error (now : Z) (m : SIGNATURE_NOISE_MESSAGE) : error :=
  if negb (Zmod.unsigned (snm_Version m) =? CertificateFormatVersion)
  then Some "unsupported certificate format version"%string
  else if Zmod.unsigned (to_u32 now) <? Zmod.unsigned (snm_ValidFrom m)
  then Some "certificate is not yet valid"%string
  else if Zmod.unsigned (snm_NotValidAfter m) <? Zmod.unsigned (to_u32 now)
  then Some "certificate has expired"%string
  else None.

Lemma VerifyServerCertificate_eq now m authority static :
  VerifyServerCertificate now (Some m) authority static =
  match validity_error now m with
  | Some e => Ret (false, Some e)
  | None =>
      match ParseSignature (snm_Signature m), ParsePubKey authority with
      | inr e, _ => Ret (false, Some e)
      | inl _, inr e => Ret (false, Some e)
      | inl sig, inl pub => Ret (sig_Verify sig (sha256 (signed_bytes m static)) pub, None)
      end
  end.
Proof.
  unfold VerifyServerCertificate, validity_error. rewrite cert_EncodeNoSig.
  repeat (split_match; try done).
Qed.

(** What the helper makes: the fields given, and a signature of them and the key. *)
Lemma NewSignedCertificate_eq k static from to :
  NewSignedCertificate k static from to =
  (let m := {| snm_Version := to_u16 0; snm_ValidFrom := from; snm_NotValidAfter := to;
               snm_Signature := zero_array 64 |} in
   match schnorr_Sign k (sha256 (signed_bytes m static)) with
   | inr e => (None, Some e)
   | inl sig => (Some (set_signature (sig_Serialize sig) m), None)
   end).
Proof. unfold NewSignedCertificate. by rewrite cert_EncodeNoSig. Qed.

Lemma signed_certificate_verifies {laws : SchnorrLaws} k static from to c :
  NewSignedCertificate k static from to = (Some c, None) →
  snm_Version c = to_u16 0 ∧ snm_ValidFrom c = from ∧ snm_NotValidAfter c = to ∧
  ∀ now, VerifyServerCertificate now (Some c) (pub_X (priv_PubKey k)) static =
    match validity_error now c with Some e => Ret (false, Some e) | None => Ret (true, None) end.
Proof.
  rewrite NewSignedCertificate_eq. cbn zeta. destruct (schnorr_Sign _ _) as [s|] eqn:Es; [|done].
  intros [= <-]. split_and!; [done..|]. intros now. rewrite VerifyServerCertificate_eq.
  destruct (validity_error _ _); [done|]. cbn [snm_Signature set_signature].
  rewrite (sig_roundtrip k _ s Es). destruct (sign_verifies k _ s Es) as (p & -> & Hv).
  unfold signed_bytes, cert_fields in *. cbn [set_signature snm_Version snm_ValidFrom snm_NotValidAfter] in *.
  by rewrite Hv.
Qed.

(** The answer for a certificate signed, as a function of the time. *)
Definition within_validity (from to : u32) (now : Z) : outcome (bool * error) :=
  let t := now mod 2 ^ 32 in
  if t <? Zmod.unsigned from then Ret (false, Some "certificate is not yet valid"%string)
  else if Zmod.unsigned to <? t then Ret (false, Some "certificate has expired"%string)
  else Ret (true, None).

Lemma signed_certificate_window {laws : SchnorrLaws} k static from to c now :
  NewSignedCertificate k static from to = (Some c, None) →
  VerifyServerCertificate now (Some c) (pub_X (priv_PubKey k)) static = within_validity from to now.
Proof.
  intros E. destruct (signed_certificate_verifies k static from to c E) as (Hv & Hf & Ht & ->).
  unfold validity_error, within_validity. rewrite Hv, Hf, Ht.
  change (negb _) with false. cbn iota. cbn zeta. unfold to_u32. rewrite bits.unsigned_of_Z.
  by destruct (now mod 2 ^ 32 <? Zmod.unsigned from), (Zmod.unsigned to <? now mod 2 ^ 32).
Qed.

(** The certificates the package signs are the ones it accepts.  Signing either
    returns the signer's error or a certificate with the given validity; that one
    verifies for the static key it was made for under the signer's public key at all
    times, taken modulo 2^32, from [validFrom] to [notValidAfter], both included,
    and is refused with the error for its case before and after. *)
Theorem NewSignedCertificate_accepted {laws : SchnorrLaws} k static from to :
  (∃ e, NewSignedCertificate k static from to = (None, Some e)) ∨
  ∃ c, NewSignedCertificate k static from to = (Some c, None) ∧
    ∀ now, VerifyServerCertificate now (Some c) (pub_X (priv_PubKey k)) static =
      within_validity from to now.
Proof.
  destruct (NewSignedCertificate k static from to) as [[c|] err] eqn:E.
  - right. assert (err = None) as ->.
    { rewrite NewSignedCertificate_eq in E. cbn zeta in E. destruct (schnorr_Sign _ _); congruence. }
    exists c. split; [done|]. intros now. by apply signed_certificate_window.
  - left. rewrite NewSignedCertificate_eq in E. cbn zeta in E.
    destruct (schnorr_Sign _ _) as [|e]; [done|]. injection E as <-. by exists e.
Qed.

(** C35: what a verified certificate vouches for.  [VerifyServerCertificate] panics for
    a nil certificate only, answers [true] without an error only, and exactly for a
    certificate of format version 0, within its validity, whose signature verifies
    over the hash of the signed bytes; and these bytes determine the version, the
    validity and the static key. *)
Theorem VerifyServerCertificate_accepts_iff now authority static :
  VerifyServerCertificate now None authority static = Panic NilDereference ∧
  (∀ m, ∃ b err, VerifyServerCertificate now (Some m) authority static = Ret (b, err) ∧
    (b = true → err = None) ∧
    (b = true ↔
      Zmod.unsigned (snm_Version m) = 0 ∧
      Zmod.unsigned (snm_ValidFrom m) ≤ now mod 2 ^ 32 ≤ Zmod.unsigned (snm_NotValidAfter m) ∧
      ∃ sig pub, ParseSignature (snm_Signature m) = inl sig ∧ ParsePubKey authority = inl pub ∧
        sig_Verify sig (sha256 (signed_bytes m static)) pub = true)) ∧
  (∀ m1 m2 p1 p2, signed_bytes m1 p1 = signed_bytes m2 p2 →
    snm_Version m1 = snm_Version m2 ∧ snm_ValidFrom m1 = snm_ValidFrom m2 ∧
    snm_NotValidAfter m1 = snm_NotValidAfter m2 ∧ p1 = p2).
Proof.
  split; [done|]. split; [|apply signed_bytes_inj]. intros m. rewrite VerifyServerCertificate_eq.
  unfold validity_error, to_u32. rewrite bits.unsigned_of_Z. change CertificateFormatVersion with 0.
  destruct (Zmod.unsigned (snm_Version m) =? 0) eqn:E1; bool_to_prop; cbn [negb];
    [|do 2 eexists; split; [done|]; naive_solver].
  destruct (_ <? Zmod.unsigned (snm_ValidFrom m)) eqn:E2; bool_to_prop;
    [do 2 eexists; split; [done|]; split; [done|]; split; [done|]; intros (_ & ? & _); lia|].
  destruct (Zmod.unsigned (snm_NotValidAfter m) <? _) eqn:E3; bool_to_prop;
    [do 2 eexists; split; [done|]; split; [done|]; split; [done|]; intros (_ & ? & _); lia|].
  destruct (ParseSignature _) as [sig|], (ParsePubKey _) as [pub|];
    do 2 eexists; (split; [done|]); (split; [done|]); naive_solver.
Qed.

End Signing.

(** ** Authority keys *)

Lemma u8_eqb (x : u8) z : 0 ≤ z < 256 → (Zmod.unsigned x =? z) = bool_decide (x = to_u8 z).
Proof.
  intros Hz. apply eq_true_iff_eq. rewrite Z.eqb_eq, bool_decide_eq_true. split.
  - intros <-. symmetry. apply of_Z_unsigned.
  - intros ->. rewrite unsigned_to_u8. by apply Z.mod_small.
Qed.

(** Authority keys.  A serialized key deserializes to its 32 bytes, and different
    keys serialize differently.  Of any string, [DeserializeAuthorityKey] returns
    the base58check error if it has one; version 1 with an empty payload makes it
    panic; a version other than 1 or a first byte other than 0 is the version
    error; and the rest of the payload is returned as it is, whatever its length. *)
Theorem authority_key_strings {b58 : Base58} {laws : Base58Laws} :
  (∀ k, DeserializeAuthorityKey (SerializeAuthorityKey k) = Ret (Some (arr_bytes k), None)) ∧
  (∀ k k', SerializeAuthorityKey k = SerializeAuthorityKey k' → k = k') ∧
  (∀ s,
    let bad := Ret (None, Some "invalid pubkey base58check version, not [1, 0]"%string) in
    DeserializeAuthorityKey s =
    match CheckDecode s with
    | inr e => Ret (None, Some e)
    | inl (b, v) =>
        if decide (v = to_u8 1) then
          match b with
          | [] => Panic IndexOutOfRange
          | d :: b => if decide (d = to_u8 0) then Ret (Some b, None) else bad
          end
        else bad
    end).
Proof.
  assert (∀ k, DeserializeAuthorityKey (SerializeAuthorityKey k) = Ret (Some (arr_bytes k), None)) as Hr.
  { intros k. unfold DeserializeAuthorityKey, SerializeAuthorityKey. by rewrite CheckDecode_Encode. }
  split; [exact Hr|]. split.
  - intros k k' E. pose proof (Hr k) as H. rewrite E, Hr in H. injection H as H. by apply array_ext.
  - intros s bad. unfold DeserializeAuthorityKey. destruct (CheckDecode s) as [[b v]|e]; [|done].
    rewrite u8_eqb by lia. destruct (decide (v = to_u8 1)) as [E|E];
      [rewrite bool_decide_eq_true_2 by done|by rewrite bool_decide_eq_false_2]. cbn [negb].
    destruct b as [|d b]; [done|]. unfold mbind, outcome_bind, index. cbn [lookup list_lookup].
    rewrite u8_eqb by lia. destruct (decide (d = to_u8 0)) as [E0|E0];
      [by rewrite bool_decide_eq_true_2|by rewrite bool_decide_eq_false_2].
Qed.

(** ** ElligatorSwift encodings and key pairs *)

Section Keypairs.
Context {ec : Secp256k1}.

Definition inv_of_draw (x : FieldVal) (d : array 32 * u8) : option FieldVal :=
  XSwiftECInv (field_of_bytes d.1) x (Zmod.unsigned (Zmod.and d.2 (to_u8 7))).

(** The search for an encoding returns the first draw that has one, with the
    draw's 32 bytes and the low three bits of its last byte, and the pair of field
    elements found; it ends exactly if some draw succeeds. *)
Theorem XElligatorSwift_first_success draws x :
  (∀ u t b c, XElligatorSwift draws x = Some (u, t, b, c) ↔
    ∃ pre d post, draws = pre ++ d :: post ∧ Forall (λ d', inv_of_draw x d' = None) pre ∧
      inv_of_draw x d = Some t ∧ u = field_of_bytes d.1 ∧ b = d.1 ∧ c = Zmod.and d.2 (to_u8 7)) ∧
  (XElligatorSwift draws x ≠ None ↔ Exists (λ d, inv_of_draw x d ≠ None) draws).
Proof.
  induction draws as [|[b0 c0] draws [IH1 IH2]].
  - split; [|split; [done|intros H; inversion H]].
    intros u t b c. split; [done|]. intros (pre & d & post & E & _). by destruct pre.
  - cbn [XElligatorSwift].
    change (XSwiftECInv (field_of_bytes b0) x _) with (inv_of_draw x (b0, c0)).
    destruct (inv_of_draw x (b0, c0)) as [t0|] eqn:E0; split.
    + intros u t b c. split.
      * intros [= <- <- <- <-]. exists [], (b0, c0), draws. by rewrite E0.
      * intros (pre & d & post & E & Hpre & Hd & -> & -> & ->). destruct pre as [|d' pre].
        -- injection E as <- _. rewrite E0 in Hd. injection Hd as ->. done.
        -- injection E as <- _. apply Forall_cons in Hpre as [Hpre _]. congruence.
    + split; [|done]. intros _. apply Exists_cons_hd. by rewrite E0.
    + intros u t b c. rewrite IH1. split.
      * intros (pre & d & post & -> & Hpre & H). exists ((b0, c0) :: pre), d, post.
        split; [done|]. split; [by constructor|done].
      * intros (pre & d & post & E & Hpre & Hd & H). destruct pre as [|d' pre].
        -- injection E as <- _. congruence.
        -- injection E as <- ->. apply Forall_cons in Hpre as [_ Hpre]. exists pre, d, post. done.
    + rewrite IH2, Exists_cons. split; [by right|]. intros [H|H]; [congruence|done].
Qed.

Lemma and_7_idem (c : u8) : Zmod.and (Zmod.and c (to_u8 7)) (to_u8 7) = Zmod.and c (to_u8 7).
Proof.
  apply Zmod.unsigned_inj. rewrite !bits.unsigned_and by lia. rewrite <- Z.land_assoc.
  by rewrite Z.land_diag.
Qed.

Lemma XElligatorSwift_found draws x u t b c :
  XElligatorSwift draws x = Some (u, t, b, c) →
  u = field_of_bytes b ∧ Zmod.and c (to_u8 7) = c ∧ XSwiftECInv u x (Zmod.unsigned c) = Some t.
Proof.
  induction draws as [|[b0 c0] draws IH]; [done|]. cbn [XElligatorSwift].
  destruct (XSwiftECInv (field_of_bytes b0) _ _) eqn:E; [|apply IH]. intros [= <- <- <- <-].
  split; [done|]. split; [apply and_7_idem|done].
Qed.

(** The key pair of a private key and the values of a successful draw. *)
Definition make_keypair (k : PrivateKey) (aux : array 32) (c : u8) (t : FieldVal) : Keypair :=
  {| kp_Private := Some k; kp_Public := Some (priv_PubKey k);
     kp_publicX := arr_bytes (pub_X (priv_PubKey k));
     kp_publicEllswift := ellswift_bytes (field_of_bytes aux) t; kp_auxRand := aux; kp_caseNum := c |}.

Lemma NewKeypair_made r draws kp :
  NewKeypair r draws = Some kp →
  ∃ aux c t, kp = make_keypair (PrivKeyFromBytes r) aux c t ∧ Zmod.and c (to_u8 7) = c ∧
    XSwiftECInv (field_of_bytes aux) (getXCoord (PrivKeyFromBytes r)) (Zmod.unsigned c) = Some t.
Proof.
  unfold NewKeypair, EllswiftCreate.
  destruct (XElligatorSwift draws _) as [[[[u t] b] c]|] eqn:E; [|done]. intros [= <-].
  apply XElligatorSwift_found in E as (-> & Hc & E). by exists b, c, t.
Qed.

Lemma EllswiftRecreate_found r aux c t :
  Zmod.and c (to_u8 7) = c →
  XSwiftECInv (field_of_bytes aux) (getXCoord (PrivKeyFromBytes r)) (Zmod.unsigned c) = Some t →
  EllswiftRecreateFromBytes r aux c =
  (Some (PrivKeyFromBytes r), ellswift_bytes (field_of_bytes aux) t, None).
Proof.
  intros Hc E. unfold EllswiftRecreateFromBytes, XElligatorSwiftAux. by rewrite Hc, E.
Qed.

(** The 65 bytes a key pair is stored in. *)
Definition stored (k aux : array 32) (c : u8) : list u8 := arr_bytes k ++ arr_bytes aux ++ [c].

Lemma length_stored k aux c : length (stored k aux c) = 65%nat.
Proof. unfold stored. rewrite !length_app, !length_arr. reflexivity. Qed.

Lemma Keypair_Encode_made {go : GoAlloc} k aux c t :
  Keypair_Encode (make_keypair k aux c t) = Ret (Some (stored (priv_Serialize k) aux c), None).
Proof.
  unfold Keypair_Encode, make_keypair, stored. cbn [kp_Private kp_auxRand kp_caseNum].
  unfold mret, outcome_ret. f_equal.
  apply (Built_Bytes _ (stored (priv_Serialize k) aux c, None)).
  eapply Built_eq; [repeat (eapply Built_step; [solve [eauto with emits]|]); apply Built_new|].
  rewrite !wapp_nil_l, w_u8_byte. unfold wapp, w_array, wbytes, stored. cbn [fst snd]. by rewrite <- app_assoc.
Qed.

(** One of the two 32-byte values read. *)
Lemma read_32 {B} (k : array 32 → Reader B) br (x : array 32) tail :
  reader_ok br → br_data br ≠ None → Z.of_nat (br_pos br) + 32 < 2 ^ 63 →
  rest br = arr_bytes x ++ tail →
  (p ← ReadBytes 32; a ← lift (slice_to_array 32 p); k a) br = k x (advance br 32) ∧
  reader_ok (advance br 32) ∧ rest (advance br 32) = tail.
Proof.
  intros Hok Hd Hp Hr. pose proof (length_arr 32 x) as Hl.
  assert (ReadBytes 32 br = Ret (Some (arr_bytes x), advance br 32)) as E.
  { transitivity (Ret (Some (take 32 (rest br)), advance br 32)).
    - apply (ReadBytes_enough br 32); done || (rewrite Hr, length_app, Hl; lia).
    - by rewrite Hr, take_app_length'. }
  split; [|split].
  - unfold mbind, reader_bind. rewrite E. unfold lift. rewrite slice_to_array_exact by done.
    simpl. by rewrite to_array_arr_bytes.
  - pose proof (advance_ok br (arr_bytes x)) as Ha. rewrite Hl, Hr in Ha.
    apply Ha; [done|by exists tail].
  - by rewrite rest_advance, Hr, drop_app_length'.
Qed.

Lemma read_keypair_stored k aux c tail :
  decode_with read_keypair (Some (arr_bytes k ++ arr_bytes aux ++ c :: tail)) =
  Ret ((k, aux, c), None).
Proof.
  unfold decode_with, read_keypair. set (br := NewBinaryReader _).
  destruct (read_32 (λ privkey, a ← ReadBytes 32; auxRand ← lift (slice_to_array 32 a);
    caseNum ← ReadU8; mret (privkey, auxRand, caseNum)) br k (arr_bytes aux ++ c :: tail))
    as (-> & Hok & Hr); [apply new_ok|done|done|done|].
  destruct (read_32 (λ auxRand, caseNum ← ReadU8; mret (k, auxRand, caseNum))
    (advance br 32) aux (c :: tail)) as (-> & Hok2 & Hr2); [done|done|done|done|].
  unfold mbind, reader_bind.
  rewrite (parses_complete _ _ Parses_ReadU8 _ c [c]);
    [done|done|apply w_u8_byte|rewrite Hr2; by exists tail].
Qed.

Lemma read_32_short {B} (k : array 32 → Reader B) br :
  reader_ok br → Z.of_nat (br_pos br) + 32 < 2 ^ 63 → (length (rest br) < 32)%nat →
  (p ← ReadBytes 32; a ← lift (slice_to_array 32 p); k a) br = Panic SliceToArrayTooShort.
Proof.
  intros Hok Hp Hn. destruct (read_short br 32 Hok Hn) as (b & Er & Hb & _).
  change (Z.of_nat 32) with 32 in Er. unfold mbind, reader_bind, ReadBytes, unless_err.
  rewrite (proj1 Hok). replace (2 ^ 63 <=? _) with false by (symmetry; apply Z.leb_gt; lia).
  rewrite Er. unfold lift. rewrite slice_to_array_short; [done|]. rewrite Hb. simpl. lia.
Qed.

Lemma split_array n l : (n ≤ length l)%nat → ∃ a : array n, ∃ tl, l = arr_bytes a ++ tl.
Proof.
  intros Hn. exists (to_array n (take n l)), (drop n l).
  rewrite arr_bytes_to_array by (rewrite length_take; lia). by rewrite take_drop.
Qed.

(** Shorter data panics. *)
Lemma read_keypair_short b : (length (sbytes b) < 65)%nat →
  ∃ p, decode_with read_keypair b = Panic p.
Proof.
  intros Hb. unfold decode_with, read_keypair. set (br := NewBinaryReader b).
  assert (reader_ok br) as Hok by apply new_ok.
  assert (rest br = sbytes b) as Hr by reflexivity.
  destruct (decide (length (sbytes b) < 32)%nat) as [H1|H1];
    [rewrite read_32_short by (done || rewrite Hr; done); eauto|].
  destruct (split_array 32 (sbytes b)) as (x & tl & E); [lia|].
  assert (br_data br ≠ None) as Hd by (intros E0; simpl in E0; subst b; simpl in H1; lia).
  destruct (read_32 (λ privkey, a ← ReadBytes 32; auxRand ← lift (slice_to_array 32 a);
    caseNum ← ReadU8; mret (privkey, auxRand, caseNum)) br x tl)
    as (-> & Hok1 & Hr1); [done|done|done|by rewrite Hr|].
  assert (length tl < 33)%nat as Hl by (rewrite E, length_app, length_arr in Hb; lia).
  destruct (decide (length tl < 32)%nat) as [H2|H2];
    [rewrite read_32_short by (done || rewrite Hr1; done); eauto|].
  destruct (split_array 32 tl) as (y & tl2 & ->); [lia|].
  destruct (read_32 (λ auxRand, caseNum ← ReadU8; mret (x, auxRand, caseNum))
    (advance br 32) y tl2) as (-> & Hok2 & Hr2); [done|done|done|done|].
  rewrite length_app, length_arr in Hl. assert (length tl2 = 0)%nat as Hz by lia.
  destruct (read_short_some (advance (advance br 32) 32) 1) as [br' Er];
    [done|done|rewrite Hr2; lia|].
  unfold mbind, reader_bind, ReadU8, unless_err, reader_bind, mbind. rewrite (proj1 Hok2).
  change (Z.of_nat 1) with 1 in Er. rewrite Er. eexists. reflexivity.
Qed.

(** Key pairs survive storage.  What [Encode] stores of a key pair that
    [NewKeypair] made is 65 bytes, and [Decode] makes the same key pair of them,
    whatever follows them and whatever the receiver held; so does [NewKeypairFrom]
    of the components. *)
Theorem Keypair_storage_roundtrip {laws : Secp256k1Laws} {go : GoAlloc} r draws kp
    (Hkp : NewKeypair r draws = Some kp) :
  NewKeypairFrom r (kp_auxRand kp) (kp_caseNum kp) = (Some kp, None) ∧
  ∃ bs, Keypair_Encode kp = Ret (Some bs, None) ∧ len bs = 65 ∧
    ∀ kp0 tail, Keypair_Decode kp0 (Some (bs ++ tail)) = Ret (kp, None).
Proof.
  destruct (NewKeypair_made r draws kp Hkp) as (aux & c & t & -> & Hc & Et). split.
  - unfold NewKeypairFrom. cbn [kp_auxRand kp_caseNum make_keypair].
    by rewrite (EllswiftRecreate_found r aux c t).
  - eexists. rewrite Keypair_Encode_made. split; [done|].
    split; [unfold len; by rewrite length_stored|]. intros kp0 tail.
    unfold Keypair_Decode, stored. rewrite <- !app_assoc. simpl ([c] ++ tail).
    rewrite read_keypair_stored. unfold mbind, outcome_bind.
    rewrite <- (priv_roundtrip (PrivKeyFromBytes r)) in Et.
    rewrite (EllswiftRecreate_found _ aux c t) by done. by rewrite priv_roundtrip.
Qed.

(** Every branch of [Keypair.Decode].  Fewer than 65 bytes panic; 65 or more give
    the key pair [NewKeypairFrom] makes of them, or its error, and then the receiver
    is left without a private key and with an empty encoding, its public key as it
    was. *)
Theorem Keypair_Decode_outcomes kp b :
  ((length (sbytes b) < 65)%nat → ∃ p, Keypair_Decode kp b = Panic p) ∧
  (∀ (k aux : array 32) c tail, b = Some (arr_bytes k ++ arr_bytes aux ++ c :: tail) →
    Keypair_Decode kp b =
    match NewKeypairFrom k aux c with
    | (Some kp', None) => Ret (kp', None)
    | (_, err) =>
        Ret ({| kp_Private := None; kp_Public := kp_Public kp; kp_publicX := kp_publicX kp;
                kp_publicEllswift := zero_array 64; kp_auxRand := aux; kp_caseNum := c |}, err)
    end) ∧
  ((65 ≤ length (sbytes b))%nat →
    ∃ (k aux : array 32) c tail, b = Some (arr_bytes k ++ arr_bytes aux ++ c :: tail)).
Proof.
  split; [|split].
  - intros Hb. destruct (read_keypair_short b Hb) as [p E]. exists p. unfold Keypair_Decode.
    by rewrite E.
  - intros k aux c tail ->. unfold Keypair_Decode, NewKeypairFrom. rewrite read_keypair_stored.
    unfold mbind, outcome_bind, EllswiftRecreateFromBytes, XElligatorSwiftAux.
    by destruct (XSwiftECInv _ _ _).
  - destruct b as [b|]; simpl; [|lia]. intros Hb.
    destruct (split_array 32 b) as (k & tl & ->); [lia|]. rewrite length_app, length_arr in Hb.
    destruct (split_array 32 tl) as (aux & tl2 & ->); [lia|]. rewrite length_app, length_arr in Hb.
    destruct tl2 as [|c tail]; [simpl in Hb; lia|]. by exists k, aux, c, tail.
Qed.

End Keypairs.

(** ** Instances of the laws

    A toy curve whose public keys are the private ones, with an encoding for seven of
    the eight cases, and signatures that repeat what they sign. *)

Definition halves (e : array 64) : array 32 * array 32 :=
  (to_array 32 (take 32 (arr_bytes e)), to_array 32 (drop 32 (arr_bytes e))).
#[local] Arguments halves _ : simpl never.

Definition toy_curve : Secp256k1 := {|
  PrivateKey := array 32; PublicKey := array 32; FieldVal := array 32; JacobianPoint := array 32;
  PrivKeyFromBytes := id; priv_Serialize := id; priv_PubKey := id;
  priv_IsZero k := bool_decide (k = zero_array 32); pub_X := id;
  ScalarBaseMultNonConst := id; ToAffine := id; jacobian_X := id;
  field_SetBytes b := (b, false); field_Normalize := id; field_Bytes := id;
  XSwiftECInv _ x c := if c =? 0 then None else Some x;
  XSwiftEC _ t := inl t;
  V2Ecdh k theirs _ _ :=
    inl (to_array 32 (zip_with Zmod.add (arr_bytes k) (arr_bytes (halves theirs).2))) |}.

Lemma toy_curve_laws : @Secp256k1Laws toy_curve.
Proof. by split. Qed.

Lemma toy_ellswift_half (k : array 32) (e : array 64) :
  ellswift_of (ec := toy_curve) k e → (halves e).2 = k.
Proof.
  intros (b & c & t & Et & ->). apply array_ext. unfold halves. cbn [snd].
  simpl in Et. destruct (c =? 0); [done|]. injection Et as <-.
  change (ellswift_bytes _ _) with (to_array 64 (arr_bytes b ++ arr_bytes (getXCoord (ec := toy_curve) k))).
  change (getXCoord (ec := toy_curve) k) with k.
  rewrite (arr_bytes_to_array 64) by (rewrite length_app, !length_arr; reflexivity).
  rewrite drop_app_length' by (symmetry; apply length_arr). by rewrite to_array_arr_bytes.
Qed.

Lemma zip_add_comm (l k : list u8) : zip_with Zmod.add l k = zip_with Zmod.add k l.
Proof. revert k. induction l as [|x l IH]; intros [|y k]; simpl; [done..|]. by rewrite Zmod.add_comm, IH. Qed.

Lemma toy_ellswift_laws : @EllswiftLaws toy_curve.
Proof.
  split.
  - intros k e _ He. simpl. unfold id. eexists. split; [reflexivity|]. by apply toy_ellswift_half.
  - intros k1 k2 e1 e2 _ _ H1%toy_ellswift_half H2%toy_ellswift_half.
    cbn [V2Ecdh toy_curve]. rewrite H1, H2. eexists. split; [reflexivity|].
    by rewrite zip_add_comm.
Qed.

Definition toy_schnorr : @Schnorr toy_curve :=
  @Build_Schnorr toy_curve (array 64) (array 32)
    (λ k m : array 32, inl (to_array 64 (arr_bytes k ++ arr_bytes m)))
    id inl inl
    (λ (s : array 64) (m p : array 32), bool_decide (arr_bytes s = arr_bytes p ++ arr_bytes m)).

Lemma toy_schnorr_laws : @SchnorrLaws toy_curve toy_schnorr.
Proof.
  split; [done|]. intros k m s [= <-]. exists k. split; [done|]. simpl.
  apply bool_decide_eq_true. apply (arr_bytes_to_array 64). by rewrite length_app, !length_arr.
Qed.

Definition toy_sha : SHA256 := {| sha256 l := to_array 32 l |}.
Definition toy_base58 : Base58 := {|
  CheckEncode b v := v :: b;
  CheckDecode s := match s with [] => inr "invalid format"%string | v :: b => inl (b, v) end |}.
Lemma toy_base58_laws : @Base58Laws toy_base58.
Proof. by split. Qed.

Definition toy_secret : array 32 := to_array 32 [to_u8 5].
Definition toy_draws : list (array 32 * u8) :=
  [(zero_array 32, to_u8 8); (to_array 32 [to_u8 1], to_u8 9)].
Definition toy_keypair : Keypair (ec := toy_curve) :=
  make_keypair (ec := toy_curve) toy_secret (to_array 32 [to_u8 1]) (to_u8 1) toy_secret.

Lemma toy_keypair_new : NewKeypair (ec := toy_curve) toy_secret toy_draws = Some toy_keypair.
Proof. reflexivity. Qed.

Lemma Keypair_storage_roundtrip_witness :
  ∃ bs, Keypair_Encode (ec := toy_curve) (go := exact_alloc) toy_keypair = Ret (Some bs, None) ∧
    Keypair_Decode (ec := toy_curve) toy_keypair (Some (bs ++ [])) = Ret (toy_keypair, None).
Proof.
  destruct (Keypair_storage_roundtrip (ec := toy_curve) (laws := toy_curve_laws) (go := exact_alloc)
    toy_secret toy_draws toy_keypair toy_keypair_new) as (_ & bs & E & _ & D).
  exists bs. split; [exact E|apply D].
Defined.

Lemma Keypair_Decode_outcomes_witness :
  ∃ p, Keypair_Decode (ec := toy_curve) toy_keypair (Some [to_u8 1]) = Panic p.
Proof.
  apply (Keypair_Decode_outcomes (ec := toy_curve) toy_keypair (Some [to_u8 1])).
  apply Nat.ltb_lt. reflexivity.
Defined.

Lemma authority_key_strings_witness :
  DeserializeAuthorityKey (b58 := toy_base58) (SerializeAuthorityKey (b58 := toy_base58) toy_secret)
    = Ret (Some (arr_bytes toy_secret), None) ∧
  DeserializeAuthorityKey (b58 := toy_base58) (CheckEncode (Base58 := toy_base58) [] (to_u8 1))
    = Panic IndexOutOfRange.
Proof.
  destruct (authority_key_strings (b58 := toy_base58) (laws := toy_base58_laws)) as (E1 & _ & E2).
  split; [apply E1|]. rewrite E2. reflexivity.
Defined.

Lemma NewSignedCertificate_accepted_witness :
  ∃ c, NewSignedCertificate (ec := toy_curve) (sch := toy_schnorr) (sha := toy_sha) (go := exact_alloc)
         toy_secret toy_secret (to_u32 10) (to_u32 20) = (Some c, None) ∧
    VerifyServerCertificate (ec := toy_curve) (sch := toy_schnorr) (sha := toy_sha) (go := exact_alloc)
      15 (Some c) toy_secret toy_secret = Ret (true, None).
Proof.
  destruct (NewSignedCertificate_accepted (ec := toy_curve) (sch := toy_schnorr) (sha := toy_sha)
    (go := exact_alloc) (laws := toy_schnorr_laws) toy_secret toy_secret (to_u32 10) (to_u32 20))
    as [[e E]|(c & E & V)]; [discriminate E|].
  exists c. split; [exact E|]. exact (V 15).
Defined.

Lemma VerifyServerCertificate_accepts_iff_witness :
  VerifyServerCertificate (ec := toy_curve) (sch := toy_schnorr) (sha := toy_sha) (go := exact_alloc)
    0 None toy_secret toy_secret = Panic NilDereference.
Proof.
  apply (VerifyServerCertificate_accepts_iff (ec := toy_curve) (sch := toy_schnorr) (sha := toy_sha)
    (go := exact_alloc) 0 toy_secret toy_secret).
Defined.
