(* ===== verification/Handshake.v ===== *)
(** * The Noise NX handshake (noise.go)

    [HandshakeState] and the two sides of the handshake.  A side is a function of its
    ephemeral key pair ([NewKeypair]'s result), the state it is called on and the
    connection: the bytes it will read and what it has written. *)
From S2P Require Import Prelude GoInts Constants Wire Builder Reader Sequences Codec Frame Cipher.
From S2P Require Import Hashes Keys.

(** [hs.cs] is set before any other method is called; [hs.cert] is nil until the
    initiator has received a certificate. *)
Record HandshakeState := {
  hs_cs : CipherState;
  hs_h : array 32;                          (* handshake hash *)
  hs_ck : array 32;                         (* chaining key *)
  hs_cert : option SIGNATURE_NOISE_MESSAGE;
  hs_serverStatic : EllswiftPubkey
}.

(** [HandshakeState{}] *)
Definition zero_handshake : HandshakeState :=
  {| hs_cs := zero_cipher; hs_h := zero_array 32; hs_ck := zero_array 32; hs_cert := None;
     hs_serverStatic := zero_array 64 |}.

Definition set_cs (cs : CipherState) (hs : HandshakeState) : HandshakeState :=
  {| hs_cs := cs; hs_h := hs_h hs; hs_ck := hs_ck hs; hs_cert := hs_cert hs;
     hs_serverStatic := hs_serverStatic hs |}.
Definition set_h (h : array 32) (hs : HandshakeState) : HandshakeState :=
  {| hs_cs := hs_cs hs; hs_h := h; hs_ck := hs_ck hs; hs_cert := hs_cert hs;
     hs_serverStatic := hs_serverStatic hs |}.
Definition set_ck (ck : array 32) (hs : HandshakeState) : HandshakeState :=
  {| hs_cs := hs_cs hs; hs_h := hs_h hs; hs_ck := ck; hs_cert := hs_cert hs;
     hs_serverStatic := hs_serverStatic hs |}.
Definition set_cert (c : SIGNATURE_NOISE_MESSAGE) (hs : HandshakeState) : HandshakeState :=
  {| hs_cs := hs_cs hs; hs_h := hs_h hs; hs_ck := hs_ck hs; hs_cert := Some c;
     hs_serverStatic := hs_serverStatic hs |}.
Definition set_serverStatic (e : EllswiftPubkey) (hs : HandshakeState) : HandshakeState :=
  {| hs_cs := hs_cs hs; hs_h := hs_h hs; hs_ck := hs_ck hs; hs_cert := hs_cert hs;
     hs_serverStatic := e |}.

(** An [io.ReadWriter]: what it delivers, and the buffers handed to [Write], whose
    answers the handshake does not look at. *)
Record ReadWriter := { rw_in : stream; rw_out : list (list u8) }.

Definition rw_Write (b : list u8) (rw : ReadWriter) : ReadWriter :=
  {| rw_in := rw_in rw; rw_out := rw_out rw ++ [b] |}.
Definition rw_ReadFull (n : nat) (rw : ReadWriter) : list u8 * error * ReadWriter :=
  let '(b, err, r) := ReadFull n (rw_in rw) in (b, err, {| rw_in := r; rw_out := rw_out rw |}).

Section Handshake.
Context {ae : AEAD} {fl : GoFloat} {sha : SHA256} {ec : Secp256k1}.

Definition mixHash (data : list u8) (hs : HandshakeState) : HandshakeState :=
  set_h (sha256 (arr_bytes (hs_h hs) ++ data)) hs.

Definition mixKey (inputKeyMaterial : list u8) (hs : HandshakeState) : HandshakeState :=
  let '(ck, temp) := HKDF (arr_bytes (hs_ck hs)) inputKeyMaterial in
  let hs := set_ck ck hs in
  set_cs (InitializeKey temp (hs_cs hs)).1 hs.

(** An error of [EncryptWithAd] is dropped: the ciphertext is nil then. *)
Definition encryptAndHash (plaintext : list u8) (hs : HandshakeState) :
    outcome (bslice * HandshakeState) :=
  '(ciphertext, hs) ←
    (if negb (len (cs_k (hs_cs hs)) =? 0) then
       '(ciphertext, _, cs) ← EncryptWithAd (arr_bytes (hs_h hs)) plaintext (hs_cs hs);
       mret (ciphertext, set_cs cs hs)
     else mret (Some plaintext, hs));
  mret (ciphertext, mixHash (sbytes ciphertext) hs).

Definition decryptAndHash (ciphertext : list u8) (hs : HandshakeState) :
    outcome (bslice * error * HandshakeState) :=
  '(plaintext, err, hs) ←
    (if negb (len (cs_k (hs_cs hs)) =? 0) then
       '(plaintext, err, cs) ← DecryptWithAd (arr_bytes (hs_h hs)) ciphertext (hs_cs hs);
       mret (plaintext, err, set_cs cs hs)
     else mret (Some ciphertext, None, hs));
  match err with
  | Some _ => mret (None, err, hs)
  | None => mret (plaintext, None, mixHash ciphertext hs)
  end.

(** An error of the curve code is a panic. *)
Definition ecdh (k : Keypair) (remoteKey : EllswiftPubkey) (initiator : bool) : outcome (list u8) :=
  match kp_Private k with
  | None => Panic NilDereference
  | Some priv =>
      match V2Ecdh priv remoteKey (SerializeEllswift k) initiator with
      | inr e => Panic (ExplicitPanic e)
      | inl hash => mret (arr_bytes hash)
      end
  end.

(** The first lines of both sides: the certificate and the static key, if the state
    was used before, stay. *)
Definition start_handshake (hs : HandshakeState) : HandshakeState :=
  let '(ck, h) := handshakeInit in
  set_h h (set_ck ck (set_cs zero_cipher hs)).

(** What a side returns: its two cipher states, or nil pointers, and the error. *)
Definition hs_result : Type := option CipherState * option CipherState * error.

(** The pair of cipher states at the end: [k1]'s, then [k2]'s. *)
Definition split_keys (hs : HandshakeState) : CipherState * CipherState :=
  let '(temp_k1, temp_k2) := HKDF (arr_bytes (hs_ck hs)) [] in
  ((InitializeKey temp_k1 zero_cipher).1, (InitializeKey temp_k2 zero_cipher).1).

(** The result is [send], [recv]. *)
Definition PerformHandshakeInitiator (ephemeral : Keypair) (rw : ReadWriter) (hs : HandshakeState) :
    outcome (hs_result * ReadWriter * HandshakeState) :=
  let hs := start_handshake hs in
  let out := SerializeEllswiftBytes ephemeral in
  let hs := mixHash (SerializeEllswiftBytes ephemeral) hs in
  '(_, hs) ← encryptAndHash [] hs;
  let rw := rw_Write out rw in
  let '(pt2, err, rw) := rw_ReadFull 234 rw in
  match err with
  | Some _ => mret (None, None, err, rw, hs)
  | None =>
  let remoteEphemeral := take 64 pt2 in
  let encryptedStatic := take 80 (drop 64 pt2) in
  let encryptedCert := drop 144 pt2 in
  let hs := mixHash remoteEphemeral hs in
  re ← slice_to_array 64 (Some remoteEphemeral);
  sharedeeDH ← ecdh ephemeral re true;
  let hs := mixKey sharedeeDH hs in
  '(plainStatic, err, hs) ← decryptAndHash encryptedStatic hs;
  match err with
  | Some _ => mret (None, None, err, rw, hs)
  | None =>
  rs ← slice_to_array 64 plainStatic;
  let hs := set_serverStatic rs hs in
  sharedesDH ← ecdh ephemeral rs true;
  let hs := mixKey sharedesDH hs in
  '(plainCert, err, hs) ← decryptAndHash encryptedCert hs;
  match err with
  | Some _ => mret (None, None, err, rw, hs)
  | None =>
  '(cert, err) ← SIGNATURE_NOISE_MESSAGE_Decode
    {| snm_Version := to_u16 0; snm_ValidFrom := to_u32 0; snm_NotValidAfter := to_u32 0;
       snm_Signature := zero_array 64 |} plainCert;
  match err with
  | Some _ => mret (None, None, err, rw, hs)
  | None =>
  let hs := set_cert cert hs in
  let '(send, recv) := split_keys hs in
  mret (Some send, Some recv, None, rw, hs)
  end end end end.

(** The result is [recv], [send].  The certificate and the key pair are pointers. *)
Definition PerformHandshakeResponder {go : GoAlloc} (ephemeral : Keypair) (rw : ReadWriter)
    (signedCert : option SIGNATURE_NOISE_MESSAGE) (staticKeys : option Keypair)
    (hs : HandshakeState) : outcome (hs_result * ReadWriter * HandshakeState) :=
  let hs := start_handshake hs in
  let '(remoteEphemeral, err, rw) := rw_ReadFull 64 rw in
  match err with
  | Some _ => mret (None, None, err, rw, hs)
  | None =>
  let hs := mixHash remoteEphemeral hs in
  '(_, err, hs) ← decryptAndHash [] hs;
  match err with
  | Some _ => mret (None, None, err, rw, hs)
  | None =>
  let out := SerializeEllswiftBytes ephemeral in
  let hs := mixHash (SerializeEllswiftBytes ephemeral) hs in
  re ← slice_to_array 64 (Some remoteEphemeral);
  sharedeeDH ← ecdh ephemeral re false;
  let hs := mixKey sharedeeDH hs in
  match staticKeys with
  | None => Panic NilDereference
  | Some staticKeys =>
  '(c, hs) ← encryptAndHash (SerializeEllswiftBytes staticKeys) hs;
  let out := out ++ sbytes c in
  sharedesDH ← ecdh staticKeys re false;
  let hs := mixKey sharedesDH hs in
  match signedCert with
  | None => Panic NilDereference
  | Some signedCert =>
  let '(certBytes, err) := SIGNATURE_NOISE_MESSAGE_Encode signedCert in
  match err with
  | Some _ => mret (None, None, err, rw, hs)
  | None =>
  '(c, hs) ← encryptAndHash (sbytes certBytes) hs;
  let out := out ++ sbytes c in
  let rw := rw_Write out rw in
  let '(recv, send) := split_keys hs in
  mret (Some recv, Some send, None, rw, hs)
  end end end end end.

(** The static key's x coordinate, from the halves of its encoding, then the
    package's function. *)
Definition HandshakeState_VerifyServerCertificate {go : GoAlloc} {sch : Schnorr} (now : Z)
    (authorityPubkey : Pubkey) (hs : HandshakeState) : outcome (bool * error) :=
  let u := (field_SetBytes (to_array 32 (take 32 (arr_bytes (hs_serverStatic hs))))).1 in
  let t := (field_SetBytes (to_array 32 (drop 32 (arr_bytes (hs_serverStatic hs))))).1 in
  match XSwiftEC u t with
  | inr err => mret (false, Some err)
  | inl serverStaticX =>
      VerifyServerCertificate now (hs_cert hs) authorityPubkey
        (field_Bytes (field_Normalize serverStaticX))
  end.

End Handshake.
