(* ===== verification/HandshakeProps.v ===== *)
(** * What the handshake promises (noise.go)

    The Noise NX key schedule as an abstract specification, refined by the two sides;
    their agreement, the initiator's errors, the authentication of the server and
    the session of frames that follows. *)
From S2P Require Import Prelude GoInts Constants Wire Builder Reader Sequences Codec Frame FrameFacts.
From S2P Require Import Cipher CipherProps Transport Hashes Keys KeysProps Handshake.

(** ** The key schedule of the NX pattern

    [e] and [re] are the encodings of the initiator's and of the responder's ephemeral
    key, [ee] and [es] the two shared secrets, [cs] and [cc] the encrypted static key
    and certificate of the second message. *)
Section Schedule.
Context {ae : AEAD} {sha : SHA256}.

Definition mix (h : array 32) (data : list u8) : array 32 := sha256 (arr_bytes h ++ data).

(** The handshake hash after both ephemeral keys, and after the static key. *)
Definition hash1 (e re : list u8) : array 32 := mix (mix (mix handshakeInit.2 e) []) re.
Definition hash2 (e re cs : list u8) : array 32 := mix (hash1 e re) cs.

(** The chaining key and the cipher key after each secret. *)
Definition keys1 (ee : list u8) : array 32 * array 32 := HKDF (arr_bytes handshakeInit.1) ee.
Definition keys2 (ee es : list u8) : array 32 * array 32 := HKDF (arr_bytes (keys1 ee).1) es.
Definition transport_keys (ee es : list u8) : array 32 * array 32 :=
  HKDF (arr_bytes (keys2 ee es).1) [].

Definition nonce0 : list u8 := nonce_bytes (to_u64 0).

Definition seal_static (e re ee rs : list u8) : list u8 :=
  Seal (keys1 ee).2 nonce0 rs (arr_bytes (hash1 e re)).
Definition open_static (e re ee cs : list u8) : option (list u8) :=
  Open (keys1 ee).2 nonce0 cs (arr_bytes (hash1 e re)).
Definition seal_cert (e re ee es cs c : list u8) : list u8 :=
  Seal (keys2 ee es).2 nonce0 c (arr_bytes (hash2 e re cs)).
Definition open_cert (e re ee es cs cc : list u8) : option (list u8) :=
  Open (keys2 ee es).2 nonce0 cc (arr_bytes (hash2 e re cs)).

(** The responder's message. *)
Definition act2 (e re ee es rs c : list u8) : list u8 :=
  let cs := seal_static e re ee rs in re ++ cs ++ seal_cert e re ee es cs c.

(** The two cipher states: from initiator to responder, and back. *)
Definition transport_states (ee es : list u8) : CipherState * CipherState :=
  (keyed (transport_keys ee es).1 (to_u64 0), keyed (transport_keys ee es).2 (to_u64 0)).

End Schedule.

(** ** Single steps *)

Section Steps.
Context {ae : AEAD} {fl : GoFloat} {sha : SHA256} {ec : Secp256k1}.

Definition auth_error : error := Some "chacha20poly1305: message authentication failed"%string.

Lemma hash_unkeyed hs : hs_cs hs = zero_cipher →
  (∀ p, encryptAndHash p hs = Ret (Some p, mixHash p hs)) ∧
  (∀ c, decryptAndHash c hs = Ret (Some c, None, mixHash c hs)).
Proof. intros Hcs. unfold encryptAndHash, decryptAndHash. rewrite Hcs. done. Qed.

(** The state after a message [c] under a fresh key. *)
Definition after_sealed (key : array 32) (c : list u8) (hs : HandshakeState) : HandshakeState :=
  mixHash c (set_cs (keyed key (to_u64 1)) hs).

Lemma encryptAndHash_fresh key p hs :
  0 < max_nonce → hs_cs hs = keyed key (to_u64 0) →
  let c := Seal key nonce0 p (arr_bytes (hs_h hs)) in
  encryptAndHash p hs = Ret (Some c, after_sealed key c hs).
Proof.
  intros Hmax Hcs. cbn zeta. unfold encryptAndHash. rewrite Hcs, keyed_k. cbn [negb].
  unfold mbind, outcome_bind, mret, outcome_ret. by rewrite EncryptWithAd_at by lia.
Qed.

Lemma decryptAndHash_fresh key c hs :
  0 < max_nonce → hs_cs hs = keyed key (to_u64 0) →
  decryptAndHash c hs =
  match Open key nonce0 c (arr_bytes (hs_h hs)) with
  | None => Ret (None, auth_error, hs)
  | Some p => Ret (Some p, None, after_sealed key c hs)
  end.
Proof.
  intros Hmax Hcs. unfold decryptAndHash. rewrite Hcs, keyed_k. cbn [negb].
  unfold mbind, outcome_bind, mret, outcome_ret. rewrite DecryptWithAd_at by lia. unfold nonce0.
  destruct (Open _ _ _ _); [done|]. unfold set_cs. destruct hs. simpl in *. by subst.
Qed.

End Steps.

(** ** The initiator *)

Section Initiator.
Context {ae : AEAD} {laws : AEADLaws} {fl : GoFloat} {sha : SHA256} {ec : Secp256k1}.

(** What a caller sees of a handshake: the result, the connection, and the state's
    certificate and static key. *)
Definition observe (x : hs_result * ReadWriter * HandshakeState) :
    hs_result * ReadWriter * (option SIGNATURE_NOISE_MESSAGE * EllswiftPubkey) :=
  let '(r, rw, hs) := x in (r, rw, (hs_cert hs, hs_serverStatic hs)).

(** The initiator of the specification, with private key [priv] and encoding [e];
    [seen] is the certificate and the static key the state holds. *)
Definition nx_initiator (priv : PrivateKey) (e : EllswiftPubkey) (rw : ReadWriter)
    (seen : option SIGNATURE_NOISE_MESSAGE * EllswiftPubkey) :
    outcome (hs_result * ReadWriter * (option SIGNATURE_NOISE_MESSAGE * EllswiftPubkey)) :=
  let '(pt2, err, rw) := rw_ReadFull 234 (rw_Write (arr_bytes e) rw) in
  match err with
  | Some _ => Ret (None, None, err, rw, seen)
  | None =>
  let re := take 64 pt2 in
  let cs := take 80 (drop 64 pt2) in
  match V2Ecdh priv (to_array 64 re) e true with
  | inr m => Panic (ExplicitPanic m)
  | inl ee =>
  match open_static (arr_bytes e) re (arr_bytes ee) cs with
  | None => Ret (None, None, auth_error, rw, seen)
  | Some rs =>
  match V2Ecdh priv (to_array 64 rs) e true with
  | inr m => Panic (ExplicitPanic m)
  | inl es =>
  match open_cert (arr_bytes e) re (arr_bytes ee) (arr_bytes es) cs (drop 144 pt2) with
  | None => Ret (None, None, auth_error, rw, (seen.1, to_array 64 rs))
  | Some c =>
      '(cert, _) ← SIGNATURE_NOISE_MESSAGE_Decode
        {| snm_Version := to_u16 0; snm_ValidFrom := to_u32 0; snm_NotValidAfter := to_u32 0;
           snm_Signature := zero_array 64 |} (Some c);
      let '(send, recv) := transport_states (arr_bytes ee) (arr_bytes es) in
      Ret (Some send, Some recv, None, rw, (Some cert, to_array 64 rs))
  end end end end end.

Lemma Open_size key n c ad p : Open key n c ad = Some p → length c = (length p + 16)%nat.
Proof. intros E%Open_length. unfold len in E. change MacLen with 16 in E. lia. Qed.

Lemma initiator_refines eph priv rw hs :
  0 < max_nonce → kp_Private eph = Some priv →
  observe <$> PerformHandshakeInitiator eph rw hs =
  nx_initiator priv (kp_publicEllswift eph) rw (hs_cert hs, hs_serverStatic hs).
Proof.
  intros Hmax Hpriv. unfold PerformHandshakeInitiator, nx_initiator, ecdh, SerializeEllswiftBytes,
    SerializeEllswift. rewrite Hpriv. set (e := kp_publicEllswift eph).
  rewrite (proj1 (hash_unkeyed (mixHash (arr_bytes e) (start_handshake hs)) eq_refl)).
  unfold mbind, outcome_bind, mret, outcome_ret.
  destruct (rw_ReadFull 234 _) as [[pt2 [err|]] rw'] eqn:Er; [done|].
  assert (length pt2 = 234%nat) as Hpt2.
  { unfold rw_ReadFull in Er. destruct (ReadFull _ _) as [[l er] r'] eqn:Ef.
    injection Er as -> -> _. by apply ReadFull_ok in Ef as (? & _). }
  rewrite slice_to_array_exact by (simpl; rewrite length_take; lia). simpl sbytes.
  destruct (V2Ecdh priv (to_array 64 (take 64 pt2)) e true) as [ee|m]; [|done].
  rewrite (decryptAndHash_fresh (keys1 (arr_bytes ee)).2) by done.
  change (Open _ nonce0 _ _) with (open_static (arr_bytes e) (take 64 pt2) (arr_bytes ee) (take 80 (drop 64 pt2))).
  destruct (open_static _ _ _ _) as [rs|] eqn:Es; [|done].
  assert (length rs = 64%nat) as Hrs
    by (apply Open_size in Es; rewrite length_take, length_drop in Es; lia).
  rewrite slice_to_array_exact by done. simpl sbytes.
  destruct (V2Ecdh priv (to_array 64 rs) e true) as [es|m]; [|done].
  rewrite (decryptAndHash_fresh (keys2 (arr_bytes ee) (arr_bytes es)).2) by done.
  change (Open _ nonce0 _ _) with (open_cert (arr_bytes e) (take 64 pt2) (arr_bytes ee)
    (arr_bytes es) (take 80 (drop 64 pt2)) (drop 144 pt2)).
  destruct (open_cert _ _ _ _ _ _) as [c|] eqn:Ec; [|done].
  assert (length c = 74%nat) as Hc by (apply Open_size in Ec; rewrite length_drop in Ec; lia).
  destruct (cert_bytes_surj c Hc) as [cert <-]. rewrite (cert_Decode _ cert) by done. done.
Qed.

(** The responder's message as an initiator cuts it. *)
Lemma cut_act2 (pt2 : list u8) : length pt2 = 234%nat →
  pt2 = take 64 pt2 ++ take 80 (drop 64 pt2) ++ drop 144 pt2 ∧
  length (take 64 pt2) = 64%nat ∧ length (take 80 (drop 64 pt2)) = 80%nat ∧
  length (drop 144 pt2) = 90%nat.
Proof.
  intros Hl. rewrite !length_take, !length_drop, Hl. split; [|split_and!; lia].
  assert (drop 144 pt2 = drop 80 (drop 64 pt2)) as -> by (rewrite drop_drop; done).
  by rewrite !take_drop.
Qed.

Definition authenticated (priv : PrivateKey) (e : EllswiftPubkey) (input rest : list u8)
    (send recv : CipherState) (cert : SIGNATURE_NOISE_MESSAGE) (rs : EllswiftPubkey) : Prop :=
  ∃ (re : EllswiftPubkey) (cs cc : list u8) (ee es : array 32),
    input = arr_bytes re ++ cs ++ cc ++ rest ∧ length cs = 80%nat ∧ length cc = 90%nat ∧
    V2Ecdh priv re e true = inl ee ∧ V2Ecdh priv rs e true = inl es ∧
    open_static (arr_bytes e) (arr_bytes re) (arr_bytes ee) cs = Some (arr_bytes rs) ∧
    open_cert (arr_bytes e) (arr_bytes re) (arr_bytes ee) (arr_bytes es) cs cc = Some (cert_bytes cert) ∧
    (send, recv) = transport_states (arr_bytes ee) (arr_bytes es).

Lemma nx_initiator_inv priv e rw seen r rw' seen' :
  nx_initiator priv e rw seen = Ret (r, rw', seen') →
  rw_out rw' = rw_out rw ++ [arr_bytes e] ∧
  ((∃ err, r = (None, None, Some err) ∧ seen'.1 = seen.1) ∨
   ∃ send recv cert rs, r = (Some send, Some recv, None) ∧ seen' = (Some cert, rs) ∧
     authenticated priv e (st_data (rw_in rw)) (st_data (rw_in rw')) send recv cert rs).
Proof.
  unfold nx_initiator, rw_ReadFull, rw_Write. cbn [rw_in rw_out].
  destruct (ReadFull _ _) as [[pt2 [err|]] r2] eqn:Er.
  { intros [= <- <- <-]. split; [done|]. left. by exists err. }
  apply ReadFull_ok in Er as (Hl & Hdata & _).
  destruct (cut_act2 pt2 Hl) as (Hcut & L1 & L2 & L3).
  destruct (V2Ecdh _ _ _ _) as [ee|] eqn:Eee; [|done].
  destruct (open_static _ _ _ _) as [rs|] eqn:Es;
    [|intros [= <- <- <-]; split; [done|]; left; by eexists].
  assert (length rs = 64%nat) as Hrs by (apply Open_size in Es; lia).
  destruct (V2Ecdh priv (to_array 64 rs) _ _) as [es|] eqn:Ees; [|done].
  destruct (open_cert _ _ _ _ _ _) as [c|] eqn:Ec;
    [|intros [= <- <- <-]; split; [done|]; left; by eexists].
  assert (length c = 74%nat) as Hc by (apply Open_size in Ec; lia).
  destruct (cert_bytes_surj c Hc) as [cert <-]. rewrite (cert_Decode _ cert) by done.
  intros [= <- <- <-]. split; [done|]. right. do 4 eexists. split; [done|]. split; [done|].
  exists (to_array 64 (take 64 pt2)), (take 80 (drop 64 pt2)), (drop 144 pt2), ee, es.
  rewrite !arr_bytes_to_array by done. cbn [rw_in]. rewrite Hdata. split_and!; try done.
  rewrite Hcut at 1. by rewrite <- !app_assoc.
Qed.

(** C27: the initiator implements the NX pattern.  For every connection and every state
    [PerformHandshakeInitiator] returns what the specification does: it writes its
    ephemeral key, reads 234 bytes, and either panics because the curve code failed,
    or reports the read error or the failed authentication without cipher states, or
    returns the two states of the key schedule and holds the certificate and the
    static key received. *)
Theorem PerformHandshakeInitiator_refines_nx eph priv rw hs
    (Hmax : 0 < max_nonce) (Hpriv : kp_Private eph = Some priv) :
  observe <$> PerformHandshakeInitiator eph rw hs =
  nx_initiator priv (kp_publicEllswift eph) rw (hs_cert hs, hs_serverStatic hs).
Proof. exact (initiator_refines eph priv rw hs Hmax Hpriv). Qed.

(** C5: what the initiator accepts is authenticated.  Whenever it returns, it has
    written exactly its ephemeral key, and the result is an error without cipher
    states, the certificate unchanged, or two cipher states without an error; then
    the 234 bytes it read are an ephemeral key and two ciphertexts that open, under the
    keys and the handshake hashes of the transcript, to the static key and to the
    certificate it holds, and the states are the schedule's.  In
    particular decoding the certificate cannot fail. *)
Theorem initiator_accepts_authenticated eph priv rw hs r rw' hs'
    (Hmax : 0 < max_nonce) (Hpriv : kp_Private eph = Some priv)
    (Hrun : PerformHandshakeInitiator eph rw hs = Ret (r, rw', hs')) :
  rw_out rw' = rw_out rw ++ [SerializeEllswiftBytes eph] ∧
  ((∃ err, r = (None, None, Some err) ∧ hs_cert hs' = hs_cert hs) ∨
   ∃ send recv cert, r = (Some send, Some recv, None) ∧ hs_cert hs' = Some cert ∧
     authenticated priv (kp_publicEllswift eph) (st_data (rw_in rw)) (st_data (rw_in rw'))
       send recv cert (hs_serverStatic hs')).
Proof.
  pose proof (initiator_refines eph priv rw hs Hmax Hpriv) as E. rewrite Hrun in E.
  symmetry in E. apply nx_initiator_inv in E as (Hout & H). split; [done|].
  destruct H as [(err & -> & Hc)|(send & recv & cert & rs & -> & Hseen & H)].
  - left. by exists err.
  - right. exists send, recv, cert. injection Hseen as -> ->. done.
Qed.

End Initiator.

(** ** The responder and the agreement of the two sides *)

Section Responder.
Context {ae : AEAD} {laws : AEADLaws} {fl : GoFloat} {sha : SHA256} {ec : Secp256k1} {go : GoAlloc}.

(** The responder of the specification: two private keys and their encodings. *)
Definition nx_responder (priv spriv : PrivateKey) (re rs : EllswiftPubkey)
    (cert : SIGNATURE_NOISE_MESSAGE) (rw : ReadWriter) : outcome (hs_result * ReadWriter) :=
  let '(e, err, rw) := rw_ReadFull 64 rw in
  match err with
  | Some _ => Ret (None, None, err, rw)
  | None =>
  match V2Ecdh priv (to_array 64 e) re false, V2Ecdh spriv (to_array 64 e) rs false with
  | inr m, _ => Panic (ExplicitPanic m)
  | inl _, inr m => Panic (ExplicitPanic m)
  | inl ee, inl es =>
      let '(recv, send) := transport_states (arr_bytes ee) (arr_bytes es) in
      Ret (Some recv, Some send, None,
        rw_Write (act2 e (arr_bytes re) (arr_bytes ee) (arr_bytes es) (arr_bytes rs) (cert_bytes cert)) rw)
  end end.

Lemma responder_refines eph static priv spriv cert rw hs :
  0 < max_nonce → kp_Private eph = Some priv → kp_Private static = Some spriv →
  (λ '(r, rw, _), (r, rw)) <$> PerformHandshakeResponder eph rw (Some cert) (Some static) hs =
  nx_responder priv spriv (kp_publicEllswift eph) (kp_publicEllswift static) cert rw.
Proof.
  intros Hmax Hpriv Hspriv. unfold PerformHandshakeResponder, nx_responder, ecdh,
    SerializeEllswiftBytes, SerializeEllswift. rewrite Hpriv, Hspriv.
  set (re := kp_publicEllswift eph). set (rs := kp_publicEllswift static).
  destruct (rw_ReadFull 64 rw) as [[e [err|]] rw'] eqn:Er; [done|].
  assert (length e = 64%nat) as He.
  { unfold rw_ReadFull in Er. destruct (ReadFull _ _) as [[l er] r'] eqn:Ef.
    injection Er as -> -> _. by apply ReadFull_ok in Ef as (? & _). }
  rewrite (proj2 (hash_unkeyed (mixHash e (start_handshake hs)) eq_refl)).
  unfold mbind, outcome_bind, mret, outcome_ret.
  rewrite slice_to_array_exact by done. simpl sbytes.
  destruct (V2Ecdh priv (to_array 64 e) re false) as [ee|m]; [|done].
  rewrite (encryptAndHash_fresh (keys1 (arr_bytes ee)).2) by done. cbn zeta.
  destruct (V2Ecdh spriv (to_array 64 e) rs false) as [es|m]; [|done].
  rewrite cert_Encode. cbn [sbytes default from_option id].
  rewrite (encryptAndHash_fresh (keys2 (arr_bytes ee) (arr_bytes es)).2) by done.
  unfold act2. cbn zeta. rewrite app_assoc. done.
Qed.

(** C28: the responder implements the NX pattern.  For every connection, certificate
    and state [PerformHandshakeResponder] returns what the specification does: the
    read error, a panic because the curve code failed, or the two states of the key
    schedule after writing its ephemeral key, its sealed static key and the sealed
    certificate in one buffer; a nil certificate or a nil key pair makes it panic. *)
Theorem PerformHandshakeResponder_refines_nx eph static priv spriv cert rw hs
    (Hmax : 0 < max_nonce) (Hpriv : kp_Private eph = Some priv)
    (Hspriv : kp_Private static = Some spriv) :
  (λ '(r, rw, _), (r, rw)) <$> PerformHandshakeResponder eph rw (Some cert) (Some static) hs =
    nx_responder priv spriv (kp_publicEllswift eph) (kp_publicEllswift static) cert rw ∧
  (∀ e tail, st_data (rw_in rw) = e ++ tail → length e = 64%nat →
     (∃ p, PerformHandshakeResponder eph rw None (Some static) hs = Panic p) ∧
     (∃ p, PerformHandshakeResponder eph rw (Some cert) None hs = Panic p)).
Proof.
  split; [by apply responder_refines|]. intros e tail Hd He.
  destruct rw as [[d en] out]. simpl in Hd. subst d.
  unfold PerformHandshakeResponder, rw_ReadFull, ecdh. cbn [rw_in].
  rewrite ReadFull_exact by done. rewrite Hpriv, Hspriv.
  rewrite (proj2 (hash_unkeyed (mixHash e (start_handshake hs)) eq_refl)).
  unfold mbind, outcome_bind, mret, outcome_ret. rewrite slice_to_array_exact by done.
  destruct (V2Ecdh priv _ _ _) as [ee|]; [|split; eauto]. split; [|eauto].
  rewrite (encryptAndHash_fresh (keys1 (arr_bytes ee)).2) by done. cbn zeta.
  destruct (V2Ecdh spriv _ _ _); eauto.
Qed.

(** A key pair as [NewKeypair] makes it, of a private key that is not zero. *)
Definition keypair_ok (kp : Keypair) : Prop :=
  ∃ k, kp_Private kp = Some k ∧ priv_IsZero k = false ∧ ellswift_of k (kp_publicEllswift kp) ∧
    kp_publicX kp = arr_bytes (pub_X (priv_PubKey k)).

Lemma NewKeypair_ok r draws kp :
  NewKeypair r draws = Some kp → priv_IsZero (PrivKeyFromBytes r) = false → keypair_ok kp.
Proof.
  intros E Hz. apply NewKeypair_made in E as (aux & c & t & -> & _ & Et).
  exists (PrivKeyFromBytes r). split_and!; [done|done| |done]. by exists aux, (Zmod.unsigned c), t.
Qed.
End Responder.

Section Agreement.
Context {ae : AEAD} {laws : AEADLaws} {fl : GoFloat} {sha : SHA256} {ec : Secp256k1}
  {elaws : EllswiftLaws} {go : GoAlloc}.

(** A connection that delivers [l] and has been written nothing. *)
Definition delivers (l : list u8) (e : string) : ReadWriter :=
  {| rw_in := {| st_data := l; st_end := e |}; rw_out := [] |}.

(** The initiator of the specification on the responder's message. *)
Lemma nx_initiator_act2 priv (e re rs : EllswiftPubkey) (ee es : array 32) cert tail en seen :
  V2Ecdh priv re e true = inl ee → V2Ecdh priv rs e true = inl es →
  nx_initiator priv e (delivers
    (act2 (arr_bytes e) (arr_bytes re) (arr_bytes ee) (arr_bytes es) (arr_bytes rs) (cert_bytes cert) ++ tail)
    en) seen =
  (let '(send, recv) := transport_states (arr_bytes ee) (arr_bytes es) in
   Ret (Some send, Some recv, None,
     {| rw_in := {| st_data := tail; st_end := en |}; rw_out := [arr_bytes e] |}, (Some cert, rs))).
Proof.
  intros Hee Hes. unfold nx_initiator, act2, rw_ReadFull, rw_Write, delivers. cbn [rw_in rw_out app].
  set (cs := seal_static _ _ _ _). set (cc := seal_cert _ _ _ _ _ _).
  assert (length cs = 80%nat) as Hcs.
  { assert (length cs = length (arr_bytes rs) + 16)%nat as ->; [|by rewrite length_arr].
    apply (Open_size (keys1 (arr_bytes ee)).2 nonce0 _ (arr_bytes (hash1 (arr_bytes e) (arr_bytes re)))).
    apply Open_Seal. }
  assert (length cc = 90%nat) as Hcc.
  { assert (length cc = length (cert_bytes cert) + 16)%nat as ->; [|by rewrite length_cert_bytes].
    apply (Open_size (keys2 (arr_bytes ee) (arr_bytes es)).2 nonce0 _
      (arr_bytes (hash2 (arr_bytes e) (arr_bytes re) cs))).
    apply Open_Seal. }
  pose proof (length_arr 64 re) as Hre.
  rewrite (ReadFull_exact 234) by (rewrite !length_app, Hre, Hcs, Hcc; done).
  rewrite take_app_length', drop_app_length' by done.
  rewrite to_array_arr_bytes, Hee, take_app_length' by done.
  assert (drop 144 (arr_bytes re ++ cs ++ cc) = cc) as ->
    by (rewrite app_assoc; apply drop_app_length'; rewrite length_app, Hre, Hcs; done).
  unfold open_static, cs at 1, seal_static. rewrite Open_Seal, to_array_arr_bytes, Hes.
  unfold open_cert, cc at 1, seal_cert. rewrite Open_Seal.
  rewrite (cert_Decode _ cert) by done. done.
Qed.

(** The two sides, the one reading what the other writes; keys and message depend on the
    key pairs and the certificate only. *)
Lemma handshake_keys ki kr s cert :
  0 < max_nonce → keypair_ok ki → keypair_ok kr → keypair_ok s →
  ∃ key1 key2 msg, ∀ hsi hsr tail_i tail_r en_i en_r, ∃ hsi' hsr',
    let c1 := keyed key1 (to_u64 0) in
    let c2 := keyed key2 (to_u64 0) in
    PerformHandshakeResponder kr (delivers (SerializeEllswiftBytes ki ++ tail_r) en_r)
      (Some cert) (Some s) hsr =
      Ret ((Some c1, Some c2, None),
           {| rw_in := {| st_data := tail_r; st_end := en_r |}; rw_out := [msg] |}, hsr') ∧
    PerformHandshakeInitiator ki (delivers (msg ++ tail_i) en_i) hsi =
      Ret ((Some c1, Some c2, None),
           {| rw_in := {| st_data := tail_i; st_end := en_i |};
              rw_out := [SerializeEllswiftBytes ki] |}, hsi') ∧
    hs_cert hsi' = Some cert ∧ hs_serverStatic hsi' = kp_publicEllswift s.
Proof.
  intros Hmax (pi & Hi & Hzi & Hei & _) (pr & Hr & Hzr & Her & _) (ps & Hs & Hzs & Hes & _).
  destruct (V2Ecdh_agrees pi pr _ _ Hzi Hzr Hei Her) as (ee & Ei1 & Er1).
  destruct (V2Ecdh_agrees pi ps _ _ Hzi Hzs Hei Hes) as (es & Ei2 & Er2).
  set (msg := act2 (arr_bytes (kp_publicEllswift ki)) (arr_bytes (kp_publicEllswift kr))
    (arr_bytes ee) (arr_bytes es) (arr_bytes (kp_publicEllswift s)) (cert_bytes cert)).
  exists (transport_keys (arr_bytes ee) (arr_bytes es)).1,
    (transport_keys (arr_bytes ee) (arr_bytes es)).2, msg.
  intros hsi hsr tail_i tail_r en_i en_r.
  pose proof (initiator_refines ki pi (delivers (msg ++ tail_i) en_i) hsi Hmax Hi) as Ri.
  unfold msg in Ri. rewrite nx_initiator_act2 in Ri by done. fold msg in Ri.
  pose proof (responder_refines kr s pr ps cert
    (delivers (SerializeEllswiftBytes ki ++ tail_r) en_r) hsr Hmax Hr Hs) as Rr.
  unfold nx_responder, rw_ReadFull, delivers in Rr. cbn [rw_in rw_out] in Rr.
  unfold SerializeEllswiftBytes in Rr.
  rewrite ReadFull_exact, to_array_arr_bytes, Er1, Er2 in Rr by apply length_arr.
  destruct (PerformHandshakeInitiator _ _ _) as [[[ri rwi] hsi']|] eqn:Ei; [|done].
  unfold SerializeEllswiftBytes, delivers.
  destruct (PerformHandshakeResponder _ _ _ _ _) as [[[rr rwr] hsr']|]; [|done].
  exists hsi', hsr'. unfold transport_states in *. injection Ri as -> -> Hc Hst.
  injection Rr as -> ->. done.
Qed.

Lemma handshake_runs ki kr s cert hsi hsr tail_i tail_r en_i en_r :
  0 < max_nonce → keypair_ok ki → keypair_ok kr → keypair_ok s →
  ∃ key1 key2 msg hsi' hsr',
    let c1 := keyed key1 (to_u64 0) in
    let c2 := keyed key2 (to_u64 0) in
    PerformHandshakeResponder kr (delivers (SerializeEllswiftBytes ki ++ tail_r) en_r)
      (Some cert) (Some s) hsr =
      Ret ((Some c1, Some c2, None),
           {| rw_in := {| st_data := tail_r; st_end := en_r |}; rw_out := [msg] |}, hsr') ∧
    PerformHandshakeInitiator ki (delivers (msg ++ tail_i) en_i) hsi =
      Ret ((Some c1, Some c2, None),
           {| rw_in := {| st_data := tail_i; st_end := en_i |};
              rw_out := [SerializeEllswiftBytes ki] |}, hsi') ∧
    hs_cert hsi' = Some cert ∧ hs_serverStatic hsi' = kp_publicEllswift s.
Proof.
  intros Hmax Hki Hkr Hs. destruct (handshake_keys ki kr s cert Hmax Hki Hkr Hs) as (k1 & k2 & msg & H).
  exists k1, k2, msg. apply H.
Qed.

(** C2: the two sides agree.  For key pairs that [NewKeypair] made of keys that are
    not zero, whatever the states held before, and for any certificate: if the
    responder is delivered what the initiator writes and the initiator what the
    responder writes, both return without an error and consume no more than that;
    the initiator's [send] is the responder's [recv] and conversely, both with
    counter zero; and the initiator holds the responder's certificate and static
    key. *)
Theorem handshake_agrees ki kr s cert hsi hsr tail_i tail_r en_i en_r
    (Hmax : 0 < max_nonce) (Hki : keypair_ok ki) (Hkr : keypair_ok kr) (Hs : keypair_ok s) :
  ∃ key1 key2 msg hsi' hsr',
    let c1 := keyed key1 (to_u64 0) in
    let c2 := keyed key2 (to_u64 0) in
    PerformHandshakeResponder kr (delivers (SerializeEllswiftBytes ki ++ tail_r) en_r)
      (Some cert) (Some s) hsr =
      Ret ((Some c1, Some c2, None),
           {| rw_in := {| st_data := tail_r; st_end := en_r |}; rw_out := [msg] |}, hsr') ∧
    PerformHandshakeInitiator ki (delivers (msg ++ tail_i) en_i) hsi =
      Ret ((Some c1, Some c2, None),
           {| rw_in := {| st_data := tail_i; st_end := en_i |};
              rw_out := [SerializeEllswiftBytes ki] |}, hsi') ∧
    hs_cert hsi' = Some cert ∧ hs_serverStatic hsi' = kp_publicEllswift s.
Proof. by apply handshake_runs. Qed.

(** C4: a whole session, of frames that the transport carries: without TLVs, with a
    length field that is the payload's length, and with 1 to 65519 bytes of payload.
    After the handshake, such frames that the one side sends with the state it got are
    received by the other with its own, in order and unchanged, in both directions at
    once, as long as two nonces per frame are left.  The key pairs are of private keys
    that are not zero. *)
Theorem handshake_session ki kr s cert hsi hsr fs1 fs2
    (Hki : keypair_ok ki) (Hkr : keypair_ok kr) (Hs : keypair_ok s)
    (H1 : Forall sendable fs1) (H2 : Forall sendable fs2)
    (Hmax1 : 2 * len fs1 ≤ max_nonce) (Hmax2 : 2 * len fs2 ≤ max_nonce) (Hmax : 0 < max_nonce) :
  ∃ msg send_i recv_i send_r recv_r rwi rwr hsi' hsr',
    PerformHandshakeResponder kr (delivers (SerializeEllswiftBytes ki) "EOF") (Some cert) (Some s) hsr
      = Ret ((Some recv_r, Some send_r, None), rwr, hsr') ∧ rw_out rwr = [msg] ∧
    PerformHandshakeInitiator ki (delivers msg "EOF") hsi
      = Ret ((Some send_i, Some recv_i, None), rwi, hsi') ∧ rw_out rwi = [SerializeEllswiftBytes ki] ∧
    (∃ wire cs cs', send_frames fs1 [] send_i = Ret ((λ _, None) <$> fs1, wire, cs) ∧
       receive_frames (length fs1) {| st_data := wire; st_end := "EOF" |} recv_r
       = Ret ((λ f, (Some f, None)) <$> fs1, {| st_data := []; st_end := "EOF" |}, cs')) ∧
    (∃ wire cs cs', send_frames fs2 [] send_r = Ret ((λ _, None) <$> fs2, wire, cs) ∧
       receive_frames (length fs2) {| st_data := wire; st_end := "EOF" |} recv_i
       = Ret ((λ f, (Some f, None)) <$> fs2, {| st_data := []; st_end := "EOF" |}, cs')).
Proof.
  destruct (handshake_runs ki kr s cert hsi hsr [] [] "EOF" "EOF" Hmax Hki Hkr Hs)
    as (k1 & k2 & msg & hsi' & hsr' & Er & Ei & _ & _).
  rewrite app_nil_r in Er, Ei.
  exists msg, (keyed k1 (to_u64 0)), (keyed k2 (to_u64 0)), (keyed k2 (to_u64 0)), (keyed k1 (to_u64 0)).
  do 4 eexists. split; [exact Er|]. split; [done|]. split; [exact Ei|]. split; [done|].
  split.
  - destruct (frames_pass k1 fs1 [] "EOF" H1 [] 0) as (wire & E1 & E2); [done|lia|].
    rewrite app_nil_r in E2. exists wire. do 2 eexists. split; [exact E1|exact E2].
  - destruct (frames_pass k2 fs2 [] "EOF" H2 [] 0) as (wire & E1 & E2); [done|lia|].
    rewrite app_nil_r in E2. exists wire. do 2 eexists. split; [exact E1|exact E2].
Qed.

(** An initiator that holds [s]'s encoding and a certificate signed for [s]. *)
Lemma held_certificate_verifies {sch : Schnorr} {slaws : SchnorrLaws} ka s spub from to cert hs now :
  keypair_ok s → Keypair_PublicKey s = Ret spub →
  NewSignedCertificate ka spub from to = (Some cert, None) →
  hs_cert hs = Some cert → hs_serverStatic hs = kp_publicEllswift s →
  HandshakeState_VerifyServerCertificate now (pub_X (priv_PubKey ka)) hs = within_validity from to now.
Proof.
  intros (ks & Hks & Hz & He & HX) Hpub Hcert Hc Hst.
  unfold HandshakeState_VerifyServerCertificate. rewrite Hc, Hst.
  destruct (XSwiftEC_decodes ks _ Hz He) as (x & -> & ->).
  assert (pub_X (priv_PubKey ks) = spub) as ->.
  { unfold Keypair_PublicKey, PublicKeyBytes in Hpub. rewrite HX in Hpub.
    rewrite slice_to_array_exact in Hpub by apply length_arr. injection Hpub as <-.
    symmetry. apply to_array_arr_bytes. }
  by apply signed_certificate_window.
Qed.

(** C3: the server is authenticated.  If the responder presents a certificate that the
    authority signed for its static public key, then after the handshake the
    initiator's [VerifyServerCertificate], given the authority's public key, answers
    [true] at all times of the validity, and refuses before and after. *)
Theorem server_certificate_verifies {sch : Schnorr} {slaws : SchnorrLaws} ka ki kr s spub from to cert hsi hsr
    (Hmax : 0 < max_nonce) (Hki : keypair_ok ki) (Hkr : keypair_ok kr) (Hs : keypair_ok s)
    (Hpub : Keypair_PublicKey s = Ret spub)
    (Hcert : NewSignedCertificate ka spub from to = (Some cert, None)) :
  ∃ msg rr rwr hsr' rwi hsi' send recv,
    PerformHandshakeResponder kr (delivers (SerializeEllswiftBytes ki) "EOF") (Some cert) (Some s) hsr
      = Ret (rr, rwr, hsr') ∧ rw_out rwr = [msg] ∧
    PerformHandshakeInitiator ki (delivers msg "EOF") hsi = Ret ((Some send, Some recv, None), rwi, hsi') ∧
    ∀ now, HandshakeState_VerifyServerCertificate now (pub_X (priv_PubKey ka)) hsi' =
      within_validity from to now.
Proof.
  destruct (handshake_runs ki kr s cert hsi hsr [] [] "EOF" "EOF" Hmax Hki Hkr Hs)
    as (k1 & k2 & msg & hsi' & hsr' & Er & Ei & Hc & Hst).
  rewrite app_nil_r in Er, Ei. exists msg. do 7 eexists. split; [exact Er|]. split; [done|].
  split; [exact Ei|]. intros now. by apply (held_certificate_verifies ka s spub from to cert).
Qed.

End Agreement.

(** ** Witnesses, with the instances of Transport.v and KeysProps.v *)

Lemma toy_max : 0 < max_nonce (fl := half_range_float).
Proof. reflexivity. Qed.

Lemma toy_keypair_ok : keypair_ok (ec := toy_curve) toy_keypair.
Proof. apply (NewKeypair_ok (ec := toy_curve) toy_secret toy_draws); reflexivity. Qed.

Definition toy_cert : SIGNATURE_NOISE_MESSAGE :=
  {| snm_Version := to_u16 0; snm_ValidFrom := to_u32 10; snm_NotValidAfter := to_u32 20;
     snm_Signature := to_array 64 (arr_bytes toy_secret ++
       arr_bytes (sha256 (SHA256 := toy_sha) (le_put 2 0 ++ le_put 4 10 ++ le_put 4 20
         ++ arr_bytes toy_secret))) |}.

Lemma toy_cert_signed :
  NewSignedCertificate (ec := toy_curve) (sch := toy_schnorr) (sha := toy_sha) (go := exact_alloc)
    toy_secret toy_secret (to_u32 10) (to_u32 20) = (Some toy_cert, None).
Proof. rewrite NewSignedCertificate_eq. reflexivity. Qed.

Lemma PerformHandshakeInitiator_refines_nx_witness :
  observe <$> PerformHandshakeInitiator (ae := toy_aead) (fl := half_range_float) (sha := toy_sha)
    (ec := toy_curve) toy_keypair (delivers [] "EOF") zero_handshake =
  Ret ((None, None, Some "EOF"%string),
       {| rw_in := {| st_data := []; st_end := "EOF" |};
          rw_out := [arr_bytes (kp_publicEllswift toy_keypair)] |}, (None, zero_array 64)).
Proof.
  rewrite (PerformHandshakeInitiator_refines_nx (ae := toy_aead) (laws := toy_aead_laws)
    (fl := half_range_float) (sha := toy_sha) (ec := toy_curve) toy_keypair toy_secret);
    [reflexivity|exact toy_max|reflexivity].
Defined.

Lemma PerformHandshakeResponder_refines_nx_witness :
  ∃ p, PerformHandshakeResponder (ae := toy_aead) (fl := half_range_float) (sha := toy_sha)
    (ec := toy_curve) (go := exact_alloc) toy_keypair (delivers (replicate 64 (to_u8 0)) "EOF")
    None (Some toy_keypair) zero_handshake = Panic p.
Proof.
  destruct (PerformHandshakeResponder_refines_nx (ae := toy_aead)
    (fl := half_range_float) (sha := toy_sha) (ec := toy_curve) (go := exact_alloc)
    toy_keypair toy_keypair toy_secret toy_secret toy_cert
    (delivers (replicate 64 (to_u8 0)) "EOF") zero_handshake toy_max eq_refl eq_refl) as [_ H].
  apply (H (replicate 64 (to_u8 0)) []); reflexivity.
Defined.

Lemma initiator_accepts_authenticated_witness :
  ∃ msg send recv rs, authenticated (ae := toy_aead) (sha := toy_sha) (ec := toy_curve)
    toy_secret (kp_publicEllswift toy_keypair) (msg ++ []) [] send recv toy_cert rs.
Proof.
  destruct (handshake_runs (ae := toy_aead) (laws := toy_aead_laws) (fl := half_range_float)
    (sha := toy_sha) (ec := toy_curve) (elaws := toy_ellswift_laws) (go := exact_alloc)
    toy_keypair toy_keypair toy_keypair toy_cert zero_handshake zero_handshake [] [] "EOF" "EOF"
    toy_max toy_keypair_ok toy_keypair_ok toy_keypair_ok)
    as (k1 & k2 & msg & hsi & hsr & _ & Ei & Hc & _).
  destruct (initiator_accepts_authenticated (ae := toy_aead) (laws := toy_aead_laws)
    (fl := half_range_float) (sha := toy_sha) (ec := toy_curve) toy_keypair toy_secret _ _ _ _ _
    toy_max eq_refl Ei) as [_ [(err & E & _)|(send & recv & cert & _ & Hc' & H)]]; [discriminate E|].
  rewrite Hc in Hc'. injection Hc' as <-. exists msg, send, recv. eexists. exact H.
Defined.

Lemma handshake_agrees_witness :
  ∃ key1 key2 msg hsi' rwi, PerformHandshakeInitiator (ae := toy_aead) (fl := half_range_float) (sha := toy_sha)
    (ec := toy_curve) toy_keypair (delivers (msg ++ []) "EOF") zero_handshake =
    Ret ((Some (keyed key1 (to_u64 0)), Some (keyed key2 (to_u64 0)), None), rwi, hsi') ∧
    hs_cert hsi' = Some toy_cert.
Proof.
  destruct (handshake_agrees (ae := toy_aead) (laws := toy_aead_laws) (fl := half_range_float)
    (sha := toy_sha) (ec := toy_curve) (elaws := toy_ellswift_laws) (go := exact_alloc)
    toy_keypair toy_keypair toy_keypair toy_cert zero_handshake zero_handshake [] [] "EOF" "EOF"
    toy_max toy_keypair_ok toy_keypair_ok toy_keypair_ok)
    as (k1 & k2 & msg & hsi & hsr & _ & Ei & Hc & _).
  exists k1, k2, msg, hsi. eexists. split; [exact Ei|exact Hc].
Defined.

Lemma handshake_session_witness :
  ∃ (msg : list u8) send_i recv_r wire cs cs', len msg = 234 ∧
    send_frames (ae := toy_aead) (fl := half_range_float) (go := exact_alloc) [two_byte_frame] [] send_i
      = Ret ([None], wire, cs) ∧
    receive_frames (ae := toy_aead) (fl := half_range_float) 1 {| st_data := wire; st_end := "EOF" |} recv_r
      = Ret ([(Some two_byte_frame, None)], {| st_data := []; st_end := "EOF" |}, cs').
Proof.
  destruct (handshake_session (ae := toy_aead) (laws := toy_aead_laws) (fl := half_range_float)
    (sha := toy_sha) (ec := toy_curve) (elaws := toy_ellswift_laws) (go := exact_alloc)
    toy_keypair toy_keypair toy_keypair toy_cert zero_handshake zero_handshake
    [two_byte_frame] [] toy_keypair_ok toy_keypair_ok toy_keypair_ok)
    as (msg & si & ri & sr & rr & rwi & rwr & hsi & hsr & Er & Hm & _ & _ & (w & cs & cs' & S & R) & _).
  - repeat constructor; apply two_byte_frame_sendable.
  - constructor.
  - vm_compute. discriminate.
  - vm_compute. discriminate.
  - exact toy_max.
  - exists msg, si, rr, w, cs, cs'. split; [|split; [exact S|exact R]].
    revert Hm Er. vm_compute. intros Hm Er. injection Er as _ _ <- _. injection Hm as <-. reflexivity.
Defined.

Lemma server_certificate_verifies_witness :
  ∃ hsi', HandshakeState_VerifyServerCertificate (ec := toy_curve) (sha := toy_sha) (sch := toy_schnorr)
    (go := exact_alloc) 15 toy_secret hsi' = Ret (true, None).
Proof.
  destruct (server_certificate_verifies (ae := toy_aead) (laws := toy_aead_laws) (fl := half_range_float)
    (sha := toy_sha) (ec := toy_curve) (elaws := toy_ellswift_laws) (go := exact_alloc)
    (sch := toy_schnorr) (slaws := toy_schnorr_laws)
    toy_secret toy_keypair toy_keypair toy_keypair toy_secret (to_u32 10) (to_u32 20) toy_cert
    zero_handshake zero_handshake toy_max toy_keypair_ok toy_keypair_ok toy_keypair_ok
    eq_refl toy_cert_signed) as (msg & rr & rwr & hsr & rwi & hsi & send & recv & _ & _ & _ & V).
  exists hsi. exact (V 15).
Defined.
