(* ===== verification/Transcript.v ===== *)
(** * The handshake hash binds the transcript (noise.go)

    [mixHash] chains what each side sent and received into the handshake hash.  Two runs
    that end with the same hash have the same transcript, unless they exhibit two inputs
    with one SHA-256 digest, which [collide] computes from them. *)
From S2P Require Import Prelude GoInts Constants Wire Builder Reader Sequences Codec Frame FrameFacts.
From S2P Require Import Cipher CipherProps Transport Hashes Keys KeysProps Handshake HandshakeProps.

Section Chain.
Context {sha : SHA256}.

(** [mixHash] of one message after another. *)
Definition chain (h : array 32) (ds : list (list u8)) : array 32 := fold_left mix ds h.

(** The two inputs of SHA-256 at the first place where they differ and their digests
    do not. *)
Fixpoint collide (h h' : array 32) (ds ds' : list (list u8)) : list u8 * list u8 :=
  match ds, ds' with
  | d :: ds, d' :: ds' =>
      let x := arr_bytes h ++ d in
      let y := arr_bytes h' ++ d' in
      if bool_decide (x ≠ y) && bool_decide (sha256 x = sha256 y) then (x, y)
      else collide (mix h d) (mix h' d') ds ds'
  | _, _ => ([], [])
  end.

Definition is_collision (p : list u8 * list u8) : Prop := p.1 ≠ p.2 ∧ sha256 p.1 = sha256 p.2.

Lemma mix_input_inj (h h' : array 32) d d' :
  arr_bytes h ++ d = arr_bytes h' ++ d' → h = h' ∧ d = d'.
Proof.
  intros E. apply app_inj_1 in E as [E ->]; [|by rewrite !length_arr].
  split; [|done]. by apply array_ext.
Qed.

Lemma chain_collides ds : ∀ ds' h h', length ds = length ds' → chain h ds = chain h' ds' →
  (h = h' ∧ ds = ds') ∨ is_collision (collide h h' ds ds').
Proof.
  induction ds as [|d ds IH]; intros [|d' ds'] h h' Hl E; try discriminate Hl; [by left|].
  injection Hl as Hl. cbn [chain fold_left collide] in *. cbn zeta.
  destruct (bool_decide (_ ≠ _)) eqn:Ex; [apply bool_decide_eq_true in Ex|apply bool_decide_eq_false in Ex].
  - destruct (bool_decide (sha256 _ = _)) eqn:Ed; cbn [andb].
    + apply bool_decide_eq_true in Ed. by right.
    + apply bool_decide_eq_false in Ed. destruct (IH ds' _ _ Hl E) as [[Hm _]|?]; [|by right].
      done.
  - apply dec_stable in Ex. apply mix_input_inj in Ex as [-> ->]. cbn [andb].
    destruct (IH ds' _ _ Hl E) as [[_ ->]|?]; [by left|by right].
Qed.
End Chain.

(** ** The hash at the end of a run *)

Section Runs.
Context {ae : AEAD} {fl : GoFloat} {sha : SHA256} {ec : Secp256k1} {go : GoAlloc}.

(** What is mixed into the hash: the initiator's key, its empty payload, and the three
    parts of the responder's message. *)
Definition transcript (e re cs cc : list u8) : list (list u8) := [e; []; re; cs; cc].

Lemma encryptAndHash_h p hs c hs' : encryptAndHash p hs = Ret (c, hs') →
  hs_h hs' = mix (hs_h hs) (sbytes c).
Proof.
  unfold encryptAndHash, mbind, outcome_bind, mret, outcome_ret. destruct (negb _).
  - destruct (EncryptWithAd _ _ _) as [[[c1 e1] cs1]|]; [|done]. by intros [= <- <-].
  - by intros [= <- <-].
Qed.

Lemma decryptAndHash_h c hs p hs' : decryptAndHash c hs = Ret (p, None, hs') →
  hs_h hs' = mix (hs_h hs) c.
Proof.
  unfold decryptAndHash, mbind, outcome_bind, mret, outcome_ret. destruct (negb _).
  - destruct (DecryptWithAd _ _ _) as [[[c1 [e1|]] cs1]|]; [done| |done]. by intros [= <- <-].
  - by intros [= <- <-].
Qed.

Lemma mixKey_h k hs : hs_h (mixKey k hs) = hs_h hs.
Proof. unfold mixKey. by destruct (HKDF _ _). Qed.

Lemma start_handshake_h hs : hs_h (start_handshake hs) = handshakeInit.2.
Proof. done. Qed.

Lemma initiator_transcript eph rw hs send recv rw' hs' :
  PerformHandshakeInitiator eph rw hs = Ret (Some send, Some recv, None, rw', hs') →
  ∃ re cs cc, rw_out rw' = rw_out rw ++ [SerializeEllswiftBytes eph] ∧
    st_data (rw_in rw) = re ++ cs ++ cc ++ st_data (rw_in rw') ∧
    hs_h hs' = chain handshakeInit.2 (transcript (SerializeEllswiftBytes eph) re cs cc).
Proof.
  unfold PerformHandshakeInitiator. set (e := SerializeEllswiftBytes eph).
  rewrite (proj1 (hash_unkeyed (mixHash e (start_handshake hs)) eq_refl)).
  unfold mbind, outcome_bind, mret, outcome_ret. unfold rw_ReadFull.
  destruct (ReadFull 234 _) as [[pt2 [?|]] r] eqn:Er; [done|].
  apply ReadFull_ok in Er as (Hl & Hd & _). destruct (cut_act2 pt2 Hl) as (Hcut & _).
  destruct (slice_to_array 64 _) as [re|]; [|done].
  destruct (ecdh _ _ _) as [ee|]; [|done].
  destruct (decryptAndHash _ _) as [[[p [?|]] hs2]|] eqn:E1; [done| |done].
  destruct (slice_to_array 64 p) as [rs|]; [|done].
  destruct (ecdh _ rs _) as [es|]; [|done].
  destruct (decryptAndHash (drop 144 pt2) _) as [[[q [?|]] hs3]|] eqn:E2; [done| |done].
  destruct (SIGNATURE_NOISE_MESSAGE_Decode _ _) as [[cert [?|]]|]; [done| |done].
  destruct (split_keys _). intros [= <- <- <- <-].
  exists (take 64 pt2), (take 80 (drop 64 pt2)), (drop 144 pt2).
  split; [done|]. split; [cbn [rw_in]; rewrite Hd, Hcut at 1; by rewrite <- !app_assoc|].
  apply decryptAndHash_h in E1, E2. cbn [set_cert hs_h]. rewrite E2, mixKey_h. cbn [set_serverStatic hs_h].
  by rewrite E1, mixKey_h.
Qed.

Lemma responder_transcript eph static cert rw hs recv send rw' hs' :
  PerformHandshakeResponder eph rw (Some cert) (Some static) hs = Ret (Some recv, Some send, None, rw', hs') →
  ∃ e cs cc, st_data (rw_in rw) = e ++ st_data (rw_in rw') ∧
    rw_out rw' = rw_out rw ++ [SerializeEllswiftBytes eph ++ cs ++ cc] ∧
    hs_h hs' = chain handshakeInit.2 (transcript e (SerializeEllswiftBytes eph) cs cc).
Proof.
  unfold PerformHandshakeResponder. set (re := SerializeEllswiftBytes eph). unfold rw_ReadFull.
  destruct (ReadFull 64 _) as [[e [?|]] r] eqn:Er; [done|].
  apply ReadFull_ok in Er as (_ & Hd & _).
  rewrite (proj2 (hash_unkeyed (mixHash e (start_handshake hs)) eq_refl)).
  unfold mbind, outcome_bind, mret, outcome_ret.
  destruct (slice_to_array 64 _) as [e1|]; [|done]. destruct (ecdh _ _ _) as [ee|]; [|done].
  destruct (encryptAndHash (SerializeEllswiftBytes static) _) as [[c1 hs2]|] eqn:E1; [|done].
  destruct (ecdh static _ _) as [es|]; [|done].
  destruct (SIGNATURE_NOISE_MESSAGE_Encode cert) as [cb [?|]]; [done|].
  destruct (encryptAndHash (sbytes cb) _) as [[c2 hs3]|] eqn:E2; [|done].
  destruct (split_keys _). intros [= <- <- <- <-].
  exists e, (sbytes c1), (sbytes c2). split; [done|].
  split; [cbn [rw_Write rw_out]; by rewrite <- app_assoc|].
  apply encryptAndHash_h in E1, E2. by rewrite E2, mixKey_h, E1, mixKey_h.
Qed.

(** C6: the handshake hash binds the transcript.  Two completed runs, of an initiator and of
    a responder, on any connections and whatever a man in the middle did to them: if they
    end with the same handshake hash, then what the initiator sent is what the responder
    read, and what the responder sent is what the initiator read, part by part; or else
    [collide], given what the two sent and received, computes two different inputs with
    the same SHA-256 digest.  Already equal hashes at the point where the certificate is
    sealed and opened, whose additional data they are, bind the two ephemeral keys and
    the sealed static key. *)
Theorem handshake_hash_binds_transcript ki kr s cert rwi rwr hsi hsr sendi recvi sendr recvr rwi' rwr' hsi' hsr'
    (Hi : PerformHandshakeInitiator ki rwi hsi = Ret (Some sendi, Some recvi, None, rwi', hsi'))
    (Hr : PerformHandshakeResponder kr rwr (Some cert) (Some s) hsr =
      Ret (Some recvr, Some sendr, None, rwr', hsr')) :
  ∃ e re cs cc e' re' cs' cc',
    rw_out rwi' = rw_out rwi ++ [e] ∧ st_data (rw_in rwi) = re ++ cs ++ cc ++ st_data (rw_in rwi') ∧
    st_data (rw_in rwr) = e' ++ st_data (rw_in rwr') ∧ rw_out rwr' = rw_out rwr ++ [re' ++ cs' ++ cc'] ∧
    (hs_h hsi' = hs_h hsr' →
     (e = e' ∧ re = re' ∧ cs = cs' ∧ cc = cc') ∨
     is_collision (collide handshakeInit.2 handshakeInit.2 (transcript e re cs cc) (transcript e' re' cs' cc'))) ∧
    (hash2 e re cs = hash2 e' re' cs' →
     (e = e' ∧ re = re' ∧ cs = cs') ∨
     is_collision (collide handshakeInit.2 handshakeInit.2 [e; []; re; cs] [e'; []; re'; cs'])).
Proof.
  apply initiator_transcript in Hi as (re & cs & cc & Ho & Hd & Hh).
  apply responder_transcript in Hr as (e' & cs' & cc' & Hd' & Ho' & Hh').
  do 8 eexists. split; [exact Ho|]. split; [exact Hd|]. split; [exact Hd'|]. split; [exact Ho'|].
  rewrite Hh, Hh'. split; intros E; (apply chain_collides in E || apply (chain_collides [_; _; _; _] [_; _; _; _]) in E);
    try done; (destruct E as [[_ E]|E]; [left; by injection E|by right]).
Qed.
End Runs.

(** ** Witness *)

Lemma handshake_hash_binds_transcript_witness : ∃ e e' re cs cc : list u8,
  [SerializeEllswiftBytes (ec := toy_curve) toy_keypair] = [] ++ [e] ∧
  SerializeEllswiftBytes (ec := toy_curve) toy_keypair ++ [] = e' ++ [] ∧
  ∃ r, PerformHandshakeInitiator (ae := toy_aead) (fl := half_range_float) (sha := toy_sha) (ec := toy_curve)
    toy_keypair (delivers ((re ++ cs ++ cc) ++ []) "EOF") zero_handshake = Ret r.
Proof.
  destruct (handshake_runs (ae := toy_aead) (laws := toy_aead_laws) (fl := half_range_float)
    (sha := toy_sha) (ec := toy_curve) (elaws := toy_ellswift_laws) (go := exact_alloc)
    toy_keypair toy_keypair toy_keypair toy_cert zero_handshake zero_handshake [] [] "EOF" "EOF"
    toy_max toy_keypair_ok toy_keypair_ok toy_keypair_ok)
    as (k1 & k2 & msg & hsi & hsr & Er & Ei & _).
  destruct (handshake_hash_binds_transcript (ae := toy_aead) (fl := half_range_float) (sha := toy_sha)
    (ec := toy_curve) (go := exact_alloc) _ _ _ _ _ _ _ _ _ _ _ _ _ _ _ _ Ei Er)
    as (e & re & cs & cc & e' & re' & cs' & cc' & Ho & _ & Hd & Ho' & _).
  exists e, e', re', cs', cc'. split; [exact Ho|]. split; [exact Hd|].
  assert (msg = re' ++ cs' ++ cc') as <- by (injection Ho' as <-; reflexivity).
  eexists. exact Ei.
Defined.
