(* ===== verification/FrameTypes.v ===== *)
(** * The frames that the package makes are well formed (types.go, noise.go)

    A frame's length field is a 24-bit number kept in 32 bits, next to a payload it
    should agree with.  What the constructors, the decoders, the encoder and the
    decryption make of the two. *)
From S2P Require Import Prelude GoInts Constants Wire Builder Reader Sequences Codec CoreMessages Frame FrameFacts.
From S2P Require Import FrameProps Cipher CipherProps Transport FrameEquiv Hashes Keys Handshake HandshakeProps.

(** The length is the payload's, and fits its three bytes. *)
Definition wf_frame (f : Frame) : bool :=
  length_agrees f && (Zmod.unsigned (fr_MessageLength f) <=? MaxU24).

Lemma wf_frame_spec f : wf_frame f = true ↔
  Zmod.unsigned (fr_MessageLength f) = len (sbytes (fr_Payload f)) ∧ Zmod.unsigned (fr_MessageLength f) ≤ MaxU24.
Proof. unfold wf_frame, length_agrees. rewrite andb_true_iff, Z.eqb_eq, Z.leb_le. done. Qed.

(** ** Constructors *)

Section Make.
Context `{GoAlloc} {M} `{Codable M}.

Lemma NewFrameFromParams_cases mt ext (m : M) :
  (∃ e, NewFrameFromParams mt ext m = (None, Some e)) ∨
  ∃ f, NewFrameFromParams mt ext m = (Some f, None) ∧ wf_frame f = true ∧ fr_TLVs f = None.
Proof.
  unfold NewFrameFromParams. destruct (Encode m) as [b [e|]]; [left; eauto|].
  destruct (MaxU24 <? _) eqn:E; [left; eauto|]. bool_to_prop. right. eexists. split; [done|]. split; [|done].
  pose proof (len_nonneg (sbytes b)). change MaxU24 with 16777215 in *.
  apply wf_frame_spec. cbn [fr_MessageLength fr_Payload].
  unfold to_u32. rewrite bits.unsigned_of_Z_small; [done|lia].
Qed.

Lemma FromParamsExtension_wf f0 mt ext (m : M) f :
  Frame_FromParamsExtension f0 mt ext m = (f, None) → wf_frame f = true.
Proof.
  unfold Frame_FromParamsExtension.
  destruct (NewFrameFromParams_cases mt ext m) as [(e & ->)|(f1 & -> & Hw & _)]; [done|]. by intros [= <-].
Qed.
End Make.

(** ** Decoders *)

(** Where the capacity holds what the header announces, the decoder returns. *)
Lemma Frame_Decode_returns f0 b spare :
  let c := b ++ spare in
  6 ≤ len c → 6 + header_length (take 6 c) ≤ len c →
  ∃ f e, Frame_Decode f0 b spare = Ret (f, e) ∧
    fr_Payload f = Some (take (Z.to_nat (header_length (take 6 c))) (drop 6 c)) ∧
    Zmod.unsigned (fr_MessageLength f) = header_length (take 6 c).
Proof.
  intros c H6 Hn. rewrite Frame_Decode_eq. fold c. cbn zeta.
  rewrite !(proj2 (Z.ltb_ge _ _)) by done.
  assert (length (take 6 c) = 6%nat) as Ht by (unfold len in H6; rewrite length_take; lia).
  pose proof (header_length_range _ Ht) as Hr. pose proof (unsigned_header_length _ Ht) as Hu.
  destruct (_ <? len b) eqn:Eb; bool_to_prop.
  - destruct (tlv_loop_total (length b) (decoded_frame f0 c) b (6 + header_length (take 6 c)))
      as (f' & e & -> & _ & Hp & Hl & _); [lia|unfold len; lia|].
    exists f', e. by rewrite Hp, Hl.
  - by exists (decoded_frame f0 c), None.
Qed.

Lemma Frame_Decode_wf f0 b spare f e : Frame_Decode f0 b spare = Ret (f, e) → wf_frame f = true.
Proof.
  intros E. set (c := b ++ spare).
  destruct (Z.leb_spec 6 (len c)) as [H6|H6]; [destruct (Z.leb_spec (6 + header_length (take 6 c)) (len c)) as [Hn|Hn]|].
  - destruct (Frame_Decode_returns f0 b spare H6 Hn) as (f1 & e1 & E' & Hp & Hl).
    rewrite E in E'. injection E' as <- <-. fold c in Hp, Hl. apply wf_frame_spec. rewrite Hl, Hp.
    assert (length (take 6 c) = 6%nat) as Ht by (unfold len in H6; rewrite length_take; lia).
    pose proof (header_length_range _ Ht) as Hr. change MaxU24 with 16777215. split; [|lia].
    simpl. unfold len in *. rewrite length_take, length_drop. lia.
  - rewrite Frame_Decode_eq in E. fold c in E. cbn zeta in E.
    rewrite (proj2 (Z.ltb_ge (len c) 6)) in E by done. by rewrite (proj2 (Z.ltb_lt _ _)) in E.
  - rewrite Frame_Decode_eq in E. fold c in E. cbn zeta in E. by rewrite (proj2 (Z.ltb_lt (len c) 6)) in E.
Qed.

Lemma DecodeFromReader_wf f0 r f r' : Frame_DecodeFromReader f0 r = Ret (f, None, r') → wf_frame f = true.
Proof.
  unfold Frame_DecodeFromReader. change (Z.to_nat FrameHeaderSize) with 6%nat.
  destruct (ReadFull 6 r) as [[h [?|]] r1] eqn:E1; [done|]. apply ReadFull_ok in E1 as (Hh & _).
  unfold mbind, outcome_bind. rewrite DecodeHeader_six by done. cbn [set_header fr_MessageLength].
  rewrite unsigned_header_length by done. pose proof (header_length_range h Hh) as Hr.
  destruct (ReadFull _ r1) as [[p [?|]] r2] eqn:E2; [done|]. apply ReadFull_ok in E2 as (Hp & _).
  intros [= <- _]. apply wf_frame_spec. cbn [set_payload set_header fr_MessageLength fr_Payload].
  rewrite unsigned_header_length by done. change MaxU24 with 16777215. split; [|lia].
  simpl. unfold filled. rewrite Hp. unfold len. rewrite length_app, length_replicate. lia.
Qed.

(** ** The encoder *)

Section Encode.
Context `{GoAlloc}.

(** The bytes that [Encode] will write after the header. *)
Definition encoded_length (f : Frame) : Z :=
  len (sbytes (fr_Payload f)) + from_option (λ ts, len (tlvs_enc_bytes ts)) 0 (fr_TLVs f).

Lemma Frame_Encode_agrees f : length_agrees f = true → encoded_length f < 2 ^ 32 →
  length_agrees (Frame_Encode f).2 = true.
Proof.
  intros Hag Hl. rewrite Frame_Encode_eq, Hag. simpl. destruct (fr_TLVs f) as [ts|] eqn:Et; [|done].
  destruct (encode_tlvs _ _); [done|]. unfold encoded_length in Hl. rewrite Et in Hl. simpl in Hl.
  apply Z.eqb_eq in Hag. unfold length_agrees. apply Z.eqb_eq. simpl.
  rewrite sbytes_go_append, len_app, Hag. unfold to_u32. rewrite bits.unsigned_of_Z_small; [done|].
  pose proof (len_nonneg (sbytes (fr_Payload f))). pose proof (len_nonneg (tlvs_enc_bytes ts)). lia.
Qed.

(** A frame with TLVs and agreeing lengths, encoded. *)
Lemma Frame_Encode_tlvs f ts : fr_TLVs f = Some ts → length_agrees f = true →
  Forall (λ t, len (tlv_Value t) ≤ 65535) ts → encoded_length f < 2 ^ 32 →
  (Frame_Encode f).1 = (Some (frame_bytes (fr_ExtensionType f) (fr_MessageType f) (encoded_length f)
    (sbytes (fr_Payload f) ++ tlvs_enc_bytes ts)), None).
Proof.
  intros Ht Hag Hf Hl. rewrite Frame_Encode_eq, Hag, Ht. cbn [negb].
  destruct (encode_tlvs_fits ts Hf) as [out ->]. cbn [fst]. do 2 f_equal.
  unfold encoded_length in *. rewrite Ht in *. cbn [from_option] in *. apply Z.eqb_eq in Hag.
  cbn [encoded_frame set_payload set_length set_header fr_MessageLength]. rewrite Hag. unfold to_u32.
  rewrite bits.unsigned_of_Z_small; [done|].
  pose proof (len_nonneg (sbytes (fr_Payload f))). pose proof (len_nonneg (tlvs_enc_bytes ts)). lia.
Qed.
End Encode.

(** ** Decryption *)

Section Decrypt.
Context {ae : AEAD} {laws : AEADLaws} {fl : GoFloat}.

(** The payload that a decrypted frame has for the length in its header. *)
Lemma DecryptFrameFromReader_lengths key n r f r' cs' :
  DecryptFrameFromReader r (keyed key n) = Ret (Some f, None, r', cs') →
  let l := Zmod.unsigned (fr_MessageLength f) in
  1 ≤ l ≤ MaxU24 ∧ len (sbytes (fr_Payload f)) = l + 16 * ((l - 1) / MaxPlaintextChunkSize).
Proof.
  unfold DecryptFrameFromReader, decrypt_frame_from, stream_ReadFull, mbind, outcome_bind, mret, outcome_ret.
  change (Z.to_nat NoiseHeaderSize) with 22%nat.
  destruct (ReadFull 22 r) as [[h [?|]] r1] eqn:E1; [done|]. apply ReadFull_ok in E1 as (Hh & _).
  destruct (_ <? _); [done|]. rewrite DecryptWithAd_keyed. case_decide; [done|].
  destruct (Open _ _ _ _) as [d|] eqn:Eo; [|done]. apply Open_length in Eo. change MacLen with 16 in Eo.
  assert (length d = 6%nat) as Hd by (unfold len in Eo; lia).
  rewrite DecodeHeader_six by done. cbn [set_header fr_MessageLength].
  pose proof (unsigned_header_length d Hd) as Hu. rewrite Hu. pose proof (header_length_range d Hd) as Hr.
  set (l := header_length d) in *. pose proof (PlainTextLen_chunks l ltac:(lia)) as Hc.
  destruct (ReadFull _ r1) as [[p [?|]] r2] eqn:E2; [done|]. apply ReadFull_ok in E2 as (Hp & _).
  destruct (_ <? _); [done|]. rewrite DecryptWithAd_keyed. case_decide; [done|].
  destruct (Open _ _ p _) as [q|] eqn:Eq; [|done]. apply Open_length in Eq. change MacLen with 16 in Eq.
  intros [= <- _ _]. cbn [set_payload set_header fr_MessageLength fr_Payload zero_frame].
  rewrite Hu. change MaxU24 with 16777215.
  change MaxPlaintextChunkSize with 65519. simpl sbytes. unfold len in *.
  assert (0 ≤ PlainTextLenToCipherTextLen l) as Hpos by (rewrite Hc; Z.div_mod_to_equations; lia).
  rewrite Hp, Z2Nat.id in Eq by done. rewrite Hc in Eq. split; Z.div_mod_to_equations; lia.
Qed.

Lemma DecryptFrame_as_reader b cs f cs' : DecryptFrame b cs = Ret (f, None, cs') →
  ∃ r', DecryptFrameFromReader {| st_data := sbytes b; st_end := "EOF" |} cs = Ret (f, None, r', cs').
Proof.
  pose proof (decrypt_frame_alike br_ReadFull stream_ReadFull (same_rest b) (NewBinaryReader b)
    {| st_data := sbytes b; st_end := "EOF" |} cs (readers_alike b)
    (conj (new_ok b) (conj eq_refl eq_refl))) as H.
  unfold DecryptFrame, DecryptFrameFromReader, mbind, outcome_bind, alike in *.
  destruct (decrypt_frame_from br_ReadFull _ _) as [[[[f1 [e1|]] r1] cs1]|p1]; try done.
  destruct (decrypt_frame_from stream_ReadFull _ _) as [[[[f2 [e2|]] r2] cs2]|p2]; try done.
  destruct H as (-> & -> & _). intros [= <- <-]. eauto.
Qed.

(** A peer with the key can make the receiver accept any length above one chunk. *)
Lemma overlong_frame_accepted key n l : 0 ≤ n → n + 2 ≤ max_nonce → MaxPlaintextChunkSize < l ≤ MaxU24 →
  ∃ r f r' cs', DecryptFrameFromReader r (keyed key (to_u64 n)) = Ret (Some f, None, r', cs') ∧
    Zmod.unsigned (fr_MessageLength f) = l.
Proof.
  intros Hn Hmax Hl. change MaxPlaintextChunkSize with 65519 in Hl. change MaxU24 with 16777215 in Hl.
  set (p := replicate (Z.to_nat (PlainTextLenToCipherTextLen l - 16)) (to_u8 0)).
  pose proof (PlainTextLen_chunks l ltac:(lia)) as Hc.
  assert (16 ≤ PlainTextLenToCipherTextLen l) as H16 by (rewrite Hc; Z.div_mod_to_equations; lia).
  set (h := header_bytes ExtensionTypeCore MessageSetupConnection l).
  destruct (header_bytes_fields ExtensionTypeCore MessageSetupConnection l) as (Hh & _ & _ & Hhl);
    [change MaxU24 with 16777215; lia|]. fold h in Hh, Hhl.
  set (c1 := Seal key (nonce_bytes (to_u64 n)) h []). set (c2 := Seal key (nonce_bytes (to_u64 (n + 1))) p []).
  assert (length c1 = 22%nat) as L1.
  { assert (len c1 = 22); [|unfold len in *; lia]. unfold c1. rewrite Seal_length. unfold len. by rewrite Hh. }
  assert (len c2 = PlainTextLenToCipherTextLen l) as L2.
  { unfold c2. rewrite Seal_length. unfold p, len. rewrite length_replicate. change MacLen with 16. lia. }
  exists {| st_data := c1 ++ c2 ++ []; st_end := "EOF" |}.
  unfold DecryptFrameFromReader, decrypt_frame_from, stream_ReadFull, mbind, outcome_bind, mret, outcome_ret.
  change (Z.to_nat NoiseHeaderSize) with 22%nat. rewrite ReadFull_exact by done.
  rewrite (proj2 (Z.ltb_ge _ _)) by (unfold len; rewrite L1; done).
  rewrite DecryptWithAd_at by lia. unfold c1. rewrite Open_Seal, DecodeHeader_six by done.
  cbn [set_header fr_MessageLength]. pose proof (unsigned_header_length h Hh) as Hu. rewrite Hhl in *. rewrite Hu.
  rewrite ReadFull_exact by (unfold len in L2; lia). rewrite L2, Z.ltb_irrefl.
  rewrite DecryptWithAd_at by lia. unfold c2. rewrite Open_Seal.
  do 3 eexists. split; [reflexivity|].
  done.
Qed.
End Decrypt.

(** ** Properties *)

(** C15: the frames that the package makes are well formed: the length field is the payload's
    length and at most 2^24-1.  So are those that the constructors build of any message,
    those that [Decode] returns, with an error or without, from any bytes, and those that
    [DecodeFromReader] returns without an error; and [Encode], failed or not, leaves the
    lengths of a frame in agreement.  The exception is decryption: a frame that it
    returns has a length from 1 to 2^24-1, but its payload is 16 bytes longer for every
    chunk of 65519 bytes before the last, so it is well formed exactly up to one chunk,
    and a peer can send frames of any greater length that are accepted, and that
    [Encode] then refuses. *)
Theorem frames_well_formed :
  (∀ (go : GoAlloc) M (HM : Codable M) mt ext (m : M) f0 f,
    (NewFrameFromParams mt ext m = (Some f, None) → wf_frame f = true) ∧
    (Frame_FromParamsExtension f0 mt ext m = (f, None) → wf_frame f = true)) ∧
  (∀ f0 b spare f e, Frame_Decode f0 b spare = Ret (f, e) → wf_frame f = true) ∧
  (∀ f0 r f r', Frame_DecodeFromReader f0 r = Ret (f, None, r') → wf_frame f = true) ∧
  (∀ (go : GoAlloc) f, length_agrees f = true → encoded_length f < 2 ^ 32 →
    length_agrees (Frame_Encode f).2 = true) ∧
  (∀ (ae : AEAD) (laws : AEADLaws) (fl : GoFloat) key n f,
    ((∃ r r' cs', DecryptFrameFromReader r (keyed key n) = Ret (Some f, None, r', cs')) ∨
     (∃ b cs', DecryptFrame b (keyed key n) = Ret (Some f, None, cs'))) →
    let l := Zmod.unsigned (fr_MessageLength f) in
    1 ≤ l ≤ MaxU24 ∧ len (sbytes (fr_Payload f)) = l + 16 * ((l - 1) / MaxPlaintextChunkSize) ∧
    (wf_frame f = true ↔ l ≤ MaxPlaintextChunkSize)) ∧
  (∀ (ae : AEAD) (laws : AEADLaws) (fl : GoFloat) (go : GoAlloc) key n l,
    0 ≤ n → n + 2 ≤ max_nonce → MaxPlaintextChunkSize < l ≤ MaxU24 →
    ∃ r f r' cs', DecryptFrameFromReader r (keyed key (to_u64 n)) = Ret (Some f, None, r', cs') ∧
      Zmod.unsigned (fr_MessageLength f) = l ∧
      Frame_Encode f = ((None, Some "Frame.Encode: MessageLength != len(Payload)"%string), f)).
Proof.
  split_and!.
  - intros go M HM mt ext m f0 f. split; [|apply FromParamsExtension_wf].
    destruct (NewFrameFromParams_cases mt ext m) as [(e & ->)|(f1 & -> & Hw & _)]; [done|]. by intros [= <-].
  - exact Frame_Decode_wf.
  - exact DecodeFromReader_wf.
  - exact (λ go, Frame_Encode_agrees).
  - intros ae laws fl key n f Hf l.
    assert (∃ r r' cs', DecryptFrameFromReader r (keyed key n) = Ret (Some f, None, r', cs')) as (r & r' & cs' & E).
    { destruct Hf as [?|(b & cs' & E)]; [done|]. apply DecryptFrame_as_reader in E as [r' E]. eauto. }
    apply DecryptFrameFromReader_lengths in E as [Hl Hp]. fold l in Hl, Hp. split; [done|]. split; [done|].
    rewrite wf_frame_spec. fold l. rewrite Hp. change MaxPlaintextChunkSize with 65519 in *.
    split; [intros [Ha _]|split]; Z.div_mod_to_equations; lia.
  - intros ae laws fl go key n l Hn Hmax Hl.
    destruct (overlong_frame_accepted key n l Hn Hmax Hl) as (r & f & r' & cs' & E & Hfl).
    exists r, f, r', cs'. split; [done|]. split; [done|].
    apply DecryptFrameFromReader_lengths in E as [_ Hp]. rewrite Hfl in Hp.
    rewrite Frame_Encode_eq. assert (length_agrees f = false) as ->; [|done].
    unfold length_agrees. apply Z.eqb_neq. rewrite Hfl, Hp.
    change MaxPlaintextChunkSize with 65519 in *. Z.div_mod_to_equations. lia.
Qed.

(** C33: TLVs can push a frame over its limit unnoticed.  [Encode] checks the length of the
    payload before it appends the TLVs, and writes the low three bytes of the sum: the
    result is never an error, and decoding it gives a payload of the sum modulo 2^24 (of
    TLVs with values of at most 65535 bytes, and for a sum below 2^32, which is the
    width of the length in memory).  So what was encoded is what is decoded exactly if the sum is at most 2^24-1. *)
Theorem Encode_length_wraps `{GoAlloc} f ts f0 spare
    (Hts : fr_TLVs f = Some ts) (Hag : length_agrees f = true)
    (Hfits : Forall (λ t, len (tlv_Value t) ≤ 65535) ts) (Hlim : encoded_length f < 2 ^ 32) :
  let p := sbytes (fr_Payload f) ++ tlvs_enc_bytes ts in
  ∃ bs f' e, (Frame_Encode f).1 = (Some bs, None) ∧ len bs = 6 + encoded_length f ∧
    Frame_Decode f0 bs spare = Ret (f', e) ∧
    sbytes (fr_Payload f') = take (Z.to_nat (encoded_length f mod 2 ^ 24)) p ∧
    (sbytes (fr_Payload f') = p ↔ encoded_length f ≤ MaxU24).
Proof.
  intros p. rewrite (Frame_Encode_tlvs f ts Hts Hag Hfits Hlim). set (n := encoded_length f) in *. fold p.
  assert (len p = n) as Hp.
  { unfold p, n, encoded_length. by rewrite len_app, Hts. }
  pose proof (len_nonneg p) as H0. rewrite Hp in H0.
  assert (frame_bytes (fr_ExtensionType f) (fr_MessageType f) n p =
    frame_bytes (fr_ExtensionType f) (fr_MessageType f) (n mod 2 ^ 24) p) as ->.
  { unfold frame_bytes. by rewrite (le_put_mod 3 24). }
  rewrite frame_bytes_split. set (h := header_bytes _ _ _).
  assert (0 ≤ n mod 2 ^ 24 ≤ MaxU24) as Hr by (change MaxU24 with (2 ^ 24 - 1); Z.div_mod_to_equations; lia).
  destruct (header_bytes_fields (fr_ExtensionType f) (fr_MessageType f) _ Hr) as (Hh & _ & _ & Hhl).
  fold h in Hh, Hhl.
  assert (take 6 ((h ++ p) ++ spare) = h) as Ht by (rewrite <- app_assoc, <- Hh; apply take_app_length).
  pose proof (len_nonneg spare) as Hsp. assert (len h = 6) as Hh' by (unfold len; by rewrite Hh).
  destruct (Frame_Decode_returns f0 (h ++ p) spare) as (f' & e & E & Hpay & _); cbn zeta.
  { rewrite !len_app. lia. }
  { rewrite Ht, Hhl, !len_app, Hp. change MaxU24 with (2 ^ 24 - 1) in Hr. Z.div_mod_to_equations; lia. }
  rewrite Ht, Hhl in Hpay. rewrite <- app_assoc, <- Hh, drop_app_length in Hpay.
  exists (h ++ p), f', e. split; [done|]. split; [rewrite len_app; lia|]. split; [done|].
  rewrite Hpay. simpl sbytes. rewrite take_app_le
    by (unfold len in Hp; apply Nat2Z.inj_le; rewrite Z2Nat.id by lia; Z.div_mod_to_equations; lia).
  split; [done|]. change MaxU24 with (2 ^ 24 - 1) in *. split.
  - intros Et. apply (f_equal len) in Et. unfold len in Et, Hp. rewrite length_take in Et. Z.div_mod_to_equations. lia.
  - intros Hle. apply firstn_all2. unfold len in Hp. rewrite Z.mod_small by lia. lia.
Qed.

(** ** Witness *)

Lemma Encode_length_wraps_witness : ∃ bs f' e,
  (Frame_Encode (H := exact_alloc) (set_TLVs (Some [sample_tlv]) sample_frame)).1 = (Some bs, None) ∧
  Frame_Decode zero_frame bs [] = Ret (f', e).
Proof.
  destruct (Encode_length_wraps (H := exact_alloc) (set_TLVs (Some [sample_tlv]) sample_frame)
    [sample_tlv] zero_frame []) as (bs & f' & e & E & _ & D & _).
  - reflexivity.
  - vm_compute. reflexivity.
  - constructor; [vm_compute; discriminate|constructor].
  - vm_compute. reflexivity.
  - exists bs, f', e. split; [exact E|exact D].
Defined.
