(* ===== verification/Conn.v ===== *)
(** * Connections of the example programs (examples/shared/shared.go)

    [Sv2Conn] pairs a network connection with the two cipher states of a handshake and
    writes every frame it sends or receives to the log.  The network is [net.Conn]'s:
    what it delivers is the connection's stream, what it answers to [Write] is
    arbitrary. *)
From S2P Require Import Prelude GoInts Constants Wire Builder Reader Codec Frame FrameFacts FrameProps.
From S2P Require Import Cipher CipherProps Transport Hashes Keys Handshake.

(** The count and the error [net.Conn.Write] returns. *)
Class NetConn := { write_answer : list u8 → ReadWriter → Z * error }.

(** The connection on which every write succeeds. *)
Definition good_conn : NetConn := {| write_answer b _ := (len b, None) |}.

(** A line of the log: a frame's type and its encoding. *)
Inductive log_line :=
| TX (t : MessageType) (b : list u8)
| RX (t : MessageType) (b : list u8).

Record Sv2Conn := {
  cn_NetConn : ReadWriter;
  cn_Send : CipherState;
  cn_Recv : CipherState;
  cn_log : list log_line    (* the logger is global; its lines are kept here *)
}.

Section Conn.
Context {ae : AEAD} {fl : GoFloat} {go : GoAlloc} {net : NetConn}.

Definition conn_Write (b : list u8) (rw : ReadWriter) : Z * error * ReadWriter :=
  (write_answer b rw, rw_Write b rw).

(** The frame is a pointer; what [Encode] reports is dropped, and the frame is encoded
    again to be sent.  Also returned: the frame as the two calls leave it. *)
Definition WriteFrame (frame : option Frame) (conn : Sv2Conn) :
    outcome (Z * error * Sv2Conn * Frame) :=
  match frame with
  | None => Panic NilDereference
  | Some frame =>
      let '((plainBytes, _), frame) := Frame_Encode frame in
      let log := cn_log conn ++ [TX (fr_MessageType frame) (sbytes plainBytes)] in
      '(n, err, nc, send, frame) ←
        EncryptFrameToWriter conn_Write frame (cn_NetConn conn) (cn_Send conn);
      mret (n, err, {| cn_NetConn := nc; cn_Send := send; cn_Recv := cn_Recv conn; cn_log := log |}, frame)
  end.

Definition ReadFrame (conn : Sv2Conn) : outcome (option Frame * error * Sv2Conn) :=
  '(frame, err, r, recv) ← DecryptFrameFromReader (rw_in (cn_NetConn conn)) (cn_Recv conn);
  let nc := {| rw_in := r; rw_out := rw_out (cn_NetConn conn) |} in
  match err with
  | Some _ =>
      mret (frame, err, {| cn_NetConn := nc; cn_Send := cn_Send conn; cn_Recv := recv;
                           cn_log := cn_log conn |})
  | None =>
      match frame with
      | None => Panic NilDereference
      | Some frame =>
          let '((plainBytes, _), frame) := Frame_Encode frame in
          let log := cn_log conn ++ [RX (fr_MessageType frame) (sbytes plainBytes)] in
          mret (Some frame, None, {| cn_NetConn := nc; cn_Send := cn_Send conn; cn_Recv := recv;
                                     cn_log := log |})
      end
  end.

(** ** Writing *)

Lemma Frame_Encode_type f : fr_MessageType (Frame_Encode f).2 = fr_MessageType f.
Proof.
  rewrite Frame_Encode_eq. destruct (negb _); [done|]. destruct (fr_TLVs f); [|done].
  by destruct (encode_tlvs _ _).
Qed.

(** The encryption of a frame whose encoding is known. *)
Lemma EncryptFrameToWriter_of {W} (Write : list u8 → W → Z * error * W) w key n f f' h p :
  Frame_Encode f = ((Some (h ++ p), None), f') → length h = 6%nat → 0 ≤ n → n + 2 ≤ max_nonce →
  EncryptFrameToWriter Write f w (keyed key (to_u64 n)) =
  Ret (Write (Seal key (nonce_bytes (to_u64 n)) h [] ++ Seal key (nonce_bytes (to_u64 (n + 1))) p []) w,
       keyed key (to_u64 (n + 2)), f').
Proof.
  intros E Hh Hn Hmax. unfold EncryptFrameToWriter, Encrypt. rewrite E. cbn [sbytes default from_option id].
  destruct (slice_header h p Hh) as [E1 E2]. unfold mbind, outcome_bind. rewrite E1.
  cbn [sbytes default from_option id]. rewrite EncryptWithAd_at by lia. simpl sbytes in *. rewrite E2.
  cbn [sbytes default from_option id]. rewrite EncryptWithAd_at by lia. by replace (n + 1 + 1) with (n + 2) by lia.
Qed.

(** The connection after a frame was written: its ciphertext, its line in the log. *)
Definition written (key : array 32) (n : Z) (f : Frame) (conn : Sv2Conn) : Sv2Conn :=
  {| cn_NetConn := rw_Write (frame_ct key n f) (cn_NetConn conn);
     cn_Send := keyed key (to_u64 (n + 2)); cn_Recv := cn_Recv conn;
     cn_log := cn_log conn ++ [TX (fr_MessageType f)
       (frame_bytes (fr_ExtensionType f) (fr_MessageType f) (len (sbytes (fr_Payload f)))
          (sbytes (fr_Payload f)))] |}.

Lemma WriteFrame_plain key n f conn :
  plain_frame f → cn_Send conn = keyed key (to_u64 n) → 0 ≤ n → n + 2 ≤ max_nonce →
  WriteFrame (Some f) conn =
  Ret (write_answer (frame_ct key n f) (cn_NetConn conn), written key n f conn, f).
Proof.
  intros Hf Hs Hn Hmax. unfold WriteFrame. rewrite (plain_frame_encoding f Hf).
  unfold mbind, outcome_bind. rewrite Hs, EncryptFrameToWriter_at by done. unfold conn_Write, written.
  rewrite frame_bytes_split. by destruct (write_answer _ _).
Qed.

(** The connection after a frame was read. *)
Definition received (key : array 32) (n : Z) (f : Frame) (tail : list u8) (conn : Sv2Conn) : Sv2Conn :=
  {| cn_NetConn := {| rw_in := {| st_data := tail; st_end := st_end (rw_in (cn_NetConn conn)) |};
                      rw_out := rw_out (cn_NetConn conn) |};
     cn_Send := cn_Send conn; cn_Recv := keyed key (to_u64 (n + 2));
     cn_log := cn_log conn ++ [RX (fr_MessageType f)
       (frame_bytes (fr_ExtensionType f) (fr_MessageType f) (len (sbytes (fr_Payload f)))
          (sbytes (fr_Payload f)))] |}.

Lemma ReadFrame_sendable {laws : AEADLaws} key n f tail conn :
  sendable f → cn_Recv conn = keyed key (to_u64 n) → 0 ≤ n → n + 2 ≤ max_nonce →
  st_data (rw_in (cn_NetConn conn)) = frame_ct key n f ++ tail →
  ReadFrame conn = Ret (Some f, None, received key n f tail conn).
Proof.
  intros [Hf Hp] Hr Hn Hmax Hd. unfold ReadFrame. rewrite Hr.
  destruct (rw_in (cn_NetConn conn)) as [d e] eqn:Ei. simpl in Hd. subst d.
  rewrite DecryptFrameFromReader_at by done. unfold mbind, outcome_bind.
  rewrite (plain_frame_encoding f Hf). unfold received. by rewrite frame_bytes_split, Ei.
Qed.

(** ** Whole sessions *)

(** Frames written one after another, and read one after another. *)
Fixpoint write_frames (fs : list Frame) (conn : Sv2Conn) : outcome (list error * Sv2Conn) :=
  match fs with
  | [] => mret ([], conn)
  | f :: fs =>
      '(_, err, conn, _) ← WriteFrame (Some f) conn;
      '(errs, conn) ← write_frames fs conn;
      mret (err :: errs, conn)
  end.

Fixpoint read_frames (k : nat) (conn : Sv2Conn) : outcome (list (option Frame * error) * Sv2Conn) :=
  match k with
  | O => mret ([], conn)
  | S k =>
      '(f, err, conn) ← ReadFrame conn;
      '(fs, conn) ← read_frames k conn;
      mret ((f, err) :: fs, conn)
  end.

(** The encoding of a frame without TLVs, as the log shows it. *)
Definition plain_bytes (f : Frame) : list u8 :=
  frame_bytes (fr_ExtensionType f) (fr_MessageType f) (len (sbytes (fr_Payload f))) (sbytes (fr_Payload f)).

Lemma conn_frames_pass {laws : AEADLaws} key fs : Forall sendable fs → ∀ n conn,
  cn_Send conn = keyed key (to_u64 n) → 0 ≤ n → n + 2 * len fs ≤ max_nonce →
  ∃ errs conn' ms, write_frames fs conn = Ret (errs, conn') ∧ length errs = length fs ∧
    rw_out (cn_NetConn conn') = rw_out (cn_NetConn conn) ++ ms ∧ length ms = length fs ∧
    cn_log conn' = cn_log conn ++ map (λ f, TX (fr_MessageType f) (plain_bytes f)) fs ∧
    ∀ peer tail, cn_Recv peer = keyed key (to_u64 n) →
      st_data (rw_in (cn_NetConn peer)) = concat ms ++ tail →
      ∃ peer', read_frames (length fs) peer = Ret ((λ f, (Some f, None)) <$> fs, peer') ∧
        st_data (rw_in (cn_NetConn peer')) = tail ∧ rw_out (cn_NetConn peer') = rw_out (cn_NetConn peer) ∧
        cn_log peer' = cn_log peer ++ map (λ f, RX (fr_MessageType f) (plain_bytes f)) fs ∧
        st_end (rw_in (cn_NetConn peer')) = st_end (rw_in (cn_NetConn peer)) ∧ cn_Send peer' = cn_Send peer.
Proof.
  induction 1 as [|f fs Hf Hfs IH]; intros n conn Hs Hn Hmax.
  - exists [], conn, []. rewrite !app_nil_r. split_and!; try done. intros peer tail Hr Hd.
    exists peer. by rewrite app_nil_r.
  - rewrite len_cons in *. pose proof (len_nonneg fs). pose proof Hf as [Hp _].
    destruct (IH (n + 2) (written key n f conn)) as (errs & conn' & ms & E & Hle & Ho & Hl & Hlog & Hpeer);
      [done|lia|lia|].
    destruct (write_answer (frame_ct key n f) (cn_NetConn conn)) as [k err] eqn:Ea.
    exists (err :: errs), conn', (frame_ct key n f :: ms).
    cbn [write_frames]. rewrite (WriteFrame_plain key n), Ea by (done || lia).
    unfold mbind, outcome_bind. rewrite E.
    split; [done|]. rewrite Ho, Hlog. simpl. rewrite <- !app_assoc, Hle, Hl. split_and!; try done.
    intros peer tail Hr Hd. rewrite <- app_assoc in Hd.
    destruct (Hpeer (received key n f (concat ms ++ tail) peer) tail)
      as (peer' & E' & Ht & Hw & Hlg & He & Hsd); [done..|].
    exists peer'. unfold mbind, outcome_bind. rewrite (ReadFrame_sendable key n f (concat ms ++ tail)) by (done || lia). rewrite E'.
    rewrite Hw, Hlg, He, Hsd. simpl. rewrite <- app_assoc. done.
Qed.

(** A session of frames over two connections.  Frames of the sizes the transport
    carries, written one after another with [WriteFrame], are handed to the network in
    one [Write] each; the other side, delivered these, reads with [ReadFrame] the same
    frames in the same order without errors, answers nothing, and leaves what follows.
    Both logs show the plain encodings of exactly these frames. *)
Theorem conn_frames_in_order {laws : AEADLaws} key n fs conn peer tail
    (Hfs : Forall sendable fs) (Hn : 0 ≤ n) (Hmax : n + 2 * len fs ≤ max_nonce)
    (Hs : cn_Send conn = keyed key (to_u64 n)) (Hr : cn_Recv peer = keyed key (to_u64 n)) :
  ∃ errs conn' ms, write_frames fs conn = Ret (errs, conn') ∧ length errs = length fs ∧
    rw_out (cn_NetConn conn') = rw_out (cn_NetConn conn) ++ ms ∧ length ms = length fs ∧
    cn_log conn' = cn_log conn ++ map (λ f, TX (fr_MessageType f) (plain_bytes f)) fs ∧
    (st_data (rw_in (cn_NetConn peer)) = concat ms ++ tail →
     ∃ peer', read_frames (length fs) peer = Ret ((λ f, (Some f, None)) <$> fs, peer') ∧
       st_data (rw_in (cn_NetConn peer')) = tail ∧ rw_out (cn_NetConn peer') = rw_out (cn_NetConn peer) ∧
       cn_log peer' = cn_log peer ++ map (λ f, RX (fr_MessageType f) (plain_bytes f)) fs).
Proof.
  destruct (conn_frames_pass key fs Hfs n conn Hs Hn Hmax) as (errs & conn' & ms & H).
  exists errs, conn', ms. destruct H as (H1 & H2 & H3 & H4 & H5 & H6). split_and!; [done..|].
  intros Hd. destruct (H6 peer tail Hr Hd) as (peer' & H7 & H8 & H9 & H10 & _). eauto.
Qed.

(** A frame with TLVs is not sent as it is logged.  [WriteFrame] encodes it once
    for the log, which appends its TLVs to its payload, and once more to send it: the
    log shows the TLVs once, the ciphertext handed to the network holds them twice,
    and so does the caller's frame from then on. *)
Theorem WriteFrame_sends_TLVs_twice key n f tlvs conn
    (Htlvs : fr_TLVs f = Some tlvs) (Hlen : length_agrees f = true)
    (Hfits : Forall (λ t, len (tlv_Value t) ≤ 65535) tlvs)
    (Hlim : len (sbytes (fr_Payload f)) + 2 * len (tlvs_enc_bytes tlvs) < 2 ^ 32)
    (Hs : cn_Send conn = keyed key (to_u64 n)) (Hn : 0 ≤ n) (Hmax : n + 2 ≤ max_nonce) :
  let p := sbytes (fr_Payload f) in
  let tb := tlvs_enc_bytes tlvs in
  let header q := header_bytes (fr_ExtensionType f) (fr_MessageType f) (len q) in
  let sent q := Seal key (nonce_bytes (to_u64 n)) (header q) [] ++
                Seal key (nonce_bytes (to_u64 (n + 1))) q [] in
  ∃ r conn' f', WriteFrame (Some f) conn = Ret (r, conn', f') ∧
    cn_log conn' = cn_log conn ++ [TX (fr_MessageType f) (header (p ++ tb) ++ p ++ tb)] ∧
    rw_out (cn_NetConn conn') = rw_out (cn_NetConn conn) ++ [sent (p ++ tb ++ tb)] ∧
    sbytes (fr_Payload f') = p ++ tb ++ tb.
Proof.
  intros p tb header sent.
  destruct (Frame_Encode_accumulates f tlvs Htlvs Hlen Hfits Hlim) as (f1 & f2 & E1 & E2 & Hp1 & _ & Hp2).
  fold p tb in E1, E2, Hp1, Hp2. rewrite frame_bytes_split in E1, E2.
  assert (fr_MessageType f1 = fr_MessageType f) as Ht.
  { pose proof (Frame_Encode_type f) as Ht. by rewrite E1 in Ht. }
  unfold WriteFrame. rewrite E1, Hs. unfold mbind, outcome_bind.
  rewrite (EncryptFrameToWriter_of conn_Write _ key n f1 f2
    (header (p ++ tb ++ tb)) (p ++ tb ++ tb)); [|exact E2| |done..].
  2:{ unfold header, header_bytes. by rewrite !length_app, !length_le_put. }
  unfold conn_Write.
  match goal with |- context [write_answer ?b ?w] => destruct (write_answer b w) as [k err] end.
  do 3 eexists. split; [done|].
  rewrite Ht. done.
Qed.
End Conn.

(** ** Witnesses *)

Definition toy_conn (input : list u8) : Sv2Conn :=
  {| cn_NetConn := {| rw_in := {| st_data := input; st_end := "EOF" |}; rw_out := [] |};
     cn_Send := keyed toy_key (to_u64 0); cn_Recv := keyed toy_key (to_u64 0); cn_log := [] |}.

Lemma conn_frames_in_order_witness : ∃ errs conn' (ms : list (list u8)),
  write_frames (ae := toy_aead) (fl := half_range_float) (go := exact_alloc) (net := good_conn)
    [two_byte_frame; two_byte_frame] (toy_conn []) = Ret (errs, conn') ∧ length ms = 2%nat ∧
  ∃ peer', read_frames (ae := toy_aead) (fl := half_range_float) (go := exact_alloc) 2
    (toy_conn (concat (rw_out (cn_NetConn conn')) ++ [])) =
    Ret ([(Some two_byte_frame, None); (Some two_byte_frame, None)], peer').
Proof.
  destruct (conn_frames_in_order (ae := toy_aead) (fl := half_range_float) (go := exact_alloc)
    (net := good_conn) (laws := toy_aead_laws) toy_key 0 [two_byte_frame; two_byte_frame] (toy_conn [])
    (toy_conn (concat (replicate 2 (frame_ct (ae := toy_aead) toy_key 0 two_byte_frame)) ++ [])) [])
    as (errs & conn' & ms & E & _ & Ho & Hl & _ & Hp).
  - repeat constructor; apply two_byte_frame_sendable.
  - reflexivity.
  - vm_compute. discriminate.
  - reflexivity.
  - reflexivity.
  - exists errs, conn', ms. split; [exact E|]. split; [exact Hl|].
    assert (ms = replicate 2 (frame_ct (ae := toy_aead) toy_key 0 two_byte_frame)) as ->.
    { revert E Ho. vm_compute. intros E Ho. injection E as <- <-. symmetry. exact Ho. }
    destruct (Hp eq_refl) as (peer' & E' & _). exists peer'. rewrite Ho. exact E'.
Defined.

Lemma WriteFrame_sends_TLVs_twice_witness :
  let f := set_TLVs (Some [FrameProps.sample_tlv]) sample_frame in
  ∃ r conn' f', WriteFrame (ae := toy_aead) (fl := half_range_float) (go := exact_alloc)
    (net := good_conn) (Some f) (toy_conn []) = Ret (r, conn', f') ∧
  sbytes (fr_Payload f') = [to_u8 7; to_u8 8] ++ tlv_enc_bytes FrameProps.sample_tlv
    ++ tlv_enc_bytes FrameProps.sample_tlv.
Proof.
  intros f.
  destruct (WriteFrame_sends_TLVs_twice (ae := toy_aead) (fl := half_range_float) (go := exact_alloc)
    (net := good_conn) toy_key 0 f [FrameProps.sample_tlv] (toy_conn []))
    as (r & conn' & f' & E & _ & _ & Hp).
  - reflexivity.
  - vm_compute. reflexivity.
  - constructor; [vm_compute; discriminate|constructor].
  - vm_compute. reflexivity.
  - reflexivity.
  - reflexivity.
  - vm_compute. discriminate.
  - exists r, conn', f'. split; [exact E|]. rewrite Hp. reflexivity.
Defined.
