(* ===== verification/NetConn.v ===== *)
(** * [Sv2Conn] as a [net.Conn] (examples/shared/shared.go)

    The methods with which an [Sv2Conn] can stand where a [net.Conn] is wanted.  They hand
    every call to the connection below: what is written or read this way is neither
    encrypted nor logged. *)
From S2P Require Import Prelude GoInts Constants Wire Builder Reader Codec Frame FrameFacts FrameProps.
From S2P Require Import Cipher CipherProps Transport Hashes Keys Handshake Conn.

(** [net.Conn] of the standard library.  [Read] is given its buffer and returns it with
    the count and the error; an address is its string, a deadline its seconds. *)
Class net_Conn (C : Type) := {
  net_Read : list u8 → C → Z * error * list u8 * C;
  net_Write : list u8 → C → Z * error * C;
  net_Close : C → error * C;
  net_LocalAddr : C → gostring;
  net_RemoteAddr : C → gostring;
  net_SetDeadline : Z → C → error * C;
  net_SetReadDeadline : Z → C → error * C;
  net_SetWriteDeadline : Z → C → error * C
}.

Definition set_NetConn (nc : ReadWriter) (conn : Sv2Conn) : Sv2Conn :=
  {| cn_NetConn := nc; cn_Send := cn_Send conn; cn_Recv := cn_Recv conn; cn_log := cn_log conn |}.

Section Methods.
Context {nc : net_Conn ReadWriter}.

Definition Sv2Conn_Write (b : list u8) (conn : Sv2Conn) : Z * error * Sv2Conn :=
  let '(n, err, nc) := net_Write b (cn_NetConn conn) in (n, err, set_NetConn nc conn).
Definition Sv2Conn_Read (b : list u8) (conn : Sv2Conn) : Z * error * list u8 * Sv2Conn :=
  let '(n, err, b, nc) := net_Read b (cn_NetConn conn) in (n, err, b, set_NetConn nc conn).
Definition Sv2Conn_Close (conn : Sv2Conn) : error * Sv2Conn :=
  let '(err, nc) := net_Close (cn_NetConn conn) in (err, set_NetConn nc conn).
Definition Sv2Conn_LocalAddr (conn : Sv2Conn) : gostring := net_LocalAddr (cn_NetConn conn).
Definition Sv2Conn_RemoteAddr (conn : Sv2Conn) : gostring := net_RemoteAddr (cn_NetConn conn).
Definition Sv2Conn_SetDeadline (t : Z) (conn : Sv2Conn) : error * Sv2Conn :=
  let '(err, nc) := net_SetDeadline t (cn_NetConn conn) in (err, set_NetConn nc conn).
Definition Sv2Conn_SetReadDeadline (t : Z) (conn : Sv2Conn) : error * Sv2Conn :=
  let '(err, nc) := net_SetReadDeadline t (cn_NetConn conn) in (err, set_NetConn nc conn).
Definition Sv2Conn_SetWriteDeadline (t : Z) (conn : Sv2Conn) : error * Sv2Conn :=
  let '(err, nc) := net_SetWriteDeadline t (cn_NetConn conn) in (err, set_NetConn nc conn).

#[export] Instance Sv2Conn_net_Conn : net_Conn Sv2Conn := {|
  net_Read := Sv2Conn_Read;
  net_Write := Sv2Conn_Write;
  net_Close := Sv2Conn_Close;
  net_LocalAddr := Sv2Conn_LocalAddr;
  net_RemoteAddr := Sv2Conn_RemoteAddr;
  net_SetDeadline := Sv2Conn_SetDeadline;
  net_SetReadDeadline := Sv2Conn_SetReadDeadline;
  net_SetWriteDeadline := Sv2Conn_SetWriteDeadline |}.

End Methods.

(** ** A user of the interface *)

(** The user chooses each call by the answers that it has got. *)
Inductive net_call :=
| CRead (b : list u8)
| CWrite (b : list u8)
| CClose
| CLocalAddr
| CRemoteAddr
| CDeadline (t : Z)
| CReadDeadline (t : Z)
| CWriteDeadline (t : Z).

Inductive net_answer :=
| AData (n : Z) (err : error) (b : list u8)
| ACount (n : Z) (err : error)
| AError (err : error)
| AAddr (a : gostring).

Definition net_do {C} `{net_Conn C} (c : net_call) (conn : C) : net_answer * C :=
  match c with
  | CRead b => let '(n, err, b, conn) := net_Read b conn in (AData n err b, conn)
  | CWrite b => let '(n, err, conn) := net_Write b conn in (ACount n err, conn)
  | CClose => let '(err, conn) := net_Close conn in (AError err, conn)
  | CLocalAddr => (AAddr (net_LocalAddr conn), conn)
  | CRemoteAddr => (AAddr (net_RemoteAddr conn), conn)
  | CDeadline t => let '(err, conn) := net_SetDeadline t conn in (AError err, conn)
  | CReadDeadline t => let '(err, conn) := net_SetReadDeadline t conn in (AError err, conn)
  | CWriteDeadline t => let '(err, conn) := net_SetWriteDeadline t conn in (AError err, conn)
  end.

Fixpoint net_use {C} `{net_Conn C} (n : nat) (user : list net_answer → option net_call)
    (answers : list net_answer) (conn : C) : list net_answer * C :=
  match n, user answers with
  | S n, Some c => let '(a, conn) := net_do c conn in net_use n user (answers ++ [a]) conn
  | _, _ => (answers, conn)
  end.

Lemma net_do_below {nc : net_Conn ReadWriter} c conn :
  net_do c conn =
  ((net_do c (cn_NetConn conn)).1, set_NetConn (net_do c (cn_NetConn conn)).2 conn).
Proof.
  destruct c; cbn [net_do net_Read net_Write net_Close net_LocalAddr net_RemoteAddr net_SetDeadline
    net_SetReadDeadline net_SetWriteDeadline Sv2Conn_net_Conn].
  - unfold Sv2Conn_Read. by destruct (net_Read _ _) as [[[? ?] ?] ?].
  - unfold Sv2Conn_Write. by destruct (net_Write _ _) as [[? ?] ?].
  - unfold Sv2Conn_Close. by destruct (net_Close _).
  - by destruct conn.
  - by destruct conn.
  - unfold Sv2Conn_SetDeadline. by destruct (net_SetDeadline _ _).
  - unfold Sv2Conn_SetReadDeadline. by destruct (net_SetReadDeadline _ _).
  - unfold Sv2Conn_SetWriteDeadline. by destruct (net_SetWriteDeadline _ _).
Qed.

(** No user of the interface can tell the wrapper from the connection below it, and
    none touches the cipher states or the log: the next frame is sealed and opened as if
    the calls had not been made. *)
Theorem net_use_below {nc : net_Conn ReadWriter} n user : ∀ answers conn,
  net_use n user answers conn =
  ((net_use n user answers (cn_NetConn conn)).1, set_NetConn (net_use n user answers (cn_NetConn conn)).2 conn).
Proof.
  induction n as [|n IH]; intros answers conn; cbn [net_use]; [by destruct conn|].
  destruct (user answers) as [c|]; [|by destruct conn]. rewrite net_do_below.
  destruct (net_do c (cn_NetConn conn)) as [a rw]. cbn [fst snd]. rewrite IH. by destruct conn.
Qed.
