(* ===== verification/Server.v ===== *)
(** * The example server (examples/server/server.go)

    The goroutine that serves one connection: the handshake as the responder, the first
    frame, then frames until the connection ends.  An error that is not the end of the
    connection goes to [loog.Fatal], which ends the process.  The loop's fuel bounds the
    frames read; every frame takes at least 22 bytes of the stream. *)
From S2P Require Import Prelude GoInts Constants Wire Builder Reader Sequences Codec CoreMessages Frame FrameFacts.
From S2P Require Import Cipher CipherProps Transport Hashes Keys KeysProps Handshake HandshakeProps Conn.

(** [errors.Is(err, net.ErrClosed)], for the errors a connection ends with. *)
Class NetErrors := { is_ErrClosed : string → bool }.

(** How a handler ends: it returns, or it ends the process. *)
Inductive handler_end :=
| Return
| LogFatal (msg : string).

(** The authority and the validity of the server's certificate. *)
Definition server_ValidFrom : u32 := to_u32 0.
Definition server_NotValidAfter : u32 := to_u32 65535.

Section Server.
Context {ae : AEAD} {fl : GoFloat} {go : GoAlloc} {sha : SHA256} {ec : Secp256k1}.
Context {net : NetErrors}.

(** The keys and the certificate that [main] makes: the error of the signature is
    dropped, and so is the authority's key pair, which nothing prints or stores. *)
Definition server_cert {sch : Schnorr} (authKey staticKey : Keypair) :
    outcome (option SIGNATURE_NOISE_MESSAGE) :=
  match kp_Private authKey with
  | None => Panic NilDereference
  | Some k =>
      pub ← Keypair_PublicKey staticKey;
      mret (NewSignedCertificate k pub server_ValidFrom server_NotValidAfter).1
  end.

(** [if err == io.EOF || errors.Is(err, net.ErrClosed) { return }; loog.Fatal(..)] *)
Definition on_read_error (e : string) : handler_end :=
  if bool_decide (e = "EOF"%string) || is_ErrClosed e then Return else LogFatal e.

(** The loop at the end, which drops the frames. *)
Fixpoint serve_loop (fuel : nat) (conn : Sv2Conn) : option (outcome (handler_end * Sv2Conn)) :=
  match fuel with
  | O => None
  | S fuel' =>
      match ReadFrame conn with
      | Panic p => Some (Panic p)
      | Ret (_, Some e, conn) => Some (Ret (on_read_error e, conn))
      | Ret (_, None, conn) => serve_loop fuel' conn
      end
  end.

(** What the handler leaves: how it ended, the connection, the lines of the log. *)
Definition served : Type := handler_end * ReadWriter * list log_line * HandshakeState.

(** The frame with the answer is built and dropped. *)
Definition serve_conn (fuel : nat) (ephemeral : Keypair) (rawConn : ReadWriter)
    (cert : option SIGNATURE_NOISE_MESSAGE) (staticKey : option Keypair)
    (clientPaw : HandshakeState) : option (outcome served) :=
  match PerformHandshakeResponder ephemeral rawConn cert staticKey clientPaw with
  | Panic p => Some (Panic p)
  | Ret (_, _, Some e, rw, hs) => Some (Ret (LogFatal e, rw, [], hs))
  | Ret (Some recv, Some send, None, rw, hs) =>
      let conn := {| cn_NetConn := rw; cn_Send := send; cn_Recv := recv; cn_log := [] |} in
      match ReadFrame conn with
      | Panic p => Some (Panic p)
      | Ret (_, Some e, conn) => Some (Ret (on_read_error e, cn_NetConn conn, cn_log conn, hs))
      | Ret (None, None, _) => Some (Panic NilDereference)
      | Ret (Some frame, None, conn) =>
          if negb (Zmod.unsigned (fr_MessageType frame) =? Zmod.unsigned MessageSetupConnection) then
            Some (Ret (Return, cn_NetConn conn, cn_log conn, hs))
          else
            let '(sendFrame, _) := Frame_FromParams zero_frame MessageSetupConnectionSuccess
              {| scs_UsedVersion := to_u16 ProtocolVersion; scs_Flags := to_u32 0 |} in
            match serve_loop fuel conn with
            | None => None
            | Some (Panic p) => Some (Panic p)
            | Some (Ret (e, conn)) => Some (Ret (e, cn_NetConn conn, cn_log conn, hs))
            end
      end
  | Ret (_, _, None, _, _) => Some (Panic NilDereference)
  end.

(** ** One frame *)

(** Reading a frame writes nothing; a frame takes at least a header of the stream. *)
Lemma DecryptFrameFromReader_shrinks r cs f err r' cs' :
  DecryptFrameFromReader r cs = Ret (f, err, r', cs') →
  (err = None → length (st_data r') + 22 ≤ length (st_data r))%nat.
Proof.
  unfold DecryptFrameFromReader, decrypt_frame_from, stream_ReadFull, mbind, outcome_bind, mret, outcome_ret.
  change (Z.to_nat NoiseHeaderSize) with 22%nat.
  destruct (ReadFull 22 r) as [[h [e|]] r1] eqn:E1; [by intros [= <- <- <- <-]|].
  apply ReadFull_shrinks in E1 as (_ & _ & H1). specialize (H1 eq_refl).
  destruct (_ <? _); [by intros [= <- <- <- <-]|].
  destruct (DecryptWithAd _ _ _) as [[[d [e|]] cs1]|]; [by intros [= <- <- <- <-]| |done].
  destruct (Frame_DecodeHeader _ _) as [[f1 e1]|]; [|done].
  destruct (ReadFull _ r1) as [[p [e|]] r2] eqn:E2; [by intros [= <- <- <- <-]|].
  apply ReadFull_shrinks in E2 as (_ & H2 & _).
  destruct (_ <? _); [by intros [= <- <- <- <-]|].
  destruct (DecryptWithAd _ _ _) as [[[d2 [e|]] cs2]|]; intros [= <- <- <- <-] ?; [done|lia].
Qed.

Lemma ReadFrame_shrinks conn f err conn' : ReadFrame conn = Ret (f, err, conn') →
  rw_out (cn_NetConn conn') = rw_out (cn_NetConn conn) ∧
  (err = None →
   length (st_data (rw_in (cn_NetConn conn'))) + 22 ≤ length (st_data (rw_in (cn_NetConn conn))))%nat.
Proof.
  unfold ReadFrame, mbind, outcome_bind, mret, outcome_ret.
  destruct (DecryptFrameFromReader _ _) as [[[[f1 [e|]] r] recv]|] eqn:E; [by intros [= <- <- <-]| |done].
  pose proof (DecryptFrameFromReader_shrinks _ _ _ _ _ _ E). destruct f1 as [f1|]; [|done].
  destruct (Frame_Encode f1) as [[b e] f2]. by intros [= <- <- <-].
Qed.

Lemma ReadFrame_total {laws : AEADLaws} key n conn : cn_Recv conn = keyed key n →
  ∃ f err conn' m, ReadFrame conn = Ret (f, err, conn') ∧ cn_Recv conn' = keyed key m ∧
    (err = None → f ≠ None).
Proof.
  intros Hr. unfold ReadFrame. rewrite Hr.
  destruct (DecryptFrameFromReader_keyed key n (rw_in (cn_NetConn conn))) as (f & err & r & m & -> & Hf).
  unfold mbind, outcome_bind, mret, outcome_ret. destruct err as [e|].
  - do 4 eexists. split; [reflexivity|]. done.
  - destruct f as [f|]; [|by destruct Hf]. destruct (Frame_Encode f) as [[b e] f2].
    do 4 eexists. split; [reflexivity|]. done.
Qed.

(** ** The loop *)

Lemma serve_loop_ends {laws : AEADLaws} fuel : ∀ key n conn, cn_Recv conn = keyed key n →
  (length (st_data (rw_in (cn_NetConn conn))) < fuel)%nat →
  ∃ e conn', serve_loop fuel conn = Some (Ret (e, conn')) ∧
    rw_out (cn_NetConn conn') = rw_out (cn_NetConn conn).
Proof.
  induction fuel as [|fuel IH]; intros key n conn Hr Hf; [lia|]. cbn [serve_loop].
  destruct (ReadFrame_total key n conn Hr) as (f & err & conn' & m & E & Hr' & _). rewrite E.
  apply ReadFrame_shrinks in E as [Ho Hs]. destruct err as [e|].
  - do 2 eexists. split; [reflexivity|done].
  - specialize (Hs eq_refl). destruct (IH key m conn' Hr') as (e & conn'' & -> & Ho'); [lia|].
    do 2 eexists. split; [reflexivity|]. congruence.
Qed.

(** ** The handshake of the server *)

(** What the responder returns, by what its peer sends. *)
Lemma responder_outcomes {laws : AEADLaws} eph static priv spriv cert rw hs :
  0 < max_nonce → kp_Private eph = Some priv → kp_Private static = Some spriv →
  (∃ m, PerformHandshakeResponder eph rw (Some cert) (Some static) hs = Panic (ExplicitPanic m)) ∨
  (∃ e r hs', PerformHandshakeResponder eph rw (Some cert) (Some static) hs =
     Ret (None, None, Some e, {| rw_in := r; rw_out := rw_out rw |}, hs') ∧
     ReadFull 64 (rw_in rw) = (st_data (rw_in rw), Some e, r)) ∨
  (∃ k1 k2 msg r hs', PerformHandshakeResponder eph rw (Some cert) (Some static) hs =
     Ret (Some (keyed k1 (to_u64 0)), Some (keyed k2 (to_u64 0)), None,
          {| rw_in := r; rw_out := rw_out rw ++ [msg] |}, hs') ∧
     ReadFull 64 (rw_in rw) = (take 64 (st_data (rw_in rw)), None, r)).
Proof.
  intros Hmax Hp Hs. pose proof (responder_refines eph static priv spriv cert rw hs Hmax Hp Hs) as E.
  unfold nx_responder, rw_ReadFull in E.
  destruct (ReadFull 64 (rw_in rw)) as [[e err] r] eqn:Er.
  assert (err = None ∧ e = take 64 (st_data (rw_in rw)) ∨ ∃ m, err = Some m ∧ e = st_data (rw_in rw)) as Hc.
  { revert Er. unfold ReadFull. destruct (_ <=? _)%nat; intros [= <- <- <-]; [by left|right; eauto]. }
  destruct Hc as [[-> ->]|(m & -> & ->)].
  - destruct (V2Ecdh priv _ _ _) as [ee|m]; [destruct (V2Ecdh spriv _ _ _) as [es|m]|];
      destruct (PerformHandshakeResponder _ _ _ _ _) as [[[x y] hs']|]; try done;
      [|injection E as ->; left; by eexists..].
    right. right. unfold transport_states in E. injection E as -> ->. by do 5 eexists.
  - right. left. destruct (PerformHandshakeResponder _ _ _ _ _) as [[[x y] hs']|]; [|done].
    injection E as -> ->. by do 3 eexists.
Qed.
(** ** What the server promises *)

(** A connection's handler ends, and never answers.  Whatever the peer sends, with
    one turn of the loop per byte to spare the handler returns or ends the process, or
    the curve code made it panic in the handshake; and all it has written is at most one
    message, the handshake's.  The SetupConnectionSuccess that it builds is not sent. *)
Theorem serve_conn_ends {laws : AEADLaws} fuel eph static priv spriv cert rw hs
    (Hmax : 0 < max_nonce) (Hp : kp_Private eph = Some priv) (Hs : kp_Private static = Some spriv)
    (Hfuel : (length (st_data (rw_in rw)) < fuel)%nat) :
  (∃ m, serve_conn fuel eph rw (Some cert) (Some static) hs = Some (Panic (ExplicitPanic m))) ∨
  ∃ e rw' log hs', serve_conn fuel eph rw (Some cert) (Some static) hs = Some (Ret (e, rw', log, hs')) ∧
    (rw_out rw' = rw_out rw ∨ ∃ msg, rw_out rw' = rw_out rw ++ [msg]).
Proof.
  unfold serve_conn.
  destruct (responder_outcomes eph static priv spriv cert rw hs Hmax Hp Hs)
    as [(m & ->)|[(e & r & hs' & -> & _)|(k1 & k2 & msg & r & hs' & -> & Hr)]]; [by left; eexists| |];
    right; [do 4 eexists; split; [reflexivity|by left]|].
  apply ReadFull_shrinks in Hr as (_ & Hr & _).
  set (conn := {| cn_NetConn := _ |}).
  destruct (ReadFrame_total k1 (to_u64 0) conn eq_refl) as (f & err & conn' & m & E & Hr' & Hf).
  rewrite E. apply ReadFrame_shrinks in E as [Ho Hsh]. destruct err as [e|].
  { assert (∀ A (x : A), match f with Some _ | None => x end = x) as -> by by destruct f.
    do 4 eexists. split; [reflexivity|]. right. by exists msg. }
  specialize (Hsh eq_refl). destruct f as [f|]; [|by destruct Hf]. destruct (negb _).
  { do 4 eexists. split; [reflexivity|]. right. by exists msg. }
  destruct (Frame_FromParams _ _ _) as [sendFrame err].
  destruct (serve_loop_ends fuel k1 m conn' Hr') as (e & conn'' & -> & Ho'); [simpl in Hsh; lia|].
  do 4 eexists. split; [reflexivity|]. right. exists msg. by rewrite Ho', Ho.
Qed.

(** A peer that disconnects before the handshake's 64 bytes makes the connection's
    handler end in [loog.Fatal], which ends the server's process: the end of the stream
    is an error of the handshake, and the handler does not tell it from others there.
    Nothing was written to the peer; the error is the stream's own, or unexpected EOF
    when some of the bytes had come. *)
Theorem short_connection_stops_server fuel eph static cert rw hs
    (Hshort : (length (st_data (rw_in rw)) < 64)%nat) :
  ∃ e rw' log hs', serve_conn fuel eph rw cert static hs = Some (Ret (LogFatal e, rw', log, hs')) ∧
    rw_out rw' = rw_out rw ∧
    e = if decide (st_data (rw_in rw) = [] ∨ st_end (rw_in rw) ≠ "EOF"%string)
        then st_end (rw_in rw) else "unexpected EOF"%string.
Proof.
  unfold serve_conn, PerformHandshakeResponder, rw_ReadFull, ReadFull.
  rewrite (proj2 (Nat.leb_gt _ _)) by done. unfold mret, outcome_ret. by do 4 eexists.
Qed.

(** The server's certificate has always expired.  Its validity ends 65535 seconds
    after the epoch: whatever the keys, whenever a client's clock reads a later time
    (modulo 2^32, as the check takes it), verifying the certificate under any authority
    answers that it has expired. *)
Lemma server_cert_is_old {sch : Schnorr} authKey staticKey cert now authority static
    (Hcert : server_cert authKey staticKey = Ret (Some cert))
    (Hnow : 65535 < Zmod.unsigned (to_u32 now)) :
  VerifyServerCertificate now (Some cert) authority static =
    Ret (false, Some "certificate has expired"%string).
Proof.
  unfold server_cert in Hcert. destruct (kp_Private authKey) as [k|]; [|done].
  unfold mbind, outcome_bind in Hcert. destruct (Keypair_PublicKey staticKey) as [pub|]; [|done].
  unfold NewSignedCertificate in Hcert. rewrite cert_EncodeNoSig in Hcert.
  destruct (schnorr_Sign _ _); [|done]. injection Hcert as <-.
  unfold VerifyServerCertificate, set_signature.
  cbn [snm_Version snm_ValidFrom snm_NotValidAfter].
  assert (Zmod.unsigned server_NotValidAfter = 65535) as -> by reflexivity.
  assert (Zmod.unsigned server_ValidFrom = 0) as -> by reflexivity.
  assert (Zmod.unsigned (to_u16 CertificateFormatVersion) = 0) as -> by reflexivity.
  change (negb (0 =? CertificateFormatVersion)) with false. cbn iota.
  rewrite (proj2 (Z.ltb_ge _ 0)) by lia. by rewrite (proj2 (Z.ltb_lt 65535 _)).
Qed.
End Server.

(** ** Witnesses *)

(** No error of the toy streams is [net.ErrClosed]. *)
Definition never_closed : NetErrors := {| is_ErrClosed _ := false |}.

Lemma serve_conn_ends_witness :
  ∃ e rw' log hs', serve_conn (ae := toy_aead) (fl := half_range_float) (go := exact_alloc)
    (sha := toy_sha) (ec := toy_curve) (net := never_closed) 65 toy_keypair
    (delivers (SerializeEllswiftBytes (ec := toy_curve) toy_keypair) "EOF") (Some toy_cert)
    (Some toy_keypair) zero_handshake = Some (Ret (e, rw', log, hs')).
Proof.
  destruct (serve_conn_ends (ae := toy_aead) (fl := half_range_float) (go := exact_alloc)
    (sha := toy_sha) (ec := toy_curve) (net := never_closed) (laws := toy_aead_laws) 65 toy_keypair
    toy_keypair toy_secret toy_secret toy_cert
    (delivers (SerializeEllswiftBytes (ec := toy_curve) toy_keypair) "EOF") zero_handshake)
    as [(m & E)|(e & rw' & log & hs' & E & _)].
  - exact toy_max.
  - reflexivity.
  - reflexivity.
  - vm_compute. lia.
  - revert E. vm_compute. discriminate.
  - exists e, rw', log, hs'. exact E.
Defined.

Lemma short_connection_stops_server_witness :
  ∃ rw' log hs', serve_conn (ae := toy_aead) (fl := half_range_float) (go := exact_alloc)
    (sha := toy_sha) (ec := toy_curve) (net := never_closed) 1 toy_keypair (delivers [] "EOF")
    (Some toy_cert) (Some toy_keypair) zero_handshake = Some (Ret (LogFatal "EOF", rw', log, hs')).
Proof.
  destruct (short_connection_stops_server (ae := toy_aead) (fl := half_range_float) (go := exact_alloc)
    (sha := toy_sha) (ec := toy_curve) (net := never_closed) 1 toy_keypair (Some toy_keypair)
    (Some toy_cert) (delivers [] "EOF") zero_handshake) as (e & rw' & log & hs' & E & _ & He).
  - vm_compute. lia.
  - exists rw', log, hs'. rewrite E. rewrite He. reflexivity.
Defined.
