(* ===== verification/Logger.v ===== *)
(** * The example client (examples/logger/logger.go)

    The client connects, checks the server's certificate if it was given an authority
    key, sends SetupConnection and OpenExtendedMiningChannel, logs what it receives
    while it remembers the channel it was given, and closes that channel on a signal.
    The goroutine that reads uses the receiving cipher state, the main one the sending
    one; they share the channel id. *)
From S2P Require Import Prelude GoInts Constants U256 Wire Builder Reader Sequences Codec CoreMessages.
From S2P Require Import MiningMessages MiningCodecs Frame FrameFacts Cipher CipherProps Transport Hashes.
From S2P Require Import Keys KeysProps Handshake HandshakeProps Conn Server.

Definition maxtarget : U256 :=
  (U256_SetString (gostring_of "00000000FFFFFFFFFFFFFFFFFFFFFFFFFFFFFFFFFFFFFFFFFFFFFFFFFFFFFFFF")
    (zero_array 32)).1.

(** [reqid++; return reqid] *)
Definition newReqID (reqid : u32) : u32 * u32 :=
  let reqid := Zmod.add reqid (to_u32 1) in (reqid, reqid).

Definition setupmsg (poolhost : gostring) (poolport : u16) : SetupConnection :=
  {| sc_Protocol := MiningProtocol;
     sc_MinVersion := to_u16 ProtocolVersion;
     sc_MaxVersion := to_u16 ProtocolVersion;
     sc_Flags := RequiresVersionRollingFlag;
     sc_EndpointPort := poolport;
     sc_EndpointHost := poolhost;
     sc_DeviceVendor := gostring_of "0xf0xx0";
     sc_DeviceHardwareVersion := gostring_of "logger.go";
     sc_DeviceFirmware := gostring_of "git.0xf0xx0.eth.limo/0xf0xx0/stratumv2";
     sc_DeviceID := gostring_of "paws" |}.

(** [addr] is [addr.EncodeAddress()]; 0x5368d4a5 are the bits of the [float32] 1e12. *)
Definition openchanmsg (reqid : u32) (addr : gostring) : OpenExtendedMiningChannel :=
  {| oemc_OpenStandardMiningChannel :=
       {| osmc_RequestID := (newReqID reqid).1;
          osmc_UserIdentity := addr ++ gostring_of ".sv2-logger";
          osmc_NominalHashRate := to_u32 0x5368d4a5;
          osmc_MaxTarget := maxtarget |};
     oemc_MinExtranonceSize := to_u16 1 |}.

Definition closemsg (chanid : Z) : CloseChannel :=
  {| cc_ChannelID := to_u32 chanid;
     cc_ReasonCode := gostring_of "ubisoft go steamworks bye bye, always on drm" |}.

(** [OpenExtendedMiningChannelSuccess{}] *)
Definition zero_success : OpenExtendedMiningChannelSuccess :=
  {| oemcs_OpenStandardMiningChannelSuccess :=
       {| osmcs_RequestID := to_u32 0; osmcs_ChannelID := to_u32 0; osmcs_Target := zero_array 32;
          osmcs_ExtranoncePrefix := []; osmcs_GroupChannelID := to_u32 0 |};
     oemcs_ExtranonceSize := to_u16 0 |}.

(** After the start: the process has ended with a message, or the client is connected. *)
Inductive client :=
| Exited (msg : string)
| Connected (conn : Sv2Conn) (clientPaw : HandshakeState).

Section Logger.
Context {ae : AEAD} {fl : GoFloat} {go : GoAlloc} {sha : SHA256} {ec : Secp256k1} {sch : Schnorr}.
Context {b58 : Base58} {net : NetConn} {errs : NetErrors}.

(** The errors of the encoders are dropped: the frame is nil then. *)
Definition setupFrame (poolhost : gostring) (poolport : u16) : option Frame :=
  (NewFrameFromParams MessageSetupConnection ExtensionTypeCore (setupmsg poolhost poolport)).1.
Definition openchanFrame (reqid : u32) (addr : gostring) : option Frame :=
  (NewFrameFromParams MessageOpenExtendedMiningChannel ExtensionTypeCore (openchanmsg reqid addr)).1.

(** [if authkey != ""]: nothing, or the message of [loog.Fatal]. *)
Definition check_authority (authkey : gostring) (now : Z) (clientPaw : HandshakeState) :
    outcome (option string) :=
  match authkey with
  | [] => mret None
  | _ =>
      '(authorityPubkey, err) ← DeserializeAuthorityKey authkey;
      match err with
      | Some e => mret (Some e)
      | None =>
          pub ← slice_to_array 32 authorityPubkey;
          '(valid, err) ← HandshakeState_VerifyServerCertificate now pub clientPaw;
          match err with
          | Some e => mret (Some e)
          | None => if (valid : bool) then mret None else mret (Some "cert validation failed!"%string)
          end
      end
  end.

(** From the connection to the start of the two goroutines. *)
Definition logger_connect (ephemeral : Keypair) (rawConn : ReadWriter) (authkey : gostring) (now : Z) :
    outcome client :=
  '(send, recv, err, rw, clientPaw) ← PerformHandshakeInitiator ephemeral rawConn zero_handshake;
  match err with
  | Some e => mret (Exited e)
  | None =>
  match send, recv with
  | Some send, Some recv =>
      let conn := {| cn_NetConn := rw; cn_Send := send; cn_Recv := recv; cn_log := [] |} in
      fatal ← check_authority authkey now clientPaw;
      match fatal with
      | Some e => mret (Exited e)
      | None => mret (Connected conn clientPaw)
      end
  | _, _ => Panic NilDereference
  end end.

(** The start up to the two frames, as long as nothing is read in between. *)
Definition logger_start (ephemeral : Keypair) (rawConn : ReadWriter) (authkey : gostring) (now : Z)
    (poolhost : gostring) (poolport : u16) (reqid : u32) (addr : gostring) : outcome client :=
  let setup := setupFrame poolhost poolport in
  let openchan := openchanFrame reqid addr in
  connected ← logger_connect ephemeral rawConn authkey now;
  match connected with
  | Exited e => mret (Exited e)
  | Connected conn clientPaw =>
      '(_, err, conn, _) ← WriteFrame setup conn;
      match err with
      | Some e => mret (Exited e)
      | None =>
          '(_, err, conn, _) ← WriteFrame openchan conn;
          match err with
          | Some e => mret (Exited e)
          | None => mret (Connected conn clientPaw)
          end
      end
  end.

(** What the reading goroutine does with a frame; an error of the decoder is dropped. *)
Definition logger_on_frame (frame : Frame) (chanid : Z) : outcome Z :=
  if Zmod.unsigned (fr_MessageType frame) =? Zmod.unsigned MessageOpenExtendedMiningChannelSuccess then
    '(msg, _) ← Decode zero_success (fr_Payload frame);
    mret (Zmod.unsigned (osmcs_ChannelID (oemcs_OpenStandardMiningChannelSuccess msg)))
  else mret chanid.

Fixpoint logger_loop (fuel : nat) (conn : Sv2Conn) (chanid : Z) :
    option (outcome (handler_end * Sv2Conn * Z)) :=
  match fuel with
  | O => None
  | S fuel' =>
      match ReadFrame conn with
      | Panic p => Some (Panic p)
      | Ret (_, Some e, conn) => Some (Ret (on_read_error e, conn, chanid))
      | Ret (None, None, _) => Some (Panic NilDereference)
      | Ret (Some frame, None, conn) =>
          match logger_on_frame frame chanid with
          | Panic p => Some (Panic p)
          | Ret chanid => logger_loop fuel' conn chanid
          end
      end
  end.

(** An error of the write is logged only. *)
Definition close_channel (chanid : Z) (conn : Sv2Conn) : outcome Sv2Conn :=
  let frame := (NewFrameFromParams MessageCloseChannel ExtensionTypeCore (closemsg chanid)).1 in
  '(_, _, conn, _) ← WriteFrame frame conn;
  mret conn.

(** On a signal.  The connection is closed then. *)
Definition logger_shutdown (chanid : Z) (conn : Sv2Conn) : outcome Sv2Conn :=
  if -1 <? chanid then close_channel chanid conn else mret conn.

(** ** The frames the client sends *)

Lemma NewFrameFromParams_sendable {M} `{WireCodec M} mt ext (m : M) bs :
  Encode m = (Some bs, None) → 1 ≤ len bs ≤ MaxPlaintextChunkSize →
  let f := {| fr_ExtensionType := ext; fr_MessageType := mt; fr_MessageLength := to_u32 (len bs);
              fr_Payload := Some bs; fr_TLVs := None |} in
  NewFrameFromParams mt ext m = (Some f, None) ∧ sendable f ∧
  ∀ m0, Frame_ToParams f m0 = Ret (m, None).
Proof.
  change MaxPlaintextChunkSize with 65519. intros E Hl f. unfold NewFrameFromParams. rewrite E.
  change (sbytes (Some bs)) with bs. change MaxU24 with 16777215. rewrite (proj2 (Z.ltb_ge _ _)) by lia.
  assert (Zmod.unsigned (to_u32 (len bs)) = len bs) as Hu by (apply bits.unsigned_of_Z_small; lia).
  split; [done|]. split.
  - split; [|exact Hl]. split; [done|]. split; [|simpl; change MaxU24 with 16777215; lia].
    unfold length_agrees, f. simpl. rewrite Hu. apply Z.eqb_refl.
  - intros m0. unfold Frame_ToParams, f. cbn [fr_Payload]. rewrite <- (app_nil_r bs). by apply Decode_Encode.
Qed.

Lemma w_str255_ok s : len s ≤ 255 → w_str255 s = (le_put 1 (len s) ++ s, None).
Proof. intros Hs. unfold w_str255, w_bin. by rewrite (proj2 (Z.ltb_ge _ _) Hs). Qed.

Lemma setupmsg_size host port : len host ≤ 255 →
  ∃ bs, Encode (setupmsg host port) = (Some bs, None) ∧ 1 ≤ len bs ≤ MaxPlaintextChunkSize.
Proof.
  intros Hh. eexists. split.
  - apply Encode_ok. unfold wire_of. simpl. unfold SetupConnection_wire.
    cbn [setupmsg sc_EndpointHost sc_DeviceVendor sc_DeviceHardwareVersion sc_DeviceFirmware sc_DeviceID].
    rewrite !w_str255_ok by (assumption || done). reflexivity.
  - unfold wapp, w_u8, w_u16, w_u32, w_uint, wbytes, len in *. cbn [fst snd].
    rewrite !length_app, !length_le_put. vm_compute (length (gostring_of _)).
    change MaxPlaintextChunkSize with 65519. lia.
Qed.

Lemma openchanmsg_size reqid addr : len addr ≤ 244 →
  ∃ bs, Encode (openchanmsg reqid addr) = (Some bs, None) ∧ 1 ≤ len bs ≤ MaxPlaintextChunkSize.
Proof.
  intros Ha. assert (len (addr ++ gostring_of ".sv2-logger") ≤ 255) as Hs
    by (rewrite len_app; change (len (gostring_of ".sv2-logger")) with 11; lia).
  eexists. split.
  - apply Encode_ok. unfold wire_of. simpl.
    unfold OpenExtendedMiningChannel_wire, OpenStandardMiningChannel_wire.
    cbn [openchanmsg oemc_OpenStandardMiningChannel osmc_UserIdentity].
    rewrite w_str255_ok by done. reflexivity.
  - unfold w_array, wapp, w_u16, w_u32, w_uint, wbytes, len in *. cbn [fst snd].
    rewrite !length_app, !length_le_put, !length_arr. rewrite length_app in Hs.
    change MaxPlaintextChunkSize with 65519. lia.
Qed.

Lemma closemsg_size chanid :
  ∃ bs, Encode (closemsg chanid) = (Some bs, None) ∧ 1 ≤ len bs ≤ MaxPlaintextChunkSize.
Proof.
  eexists. split.
  - apply Encode_ok. unfold wire_of. simpl. unfold CloseChannel_wire. cbn [closemsg cc_ReasonCode].
    rewrite w_str255_ok by done. reflexivity.
  - unfold wapp, w_u32, w_uint, wbytes, len. cbn [fst snd]. rewrite !length_app, !length_le_put.
    vm_compute (length (gostring_of _)). change MaxPlaintextChunkSize with 65519. lia.
Qed.

(** Both frames, built and carried. *)
Lemma logger_frames host port reqid addr : len host ≤ 255 → len addr ≤ 244 →
  ∃ f1 f2, setupFrame host port = Some f1 ∧ openchanFrame reqid addr = Some f2 ∧
    sendable f1 ∧ sendable f2 ∧
    fr_MessageType f1 = MessageSetupConnection ∧ fr_MessageType f2 = MessageOpenExtendedMiningChannel ∧
    (∀ m0, Frame_ToParams f1 m0 = Ret (setupmsg host port, None)) ∧
    ∀ m0, Frame_ToParams f2 m0 = Ret (openchanmsg reqid addr, None).
Proof.
  intros Hh Ha. destruct (setupmsg_size host port Hh) as (b1 & E1 & L1).
  destruct (openchanmsg_size reqid addr Ha) as (b2 & E2 & L2).
  destruct (NewFrameFromParams_sendable MessageSetupConnection ExtensionTypeCore _ b1 E1 L1) as (F1 & S1 & P1).
  destruct (NewFrameFromParams_sendable MessageOpenExtendedMiningChannel ExtensionTypeCore _ b2 E2 L2)
    as (F2 & S2 & P2).
  unfold setupFrame, openchanFrame. rewrite F1, F2. do 2 eexists. by split_and!.
Qed.
(** ** The client and the server of the examples *)

Lemma ReadFrame_eof conn rw_o send recv log :
  conn = {| cn_NetConn := {| rw_in := {| st_data := []; st_end := "EOF" |}; rw_out := rw_o |};
            cn_Send := send; cn_Recv := recv; cn_log := log |} →
  ReadFrame conn = Ret (None, Some "EOF"%string, conn).
Proof. by intros ->. Qed.

(** What the server's handler makes of the client's two frames. *)
Lemma server_takes {laws : AEADLaws} key f1 f2 conn fuel :
  4 ≤ max_nonce → sendable f1 → sendable f2 → (2 ≤ fuel)%nat →
  cn_Recv conn = keyed key (to_u64 0) →
  rw_in (cn_NetConn conn) =
    {| st_data := frame_ct key 0 f1 ++ frame_ct key 2 f2; st_end := "EOF" |} →
  ∃ conn1 conn2, ReadFrame conn = Ret (Some f1, None, conn1) ∧
    serve_loop fuel conn1 = Some (Ret (Return, conn2)) ∧
    rw_out (cn_NetConn conn2) = rw_out (cn_NetConn conn) ∧
    cn_log conn2 = cn_log conn ++
      [RX (fr_MessageType f1) (plain_bytes f1); RX (fr_MessageType f2) (plain_bytes f2)].
Proof.
  intros Hmax H1 H2 Hfuel Hr Hd.
  set (conn1 := received key 0 f1 (frame_ct key 2 f2) conn).
  set (conn2 := received key 2 f2 [] conn1).
  exists conn1, conn2. split; [by apply ReadFrame_sendable; [..|lia|rewrite Hd]|].
  destruct fuel as [|[|fuel]]; [lia..|]. cbn [serve_loop].
  rewrite (ReadFrame_sendable key 2 f2 [] conn1); [|done|done|lia|lia|by rewrite app_nil_r].
  fold conn2. assert (ReadFrame conn2 = Ret (None, Some "EOF"%string, conn2)) as ->.
  { eapply ReadFrame_eof. unfold conn2, conn1, received. simpl. rewrite Hd. reflexivity. }
  split; [done|]. split; [done|]. unfold conn2, conn1, received. simpl. by rewrite <- app_assoc.
Qed.

(** C23: the two example programs work together, as far as they go.  A client without an
    authority key, whose host name has at most 255 bytes and whose address at most 244,
    connects to the server, whatever key pairs they made: delivered the server's one
    message it writes its ephemeral key and two frames, in one [Write] each, and stays
    connected; delivered these, the server completes the handshake, reads the two
    frames, SetupConnection and OpenExtendedMiningChannel, returns at the end of the
    stream, and has written its handshake message only.  The logs of the two agree. *)
Theorem logger_meets_server {laws : AEADLaws} {elaws : EllswiftLaws} ki kr s cert now host port reqid addr fuel hs
    (Hnet : ∀ b rw, (write_answer b rw).2 = None) (Hmax : 4 ≤ max_nonce)
    (Hki : keypair_ok ki) (Hkr : keypair_ok kr) (Hs : keypair_ok s)
    (Hhost : len host ≤ 255) (Haddr : len addr ≤ 244) (Hfuel : (2 ≤ fuel)%nat) :
  ∃ msg c1 c2 f1 f2 conn clientPaw rw' hs',
    logger_start ki (delivers msg "EOF") [] now host port reqid addr = Ret (Connected conn clientPaw) ∧
    rw_out (cn_NetConn conn) = [SerializeEllswiftBytes ki; c1; c2] ∧
    serve_conn fuel kr (delivers (SerializeEllswiftBytes ki ++ c1 ++ c2) "EOF") (Some cert) (Some s) hs =
      Some (Ret (Return, rw', [RX MessageSetupConnection (plain_bytes f1);
                               RX MessageOpenExtendedMiningChannel (plain_bytes f2)], hs')) ∧
    rw_out rw' = [msg] ∧
    cn_log conn = [TX MessageSetupConnection (plain_bytes f1);
                   TX MessageOpenExtendedMiningChannel (plain_bytes f2)] ∧
    (∀ m0, Frame_ToParams f1 m0 = Ret (setupmsg host port, None)) ∧
    ∀ m0, Frame_ToParams f2 m0 = Ret (openchanmsg reqid addr, None).
Proof.
  assert (0 < max_nonce) as Hmax0 by lia.
  destruct (handshake_keys ki kr s cert Hmax0 Hki Hkr Hs) as (k1 & k2 & msg & Hrun).
  destruct (logger_frames host port reqid addr Hhost Haddr)
    as (f1 & f2 & E1 & E2 & S1 & S2 & T1 & T2 & P1 & P2).
  destruct (Hrun zero_handshake hs [] (frame_ct k1 0 f1 ++ frame_ct k1 2 f2) "EOF" "EOF")
    as (hsi & hsr & Er & Ei & _ & _).
  rewrite app_nil_r in Ei.
  set (rwr := {| rw_in := {| st_data := frame_ct k1 0 f1 ++ frame_ct k1 2 f2; st_end := "EOF" |};
                 rw_out := [msg] |}) in *.
  set (connr := {| cn_NetConn := rwr; cn_Send := keyed k2 (to_u64 0); cn_Recv := keyed k1 (to_u64 0);
                   cn_log := [] |}).
  destruct (server_takes k1 f1 f2 connr fuel) as (conn1 & conn2 & R1 & R2 & Ho & Hl); [done..|].
  set (conni := {| cn_NetConn := {| rw_in := {| st_data := []; st_end := "EOF" |};
                     rw_out := [SerializeEllswiftBytes ki] |};
                   cn_Send := keyed k1 (to_u64 0); cn_Recv := keyed k2 (to_u64 0); cn_log := [] |}).
  exists msg, (frame_ct k1 0 f1), (frame_ct k1 2 f2), f1, f2, (written k1 2 f2 (written k1 0 f1 conni)).
  exists hsi, (cn_NetConn conn2), hsr. split_and!; [|done| |done| |done|done].
  - unfold logger_start, logger_connect. rewrite Ei. unfold mbind, outcome_bind. rewrite E1, E2. cbn [check_authority mret outcome_ret].
    fold conni. rewrite (WriteFrame_plain k1 0 f1 conni) by (done || apply S1 || lia).
    match goal with |- context [write_answer ?b ?w] => pose proof (Hnet b w) as Hw;
      destruct (write_answer b w) as [n1 e1] end. simpl in Hw. subst e1.
    rewrite (WriteFrame_plain k1 2 f2) by (done || apply S2 || lia).
    match goal with |- context [write_answer ?b ?w] => pose proof (Hnet b w) as Hw;
      destruct (write_answer b w) as [n2 e2] end. simpl in Hw. by subst e2.
  - unfold serve_conn. rewrite Er. fold connr. rewrite R1, T1. cbn [negb Z.eqb].
    destruct (Frame_FromParams _ _ _). rewrite R2, Hl, T1, T2. done.
  - simpl. unfold plain_bytes. by rewrite T1, T2.
Qed.
(** A client that checks refuses the server of the examples.  Given any authority's
    key, at any time after the first eighteen hours of 1970 (modulo 2^32 seconds), the
    client completes the handshake with the server and then ends its process, because
    the server's certificate has expired; it sends no frame. *)
Theorem logger_refuses_example_server {laws : AEADLaws} {elaws : EllswiftLaws} {blaws : Base58Laws}
    ki kr s auth cert pub now host port reqid addr hs
    (Hmax : 0 < max_nonce) (Hki : keypair_ok ki) (Hkr : keypair_ok kr) (Hs : keypair_ok s)
    (Hcert : server_cert auth s = Ret (Some cert))
    (Hnow : 65535 < Zmod.unsigned (to_u32 now)) (Hkey : SerializeAuthorityKey pub ≠ []) :
  ∃ msg rr rw' hs',
    PerformHandshakeResponder kr (delivers (SerializeEllswiftBytes ki) "EOF") (Some cert) (Some s) hs
      = Ret (rr, rw', hs') ∧ rw_out rw' = [msg] ∧
    logger_start ki (delivers msg "EOF") (SerializeAuthorityKey pub) now host port reqid addr =
      Ret (Exited "certificate has expired").
Proof.
  destruct (handshake_keys ki kr s cert Hmax Hki Hkr Hs) as (k1 & k2 & msg & Hrun).
  destruct (Hrun zero_handshake hs [] [] "EOF"%string "EOF"%string) as (hsi & hsr & Er & Ei & Hc & Hst).
  rewrite app_nil_r in Er, Ei. exists msg. do 3 eexists. split; [exact Er|]. split; [done|].
  unfold logger_start, logger_connect. rewrite Ei. unfold mbind, outcome_bind.
  destruct (SerializeAuthorityKey pub) as [|x l] eqn:Ek; [done|].
  assert (check_authority (x :: l) now hsi = Ret (Some "certificate has expired"%string)) as ->; [|done].
  unfold check_authority. rewrite <- Ek. unfold DeserializeAuthorityKey, SerializeAuthorityKey.
  rewrite CheckDecode_Encode. unfold mbind, outcome_bind, mret, outcome_ret. simpl.
  rewrite slice_to_array_exact by apply length_arr. simpl.
  destruct Hs as (ks & _ & Hz & He & _). unfold HandshakeState_VerifyServerCertificate. rewrite Hc, Hst.
  destruct (XSwiftEC_decodes ks _ Hz He) as (y & -> & _).
  by rewrite (server_cert_is_old auth s cert).
Qed.

(** ** The reading goroutine *)

(** With one turn per byte to spare the loop ends: it returns, ends the process, or
    panics in the decoder of a message. *)
Lemma logger_loop_ends {laws : AEADLaws} fuel : ∀ key n conn chanid, cn_Recv conn = keyed key n →
  (length (st_data (rw_in (cn_NetConn conn))) < fuel)%nat →
  logger_loop fuel conn chanid ≠ None.
Proof.
  induction fuel as [|fuel IH]; intros key n conn chanid Hr Hf; [lia|]. cbn [logger_loop].
  destruct (ReadFrame_total key n conn Hr) as (f & err & conn' & m & E & Hr' & Hn). rewrite E.
  apply ReadFrame_shrinks in E as [_ Hsh]. destruct err as [e|]; [by destruct f|].
  specialize (Hn eq_refl). specialize (Hsh eq_refl). destruct f as [f|]; [|done].
  destruct (logger_on_frame f chanid); [|done]. apply (IH key m); [done|lia].
Qed.

(** The channel a frame gives, if it gives one. *)
Definition gives (f : Frame) (c : option u32) : Prop :=
  match c with
  | None => fr_MessageType f ≠ MessageOpenExtendedMiningChannelSuccess
  | Some c =>
      fr_MessageType f = MessageOpenExtendedMiningChannelSuccess ∧
      ∃ (m : OpenExtendedMiningChannelSuccess) bs tail,
        Encode m = (Some bs, None) ∧ fr_Payload f = Some (bs ++ tail) ∧
        osmcs_ChannelID (oemcs_OpenStandardMiningChannelSuccess m) = c
  end.

Lemma logger_on_frame_gives f c chanid : gives f c →
  logger_on_frame f chanid = Ret (from_option Zmod.unsigned chanid c).
Proof.
  unfold logger_on_frame, gives. destruct c as [c|]; cbn [from_option].
  - intros (-> & m & bs & tail & Henc & -> & <-).
    by rewrite Z.eqb_refl, (Decode_Encode m zero_success bs tail Henc).
  - intros Ht. rewrite (proj2 (Z.eqb_neq _ _)); [done|]. intros Eu. by apply Zmod.unsigned_inj in Eu.
Qed.

(** The channel given last, [chanid] if none was. *)
Definition last_channel (chanid : Z) (cs : list (option u32)) : Z :=
  from_option Zmod.unsigned chanid (last (omap id cs)).

Lemma last_channel_snoc chanid c cs :
  last_channel chanid (cs ++ [c]) = from_option Zmod.unsigned (last_channel chanid cs) c.
Proof.
  unfold last_channel. rewrite omap_app. destruct c as [c|]; simpl; [by rewrite last_snoc|by rewrite app_nil_r].
Qed.

(** Closing a channel, by its id. *)
Lemma close_channel_writes key n c conn : cn_Send conn = keyed key (to_u64 n) → 0 ≤ n →
  n + 2 ≤ max_nonce →
  ∃ f, close_channel (Zmod.unsigned c) conn = Ret (written key n f conn) ∧
    fr_MessageType f = MessageCloseChannel ∧
    ∃ msg, (∀ m0, Frame_ToParams f m0 = Ret (msg, None)) ∧ cc_ChannelID msg = c.
Proof.
  intros Hs Hn Hmax. destruct (closemsg_size (Zmod.unsigned c)) as (b & E & L).
  destruct (NewFrameFromParams_sendable MessageCloseChannel ExtensionTypeCore _ b E L) as (F & [S _] & P).
  unfold close_channel. rewrite F. cbn [fst].
  rewrite (WriteFrame_plain key n) by done. unfold mbind, outcome_bind.
  match goal with |- context [write_answer ?b ?w] => destruct (write_answer b w) as [k err] end.
  eexists. split; [reflexivity|]. split; [reflexivity|].
  exists (closemsg (Zmod.unsigned c)). split; [exact P|]. simpl. apply of_Z_unsigned.
Qed.

End Logger.

(** ** Witnesses *)

Lemma logger_meets_server_witness : ∃ (msg c1 c2 : list u8) f1 f2 rw' hs',
  serve_conn (ae := toy_aead) (fl := half_range_float) (go := exact_alloc) (sha := toy_sha)
    (ec := toy_curve) (net := never_closed) 2 toy_keypair
    (delivers (SerializeEllswiftBytes (ec := toy_curve) toy_keypair ++ c1 ++ c2) "EOF") (Some toy_cert)
    (Some toy_keypair) zero_handshake =
    Some (Ret (Return, rw', [RX MessageSetupConnection f1; RX MessageOpenExtendedMiningChannel f2], hs')).
Proof.
  destruct (logger_meets_server (ae := toy_aead) (fl := half_range_float) (go := exact_alloc)
    (sha := toy_sha) (ec := toy_curve) (sch := toy_schnorr) (b58 := toy_base58) (net := good_conn)
    (errs := never_closed) (laws := toy_aead_laws) (elaws := toy_ellswift_laws)
    toy_keypair toy_keypair toy_keypair toy_cert 0 (gostring_of "127.0.0.1") (to_u16 5661) (to_u32 0)
    (gostring_of "bc1paddress") 2 zero_handshake)
    as (msg & c1 & c2 & f1 & f2 & conn & paw & rw' & hs' & _ & _ & E & _).
  - reflexivity.
  - vm_compute. discriminate.
  - exact toy_keypair_ok.
  - exact toy_keypair_ok.
  - exact toy_keypair_ok.
  - vm_compute. discriminate.
  - vm_compute. discriminate.
  - lia.
  - exists msg, c1, c2. do 2 eexists. exists rw', hs'. exact E.
Defined.

Lemma logger_refuses_example_server_witness : ∃ msg, logger_start (ae := toy_aead)
  (fl := half_range_float) (go := exact_alloc) (sha := toy_sha) (ec := toy_curve) (sch := toy_schnorr)
  (b58 := toy_base58) (net := good_conn) toy_keypair (delivers msg "EOF")
  (SerializeAuthorityKey (b58 := toy_base58) toy_secret) 1700000000 (gostring_of "127.0.0.1")
  (to_u16 5661) (to_u32 0) (gostring_of "bc1paddress") = Ret (Exited "certificate has expired").
Proof.
  edestruct (logger_refuses_example_server (ae := toy_aead) (fl := half_range_float) (go := exact_alloc)
    (sha := toy_sha) (ec := toy_curve) (sch := toy_schnorr) (b58 := toy_base58) (net := good_conn)
    (laws := toy_aead_laws) (elaws := toy_ellswift_laws)
    (blaws := toy_base58_laws) toy_keypair toy_keypair toy_keypair toy_keypair)
    as (msg & rr & rw' & hs' & _ & _ & E).
  - exact toy_max.
  - exact toy_keypair_ok.
  - exact toy_keypair_ok.
  - exact toy_keypair_ok.
  - vm_compute. reflexivity.
  - instantiate (1 := 1700000000). vm_compute. reflexivity.
  - instantiate (1 := toy_secret). vm_compute. discriminate.
  - exists msg. exact E.
  Unshelve. exact zero_handshake.
Defined.

Definition toy_success : OpenExtendedMiningChannelSuccess :=
  {| oemcs_OpenStandardMiningChannelSuccess :=
       {| osmcs_RequestID := to_u32 1; osmcs_ChannelID := to_u32 7; osmcs_Target := zero_array 32;
          osmcs_ExtranoncePrefix := []; osmcs_GroupChannelID := to_u32 0 |};
     oemcs_ExtranonceSize := to_u16 4 |}.

(** Two frames, of which one gives channel 7. *)
Definition toy_success_frame : Frame :=
  {| fr_ExtensionType := ExtensionTypeCore; fr_MessageType := MessageOpenExtendedMiningChannelSuccess;
     fr_MessageLength := to_u32 47;
     fr_Payload := (OpenExtendedMiningChannelSuccess_Encode (H := exact_alloc) toy_success).1;
     fr_TLVs := None |}.
