(* ===== verification/LoggerRun.v ===== *)
(** * The example client as a whole (examples/logger/logger.go)

    After the handshake the client is two goroutines: the reading one, which logs frames
    and keeps the channel that it was given, and [main], which writes two frames, waits
    for a signal, and closes the channel.  They share the connection, of which the one
    uses the receiving half and the other the sending half, and the variable [chanid].
    Their steps interleave; [loog.Fatal], a panic and [main]'s return end the process. *)
From S2P Require Import Prelude GoInts Constants U256 Wire Builder Reader Sequences Codec CoreMessages.
From S2P Require Import MiningMessages MiningCodecs Frame FrameFacts Cipher CipherProps Transport Hashes.
From S2P Require Import Keys KeysProps Handshake HandshakeProps Conn Server Logger.

(** Where [main] is: before the two frames, at [<-sigs], after the test of [chanid] that
    found a channel, before [conn.Close()]. *)
Inductive main_at :=
| MSetup
| MOpenChan
| MSignal
| MClosing
| MCloseConn
| MReturned.

(** How the process ended, if it did before [main] returned. *)
Inductive crash :=
| CrashFatal (msg : string)
| CrashPanic (p : panic).

Record logger := {
  lg_main : main_at;
  lg_reading : bool;         (* the other goroutine has not returned *)
  lg_conn : Sv2Conn;
  lg_chanid : Z;
  lg_crash : option crash
}.

Definition logger_at (m : main_at) (reading : bool) (conn : Sv2Conn) (chanid : Z) : logger :=
  {| lg_main := m; lg_reading := reading; lg_conn := conn; lg_chanid := chanid; lg_crash := None |}.
Definition crashed (c : crash) (s : logger) : logger :=
  {| lg_main := lg_main s; lg_reading := lg_reading s; lg_conn := lg_conn s; lg_chanid := lg_chanid s;
     lg_crash := Some c |}.

(** After the handshake. *)
Definition logger_begin (conn : Sv2Conn) : logger := logger_at MSetup true conn (-1).

Section Run.
Context {ae : AEAD} {fl : GoFloat} {go : GoAlloc} {net : NetConn} {errs : NetErrors}.
Context (setup openchan : option Frame).

(** [_, err = conn.WriteFrame(frame)], then [loog.Fatal] or the next statement. *)
Definition write_or_die (frame : option Frame) (next : main_at) (s : logger) : logger :=
  match WriteFrame frame (lg_conn s) with
  | Panic p => crashed (CrashPanic p) s
  | Ret (_, err, conn, _) =>
      let s := logger_at (lg_main s) (lg_reading s) conn (lg_chanid s) in
      match err with
      | Some e => crashed (CrashFatal e) s
      | None => logger_at next (lg_reading s) conn (lg_chanid s)
      end
  end.

(** [main]'s next statement; at [MSignal] the signal has come. *)
Definition main_step (s : logger) : logger :=
  match lg_main s with
  | MSetup => write_or_die setup MOpenChan s
  | MOpenChan => write_or_die openchan MSignal s
  | MSignal =>
      logger_at (if -1 <? lg_chanid s then MClosing else MCloseConn) (lg_reading s) (lg_conn s) (lg_chanid s)
  | MClosing =>
      match close_channel (lg_chanid s) (lg_conn s) with
      | Panic p => crashed (CrashPanic p) s
      | Ret conn => logger_at MCloseConn (lg_reading s) conn (lg_chanid s)
      end
  | MCloseConn => logger_at MReturned (lg_reading s) (lg_conn s) (lg_chanid s)
  | MReturned => s
  end.

(** One turn of the reading goroutine. *)
Definition read_step (s : logger) : logger :=
  match ReadFrame (lg_conn s) with
  | Panic p => crashed (CrashPanic p) s
  | Ret (_, Some e, conn) =>
      let s := logger_at (lg_main s) (lg_reading s) conn (lg_chanid s) in
      match on_read_error e with
      | Return => logger_at (lg_main s) false conn (lg_chanid s)
      | LogFatal m => crashed (CrashFatal m) s
      end
  | Ret (None, None, _) => crashed (CrashPanic NilDereference) s
  | Ret (Some frame, None, conn) =>
      match logger_on_frame frame (lg_chanid s) with
      | Panic p => crashed (CrashPanic p) s
      | Ret chanid => logger_at (lg_main s) (lg_reading s) conn chanid
      end
  end.

(** Nothing runs after a crash or after [main]'s return. *)
Inductive logger_step : logger → logger → Prop :=
| step_main s : lg_crash s = None → lg_main s ≠ MReturned → logger_step s (main_step s)
| step_read s : lg_crash s = None → lg_main s ≠ MReturned → lg_reading s = true →
    logger_step s (read_step s).

(** Taking turns in a given order: [true] is [main]'s. *)
Definition logger_turn (main : bool) (s : logger) : option logger :=
  match lg_crash s, lg_main s, main, lg_reading s with
  | Some _, _, _, _ | _, MReturned, _, _ | _, _, false, false => None
  | _, _, true, _ => Some (main_step s)
  | _, _, false, true => Some (read_step s)
  end.

Fixpoint logger_run (turns : list bool) (s : logger) : option logger :=
  match turns with
  | [] => Some s
  | t :: turns => logger_turn t s ≫= logger_run turns
  end.

Lemma logger_turn_step s s' : logger_step s s' ↔ ∃ t, logger_turn t s = Some s'.
Proof.
  unfold logger_turn. split.
  - intros [? Hc Hm|? Hc Hm Hb]; [exists true|exists false]; rewrite Hc, ?Hb; by destruct (lg_main _).
  - intros [t Ht]. destruct (lg_crash s) eqn:Hc; [done|].
    assert (lg_main s ≠ MReturned) as Hm by (intros Em; by rewrite Em in Ht).
    destruct t; [assert (s' = main_step s) as -> by (by destruct (lg_main s), (lg_reading s); simplify_eq/=)|].
    { by apply step_main. }
    destruct (lg_reading s) eqn:Hb; [|by destruct (lg_main s)].
    assert (s' = read_step s) as -> by (by destruct (lg_main s); simplify_eq/=). by apply step_read.
Qed.

Lemma logger_run_steps turns : ∀ s s', logger_run turns s = Some s' → rtc logger_step s s'.
Proof.
  induction turns as [|t turns IH]; intros s s' E; [by injection E as <-|]. cbn [logger_run] in E.
  destruct (logger_turn t s) as [s1|] eqn:Et; [|done].
  eapply rtc_l; [apply logger_turn_step; by exists t|by apply IH].
Qed.

(** The reading goroutine's steps, without any of [main]'s, are the loop. *)
Lemma reading_alone fuel m : m ≠ MReturned → ∀ conn chanid conn' chanid',
  logger_loop fuel conn chanid = Some (Ret (Return, conn', chanid')) →
  rtc logger_step (logger_at m true conn chanid) (logger_at m false conn' chanid').
Proof.
  intros Hm. induction fuel as [|fuel IH]; intros conn chanid conn' chanid' E; [done|].
  eapply rtc_l; [by apply step_read|]. cbn [logger_loop] in E. unfold read_step.
  cbn [logger_at lg_conn lg_main lg_reading lg_chanid].
  destruct (ReadFrame conn) as [[[[f|] [e|]] conn1]|]; [| | |done..].
  1, 3: injection E as E <- <-; by rewrite E.
  - destruct (logger_on_frame f chanid) as [chanid1|]; [|done]. by apply IH.
Qed.

End Run.

Lemma write_or_die_ok {ae : AEAD} {fl : GoFloat} {go : GoAlloc} {net : NetConn} frame next m b conn chan k conn' f :
  WriteFrame frame conn = Ret (k, None, conn', f) →
  write_or_die frame next (logger_at m b conn chan) = logger_at next b conn' chan.
Proof. intros E. unfold write_or_die. cbn [logger_at lg_conn]. by rewrite E. Qed.

(** Without any step of the reading goroutine, [main] starts as [logger_start] does. *)
Lemma start_alone {ae : AEAD} {fl : GoFloat} {go : GoAlloc} {sha : SHA256} {ec : Secp256k1} {sch : Schnorr}
    {b58 : Base58} {net : NetConn} {errs : NetErrors} eph raw auth now host port reqid addr conn' paw :
  logger_start eph raw auth now host port reqid addr = Ret (Connected conn' paw) →
  ∃ conn, logger_connect eph raw auth now = Ret (Connected conn paw) ∧
    logger_run (setupFrame host port) (openchanFrame reqid addr) [true; true] (logger_begin conn) =
      Some (logger_at MSignal true conn' (-1)).
Proof.
  unfold logger_start, mbind, outcome_bind, mret, outcome_ret.
  destruct (logger_connect _ _ _ _) as [[e|conn paw']|]; [done| |done]. intros E. exists conn. revert E.
  generalize (setupFrame host port), (openchanFrame reqid addr). intros setup openchan E.
  destruct (WriteFrame setup conn) as [[[[k [e|]] conn1] f]|] eqn:E1; [done| |done].
  destruct (WriteFrame openchan conn1) as [[[[k2 [e2|]] conn2] f2]|] eqn:E2; [done| |done].
  injection E as -> ->. split; [done|].
  change (logger_run setup openchan [true; true] (logger_begin conn)) with
    (logger_turn setup openchan true (write_or_die setup MOpenChan (logger_at MSetup true conn (-1))) ≫= Some).
  rewrite (write_or_die_ok _ _ _ _ _ _ _ _ _ E1).
  change (logger_turn setup openchan true (logger_at MOpenChan true conn1 (-1)) ≫= Some) with
    (Some (write_or_die openchan MSignal (logger_at MOpenChan true conn1 (-1)))).
  by rewrite (write_or_die_ok _ _ _ _ _ _ _ _ _ E2).
Qed.

Section Session.
Context {ae : AEAD} {laws : AEADLaws} {fl : GoFloat} {go : GoAlloc} {net : NetConn} {errs : NetErrors}.

(** What [write_frames] hands to the network, one [Write] per frame. *)
Fixpoint frame_cts (key : array 32) (n : Z) (fs : list Frame) : list (list u8) :=
  match fs with
  | [] => []
  | f :: fs => frame_ct key n f :: frame_cts key (n + 2) fs
  end.

Lemma write_frames_cts key fs : Forall sendable fs → ∀ n conn,
  cn_Send conn = keyed key (to_u64 n) → 0 ≤ n → n + 2 * len fs ≤ max_nonce →
  ∃ res conn', write_frames fs conn = Ret (res, conn') ∧
    rw_out (cn_NetConn conn') = rw_out (cn_NetConn conn) ++ frame_cts key n fs.
Proof.
  induction 1 as [|f fs [Hf _] Hfs IH]; intros n conn Hs Hn Hmax.
  - do 2 eexists. split; [done|]. by rewrite app_nil_r.
  - rewrite len_cons in Hmax. pose proof (len_nonneg fs). cbn [write_frames].
    rewrite (WriteFrame_plain key n) by (done || lia).
    destruct (write_answer _ _) as [k err]. unfold mbind, outcome_bind.
    destruct (IH (n + 2) (written key n f conn)) as (res & conn' & -> & Ho); [done|lia|lia|].
    do 2 eexists. split; [done|]. rewrite Ho. cbn [written cn_NetConn rw_Write rw_out frame_cts].
    by rewrite <- app_assoc.
Qed.

(** A client with frames [fs] to come, which give the channels [cs]. *)
Context (key skey : array 32) (n sn : Z) (fs : list Frame) (cs : list (option u32)).
Context (f1 f2 : Frame) (out : list (list u8)).
Context (Hfs : Forall sendable fs) (Hgives : Forall2 gives fs cs) (Hn : 0 ≤ n).
Context (Hmax : n + 2 * len fs ≤ max_nonce) (Hsn : 0 ≤ sn) (Hsmax : sn + 6 ≤ max_nonce).
Context (H1 : sendable f1) (H2 : sendable f2).
Context (Hnet : ∀ b rw, (write_answer b rw).2 = None).

(** What the network has got when the client is done, after [k] frames: the two frames,
    then the CloseChannel of the channel that it knew when it looked. *)
Definition closed_out (k : nat) (o : list (list u8)) : Prop :=
  ∃ j, (j ≤ k)%nat ∧
  match last (omap id (take j cs)) with
  | None => o = out ++ [frame_ct skey sn f1; frame_ct skey (sn + 2) f2]
  | Some c => ∃ f msg, o = out ++ [frame_ct skey sn f1; frame_ct skey (sn + 2) f2; frame_ct skey (sn + 4) f] ∧
      fr_MessageType f = MessageCloseChannel ∧ (∀ m0, Frame_ToParams f m0 = Ret (msg, None)) ∧
      cc_ChannelID msg = c
  end.

Definition main_ok (m : main_at) (k : nat) (conn : Sv2Conn) : Prop :=
  let o := rw_out (cn_NetConn conn) in
  match m with
  | MSetup => cn_Send conn = keyed skey (to_u64 sn) ∧ o = out
  | MOpenChan => cn_Send conn = keyed skey (to_u64 (sn + 2)) ∧ o = out ++ [frame_ct skey sn f1]
  | MSignal => cn_Send conn = keyed skey (to_u64 (sn + 4)) ∧
      o = out ++ [frame_ct skey sn f1; frame_ct skey (sn + 2) f2]
  | MClosing => cn_Send conn = keyed skey (to_u64 (sn + 4)) ∧
      o = out ++ [frame_ct skey sn f1; frame_ct skey (sn + 2) f2] ∧ last (omap id (take k cs)) ≠ None
  | MCloseConn | MReturned => closed_out k o
  end.

(** After [k] frames. *)
Definition session_ok (k : nat) (s : logger) : Prop :=
  lg_crash s = None ∧ lg_chanid s = last_channel (-1) (take k cs) ∧
  cn_Recv (lg_conn s) = keyed key (to_u64 (n + 2 * Z.of_nat k)) ∧
  rw_in (cn_NetConn (lg_conn s)) =
    {| st_data := concat (frame_cts key (n + 2 * Z.of_nat k) (drop k fs)); st_end := "EOF" |} ∧
  main_ok (lg_main s) k (lg_conn s).

(** The steps that are left at most. *)
Definition main_left (m : main_at) : nat :=
  match m with MSetup => 5 | MOpenChan => 4 | MSignal => 3 | MClosing => 2 | MCloseConn => 1 | MReturned => 0 end.
Definition logger_left (s : logger) : nat :=
  length (st_data (rw_in (cn_NetConn (lg_conn s)))) + Nat.b2n (lg_reading s) + main_left (lg_main s).

Lemma main_ok_sender m k conn conn' : cn_Send conn' = cn_Send conn →
  rw_out (cn_NetConn conn') = rw_out (cn_NetConn conn) → main_ok m k conn → main_ok m k conn'.
Proof. unfold main_ok. by intros -> ->. Qed.

Lemma main_ok_more m k conn : main_ok m k conn → main_ok m (S k) conn.
Proof.
  destruct m; simpl; try done.
  - intros (? & ? & Hc). split_and!; [done..|]. destruct (cs !! k) as [c|] eqn:E.
    + rewrite (take_S_r _ _ _ E), omap_app. destruct c as [c|]; simpl; [by rewrite last_snoc|by rewrite app_nil_r].
    + rewrite take_ge; [|by apply lookup_ge_None in E; lia]. by rewrite take_ge in Hc by (by apply lookup_ge_None).
  - intros (j & ? & ?). exists j. split; [lia|done].
  - intros (j & ? & ?). exists j. split; [lia|done].
Qed.

Lemma last_channel_some k c : last (omap id (take k cs)) = Some c →
  last_channel (-1) (take k cs) = Zmod.unsigned c.
Proof. unfold last_channel. by intros ->. Qed.
Lemma last_channel_none k : last (omap id (take k cs)) = None → last_channel (-1) (take k cs) = -1.
Proof. unfold last_channel. by intros ->. Qed.

Lemma write_or_die_plain f m next b k conn chan : plain_frame f → cn_Send conn = keyed skey (to_u64 k) →
  0 ≤ k → k + 2 ≤ max_nonce →
  write_or_die (Some f) next (logger_at m b conn chan) = logger_at next b (written skey k f conn) chan.
Proof.
  intros Hf Hs Hk Hk'. pose proof (WriteFrame_plain skey k f conn Hf Hs Hk Hk') as E.
  destruct (write_answer _ _) as [c e] eqn:Ew. pose proof (Hnet (frame_ct skey k f) (cn_NetConn conn)) as He.
  rewrite Ew in He. cbn [snd] in He. subst e. by eapply write_or_die_ok.
Qed.

Lemma main_step_ok k s : lg_main s ≠ MReturned → session_ok k s →
  session_ok k (main_step (Some f1) (Some f2) s) ∧
  (S (logger_left (main_step (Some f1) (Some f2) s)) ≤ logger_left s)%nat.
Proof.
  intros Hm (Hc & Hid & Hr & Hin & Ho). unfold main_step.
  destruct s as [[] b conn ch c]; cbn [lg_main lg_crash lg_chanid lg_conn main_ok] in *; subst c.
  - destruct Ho as [Hs Ho]. change (lg_main _) with MSetup. cbn iota. fold (logger_at MSetup b conn ch).
    rewrite (write_or_die_plain f1 _ _ _ sn) by (done || apply H1 || lia).
    split; [|unfold logger_left; simpl; lia]. split_and!; try done. simpl. by rewrite Ho.
  - destruct Ho as [Hs Ho]. fold (logger_at MOpenChan b conn ch).
    rewrite (write_or_die_plain f2 _ _ _ (sn + 2)) by (done || apply H2 || lia).
    split; [|unfold logger_left; simpl; lia]. split_and!; try done. simpl. split.
    + by replace (sn + 2 + 2) with (sn + 4) by lia.
    + by rewrite Ho, <- app_assoc.
  - destruct Ho as [Hs Ho]. cbn [lg_chanid lg_reading lg_conn logger_at].
    destruct (last (omap id (take k cs))) as [c|] eqn:El;
      [rewrite (last_channel_some k c) in Hid by done|rewrite (last_channel_none k) in Hid by done]; subst ch.
    + pose proof (u_range 32 c ltac:(lia)). rewrite (proj2 (Z.ltb_lt _ _)) by lia.
      split; [|unfold logger_left; simpl; lia]. split_and!; try done; simpl; [by rewrite last_channel_some with (c := c)|by rewrite El].
    + split; [|unfold logger_left; simpl; lia]. split_and!; try done; simpl; [by rewrite last_channel_none|]. exists k. by rewrite El.
  - destruct Ho as (Hs & Ho & Hl). cbn [lg_chanid lg_reading lg_conn logger_at]. 
    destruct (last (omap id (take k cs))) as [c|] eqn:El; [|done].
    rewrite (last_channel_some k c El) in Hid. subst ch.
    destruct (close_channel_writes skey (sn + 4) c conn Hs) as (f & -> & Ht & msg & P & E); [lia..|].
    split; [|unfold logger_left; simpl; lia]. split_and!; try done; simpl; [by rewrite (last_channel_some k c)|]. exists k. rewrite El.
    split; [done|]. exists f, msg. by rewrite Ho, <- app_assoc.
  - split; [|unfold logger_left; simpl; lia]. by split_and!.
  - done.
Qed.

Lemma read_step_ok k s : lg_reading s = true → session_ok k s →
  (session_ok k (read_step s) ∨ session_ok (S k) (read_step s)) ∧
  (S (logger_left (read_step s)) ≤ logger_left s)%nat.
Proof.
  intros Hb (Hc & Hid & Hr & Hin & Ho). unfold read_step.
  destruct s as [m b conn chan c]; cbn [lg_main lg_crash lg_chanid lg_conn lg_reading] in *; subst c b.
  destruct (fs !! k) as [f|] eqn:Ef.
  - destruct (Forall2_lookup_l _ _ _ _ _ Hgives Ef) as (c & Ec & Hg).
    pose proof (Forall_lookup_1 _ _ _ _ Hfs Ef) as Hf.
    rewrite (drop_S _ _ _ Ef) in Hin. cbn [frame_cts concat] in Hin.
    assert (Z.of_nat k < len fs) by (apply lookup_lt_Some in Ef; unfold len; lia).
    erewrite ReadFrame_sendable; [|done|exact Hr|lia|lia|by rewrite Hin].
    rewrite (logger_on_frame_gives f c chan Hg).
    split; [right|].
    + unfold received. split_and!; try done.
      * cbn [logger_at lg_chanid]. by rewrite (take_S_r _ _ _ Ec), last_channel_snoc, Hid.
      * cbn. f_equal. f_equal. lia.
      * cbn. rewrite Hin. cbn. do 3 f_equal. lia.
      * cbn [logger_at lg_main lg_conn]. apply main_ok_more. by eapply main_ok_sender; [..|exact Ho].
    + destruct (frame_ct_lengths key (n + 2 * Z.of_nat k) f) as [Hl _]; [apply Hf|].
      unfold logger_left, frame_ct in *. cbn. rewrite Hin. cbn. rewrite !length_app. lia.
  - rewrite drop_ge in Hin by (by apply lookup_ge_None). cbn in Hin.
    destruct conn as [[rwi rwo] send recv log]. cbn in Hin. subst rwi.
    erewrite ReadFrame_eof by done. change (on_read_error "EOF") with Return. cbn [lg_chanid lg_main lg_reading logger_at].
    split; [left|unfold logger_left; simpl; lia]. split_and!; try done.
    cbn. by rewrite drop_ge by (by apply lookup_ge_None).
Qed.

Lemma logger_step_ok s s' : (∃ k, session_ok k s) → logger_step (Some f1) (Some f2) s s' →
  (∃ k, session_ok k s') ∧ (logger_left s' < logger_left s)%nat.
Proof.
  intros [k Hk] Hstep. destruct Hstep as [s _ Hm|s _ _ Hb].
  - destruct (main_step_ok k s Hm Hk). split; [by exists k|lia].
  - destruct (read_step_ok k s Hb Hk) as [[?|?] ?]; (split; [by eexists|lia]).
Qed.

Lemma logger_steps_ok conn m s :
  cn_Recv conn = keyed key (to_u64 n) → cn_Send conn = keyed skey (to_u64 sn) →
  rw_out (cn_NetConn conn) = out →
  rw_in (cn_NetConn conn) = {| st_data := concat (frame_cts key n fs); st_end := "EOF" |} →
  nsteps (logger_step (Some f1) (Some f2)) m (logger_begin conn) s →
  (∃ k, session_ok k s) ∧ (m + logger_left s ≤ length (concat (frame_cts key n fs)) + 6)%nat.
Proof.
  intros Hr Hs Ho Hin Hsteps.
  destruct (nsteps_measured _ (λ s, ∃ k, session_ok k s) logger_left logger_step_ok m (logger_begin conn) s)
    as [? Hl]; [|done|].
  - exists O. unfold session_ok, logger_begin. cbn [logger_at lg_crash lg_chanid lg_conn lg_main main_ok].
    rewrite Z.mul_0_r, Z.add_0_r. by split_and!.
  - assert (logger_left (logger_begin conn) = length (concat (frame_cts key n fs)) + 6)%nat as El.
    { unfold logger_left. cbn. rewrite Hin. cbn. lia. }
    split; [done|lia].
Qed.

End Session.

(** C18: the client as a whole closes the channel it knows, however its two goroutines
    interleave and whenever the signal comes.  A pool writes frames that the transport
    carries (without TLVs, the length field the payload's length, 1 to 65519 bytes of
    payload), of which those of type OpenExtendedMiningChannelSuccess hold such a
    message, and closes the connection; the client's writes succeed, its host and
    address are short enough for their fields, and the nonces suffice.  Delivered what the pool wrote, the client
    never crashes, can go on until [main] has returned, and does so within a bounded
    number of steps.  At any time the variable [chanid] is the channel of the last
    such message among the frames read, or -1.  When [main] has returned the network has
    got SetupConnection, OpenExtendedMiningChannel and, if among the frames read before
    [main] looked one gave a channel, one CloseChannel, of the last such channel. *)
Theorem logger_program {ae : AEAD} {laws : AEADLaws} {fl : GoFloat} {go : GoAlloc} {net : NetConn}
    {errs : NetErrors} host port reqid addr key n skey sn fs cs pool conn
    (Hnet : ∀ b rw, (write_answer b rw).2 = None) (Hhost : len host ≤ 255) (Haddr : len addr ≤ 244)
    (Hfs : Forall sendable fs) (Hgives : Forall2 gives fs cs)
    (Hpool : cn_Send pool = keyed key (to_u64 n)) (Hr : cn_Recv conn = keyed key (to_u64 n))
    (Hn : 0 ≤ n) (Hmax : n + 2 * len fs ≤ max_nonce)
    (Hs : cn_Send conn = keyed skey (to_u64 sn)) (Hsn : 0 ≤ sn) (Hsmax : sn + 6 ≤ max_nonce) :
  let step := logger_step (setupFrame host port) (openchanFrame reqid addr) in
  ∃ f1 f2 res pool' ms, write_frames fs pool = Ret (res, pool') ∧
    rw_out (cn_NetConn pool') = rw_out (cn_NetConn pool) ++ ms ∧
    (∀ m0, Frame_ToParams f1 m0 = Ret (setupmsg host port, None)) ∧
    (∀ m0, Frame_ToParams f2 m0 = Ret (openchanmsg reqid addr, None)) ∧
    (rw_in (cn_NetConn conn) = {| st_data := concat ms; st_end := "EOF" |} →
     (∀ m s, nsteps step m (logger_begin conn) s → (m ≤ length (concat ms) + 6)%nat) ∧
     ∀ s, rtc step (logger_begin conn) s →
       lg_crash s = None ∧ (lg_main s = MReturned ∨ ∃ s', step s s') ∧
       ∃ k, lg_chanid s = last_channel (-1) (take k cs) ∧
         (lg_main s = MReturned →
          closed_out skey sn cs f1 f2 (rw_out (cn_NetConn conn)) k (rw_out (cn_NetConn (lg_conn s))))).
Proof.
  intros step. destruct (logger_frames host port reqid addr Hhost Haddr)
    as (f1 & f2 & E1 & E2 & S1 & S2 & _ & _ & P1 & P2).
  destruct (write_frames_cts key fs Hfs n pool Hpool Hn Hmax) as (res & pool' & E & Ho).
  exists f1, f2, res, pool', (frame_cts key n fs). split_and!; [done..|]. intros Hin.
  assert (∀ m s, nsteps step m (logger_begin conn) s →
    (∃ k, session_ok key skey n sn fs cs f1 f2 (rw_out (cn_NetConn conn)) k s) ∧
    (m + logger_left s ≤ length (concat (frame_cts key n fs)) + 6)%nat) as Hok.
  { intros m s Hm. unfold step in Hm. rewrite E1, E2 in Hm. by eapply logger_steps_ok. }
  split; [intros m s Hm; destruct (Hok m s Hm); lia|].
  intros s [m Hm]%rtc_nsteps_1. destruct (Hok m s Hm) as [(k & Hc & Hid & _ & _ & Hmain) _].
  split; [done|]. split.
  - destruct (lg_main s) eqn:El; [right..|by left]; eexists; apply step_main; by rewrite ?El.
  - exists k. split; [done|]. intros Hret. by rewrite Hret in Hmain.
Qed.

(** ** Witnesses *)

(** The two goroutines take turns; the signal comes after both frames. *)
Lemma logger_program_witness :
  let conn := toy_conn (concat (frame_cts (ae := toy_aead) toy_key 0 [toy_success_frame; two_byte_frame])) in
  ∃ s, rtc (logger_step (ae := toy_aead) (fl := half_range_float) (go := exact_alloc) (net := good_conn)
         (errs := never_closed)
         (setupFrame (go := exact_alloc) (gostring_of "127.0.0.1") (to_u16 5661))
         (openchanFrame (go := exact_alloc) (to_u32 0) (gostring_of "bc1paddress")))
       (logger_begin conn) s ∧
    lg_main s = MReturned ∧ lg_chanid s = 7 ∧ length (rw_out (cn_NetConn (lg_conn s))) = 3%nat ∧
    lg_crash s = None.
Proof.
  intros conn.
  destruct (logger_program (ae := toy_aead) (laws := toy_aead_laws) (fl := half_range_float)
    (go := exact_alloc) (net := good_conn) (errs := never_closed) (gostring_of "127.0.0.1") (to_u16 5661)
    (to_u32 0) (gostring_of "bc1paddress") toy_key 0 toy_key 0 [toy_success_frame; two_byte_frame]
    [Some (to_u32 7); None] (toy_conn []) conn) as (f1 & f2 & res & pool' & ms & E & Ho & _ & _ & Hp).
  - reflexivity.
  - vm_compute. discriminate.
  - vm_compute. discriminate.
  - repeat constructor; vm_compute; (reflexivity || discriminate).
  - constructor; [|constructor; [|constructor]].
    + split; [reflexivity|]. exists toy_success, (sbytes (fr_Payload toy_success_frame)), [].
      split; [vm_compute; reflexivity|]. split; [vm_compute; reflexivity|]. reflexivity.
    + intros Ht. apply (f_equal Zmod.unsigned) in Ht. revert Ht. vm_compute. discriminate.
  - reflexivity.
  - reflexivity.
  - reflexivity.
  - vm_compute. discriminate.
  - reflexivity.
  - reflexivity.
  - vm_compute. discriminate.
  - destruct Hp as [_ Hp].
    { assert (ms = frame_cts (ae := toy_aead) toy_key 0 [toy_success_frame; two_byte_frame]) as ->; [|reflexivity].
      revert E Ho. vm_compute. intros E Ho. injection E as <- <-. symmetry. exact Ho. }
    match goal with |- ∃ s, rtc ?R ?x s ∧ _ =>
      assert (∃ s, rtc R x s ∧ lg_main s = MReturned ∧ lg_chanid s = 7 ∧
        length (rw_out (cn_NetConn (lg_conn s))) = 3%nat) as (s & Hs & Hm & Hc & Hl) end.
    { eexists. split; [apply (logger_run_steps _ _ [true; false; true; false; true; true; true]);
        vm_compute; reflexivity|]. split; [reflexivity|]. split; [reflexivity|]. reflexivity. }
    exists s. split; [exact Hs|]. split; [exact Hm|]. split; [exact Hc|]. split; [exact Hl|].
    apply (Hp s Hs).
Defined.
