(* ===== verification/HandshakeRace.v ===== *)
(** * One handshake state for several connections (noise.go, examples/server/server.go)

    The example server makes one [HandshakeState] and calls its
    [PerformHandshakeResponder] in every connection's goroutine.  Here the method is cut
    into steps, one per statement that uses the state, and the steps of two calls
    interleave over one state: each of the program's statements is in one step, so every
    interleaving of the steps is one of the program's.  Alone, the steps are the method;
    together they are not. *)
From stdpp Require Import relations.
From S2P Require Import Prelude GoInts Constants Wire Builder Reader Sequences Codec Frame FrameFacts.
From S2P Require Import Cipher CipherProps Transport Hashes Keys KeysProps Handshake HandshakeProps Conn.

(** What a call returns, without the state. *)
Definition call_result : Type := outcome (hs_result * ReadWriter).

(** Where a call is, with its local variables: [re] is the remote ephemeral key and
    [out] the buffer. *)
Inductive rpc :=
| RStart (rw : ReadWriter)
| RRead (rw : ReadWriter)
| RMixRemote (rw : ReadWriter) (re : list u8)
| RDecrypt (rw : ReadWriter) (re : list u8)
| RMixOwn (rw : ReadWriter) (re : list u8)
| RKeyEE (rw : ReadWriter) (re out : list u8)
| RStatic (rw : ReadWriter) (re out : list u8)
| RKeyES (rw : ReadWriter) (re out : list u8)
| RCert (rw : ReadWriter) (out : list u8)
| RWrite (rw : ReadWriter) (out : list u8)
| RSplit (rw : ReadWriter)
| RDone (r : call_result).

Section Race.
Context {ae : AEAD} {fl : GoFloat} {sha : SHA256} {ec : Secp256k1} {go : GoAlloc}.
Context (eph static : Keypair) (cert : SIGNATURE_NOISE_MESSAGE).

(** A result in a local variable, or the call ends: by a panic, or with an error. *)
Definition on_outcome {A} (o : outcome A) (hs : HandshakeState)
    (k : A → rpc * HandshakeState) : rpc * HandshakeState :=
  match o with
  | Panic p => (RDone (Panic p), hs)
  | Ret a => k a
  end.
Definition failed (e : error) (rw : ReadWriter) : rpc := RDone (Ret (None, None, e, rw)).

(** One step of a call with the ephemeral key [eph]. *)
Definition responder_step (p : rpc) (hs : HandshakeState) : rpc * HandshakeState :=
  match p with
  | RStart rw => (RRead rw, start_handshake hs)
  | RRead rw =>
      let '(re, err, rw) := rw_ReadFull 64 rw in
      match err with Some _ => (failed err rw, hs) | None => (RMixRemote rw re, hs) end
  | RMixRemote rw re => (RDecrypt rw re, mixHash re hs)
  | RDecrypt rw re =>
      on_outcome (decryptAndHash [] hs) hs (λ '(_, err, hs),
        match err with Some _ => (failed err rw, hs) | None => (RMixOwn rw re, hs) end)
  | RMixOwn rw re =>
      (RKeyEE rw re (SerializeEllswiftBytes eph), mixHash (SerializeEllswiftBytes eph) hs)
  | RKeyEE rw re out =>
      on_outcome (slice_to_array 64 (Some re) ≫= λ k, ecdh eph k false) hs
        (λ ee, (RStatic rw re out, mixKey ee hs))
  | RStatic rw re out =>
      on_outcome (encryptAndHash (SerializeEllswiftBytes static) hs) hs
        (λ '(c, hs), (RKeyES rw re (out ++ sbytes c), hs))
  | RKeyES rw re out =>
      on_outcome (slice_to_array 64 (Some re) ≫= λ k, ecdh static k false) hs
        (λ es, (RCert rw out, mixKey es hs))
  | RCert rw out =>
      let '(certBytes, err) := SIGNATURE_NOISE_MESSAGE_Encode cert in
      match err with
      | Some _ => (failed err rw, hs)
      | None =>
          on_outcome (encryptAndHash (sbytes certBytes) hs) hs
            (λ '(c, hs), (RWrite rw (out ++ sbytes c), hs))
      end
  | RWrite rw out => (RSplit (rw_Write out rw), hs)
  | RSplit rw =>
      let '(recv, send) := split_keys hs in (RDone (Ret (Some recv, Some send, None, rw)), hs)
  | RDone _ => (p, hs)
  end.

Fixpoint responder_run (n : nat) (p : rpc) (hs : HandshakeState) : rpc * HandshakeState :=
  match n with
  | O => (p, hs)
  | S n => let '(p, hs) := responder_step p hs in responder_run n p hs
  end.

(** The method's outcome, as the last step of a call leaves it. *)
Definition same_outcome (o : outcome (hs_result * ReadWriter * HandshakeState))
    (x : rpc * HandshakeState) : Prop :=
  match o, x with
  | Ret (r, rw, hs), (RDone (Ret (r', rw')), hs') => r = r' ∧ rw = rw' ∧ hs = hs'
  | Panic p, (RDone (Panic p'), _) => p = p'
  | _, _ => False
  end.

Lemma responder_run_done n r hs : responder_run n (RDone r) hs = (RDone r, hs).
Proof. by induction n. Qed.

Lemma responder_run_S n p hs :
  responder_run (S n) p hs = responder_run n (responder_step p hs).1 (responder_step p hs).2.
Proof. simpl. by destruct (responder_step p hs). Qed.

Ltac next_step := rewrite responder_run_S; cbn [responder_step].
Ltac call_over := cbn [on_outcome fst snd]; unfold failed; by rewrite responder_run_done.

(** Eleven steps from start to end. *)
Lemma responder_alone rw hs :
  same_outcome (PerformHandshakeResponder eph rw (Some cert) (Some static) hs)
    (responder_run 11 (RStart rw) hs).
Proof.
  unfold PerformHandshakeResponder, SerializeEllswift, mbind, outcome_bind, mret, outcome_ret.
  next_step. cbn [fst snd]. next_step.
  destruct (rw_ReadFull 64 rw) as [[re [e|]] rw1]; [call_over|]. cbn [fst snd].
  next_step. cbn [fst snd]. next_step.
  destruct (decryptAndHash [] _) as [[[pt [e|]] hs2]|p]; [call_over| |call_over].
  cbn [on_outcome fst snd]. next_step. cbn [fst snd]. next_step. unfold mbind, outcome_bind.
  destruct (slice_to_array 64 (Some re)) as [k|] eqn:Ek; [|call_over].
  destruct (ecdh eph k false) as [ee|]; [|call_over]. cbn [on_outcome fst snd]. next_step.
  destruct (encryptAndHash _ _) as [[c hs3]|]; [|call_over]. cbn [on_outcome fst snd]. next_step.
  unfold mbind, outcome_bind. rewrite Ek.
  destruct (ecdh static k false) as [es|]; [|call_over]. cbn [on_outcome fst snd]. next_step.
  destruct (SIGNATURE_NOISE_MESSAGE_Encode cert) as [cb [e|]]; [call_over|].
  destruct (encryptAndHash _ _) as [[c2 hs4]|]; [|call_over]. cbn [on_outcome fst snd]. next_step.
  cbn [fst snd]. next_step. by destruct (split_keys hs4).
Qed.

(** ** How far a call has come *)

Definition rank (p : rpc) : nat :=
  match p with
  | RStart _ => 0 | RRead _ => 1 | RMixRemote _ _ => 2 | RDecrypt _ _ => 3 | RMixOwn _ _ => 4
  | RKeyEE _ _ _ => 5 | RStatic _ _ _ => 6 | RKeyES _ _ _ => 7 | RCert _ _ => 8 | RWrite _ _ => 9
  | RSplit _ => 10 | RDone _ => 11
  end.

(** After [n] steps a call is at its [n]-th statement, or it has failed, or it is over. *)
Definition on_track (n : nat) (p : rpc) : Prop :=
  match p with
  | RDone (Ret (Some _, Some _, None, _)) => (11 ≤ n)%nat
  | RDone _ => True
  | _ => rank p = n
  end.

Lemma on_track_step n p hs : on_track n p → on_track (S n) (responder_step p hs).1.
Proof.
  destruct p as [rw|rw|rw re|rw re|rw re|rw re out|rw re out|rw re out|rw out|rw out|rw|r];
    cbn [on_track rank responder_step]; intros Hn.
  - simpl. lia.
  - destruct (rw_ReadFull 64 rw) as [[re [e|]] rw']; simpl; [done|lia].
  - simpl. lia.
  - destruct (decryptAndHash [] hs) as [[[pt [e|]] hs']|]; simpl; done || lia.
  - simpl. lia.
  - destruct (_ ≫= _); simpl; done || lia.
  - destruct (encryptAndHash _ hs) as [[c hs']|]; simpl; done || lia.
  - destruct (_ ≫= _); simpl; done || lia.
  - destruct (SIGNATURE_NOISE_MESSAGE_Encode cert) as [cb [e|]]; [done|].
    destruct (encryptAndHash _ hs) as [[c hs']|]; simpl; done || lia.
  - simpl. lia.
  - destruct (split_keys hs). simpl. lia.
  - simpl. destruct r as [[[[[a|] [b|]] [e|]] rw]|]; try done; lia.
Qed.

Lemma responder_run_snoc n p hs : responder_run (S n) p hs =
  responder_step (responder_run n p hs).1 (responder_run n p hs).2.
Proof.
  revert p hs. induction n as [|n IH]; intros p hs.
  - simpl. by destruct (responder_step p hs).
  - rewrite responder_run_S, IH. by rewrite <- responder_run_S.
Qed.

Lemma on_track_run n rw hs : on_track n (responder_run n (RStart rw) hs).1.
Proof. induction n as [|n IH]; [done|]. rewrite responder_run_snoc. by apply on_track_step. Qed.

(** A call that succeeds is about to split after ten steps, its message written. *)
Lemma responder_before_split rw hs recv send rw' hs' :
  PerformHandshakeResponder eph rw (Some cert) (Some static) hs =
    Ret (Some recv, Some send, None, rw', hs') →
  responder_run 10 (RStart rw) hs = (RSplit rw', hs').
Proof.
  intros E. pose proof (responder_alone rw hs) as H. rewrite E in H. rewrite responder_run_snoc in H.
  pose proof (on_track_run 10 rw hs) as Ht. destruct (responder_run 10 (RStart rw) hs) as [p h].
  cbn [fst snd] in *. destruct p as [| | | | | | | | | |rw1|r]; try discriminate Ht.
  - cbn [responder_step] in H. destruct (split_keys h). destruct H as (_ & <- & <-). done.
  - destruct r as [[[[[a|] [b|]] [e|]] rw1]|]; simpl in H, Ht;
      try (destruct H as (H & _); discriminate H); [lia|done].
Qed.
End Race.

(** ** Two calls over one state *)

Section TwoCalls.
Context {ae : AEAD} {fl : GoFloat} {sha : SHA256} {ec : Secp256k1} {go : GoAlloc}.
Context (eph1 eph2 static : Keypair) (cert : SIGNATURE_NOISE_MESSAGE).

Inductive race_step : rpc * rpc * HandshakeState → rpc * rpc * HandshakeState → Prop :=
| race_left p p' q hs hs' :
    responder_step eph1 static cert p hs = (p', hs') → race_step (p, q, hs) (p', q, hs')
| race_right p q q' hs hs' :
    responder_step eph2 static cert q hs = (q', hs') → race_step (p, q, hs) (p, q', hs').

Lemma race_run_left n p q hs :
  rtc race_step (p, q, hs)
    ((responder_run eph1 static cert n p hs).1, q, (responder_run eph1 static cert n p hs).2).
Proof.
  revert p hs. induction n as [|n IH]; intros p hs; [apply rtc_refl|].
  rewrite responder_run_S. eapply rtc_l; [|apply IH].
  apply race_left. by destruct (responder_step eph1 static cert p hs).
Qed.

(** The cipher states that the protocol's name alone determines. *)
Definition public_keys : array 32 * array 32 := HKDF (arr_bytes handshakeInit.1) [].

(** One call is the method.  Run by itself, over any state, the steps are
    [PerformHandshakeResponder], and what that returns does not depend on the state: a
    state may serve any number of connections one after another. *)
Theorem responder_steps_are_the_method priv spriv rw hs
    (Hmax : 0 < max_nonce) (Hp : kp_Private eph1 = Some priv) (Hs : kp_Private static = Some spriv) :
  same_outcome (PerformHandshakeResponder eph1 rw (Some cert) (Some static) hs)
    (responder_run eph1 static cert 11 (RStart rw) hs) ∧
  (λ '(r, rw, _), (r, rw)) <$> PerformHandshakeResponder eph1 rw (Some cert) (Some static) hs =
  (λ '(r, rw, _), (r, rw)) <$> PerformHandshakeResponder eph1 rw (Some cert) (Some static) zero_handshake.
Proof.
  split; [apply responder_alone|]. by rewrite !(responder_refines eph1 static priv spriv) by done.
Qed.

(** C22: two calls at once give the session away.  Whenever a handshake would succeed by
    itself, there is an interleaving with a second connection, of which nothing has
    arrived yet, in which the first call sends its peer the same message, and returns
    cipher states whose keys are the ones derived from the protocol's name: frames
    sealed by anyone under these are then accepted as the peer's. *)
Theorem racing_handshake_public_keys {laws : AEADLaws} rw1 rw2 hs recv send rw1' hs1
    (Hmax : 2 ≤ max_nonce)
    (Halone : PerformHandshakeResponder eph1 rw1 (Some cert) (Some static) hs =
      Ret (Some recv, Some send, None, rw1', hs1)) :
  ∃ hs' recv' send',
    rtc race_step (RStart rw1, RStart rw2, hs)
      (RDone (Ret (Some recv', Some send', None, rw1')), RRead rw2, hs') ∧
    recv' = keyed public_keys.1 (to_u64 0) ∧ send' = keyed public_keys.2 (to_u64 0) ∧
    ∀ f tail e, sendable f →
      DecryptFrameFromReader {| st_data := frame_ct public_keys.1 0 f ++ tail; st_end := e |} recv' =
      Ret (Some f, None, {| st_data := tail; st_end := e |}, keyed public_keys.1 (to_u64 2)).
Proof.
  apply responder_before_split in Halone.
  exists (start_handshake hs1), (keyed public_keys.1 (to_u64 0)), (keyed public_keys.2 (to_u64 0)).
  split_and!; [|done|done|].
  - etrans; [apply (race_run_left 10)|]. rewrite Halone. cbn [fst snd].
    eapply rtc_l; [by apply race_right|]. eapply rtc_l; [by apply race_left|]. apply rtc_refl.
  - intros f tail e [Hf Hl]. by apply DecryptFrameFromReader_at.
Qed.
End TwoCalls.

(** ** Witnesses *)

Lemma responder_steps_are_the_method_witness :
  ∃ p hs', responder_run (ae := toy_aead) (fl := half_range_float) (sha := toy_sha) (ec := toy_curve)
    (go := exact_alloc) toy_keypair toy_keypair toy_cert 11 (RStart (delivers [] "EOF")) zero_handshake
    = (RDone (Ret (None, None, Some "EOF"%string, p)), hs').
Proof.
  destruct (responder_steps_are_the_method (ae := toy_aead) (fl := half_range_float) (sha := toy_sha)
    (ec := toy_curve) (go := exact_alloc) toy_keypair toy_keypair toy_cert toy_secret toy_secret
    (delivers [] "EOF") zero_handshake toy_max eq_refl eq_refl) as [H _].
  revert H. vm_compute. intros (_ & _ & _). do 2 eexists. reflexivity.
Defined.

Lemma racing_handshake_public_keys_witness : ∃ hs' recv' send' rw',
  rtc (race_step (ae := toy_aead) (fl := half_range_float) (sha := toy_sha) (ec := toy_curve)
    (go := exact_alloc) toy_keypair toy_keypair toy_keypair toy_cert)
    (RStart (delivers (SerializeEllswiftBytes (ec := toy_curve) toy_keypair ++ []) "EOF"),
     RStart (delivers [] "EOF"), zero_handshake)
    (RDone (Ret (Some recv', Some send', None, rw')), RRead (delivers [] "EOF"), hs').
Proof.
  destruct (handshake_runs (ae := toy_aead) (laws := toy_aead_laws) (fl := half_range_float)
    (sha := toy_sha) (ec := toy_curve) (elaws := toy_ellswift_laws) (go := exact_alloc)
    toy_keypair toy_keypair toy_keypair toy_cert zero_handshake zero_handshake [] [] "EOF" "EOF"
    toy_max toy_keypair_ok toy_keypair_ok toy_keypair_ok)
    as (k1 & k2 & msg & hsi & hsr & Er & _).
  destruct (racing_handshake_public_keys (ae := toy_aead) (laws := toy_aead_laws) (fl := half_range_float)
    (sha := toy_sha) (ec := toy_curve) (go := exact_alloc) toy_keypair toy_keypair toy_keypair toy_cert
    (delivers (SerializeEllswiftBytes (ec := toy_curve) toy_keypair ++ []) "EOF") (delivers [] "EOF")
    zero_handshake _ _ _ _ ltac:(vm_compute; discriminate) Er) as (hs' & recv' & send' & H & _).
  exists hs', recv', send'. eexists. exact H.
Defined.
