(* ===== verification/SharedHandshake.v ===== *)
(** * The handshake, access by access (noise.go)

    When goroutines share a [HandshakeState], as the example server's do, what one of
    them does between two accesses to it matters.  Here [PerformHandshakeResponder] is a
    tree of its accesses: each read or write of a field of the state, or of the
    [CipherState] that its pointer [cs] refers to, is one node, and so is each read from
    and each write to the connection.  Run without interruption the tree is the method
    of Handshake.v.

    A field is read or written as a whole: an array or a slice header that is torn by a
    write at the same time is not modelled. *)
From stdpp Require Import relations.
From S2P Require Import Prelude GoInts Constants Wire Builder Reader Sequences Codec Frame FrameFacts.
From S2P Require Import Cipher CipherProps Transport Hashes Keys KeysProps Handshake HandshakeProps.

(** ** The shared memory *)

(** The [HandshakeState], its pointer [cs] (nil, or an allocated [CipherState]), and the
    cipher states allocated so far. *)
Record shared := {
  sh_cs : option nat;
  sh_h : array 32;
  sh_ck : array 32;
  sh_cert : option SIGNATURE_NOISE_MESSAGE;
  sh_serverStatic : EllswiftPubkey;
  sh_ciphers : list CipherState
}.

(** [HandshakeState{}] *)
Definition zero_shared : shared :=
  {| sh_cs := None; sh_h := zero_array 32; sh_ck := zero_array 32; sh_cert := None;
     sh_serverStatic := zero_array 64; sh_ciphers := [] |}.

Definition put_h (h : array 32) (s : shared) : shared :=
  {| sh_cs := sh_cs s; sh_h := h; sh_ck := sh_ck s; sh_cert := sh_cert s;
     sh_serverStatic := sh_serverStatic s; sh_ciphers := sh_ciphers s |}.
Definition put_ck (ck : array 32) (s : shared) : shared :=
  {| sh_cs := sh_cs s; sh_h := sh_h s; sh_ck := ck; sh_cert := sh_cert s;
     sh_serverStatic := sh_serverStatic s; sh_ciphers := sh_ciphers s |}.
(** [hs.cs = &CipherState{}] *)
Definition put_new_cipher (s : shared) : shared :=
  {| sh_cs := Some (length (sh_ciphers s)); sh_h := sh_h s; sh_ck := sh_ck s; sh_cert := sh_cert s;
     sh_serverStatic := sh_serverStatic s; sh_ciphers := sh_ciphers s ++ [zero_cipher] |}.
Definition put_cipher (i : nat) (f : CipherState → CipherState) (s : shared) : shared :=
  {| sh_cs := sh_cs s; sh_h := sh_h s; sh_ck := sh_ck s; sh_cert := sh_cert s;
     sh_serverStatic := sh_serverStatic s; sh_ciphers := alter f i (sh_ciphers s) |}.

Definition cipher_at (i : nat) (s : shared) : CipherState := default zero_cipher (sh_ciphers s !! i).

(** Assignments to the fields of a cipher state. *)
Definition put_k (k : array 32) (cs : CipherState) : CipherState :=
  {| cs_k := arr_bytes k; cs_n := cs_n cs; cs_gcm := cs_gcm cs |}.
(** [cs.gcm, err = chacha20poly1305.New(k)], nil for a key of another length. *)
Definition put_gcm (k : list u8) (cs : CipherState) : CipherState :=
  {| cs_k := cs_k cs; cs_n := cs_n cs;
     cs_gcm := if decide (length k = 32%nat) then Some (to_array 32 k) else None |}.

(** ** Trees of accesses *)

(** A result, a panic; an access, which changes the memory, goes on with what it was;
    [io.ReadFull] and [Write] on the connection. *)
Inductive act (A : Type) :=
| Done (a : A)
| Crash (p : panic)
| Access (change : shared → shared) (k : shared → act A)
| NetRead (n : nat) (k : list u8 * error → act A)
| NetWrite (b : list u8) (k : act A).
Arguments Done {A}. Arguments Crash {A}. Arguments Access {A}. Arguments NetRead {A}. Arguments NetWrite {A}.

#[export] Instance act_ret : MRet act := @Done.
#[export] Instance act_bind : MBind act :=
  λ A B k, fix bind x := match x with
  | Done a => k a
  | Crash p => Crash p
  | Access change k' => Access change (λ s, bind (k' s))
  | NetRead n k' => NetRead n (λ r, bind (k' r))
  | NetWrite b k' => NetWrite b (bind k')
  end.

Definition get {A} (f : shared → A) : act A := Access id (λ s, Done (f s)).
Definition put (f : shared → shared) : act unit := Access f (λ _, Done ()).
Definition of_outcome {A} (o : outcome A) : act A := match o with Ret a => Done a | Panic p => Crash p end.

(** The pointer [hs.cs], to be dereferenced. *)
Definition get_cs : act nat := get sh_cs ≫= λ p, match p with Some i => Done i | None => Crash NilDereference end.

Section Acts.
Context {ae : AEAD} {fl : GoFloat} {sha : SHA256} {ec : Secp256k1} {go : GoAlloc}.

Definition InitializeKey_acts (i : nat) (k : array 32) : act unit :=
  _ ← put (put_cipher i (put_k k));
  _ ← put (put_cipher i (set_n (to_u64 0)));
  key ← get (λ s, cs_k (cipher_at i s));
  put (put_cipher i (put_gcm key)).

(** [Load], then [Add]: two atomic operations. *)
Definition getNonce_acts (i : nat) : act (list u8) :=
  n ← get (λ s, cs_n (cipher_at i s));
  _ ← put (put_cipher i (λ cs, set_n (Zmod.add (cs_n cs) (to_u64 1)) cs));
  mret (nonce_bytes n).

(** The additional data are a slice of [hs.h], read when they are used. *)
Definition EncryptWithAd_acts (i : nat) (plaintext : list u8) : act (bslice * error) :=
  k ← get (λ s, cs_k (cipher_at i s));
  if len k =? 0 then mret (Some plaintext, None) else
  n ← get (λ s, cs_n (cipher_at i s));
  if decide (n = maxNoiseNonce) then mret (None, Some "nonce space exhausted"%string) else
  gcm ← get (λ s, cs_gcm (cipher_at i s));
  match gcm with
  | None => Crash NilDereference
  | Some key =>
      nonce ← getNonce_acts i;
      ad ← get sh_h;
      mret (Some (Seal key nonce plaintext (arr_bytes ad)), None)
  end.

Definition DecryptWithAd_acts (i : nat) (ciphertext : list u8) : act (bslice * error) :=
  k ← get (λ s, cs_k (cipher_at i s));
  if len k =? 0 then mret (Some ciphertext, None) else
  n ← get (λ s, cs_n (cipher_at i s));
  if decide (n = maxNoiseNonce) then mret (None, Some "nonce space exhausted"%string) else
  gcm ← get (λ s, cs_gcm (cipher_at i s));
  match gcm with
  | None => Crash NilDereference
  | Some key =>
      nonce ← getNonce_acts i;
      ad ← get sh_h;
      match Open key nonce ciphertext (arr_bytes ad) with
      | None =>
          _ ← put (put_cipher i (λ cs, set_n (Zmod.add (cs_n cs) (Zmod.opp (to_u64 1))) cs));
          mret (None, Some "chacha20poly1305: message authentication failed"%string)
      | Some out => mret (Some out, None)
      end
  end.

Definition mixHash_acts (data : list u8) : act unit :=
  h ← get sh_h;
  put (put_h (sha256 (arr_bytes h ++ data))).

Definition mixKey_acts (inputKeyMaterial : list u8) : act unit :=
  ck ← get sh_ck;
  let '(ck, temp) := HKDF (arr_bytes ck) inputKeyMaterial in
  _ ← put (put_ck ck);
  i ← get_cs;
  InitializeKey_acts i temp.

(** The pointer is loaded again for the call. *)
Definition encryptAndHash_acts (plaintext : list u8) : act bslice :=
  i ← get_cs;
  k ← get (λ s, cs_k (cipher_at i s));
  '(ciphertext, _) ←
    (if negb (len k =? 0) then i ← get_cs; EncryptWithAd_acts i plaintext
     else mret (Some plaintext, None));
  _ ← mixHash_acts (sbytes ciphertext);
  mret ciphertext.

Definition decryptAndHash_acts (ciphertext : list u8) : act (bslice * error) :=
  i ← get_cs;
  k ← get (λ s, cs_k (cipher_at i s));
  '(plaintext, err) ←
    (if negb (len k =? 0) then i ← get_cs; DecryptWithAd_acts i ciphertext
     else mret (Some ciphertext, None));
  match err with
  | Some _ => mret (None, err)
  | None => _ ← mixHash_acts ciphertext; mret (plaintext, None)
  end.

Definition start_acts : act unit :=
  let '(ck, h) := handshakeInit in
  _ ← put put_new_cipher;
  _ ← put (put_ck ck);
  put (put_h h).

(** From the ephemeral key on; [remoteEphemeral] is the peer's. *)
Definition responder_tail (ephemeral staticKeys : Keypair) (signedCert : SIGNATURE_NOISE_MESSAGE)
    (remoteEphemeral : list u8) : act hs_result :=
  let out := SerializeEllswiftBytes ephemeral in
  _ ← mixHash_acts (SerializeEllswiftBytes ephemeral);
  re ← of_outcome (slice_to_array 64 (Some remoteEphemeral));
  sharedeeDH ← of_outcome (ecdh ephemeral re false);
  _ ← mixKey_acts sharedeeDH;
  c ← encryptAndHash_acts (SerializeEllswiftBytes staticKeys);
  let out := out ++ sbytes c in
  sharedesDH ← of_outcome (ecdh staticKeys re false);
  _ ← mixKey_acts sharedesDH;
  let '(certBytes, err) := SIGNATURE_NOISE_MESSAGE_Encode signedCert in
  match err with
  | Some _ => mret (None, None, err)
  | None =>
  c ← encryptAndHash_acts (sbytes certBytes);
  let out := out ++ sbytes c in
  _ ← NetWrite out (Done ());
  ck ← get sh_ck;
  let '(temp_k1, temp_k2) := HKDF (arr_bytes ck) [] in
  mret (Some (InitializeKey temp_k1 zero_cipher).1, Some (InitializeKey temp_k2 zero_cipher).1, None)
  end.

Definition responder_acts (ephemeral staticKeys : Keypair) (signedCert : SIGNATURE_NOISE_MESSAGE) :
    act hs_result :=
  _ ← start_acts;
  '(remoteEphemeral, err) ← NetRead 64 Done;
  match err with
  | Some _ => mret (None, None, err)
  | None =>
  _ ← mixHash_acts remoteEphemeral;
  '(_, err) ← decryptAndHash_acts [];
  match err with
  | Some _ => mret (None, None, err)
  | None => responder_tail ephemeral staticKeys signedCert remoteEphemeral
  end end.

(** ** Without interruption *)

Fixpoint act_run {A} (x : act A) (s : shared) (rw : ReadWriter) : outcome (A * shared * ReadWriter) :=
  match x with
  | Done a => Ret (a, s, rw)
  | Crash p => Panic p
  | Access change k => act_run (k s) (change s) rw
  | NetRead n k => let '(b, err, rw) := rw_ReadFull n rw in act_run (k (b, err)) s rw
  | NetWrite b k => act_run k s (rw_Write b rw)
  end.

Lemma act_run_bind {A B} (x : act A) (k : A → act B) s rw :
  act_run (x ≫= k) s rw = (act_run x s rw ≫= λ '(a, s, rw), act_run (k a) s rw).
Proof.
  revert s rw. unfold mbind at 1, act_bind. induction x as [a|p|f k' IH|n k' IH|b k' IH]; intros s rw; simpl; auto.
  destruct (rw_ReadFull n rw) as [[b err] rw']. apply IH.
Qed.

(** One step of a tree. *)
Inductive act_step {A} : act A * shared * ReadWriter → act A * shared * ReadWriter → Prop :=
| act_access change k s rw : act_step (Access change k, s, rw) (k s, change s, rw)
| act_read n k s rw b err rw' :
    rw_ReadFull n rw = (b, err, rw') → act_step (NetRead n k, s, rw) (k (b, err), s, rw')
| act_write b k s rw : act_step (NetWrite b k, s, rw) (k, s, rw_Write b rw).

Lemma act_run_reaches {A} (x : act A) : ∀ s rw a s' rw',
  act_run x s rw = Ret (a, s', rw') → rtc act_step (x, s, rw) (Done a, s', rw').
Proof.
  induction x as [a|p|f k IH|n k IH|b k IH]; simpl; intros s rw a' s' rw' E.
  - injection E as -> -> ->. apply rtc_refl.
  - done.
  - eapply rtc_l; [apply act_access|]. by apply IH.
  - destruct (rw_ReadFull n rw) as [[b err] rw1] eqn:Er. eapply rtc_l; [by apply act_read|]. by apply IH.
  - eapply rtc_l; [apply act_write|]. by apply IH.
Qed.

Lemma act_step_bind {A B} (k : A → act B) c c' : act_step c c' →
  act_step (c.1.1 ≫= k, c.1.2, c.2) (c'.1.1 ≫= k, c'.1.2, c'.2).
Proof.
  intros [f k' s rw|n k' s rw b err rw' E|b k' s rw].
  - exact (act_access f (λ s, k' s ≫= k) s rw).
  - exact (act_read n (λ r, k' r ≫= k) s rw b err rw' E).
  - exact (act_write b (k' ≫= k) s rw).
Qed.

Lemma reaches_bind {A B} (k : A → act B) c c' : rtc act_step c c' →
  rtc act_step (c.1.1 ≫= k, c.1.2, c.2) (c'.1.1 ≫= k, c'.1.2, c'.2).
Proof. induction 1 as [|c c1 c' H _ IH]; [apply rtc_refl|]. eapply rtc_l; [by apply act_step_bind|exact IH]. Qed.

Lemma reaches_left {A B} (k : A → act B) x s rw x' s' rw' : rtc act_step (x, s, rw) (x', s', rw') →
  rtc act_step (x ≫= k, s, rw) (x' ≫= k, s', rw').
Proof. exact (reaches_bind k (x, s, rw) (x', s', rw')). Qed.

(** The head of a sequence is run, the rest is to do. *)
Lemma reaches_next {A B} (x : act A) (k : A → act B) s rw a s' rw' :
  act_run x s rw = Ret (a, s', rw') → rtc act_step (x ≫= k, s, rw) (k a, s', rw').
Proof. intros E. apply (reaches_bind k (x, s, rw) (Done a, s', rw')). by apply act_run_reaches. Qed.

(** The state of Handshake.v in the memory: the cipher state is the one [cs] points to. *)
Definition view (i : nat) (s : shared) : HandshakeState :=
  {| hs_cs := cipher_at i s; hs_h := sh_h s; hs_ck := sh_ck s; hs_cert := sh_cert s;
     hs_serverStatic := sh_serverStatic s |}.
Definition holds (i : nat) (s : shared) : Prop := sh_cs s = Some i ∧ is_Some (sh_ciphers s !! i).

(** [x] does what the function [f] of Handshake.v does. *)
Definition implements {A} (x : act A) (f : HandshakeState → outcome (A * HandshakeState)) : Prop :=
  ∀ i s rw, holds i s →
    match f (view i s) with
    | Panic p => act_run x s rw = Panic p
    | Ret (a, hs) => ∃ s', act_run x s rw = Ret (a, s', rw) ∧ holds i s' ∧ view i s' = hs
    end.

Lemma holds_put_cipher i f s : holds i s → holds i (put_cipher i f s).
Proof. intros [Hc Hs]. split; [done|]. simpl. rewrite list_lookup_alter_eq. by rewrite fmap_is_Some. Qed.

Lemma view_put_cipher i f s : holds i s → view i (put_cipher i f s) = set_cs (f (cipher_at i s)) (view i s).
Proof.
  intros [Hc [c Hs]]. unfold view, set_cs, cipher_at. simpl. by rewrite list_lookup_alter_eq, Hs.
Qed.

Lemma cipher_put_cipher i f s : holds i s → cipher_at i (put_cipher i f s) = f (cipher_at i s).
Proof. intros H. exact (f_equal hs_cs (view_put_cipher i f s H)). Qed.

Lemma get_cs_run i s rw : holds i s → act_run get_cs s rw = Ret (i, s, rw).
Proof. intros [Hc _]. unfold get_cs. rewrite act_run_bind. simpl. by rewrite Hc. Qed.

(** The steps of a run, one after another. *)
Lemma get_run {A} (f : shared → A) s rw : act_run (get f) s rw = Ret (f s, s, rw).
Proof. done. Qed.
Lemma put_run f s rw : act_run (put f) s rw = Ret ((), f s, rw).
Proof. done. Qed.
Lemma bind_run {A B} (x : act A) (k : A → act B) s rw a s' rw' :
  act_run x s rw = Ret (a, s', rw') → act_run (x ≫= k) s rw = act_run (k a) s' rw'.
Proof. intros E. by rewrite act_run_bind, E. Qed.

Lemma InitializeKey_run i k s rw : holds i s → ∃ s',
  act_run (InitializeKey_acts i k) s rw = Ret ((), s', rw) ∧ holds i s' ∧
  view i s' = set_cs (InitializeKey k (cipher_at i s)).1 (view i s).
Proof.
  intros H. eexists. unfold InitializeKey_acts.
  erewrite bind_run by apply put_run. erewrite bind_run by apply put_run.
  erewrite bind_run by apply get_run. rewrite put_run. split; [reflexivity|].
  set (s1 := put_cipher i (put_k k) s). assert (holds i s1) as H1 by by apply holds_put_cipher.
  set (s2 := put_cipher i (set_n (to_u64 0)) s1). assert (holds i s2) as H2 by by apply holds_put_cipher.
  split; [by apply holds_put_cipher|].
  rewrite view_put_cipher by done. unfold s2. rewrite view_put_cipher, cipher_put_cipher by done.
  unfold s1. rewrite view_put_cipher, cipher_put_cipher by done.
  unfold set_cs, InitializeKey, put_gcm, set_n, put_k. cbn [fst cs_k cs_n cs_gcm hs_h hs_ck hs_cert hs_serverStatic view].
  rewrite decide_True by apply length_arr. by rewrite to_array_arr_bytes.
Qed.

Lemma getNonce_run i s rw : holds i s → ∃ s',
  act_run (getNonce_acts i) s rw = Ret ((getNonce (cipher_at i s)).1, s', rw) ∧ holds i s' ∧
  view i s' = set_cs (getNonce (cipher_at i s)).2 (view i s).
Proof.
  intros H. eexists. unfold getNonce_acts. erewrite bind_run by apply get_run.
  erewrite bind_run by apply put_run. split; [reflexivity|].
  split; [by apply holds_put_cipher|]. by rewrite view_put_cipher.
Qed.

Lemma mixHash_implements data : implements (mixHash_acts data) (λ hs, Ret ((), mixHash data hs)).
Proof. intros i s rw H. eexists. split; [reflexivity|]. by split. Qed.

Lemma mixKey_implements d : implements (mixKey_acts d) (λ hs, Ret ((), mixKey d hs)).
Proof.
  intros i s rw H. unfold mixKey_acts. erewrite bind_run by apply get_run. unfold mixKey.
  cbn [view hs_ck]. destruct (HKDF _ _) as [ck temp].
  erewrite bind_run by apply put_run. erewrite bind_run by (by apply get_cs_run).
  destruct (InitializeKey_run i temp (put_ck ck s) rw H) as (s' & E & H' & V).
  exists s'. split; [exact E|]. split; [done|]. by rewrite V.
Qed.

Lemma EncryptWithAd_run i p s rw : holds i s →
  match EncryptWithAd (arr_bytes (sh_h s)) p (cipher_at i s) with
  | Panic q => act_run (EncryptWithAd_acts i p) s rw = Panic q
  | Ret (c, err, cs) => ∃ s', act_run (EncryptWithAd_acts i p) s rw = Ret ((c, err), s', rw) ∧
      holds i s' ∧ view i s' = set_cs cs (view i s)
  end.
Proof.
  intros H. unfold EncryptWithAd, EncryptWithAd_acts. erewrite bind_run by apply get_run.
  destruct (_ =? 0); [by exists s|]. erewrite bind_run by apply get_run.
  destruct (decide _); [by exists s|]. erewrite bind_run by apply get_run.
  destruct (cs_gcm _) as [key|]; [|done].
  destruct (getNonce_run i s rw H) as (s' & E & H' & V). erewrite bind_run by exact E.
  erewrite bind_run by apply get_run. destruct (getNonce _) as [nonce cs]. cbn [fst snd] in *.
  exists s'. pose proof (f_equal hs_h V) as Vh. cbn [view set_cs hs_h] in Vh. by rewrite Vh.
Qed.

Lemma DecryptWithAd_run i c s rw : holds i s →
  match DecryptWithAd (arr_bytes (sh_h s)) c (cipher_at i s) with
  | Panic q => act_run (DecryptWithAd_acts i c) s rw = Panic q
  | Ret (p, err, cs) => ∃ s', act_run (DecryptWithAd_acts i c) s rw = Ret ((p, err), s', rw) ∧
      holds i s' ∧ view i s' = set_cs cs (view i s)
  end.
Proof.
  intros H. unfold DecryptWithAd, DecryptWithAd_acts. erewrite bind_run by apply get_run.
  destruct (_ =? 0); [by exists s|]. erewrite bind_run by apply get_run.
  destruct (decide _); [by exists s|]. erewrite bind_run by apply get_run.
  destruct (cs_gcm _) as [key|]; [|done].
  destruct (getNonce_run i s rw H) as (s' & E & H' & V). erewrite bind_run by exact E.
  erewrite bind_run by apply get_run. destruct (getNonce _) as [nonce cs]. cbn [fst snd] in *.
  pose proof (f_equal hs_h V) as Vh. cbn [view set_cs hs_h] in Vh. rewrite Vh.
  destruct (Open _ _ _ _) as [out|]; [by exists s'|].
  erewrite bind_run by apply put_run. eexists. split; [reflexivity|].
  split; [by apply holds_put_cipher|]. rewrite view_put_cipher, V by done.
  pose proof (f_equal hs_cs V) as Vc. cbn [view set_cs hs_cs] in Vc. by rewrite Vc.
Qed.

Lemma encryptAndHash_implements p : implements (encryptAndHash_acts p) (encryptAndHash p).
Proof.
  intros i s rw H. unfold encryptAndHash, encryptAndHash_acts.
  erewrite bind_run by (by apply get_cs_run). erewrite bind_run by apply get_run.
  cbn [view hs_cs hs_h]. destruct (negb _).
  - rewrite act_run_bind. erewrite bind_run by (by apply get_cs_run). cbv beta.
    change (act_run (EncryptWithAd_acts i p) s rw) with (act_run (A := bslice * error) (EncryptWithAd_acts i p) s rw).
    pose proof (EncryptWithAd_run i p s rw H) as HE.
    unfold mbind, outcome_bind. destruct (EncryptWithAd _ _ _) as [[[c err] cs]|q]; [|by rewrite HE].
    destruct HE as (s1 & -> & H1 & V1). unfold mret, outcome_ret.
    eexists. split; [reflexivity|].
    split; [done|]. unfold mixHash. rewrite <- V1. done.
  - eexists. split; [reflexivity|]. done.
Qed.

Lemma decryptAndHash_implements c :
  implements (decryptAndHash_acts c) (λ hs, '(p, err, hs) ← decryptAndHash c hs; Ret ((p, err), hs)).
Proof.
  intros i s rw H. unfold decryptAndHash, decryptAndHash_acts.
  erewrite bind_run by (by apply get_cs_run). erewrite bind_run by apply get_run.
  cbn [view hs_cs hs_h]. destruct (negb _).
  - rewrite act_run_bind. erewrite bind_run by (by apply get_cs_run). cbv beta.
    change (act_run (DecryptWithAd_acts i c) s rw) with (act_run (A := bslice * error) (DecryptWithAd_acts i c) s rw).
    pose proof (DecryptWithAd_run i c s rw H) as HE.
    unfold mbind, outcome_bind. destruct (DecryptWithAd _ _ _) as [[[p err] cs]|q]; [|by rewrite HE].
    destruct HE as (s1 & -> & H1 & V1). unfold mret, outcome_ret.
    destruct err as [e|]; eexists; (split; [reflexivity|]); (split; [done|]); [done|].
    unfold mixHash. rewrite <- V1. done.
  - eexists. split; [reflexivity|]. done.
Qed.

Lemma start_run s rw : ∃ s', act_run start_acts s rw = Ret ((), s', rw) ∧
  holds (length (sh_ciphers s)) s' ∧
  ∀ hs, hs_cert hs = sh_cert s → hs_serverStatic hs = sh_serverStatic s →
    view (length (sh_ciphers s)) s' = start_handshake hs.
Proof.
  unfold start_acts, start_handshake. destruct handshakeInit as [ck h]. eexists. split; [reflexivity|].
  split.
  - split; [done|]. cbn. by rewrite list_lookup_middle.
  - intros hs Hc Hs. unfold view, cipher_at, set_h, set_ck, set_cs. cbn.
    by rewrite list_lookup_middle, Hc, Hs by done.
Qed.

Lemma of_outcome_bind {A B} (o : outcome A) (k : A → act B) s rw :
  act_run (of_outcome o ≫= k) s rw = (o ≫= λ a, act_run (k a) s rw).
Proof. by destruct o. Qed.

Lemma ret_bind {A B} (a : A) (k : A → outcome B) : (Ret a ≫= k) = k a.
Proof. reflexivity. Qed.
Lemma panic_bind {A B} p (k : A → outcome B) : (Panic p ≫= k) = Panic p.
Proof. reflexivity. Qed.

(** An implemented function, at the head of a run. *)
Lemma implements_bind {A B} (x : act A) f (k : A → act B) i s rw : implements x f → holds i s →
  match f (view i s) with
  | Panic p => act_run (x ≫= k) s rw = Panic p
  | Ret (a, hs) => ∃ s', act_run (x ≫= k) s rw = act_run (k a) s' rw ∧ holds i s' ∧ view i s' = hs
  end.
Proof.
  intros Hx H. specialize (Hx i s rw H). rewrite act_run_bind. destruct (f _) as [[a hs]|p].
  - destruct Hx as (s' & -> & H' & V). by exists s'.
  - by rewrite Hx.
Qed.

(** One statement on both sides, done by the lemma [L] from the memory that [H] is of:
    what follows is about the memory after it. *)
Ltac next_with L H tac :=
  match goal with |- context [@act_run ?B (?x ≫= ?k) ?s ?rw] =>
    let Hn := fresh in pose proof (implements_bind x _ k _ s rw L H) as Hn; cbv beta in Hn;
    match type of Hn with context [@act_run ?B' ?y s rw] =>
      change (@act_run B (x ≫= k) s rw) with (@act_run B' y s rw)
    end; tac Hn s
  end.
Ltac next_pure L H :=
  next_with L H ltac:(fun Hn s =>
    let s' := fresh s in let E := fresh in let H' := fresh in let V := fresh in
    destruct Hn as (s' & E & H' & V); rewrite E, <- V; clear E V; clear H; clear s;
    rename s' into s; rename H' into H).
Ltac next_act L H := next_with L H ltac:(fun Hn s => revert Hn).

(** The tree is the method: run without interruption, over any memory, it has the
    method's result, connection and final state, or its panic. *)
Theorem responder_acts_are_the_method eph static cert s rw hs :
  hs_cert hs = sh_cert s → hs_serverStatic hs = sh_serverStatic s →
  match PerformHandshakeResponder eph rw (Some cert) (Some static) hs with
  | Panic p => act_run (responder_acts eph static cert) s rw = Panic p
  | Ret (r, rw', hs') => ∃ s', act_run (responder_acts eph static cert) s rw = Ret (r, s', rw') ∧
      view (length (sh_ciphers s)) s' = hs'
  end.
Proof.
  intros Hc Hs. unfold responder_acts, PerformHandshakeResponder, SerializeEllswift.
  destruct (start_run s rw) as (s1 & E1 & H1 & V1). erewrite bind_run by exact E1.
  rewrite <- (V1 hs Hc Hs). generalize dependent (length (sh_ciphers s)). intros i H1 _. clear E1.
  destruct (rw_ReadFull 64 rw) as [[re err] rw1] eqn:Er.
  rewrite (bind_run (NetRead 64 Done) _ s1 rw (re, err) s1 rw1) by (simpl; by rewrite Er).
  cbv beta iota. destruct err as [e|]; [by exists s1|].
  next_pure (mixHash_implements re) H1.
  next_act (decryptAndHash_implements []) H1.
  destruct (decryptAndHash [] (view i s1)) as [[[p err] hs1]|q]; rewrite ?ret_bind, ?panic_bind; [|done].
  intros (s2 & -> & H2 & V2). rewrite <- V2. clear V2 H1.
  destruct err as [e|]; [by exists s2|]. unfold responder_tail.
  next_pure (mixHash_implements (SerializeEllswiftBytes eph)) H2.
  rewrite of_outcome_bind. destruct (slice_to_array 64 (Some re)) as [re'|q]; rewrite ?ret_bind, ?panic_bind; [|done].
  rewrite of_outcome_bind. destruct (ecdh eph re' false) as [ee|q]; rewrite ?ret_bind, ?panic_bind; [|done].
  next_pure (mixKey_implements ee) H2.
  next_act (encryptAndHash_implements (SerializeEllswiftBytes static)) H2.
  destruct (encryptAndHash _ _) as [[c hs2]|q]; rewrite ?ret_bind, ?panic_bind; [|done].
  intros (s3 & -> & H3 & V3). rewrite <- V3. clear V3 H2.
  rewrite of_outcome_bind. destruct (ecdh static re' false) as [es|q]; rewrite ?ret_bind, ?panic_bind; [|done].
  next_pure (mixKey_implements es) H3.
  destruct (SIGNATURE_NOISE_MESSAGE_Encode cert) as [cb [e|]]; [by exists s3|].
  next_act (encryptAndHash_implements (sbytes cb)) H3.
  destruct (encryptAndHash _ _) as [[c2 hs3]|q]; rewrite ?ret_bind, ?panic_bind; [|done].
  intros (s4 & -> & H4 & <-). unfold split_keys. cbn [view hs_ck].
  exists s4. split; reflexivity.
Qed.

(** ** Whatever the others do

    What a call can do if the memory holds anything at all at each of its accesses. *)

(** The panics of a call: the curve code's, and that of a cipher state without AEAD. *)
Definition call_panic (p : panic) : Prop := p = NilDereference ∨ ∃ m, p = ExplicitPanic m.

(** Of a tree with [w] writes behind it: it panics as above only, writes at most once, and
    ends with a result as [Q] says, of it and of the writes then. *)
Fixpoint safe {A} (Q : nat → A → Prop) (w : nat) (x : act A) : Prop :=
  match x with
  | Done a => (w ≤ 1)%nat ∧ Q w a
  | Crash p => (w ≤ 1)%nat ∧ call_panic p
  | Access _ k => ∀ s, safe Q w (k s)
  | NetRead n k => ∀ b err, (err = None → length b = n) → safe Q w (k (b, err))
  | NetWrite _ k => safe Q (S w) k
  end.

Lemma safe_bind {A B} (x : act A) (k : A → act B) Q R w :
  safe Q w x → (∀ w a, (w ≤ 1)%nat → Q w a → safe R w (k a)) → safe R w (x ≫= k).
Proof.
  intros Hx Hk. revert w Hx. unfold mbind, act_bind.
  induction x as [a|p|f k' IH|n k' IH|b k' IH]; simpl; intros w Hx; auto.
  destruct Hx. by apply Hk.
Qed.

Lemma safe_writes {A} (Q : nat → A → Prop) w x : safe Q w x → (w ≤ 1)%nat.
Proof.
  revert w. induction x as [a|p|f k IH|n k IH|b k IH]; simpl; intros w Hx; try tauto.
  - apply (IH zero_shared _ (Hx zero_shared)).
  - apply (IH _ _ (Hx (replicate n (to_u8 0)) None (λ _, length_replicate _ _))).
  - specialize (IH _ Hx). lia.
Qed.

(** A part of a call that writes nothing. *)
Definition quiet {A} (x : act A) : Prop := safe (λ w _, w = 0%nat) 0 x.

Lemma quiet_bind {A B} (x : act A) (k : A → act B) : quiet x → (∀ a, quiet (k a)) → quiet (x ≫= k).
Proof. intros Hx Hk. eapply safe_bind; [exact Hx|]. intros w a _ ->. apply Hk. Qed.
Lemma quiet_ret {A} (a : A) : quiet (mret a).
Proof. split; [lia|done]. Qed.
Lemma quiet_get {A} (f : shared → A) : quiet (get f).
Proof. intros s. split; [lia|done]. Qed.
Lemma quiet_put f : quiet (put f).
Proof. intros s. split; [lia|done]. Qed.
Lemma quiet_nil {A} : quiet (Crash (A := A) NilDereference).
Proof. split; [lia|by left]. Qed.
Lemma quiet_get_cs : quiet get_cs.
Proof. apply quiet_bind; [apply quiet_get|]. intros [i|]; [apply quiet_ret|apply quiet_nil]. Qed.

Create HintDb quiet.
Hint Resolve quiet_ret quiet_get quiet_put quiet_nil quiet_get_cs : quiet.

Ltac solve_quiet :=
  repeat first [progress intros|progress eauto with quiet|apply quiet_bind|split_match].

Lemma quiet_InitializeKey i k : quiet (InitializeKey_acts i k).
Proof. unfold InitializeKey_acts. solve_quiet. Qed.
Lemma quiet_getNonce i : quiet (getNonce_acts i).
Proof. unfold getNonce_acts. solve_quiet. Qed.
Hint Resolve quiet_InitializeKey quiet_getNonce : quiet.
Lemma quiet_mixHash d : quiet (mixHash_acts d).
Proof. unfold mixHash_acts. solve_quiet. Qed.
Lemma quiet_mixKey d : quiet (mixKey_acts d).
Proof. unfold mixKey_acts. solve_quiet. Qed.
Lemma quiet_EncryptWithAd i p : quiet (EncryptWithAd_acts i p).
Proof. unfold EncryptWithAd_acts. solve_quiet. Qed.
Lemma quiet_DecryptWithAd i c : quiet (DecryptWithAd_acts i c).
Proof. unfold DecryptWithAd_acts. solve_quiet. Qed.
Lemma quiet_start : quiet start_acts.
Proof. unfold start_acts. solve_quiet. Qed.
Hint Resolve quiet_mixHash quiet_mixKey quiet_EncryptWithAd quiet_DecryptWithAd quiet_start : quiet.
Lemma quiet_encryptAndHash p : quiet (encryptAndHash_acts p).
Proof. unfold encryptAndHash_acts. solve_quiet. Qed.
Lemma quiet_decryptAndHash c : quiet (decryptAndHash_acts c).
Proof. unfold decryptAndHash_acts. solve_quiet. Qed.
Hint Resolve quiet_encryptAndHash quiet_decryptAndHash : quiet.

(** What a call ends with: an error, and nothing written, or two keyed states, unused, and
    one message written. *)
Definition call_result_ok (w : nat) (r : hs_result) : Prop :=
  match r with
  | (Some recv, Some send, None) =>
      (∃ k, recv = keyed k (to_u64 0)) ∧ (∃ k, send = keyed k (to_u64 0)) ∧ w = 1%nat
  | (_, _, Some _) => w = 0%nat
  | _ => False
  end.

Lemma quiet_then {A} (x : act A) (k : A → act hs_result) :
  quiet x → (∀ a, safe call_result_ok 0 (k a)) → safe call_result_ok 0 (x ≫= k).
Proof. intros Hx Hk. eapply safe_bind; [exact Hx|]. intros w a _ ->. apply Hk. Qed.

Lemma NetRead_then n (k : list u8 * error → act hs_result) :
  (∀ b err, (err = None → length b = n) → safe call_result_ok 0 (k (b, err))) →
  safe call_result_ok 0 (NetRead n Done ≫= k).
Proof. exact id. Qed.

Lemma ecdh_then kp re (k : list u8 → act hs_result) : is_Some (kp_Private kp) →
  (∀ a, safe call_result_ok 0 (k a)) → safe call_result_ok 0 (of_outcome (ecdh kp re false) ≫= k).
Proof.
  intros [priv E] Hk. unfold ecdh. rewrite E. destruct (V2Ecdh _ _ _ _) as [h|m]; [apply Hk|].
  split; [lia|]. right. by exists m.
Qed.

Lemma responder_safe eph static cert : is_Some (kp_Private eph) → is_Some (kp_Private static) →
  safe call_result_ok 0 (responder_acts eph static cert).
Proof.
  intros Heph Hstatic. unfold responder_acts. apply quiet_then; [auto with quiet|]. intros [].
  apply NetRead_then. intros re err Hre.
  destruct err as [e|]; [split; [lia|done]|]. cbv beta iota.
  apply quiet_then; [auto with quiet|]. intros [].
  apply quiet_then; [auto with quiet|]. intros [p [e|]]; [split; [lia|done]|]. unfold responder_tail.
  apply quiet_then; [auto with quiet|]. intros []. rewrite slice_to_array_exact by (by apply Hre).
  apply ecdh_then; [done|]. intros ee. apply quiet_then; [auto with quiet|]. intros [].
  apply quiet_then; [auto with quiet|]. intros c. apply ecdh_then; [done|]. intros es.
  apply quiet_then; [auto with quiet|]. intros []. rewrite cert_Encode.
  apply quiet_then; [auto with quiet|]. intros c2 s.
  split; [lia|]. split; [eexists; reflexivity|]. split; [eexists; reflexivity|done].
Qed.

(** ** How long a call is *)

(** At most [n] accesses, reads and writes, whatever they find. *)
Fixpoint within {A} (n : nat) (x : act A) {struct x} : Prop :=
  match x, n with
  | Done _, _ | Crash _, _ => True
  | Access _ k, S n => ∀ s, within n (k s)
  | NetRead _ k, S n => ∀ r, within n (k r)
  | NetWrite _ k, S n => within n k
  | _, O => False
  end.

Lemma within_mono {A} (x : act A) : ∀ n m, (n ≤ m)%nat → within n x → within m x.
Proof.
  induction x as [a|p|f k IH|l k IH|b k IH]; intros [|n] [|m] Hle H; simpl in *; try done; try lia.
  - intros s. apply (IH s n); [lia|apply H].
  - intros r. apply (IH r n); [lia|apply H].
  - apply (IH n); [lia|exact H].
Qed.

Lemma within_bind {A B} n m (x : act A) (k : A → act B) :
  within n x → (∀ a, within m (k a)) → within (n + m) (x ≫= k).
Proof.
  intros Hx Hk. revert n Hx. unfold mbind, act_bind.
  induction x as [a|p|f k' IH|l k' IH|b k' IH]; intros n Hx.
  - apply (within_mono _ m); [lia|apply Hk].
  - by destruct (n + m)%nat.
  - destruct n as [|n]; [done|]. intros s. apply IH, Hx.
  - destruct n as [|n]; [done|]. intros r. apply IH, Hx.
  - destruct n as [|n]; [done|]. apply IH, Hx.
Qed.

(** The same, for a goal with a number. *)
Lemma within_next {A B} n N (x : act A) (k : A → act B) :
  within n x → (n ≤ N)%nat → (∀ a, within (N - n) (k a)) → within N (x ≫= k).
Proof. intros Hx Hn Hk. replace N with (n + (N - n))%nat by lia. by apply within_bind. Qed.

Lemma within_get {A} (f : shared → A) : within 1 (get f).
Proof. done. Qed.
Lemma within_put f : within 1 (put f).
Proof. done. Qed.
Lemma within_of_outcome {A} (o : outcome A) : within 0 (of_outcome o).
Proof. by destruct o. Qed.
Lemma within_read n : within 1 (NetRead n Done).
Proof. done. Qed.
Lemma within_write b : within 1 (NetWrite b (Done ())).
Proof. done. Qed.
Lemma within_ret {A} n (a : A) : within n (mret a).
Proof. by destruct n. Qed.
Lemma within_crash {A} n p : within n (Crash (A := A) p).
Proof. by destruct n. Qed.
Lemma within_get_cs : within 1 get_cs.
Proof. intros s. simpl. by destruct (sh_cs s). Qed.

Create HintDb within.
Hint Resolve within_get within_put within_of_outcome within_read within_write within_get_cs within_ret within_crash : within.

(** Statement by statement, with the bound of each. *)
Ltac solve_within :=
  repeat first
    [ progress intros
    | solve [auto with within]
    | eapply within_next; [solve [auto with within]|simpl; lia|]
    | eapply within_next;
        [eapply within_bind; [solve [auto with within]|intros; solve [auto with within]]|simpl; lia|]
    | eapply (within_next 0); [solve [auto with within]|simpl; lia|]
    | split_match ].

Lemma within_InitializeKey i k : within 4 (InitializeKey_acts i k).
Proof. unfold InitializeKey_acts. solve_within. Qed.
Lemma within_getNonce i : within 2 (getNonce_acts i).
Proof. unfold getNonce_acts. solve_within. Qed.
Hint Resolve within_InitializeKey within_getNonce : within.
Lemma within_mixHash d : within 2 (mixHash_acts d).
Proof. unfold mixHash_acts. solve_within. Qed.
Lemma within_mixKey d : within 7 (mixKey_acts d).
Proof. unfold mixKey_acts. solve_within. Qed.
Lemma within_EncryptWithAd i p : within 6 (EncryptWithAd_acts i p).
Proof. unfold EncryptWithAd_acts. solve_within. Qed.
Lemma within_DecryptWithAd i c : within 7 (DecryptWithAd_acts i c).
Proof. unfold DecryptWithAd_acts. solve_within. Qed.
Lemma within_start : within 3 start_acts.
Proof. unfold start_acts. solve_within. Qed.
Hint Resolve within_mixHash within_mixKey within_EncryptWithAd within_DecryptWithAd within_start : within.
Lemma within_encryptAndHash p : within 11 (encryptAndHash_acts p).
Proof. unfold encryptAndHash_acts. solve_within. Qed.
Lemma within_decryptAndHash c : within 12 (decryptAndHash_acts c).
Proof. unfold decryptAndHash_acts. solve_within. Qed.
Hint Resolve within_encryptAndHash within_decryptAndHash : within.

Lemma responder_within eph static cert : within 58 (responder_acts eph static cert).
Proof. unfold responder_acts, responder_tail. solve_within. Qed.

End Acts.
