(* ===== verification/ServerRun.v ===== *)
(** * The example server as a whole (examples/server/server.go)

    [main] accepts connections for ever and serves each in a goroutine of its own; all of
    them share the one [HandshakeState].  A state of the server is that state and where
    each goroutine is; the goroutines' steps interleave.  A step of the handshake is a
    statement of it (HandshakeRace.v); afterwards a step reads one frame, and touches
    nothing that other goroutines use.  [loog.Fatal] and an uncaught panic end the process
    with all its connections.

    A statement is several accesses to the shared state, so that not every state of the
    program is one here: this file shows what runs of the server can do.  What holds in all
    of them is shown in ServerAccess.v, of single accesses. *)
From stdpp Require Import relations.
From S2P Require Import Prelude GoInts Constants Wire Builder Reader Sequences Codec CoreMessages Frame FrameFacts.
From S2P Require Import Cipher CipherProps Transport Hashes Keys KeysProps Handshake HandshakeProps.
From S2P Require Import Conn Server HandshakeRace.

(** Why the process has ended. *)
Inductive exit_reason :=
| ExitFatal (msg : string)
| ExitPanic (p : panic)
| ExitSignal.

Section State.
Context {ec : Secp256k1}.

(** Where a connection's goroutine is: in the handshake, before the first [ReadFrame], in
    the loop, or it has returned. *)
Inductive handler :=
| HHandshake (eph : Keypair) (p : rpc)
| HFirst (conn : Sv2Conn)
| HLoop (conn : Sv2Conn)
| HReturned (conn : Sv2Conn).

Record server := {
  sv_clientPaw : HandshakeState;
  sv_conns : list handler;
  sv_exit : option exit_reason
}.

(** The server listens: nothing is connected yet. *)
Definition server_start : server :=
  {| sv_clientPaw := zero_handshake; sv_conns := []; sv_exit := None |}.

Definition returned (h : handler) : bool := match h with HReturned _ => true | _ => false end.

Definition running (paw : HandshakeState) (hs : list handler) : server :=
  {| sv_clientPaw := paw; sv_conns := hs; sv_exit := None |}.

End State.

Section Run.
Context {ae : AEAD} {fl : GoFloat} {sha : SHA256} {ec : Secp256k1} {go : GoAlloc} {net : NetErrors}.
Context (staticKey : Keypair) (cert : SIGNATURE_NOISE_MESSAGE).

(** ** One goroutine *)

(** What follows the handshake's return; reading a frame with a nil state panics. *)
Definition after_call (eph : Keypair) (p : rpc) : handler + exit_reason :=
  match p with
  | RDone (Panic e) => inr (ExitPanic e)
  | RDone (Ret (_, _, Some e, _)) => inr (ExitFatal e)
  | RDone (Ret (Some recv, Some send, None, rw)) =>
      inl (HFirst {| cn_NetConn := rw; cn_Send := send; cn_Recv := recv; cn_log := [] |})
  | RDone (Ret (_, _, None, _)) => inr (ExitPanic NilDereference)
  | _ => inl (HHandshake eph p)
  end.

Definition end_handler (e : handler_end) (conn : Sv2Conn) : handler + exit_reason :=
  match e with Return => inl (HReturned conn) | LogFatal m => inr (ExitFatal m) end.

(** One step: the goroutine's next state, or the end of the process. *)
Definition handler_step (h : handler) (clientPaw : HandshakeState) :
    (handler + exit_reason) * HandshakeState :=
  match h with
  | HHandshake eph p =>
      let '(p, clientPaw) := responder_step eph staticKey cert p clientPaw in
      (after_call eph p, clientPaw)
  | HFirst conn =>
      (match ReadFrame conn with
       | Panic p => inr (ExitPanic p)
       | Ret (_, Some e, conn) => end_handler (on_read_error e) conn
       | Ret (None, None, _) => inr (ExitPanic NilDereference)
       | Ret (Some frame, None, conn) =>
           if negb (Zmod.unsigned (fr_MessageType frame) =? Zmod.unsigned MessageSetupConnection) then
             end_handler Return conn
           else
             let '(sendFrame, _) := Frame_FromParams zero_frame MessageSetupConnectionSuccess
               {| scs_UsedVersion := to_u16 ProtocolVersion; scs_Flags := to_u32 0 |} in
             inl (HLoop conn)
       end, clientPaw)
  | HLoop conn =>
      (match ReadFrame conn with
       | Panic p => inr (ExitPanic p)
       | Ret (_, Some e, conn) => end_handler (on_read_error e) conn
       | Ret (_, None, conn) => inl (HLoop conn)
       end, clientPaw)
  | HReturned _ => (inl h, clientPaw)
  end.

(** ** The process *)

(** A step of a goroutine that is still there. *)
Inductive work_step : server → server → Prop :=
| work_on i h h' paw paw' hs : hs !! i = Some h → returned h = false →
    handler_step h paw = (inl h', paw') →
    work_step (running paw hs) (running paw' (<[i := h']> hs))
| work_exit i h e paw paw' hs : hs !! i = Some h → returned h = false →
    handler_step h paw = (inr e, paw') →
    work_step (running paw hs) {| sv_clientPaw := paw'; sv_conns := hs; sv_exit := Some e |}.

(** A connection is a peer's: the bytes that it will send, and how its stream ends.
    An error of [Accept] changes nothing.  The ephemeral key is drawn in the handshake. *)
Inductive server_step : server → server → Prop :=
| server_accept eph rw paw hs : is_Some (kp_Private eph) → rw_out rw = [] →
    server_step (running paw hs) (running paw (hs ++ [HHandshake eph (RStart rw)]))
| server_work s s' : work_step s s' → server_step s s'
| server_signal paw hs :
    server_step (running paw hs) {| sv_clientPaw := paw; sv_conns := hs; sv_exit := Some ExitSignal |}.

(** ** One goroutine alone *)

Fixpoint handler_run (n : nat) (h : handler) (paw : HandshakeState) : (handler + exit_reason) * HandshakeState :=
  match n with
  | O => (inl h, paw)
  | S n =>
      match handler_step h paw with
      | (inl h, paw) => handler_run n h paw
      | (inr e, paw) => (inr e, paw)
      end
  end.

(** The end of a handler as [serve_conn] reports it. *)
Definition same_end (o : outcome served) (x : (handler + exit_reason) * HandshakeState) : Prop :=
  match o, x with
  | Panic p, (inr (ExitPanic p'), _) => p = p'
  | Ret (LogFatal m, _, _, paw), (inr (ExitFatal m'), paw') => m = m' ∧ paw = paw'
  | Ret (Return, rw, log, paw), (inl (HReturned conn), paw') =>
      rw = cn_NetConn conn ∧ log = cn_log conn ∧ paw = paw'
  | _, _ => False
  end.

Lemma handler_run_returned n conn paw : handler_run n (HReturned conn) paw = (inl (HReturned conn), paw).
Proof. by induction n. Qed.

Lemma handler_run_loop fuel : ∀ k conn paw e conn', serve_loop fuel conn = Some (Ret (e, conn')) →
  handler_run (fuel + k) (HLoop conn) paw = (end_handler e conn', paw).
Proof.
  induction fuel as [|fuel IH]; intros k conn paw e conn' E; [done|].
  cbn [serve_loop Nat.add handler_run handler_step] in *.
  destruct (ReadFrame conn) as [[[f [m|]] conn1]|]; [|by apply (IH k)|done].
  injection E as <- <-. unfold end_handler.
  destruct (on_read_error m), f; by rewrite ?handler_run_returned.
Qed.

Lemma handler_run_loop_panic fuel : ∀ k conn paw p, serve_loop fuel conn = Some (Panic p) →
  handler_run (fuel + k) (HLoop conn) paw = (inr (ExitPanic p), paw).
Proof.
  induction fuel as [|fuel IH]; intros k conn paw p E; [done|].
  cbn [serve_loop Nat.add handler_run handler_step] in *.
  destruct (ReadFrame conn) as [[[f [m|]] conn1]|]; [done|by apply (IH k)|by injection E as <-].
Qed.

Definition is_done (p : rpc) : bool := match p with RDone _ => true | _ => false end.

Lemma after_call_going eph p : is_done p = false → after_call eph p = inl (HHandshake eph p).
Proof. by destruct p. Qed.

Lemma handler_run_call n : ∀ eph p paw k r paw', is_done p = false →
  responder_run eph staticKey cert n p paw = (RDone r, paw') →
  ∃ k', (k ≤ k')%nat ∧ handler_run (n + k) (HHandshake eph p) paw =
    match after_call eph (RDone r) with
    | inl h => handler_run k' h paw'
    | inr e => (inr e, paw')
    end.
Proof.
  induction n as [|n IH]; intros eph p paw k r paw' Hp E; [injection E as -> ->; done|].
  rewrite responder_run_S in E. cbn [Nat.add handler_run handler_step].
  destruct (responder_step eph staticKey cert p paw) as [p1 paw1]. cbn [fst snd] in E.
  destruct (is_done p1) eqn:Ed.
  - destruct p1 as [| | | | | | | | | | |r1]; try discriminate Ed. rewrite responder_run_done in E.
    injection E as <- <-. exists (n + k)%nat. split; [lia|]. by destruct (after_call eph (RDone r1)).
  - rewrite after_call_going by done. by apply IH.
Qed.

(** The handler's steps, one after another, are [serve_conn]. *)
Lemma handler_alone fuel eph rw paw o :
  serve_conn fuel eph rw (Some cert) (Some staticKey) paw = Some o →
  same_end o (handler_run (12 + fuel) (HHandshake eph (RStart rw)) paw).
Proof.
  intros E. pose proof (responder_alone eph staticKey cert rw paw) as Ha. unfold serve_conn in E.
  destruct (responder_run eph staticKey cert 11 (RStart rw) paw) as [p paw1] eqn:Er.
  destruct p as [| | | | | | | | | | |r]; try by destruct (PerformHandshakeResponder _ _ _ _ _) as [[[? ?] ?]|].
  destruct (handler_run_call 11 eph (RStart rw) paw (1 + fuel) r paw1 eq_refl Er) as (k' & Hk & Hrun).
  replace (12 + fuel)%nat with (11 + (1 + fuel))%nat by lia. rewrite Hrun. clear Hrun Er.
  destruct (PerformHandshakeResponder _ _ _ _ _) as [[[[[recv send] err] rw1] paw2]|q];
    destruct r as [[r1 rw2]|q']; try done; simpl in Ha; [|by subst q'; injection E as <-].
  destruct Ha as (<- & <- & <-).
  destruct recv as [recv|], send as [send|], err as [e|]; try (injection E as <-; done).
  cbn [after_call]. set (conn := {| cn_NetConn := rw1; cn_Send := send; cn_Recv := recv; cn_log := [] |}) in *.
  destruct k' as [|k']; [lia|]. cbn [handler_run handler_step].
  destruct (ReadFrame conn) as [[[f [m|]] conn1]|q].
  - assert (∀ A (x : A), match f with Some _ | None => x end = x) as Hf by by destruct f.
    rewrite Hf in E. rewrite Hf. injection E as <-. unfold end_handler.
    destruct (on_read_error m); [|done]. by rewrite handler_run_returned.
  - destruct f as [f|]; [|by injection E as <-]. destruct (negb _).
    { injection E as <-. cbn [end_handler]. by rewrite handler_run_returned. }
    destruct (Frame_FromParams _ _ _) as [sf se].
    replace k' with (fuel + (k' - fuel))%nat by lia.
    destruct (serve_loop fuel conn1) as [[[e conn2]|q]|] eqn:El; [| |done]; injection E as <-.
    + rewrite (handler_run_loop fuel _ _ _ _ _ El). by destruct e.
    + by rewrite (handler_run_loop_panic fuel _ _ _ _ El).
  - by injection E as <-.
Qed.
End Run.

(** ** A connection after its handshake *)

Section Served.
Context {ae : AEAD} {laws : AEADLaws} {fl : GoFloat} {sha : SHA256} {ec : Secp256k1} {go : GoAlloc}.
Context {net : NetErrors}.
Context (staticKey : Keypair) (cert : SIGNATURE_NOISE_MESSAGE).

(** Both states keyed, the sending one unused, one message written, and a log of frames
    received only. *)
Definition conn_ok (conn : Sv2Conn) : Prop :=
  (∃ k n, cn_Recv conn = keyed k n) ∧ (∃ k, cn_Send conn = keyed k (to_u64 0)) ∧
  length (rw_out (cn_NetConn conn)) = 1%nat ∧ Forall (λ l, ∃ t b, l = RX t b) (cn_log conn).

Definition served_ok (h : handler) : Prop :=
  match h with
  | HHandshake _ _ => False
  | HFirst conn | HLoop conn | HReturned conn => conn_ok conn
  end.

Lemma ReadFrame_conn_ok conn : conn_ok conn →
  ∃ f err conn', ReadFrame conn = Ret (f, err, conn') ∧ conn_ok conn' ∧ (err = None → f ≠ None).
Proof.
  intros ((k & n & Hr) & Hs & Ho & Hl).
  destruct (ReadFrame_total k n conn Hr) as (f & err & conn' & m & E & Hr' & Hf).
  exists f, err, conn'. split; [done|]. split; [|done].
  pose proof (ReadFrame_shrinks _ _ _ _ E) as [Ho' _].
  split; [by exists k, m|]. rewrite Ho'. revert E. unfold ReadFrame, mbind, outcome_bind, mret, outcome_ret.
  destruct (DecryptFrameFromReader _ _) as [[[[f1 [e|]] r] recv]|]; [by intros [= <- <- <-]| |done].
  destruct f1 as [f1|]; [|done]. destruct (Frame_Encode f1) as [[b e] f2]. intros [= <- <- <-].
  split; [done|]. split; [done|]. apply Forall_app. split; [done|]. constructor; [eauto|constructor].
Qed.

(** A step leaves it so, or ends the process with an error. *)
Definition serve_end_ok (x : handler + exit_reason) : Prop :=
  match x with inl h => served_ok h | inr e => ∃ m, e = ExitFatal m end.

Lemma end_handler_ok e conn : conn_ok conn → serve_end_ok (end_handler e conn).
Proof. destruct e; [done|by eexists]. Qed.

Lemma serve_step_ok h paw : served_ok h → serve_end_ok (handler_step staticKey cert h paw).1.
Proof.
  intros Hh. destruct h as [eph p|conn|conn|conn]; cbn [handler_step fst]; [done|..|done];
    destruct (ReadFrame_conn_ok conn Hh) as (f & err & conn' & -> & Hc & Hf);
    (destruct err as [e|]; [destruct f; by apply end_handler_ok|]).
  - specialize (Hf eq_refl). destruct f as [f|]; [|done]. destruct (negb _); [done|].
    by destruct (Frame_FromParams _ _ _).
  - by destruct f.
Qed.

Definition input_left (rw : ReadWriter) : nat := length (st_data (rw_in rw)).

(** The steps that it can take at most: a frame takes a byte or more. *)
Definition served_left (h : handler) : nat :=
  match h with
  | HFirst conn => 2 + input_left (cn_NetConn conn)
  | HLoop conn => 1 + input_left (cn_NetConn conn)
  | HHandshake _ _ | HReturned _ => 0
  end.

Lemma serve_step_less h paw h' : served_ok h → returned h = false →
  (handler_step staticKey cert h paw).1 = inl h' → (served_left h' < served_left h)%nat.
Proof.
  intros Hh Hret. destruct h as [eph p|conn|conn|conn]; cbn [handler_step served_left fst]; [done|..|done].
  - destruct (ReadFrame conn) as [[[f [e|]] conn']|] eqn:E; [| |done];
      apply ReadFrame_shrinks in E as [_ E]; destruct f as [f|]; unfold end_handler, input_left;
      try destruct (on_read_error e); try (intros [= <-]); cbn [served_left]; try lia; try done.
    specialize (E eq_refl). destruct (negb _); [intros [= <-]; cbn [served_left]; lia|].
    destruct (Frame_FromParams _ _ _). intros [= <-]. cbn [served_left]. unfold input_left. lia.
  - destruct (ReadFrame conn) as [[[f [e|]] conn']|] eqn:E; [| |done];
      apply ReadFrame_shrinks in E as [_ E]; unfold end_handler, input_left;
      [destruct f; destruct (on_read_error e); try done; intros [= <-]; cbn [served_left]; lia|].
    specialize (E eq_refl). destruct f; intros [= <-]; cbn [served_left]; unfold input_left; lia.
Qed.
End Served.

(** ** Runs *)

Section Runs.
Context {ae : AEAD} {fl : GoFloat} {sha : SHA256} {ec : Secp256k1} {go : GoAlloc} {net : NetErrors}.
Context (staticKey : Keypair) (cert : SIGNATURE_NOISE_MESSAGE).

Notation step := (server_step staticKey cert).

Lemma responder_run_going n eph p paw : is_done (responder_run eph staticKey cert n p paw).1 = false →
  is_done p = false.
Proof. destruct p as [| | | | | | | | | | |r]; try done. by rewrite responder_run_done. Qed.

(** A goroutine goes on with its handshake while the others wait. *)
Lemma server_runs_call n i eph : ∀ p paw hs, hs !! i = Some (HHandshake eph p) →
  is_done (responder_run eph staticKey cert n p paw).1 = false →
  rtc step (running paw hs)
    (running (responder_run eph staticKey cert n p paw).2
      (<[i := HHandshake eph (responder_run eph staticKey cert n p paw).1]> hs)).
Proof.
  induction n as [|n IH]; intros p paw hs Hi Hd.
  - simpl. rewrite list_insert_id by done. apply rtc_refl.
  - rewrite responder_run_S in *. pose proof (responder_run_going _ _ _ _ Hd) as Hd1.
    destruct (responder_step eph staticKey cert p paw) as [p1 paw1] eqn:E. cbn [fst snd] in *.
    eapply rtc_l.
    + apply server_work, (work_on _ _ i (HHandshake eph p) (HHandshake eph p1) paw paw1 hs Hi eq_refl).
      cbn [handler_step]. by rewrite E, after_call_going.
    + pose proof (IH p1 paw1 (<[i := HHandshake eph p1]> hs)) as Hrest.
      rewrite list_insert_insert_eq in Hrest. apply Hrest; [|done].
      apply list_lookup_insert_eq. by eapply lookup_lt_Some.
Qed.

(** The process ends in the middle of a handshake. *)
Lemma server_call_fails i eph p paw hs e rw paw' : hs !! i = Some (HHandshake eph p) → is_done p = false →
  responder_step eph staticKey cert p paw = (failed (Some e) rw, paw') →
  step (running paw hs) {| sv_clientPaw := paw'; sv_conns := hs; sv_exit := Some (ExitFatal e) |}.
Proof.
  intros Hi Hd E. apply server_work, (work_exit _ _ i (HHandshake eph p)); [done|done|].
  cbn [handler_step]. by rewrite E.
Qed.

(** One goroutine is [serve_conn].  If nothing else runs, a connection's steps, with one
    for every byte of its stream and some to spare, come to an end, and it is the one of
    that function: the same error or panic of the process, or the same connection and the
    same log, and the same handshake state.  So what is shown of [serve_conn] holds of a
    server with one connection at a time. *)
Theorem handler_steps_are_serve_conn {laws : AEADLaws} fuel eph rw paw
    (Hmax : 0 < max_nonce) (Hs : is_Some (kp_Private staticKey)) (Heph : is_Some (kp_Private eph))
    (Hfuel : (length (st_data (rw_in rw)) < fuel)%nat) :
  ∃ o, serve_conn fuel eph rw (Some cert) (Some staticKey) paw = Some o ∧
    same_end o (handler_run staticKey cert (12 + fuel) (HHandshake eph (RStart rw)) paw).
Proof.
  destruct Heph as [priv Hp], Hs as [spriv Hs].
  destruct (serve_conn_ends fuel eph staticKey priv spriv cert rw paw Hmax Hp Hs Hfuel)
    as [(m & E)|(e & rw' & log & hs' & E & _)]; (eexists; split; [exact E|by apply handler_alone]).
Qed.

(** C34: a peer that disconnects early stops the server for everyone.  In every running state
    of the server, whatever connections it has, a peer that connects and closes before 64
    bytes ends the process: the end of its stream is an error of the handshake, which goes
    to [loog.Fatal].  The error is the stream's own, or unexpected EOF when some of the
    bytes had come; nothing was written to that peer. *)
Theorem any_peer_stops_server paw hs eph rw
    (Heph : is_Some (kp_Private eph)) (Hout : rw_out rw = []) (Hshort : (length (st_data (rw_in rw)) < 64)%nat) :
  ∃ paw' e, rtc step (running paw hs)
      {| sv_clientPaw := paw'; sv_conns := hs ++ [HHandshake eph (RRead rw)]; sv_exit := Some (ExitFatal e) |} ∧
    e = if decide (st_data (rw_in rw) = [] ∨ st_end (rw_in rw) ≠ "EOF"%string)
        then st_end (rw_in rw) else "unexpected EOF"%string.
Proof.
  assert (∀ p, (hs ++ [HHandshake eph p]) !! length hs = Some (HHandshake eph p)) as Hi
    by (intros p; by apply list_lookup_middle).
  do 2 eexists. split; [|reflexivity].
  eapply rtc_l; [by apply server_accept|].
  etrans; [apply (server_runs_call 1 (length hs) eph (RStart rw)); [apply Hi|done]|].
  cbn [responder_run responder_step fst snd]. rewrite insert_app_r_alt, Nat.sub_diag by done.
  eapply rtc_l; [|apply rtc_refl]. eapply (server_call_fails (length hs) eph (RRead rw)); [apply Hi|done|].
  cbn [responder_step]. unfold rw_ReadFull, ReadFull. rewrite (proj2 (Nat.leb_gt _ _)) by done. reflexivity.
Qed.
End Runs.

(** ** Properties *)

Section Properties.
Context {ae : AEAD} {laws : AEADLaws} {fl : GoFloat} {sha : SHA256} {ec : Secp256k1} {go : GoAlloc}.
Context {net : NetErrors}.
Context (staticKey : Keypair) (cert : SIGNATURE_NOISE_MESSAGE).

Lemma mixKey_keyed d hs : ∃ k, hs_cs (mixKey d hs) = keyed k (to_u64 0).
Proof. unfold mixKey. destruct (HKDF _ _) as [ck k]. by exists k. Qed.

(** Nothing opens to a message shorter than nothing. *)
Lemma decryptAndHash_empty k hs : 0 < max_nonce → hs_cs hs = keyed k (to_u64 0) →
  decryptAndHash [] hs = Ret (None, auth_error, hs).
Proof.
  intros Hmax Hcs. rewrite (decryptAndHash_fresh k) by done.
  destruct (Open _ _ _ _) as [p|] eqn:E; [|done]. apply Open_size in E. simpl in E. lia.
Qed.

(** The first statements of a call whose peer has sent its key. *)
Lemma responder_run_key eph n (e tail : list u8) en paw : length e = 64%nat →
  responder_run eph staticKey cert (3 + n) (RStart (delivers (e ++ tail) en)) paw =
  responder_run eph staticKey cert n (RDecrypt (delivers tail en) e) (mixHash e (start_handshake paw)).
Proof.
  intros He. cbn [Nat.add]. rewrite responder_run_S. cbn [responder_step fst snd].
  rewrite responder_run_S. cbn [responder_step]. unfold rw_ReadFull, delivers. cbn [rw_in rw_out].
  rewrite ReadFull_exact by done. cbn [fst snd]. rewrite responder_run_S. reflexivity.
Qed.

Lemma responder_run_secret eph k e tail en ee paw : kp_Private eph = Some k → length e = 64%nat →
  V2Ecdh k (to_array 64 e) (kp_publicEllswift eph) false = inl ee →
  ∃ paw', responder_run eph staticKey cert 6 (RStart (delivers (e ++ tail) en)) paw =
    (RStatic (delivers tail en) e (SerializeEllswiftBytes eph), mixKey (arr_bytes ee) paw').
Proof.
  intros Hk He Hee. rewrite (responder_run_key eph 3) by done.
  rewrite responder_run_S. cbn [responder_step].
  rewrite (proj2 (hash_unkeyed (mixHash e (start_handshake paw)) eq_refl)). cbn [on_outcome fst snd].
  rewrite responder_run_S. cbn [responder_step fst snd]. rewrite responder_run_S. cbn [responder_step].
  rewrite slice_to_array_exact by done. unfold mbind, outcome_bind, ecdh, SerializeEllswift.
  rewrite Hk. simpl sbytes. rewrite Hee. cbn [on_outcome mret outcome_ret fst snd responder_run]. by eexists.
Qed.

(** C21: two honest clients stop the server.  In every running state, whatever connections there
    are, let two clients connect with keys of their own and send them.  Either handshake
    would succeed if the other client were not there; but there is an order of the
    goroutines' statements in which the second client's handshake finds the first one's
    key in the state they share, fails to open its empty first payload with it, and ends
    the process for everyone. *)
Theorem honest_clients_stop_server {elaws : EllswiftLaws} paw hs k1 k2 eph1 eph2 tail1 tail2 en1 en2
    (Hmax : 0 < max_nonce) (Hk1 : keypair_ok k1) (Hk2 : keypair_ok k2)
    (He1 : keypair_ok eph1) (He2 : keypair_ok eph2) (Hs : keypair_ok staticKey) :
  (∀ k eph tail en, (k, eph, tail, en) ∈ [(k1, eph1, tail1, en1); (k2, eph2, tail2, en2)] → ∀ paw,
    ∃ recv send rw paw', PerformHandshakeResponder eph (delivers (SerializeEllswiftBytes k ++ tail) en)
      (Some cert) (Some staticKey) paw = Ret (Some recv, Some send, None, rw, paw')) ∧
  ∃ s', rtc (server_step staticKey cert) (running paw hs) s' ∧
    (∃ p1 p2, sv_conns s' = hs ++ [HHandshake eph1 p1; HHandshake eph2 p2]) ∧
    sv_exit s' = Some (ExitFatal "chacha20poly1305: message authentication failed").
Proof.
  split.
  { intros k eph tail en Hin paw0. assert (keypair_ok k ∧ keypair_ok eph) as [Hk He].
    { apply elem_of_cons in Hin as [[= -> -> -> ->]|Hin]; [done|].
      apply list_elem_of_singleton in Hin. by injection Hin as -> -> -> ->. }
    destruct (handshake_keys k eph staticKey cert Hmax Hk He Hs) as (key1 & key2 & msg & H).
    destruct (H zero_handshake paw0 [] tail "EOF"%string en) as (hsi & hsr & Er & _). eauto. }
  destruct He1 as (pe & Hpe & Hze & Hee & _). destruct He2 as (pe2 & Hpe2 & _).
  destruct Hk1 as (pk & _ & Hzk & Hek & _).
  destruct (V2Ecdh_agrees pk pe _ _ Hzk Hze Hek Hee) as (ee & _ & Edh).
  set (e1 := SerializeEllswiftBytes k1). set (e2 := SerializeEllswiftBytes k2).
  assert (length e1 = 64%nat) as L1 by apply length_arr. assert (length e2 = 64%nat) as L2 by apply length_arr.
  set (pawB := mixHash e2 (start_handshake paw)).
  destruct (responder_run_secret eph1 pe e1 tail1 en1 ee pawB Hpe L1) as [pawA EA].
  { unfold e1, SerializeEllswiftBytes. by rewrite to_array_arr_bytes. }
  pose proof (responder_run_key eph2 0 e2 tail2 en2 paw L2) as EB. change (3 + 0)%nat with 3%nat in EB.
  change (responder_run _ _ _ 0 ?p ?h) with (p, h) in EB. fold pawB in EB.
  set (A p := HHandshake eph1 p). set (B p := HHandshake eph2 p).
  destruct (mixKey_keyed (arr_bytes ee) pawA) as [key Hkey].
  exists {| sv_clientPaw := mixKey (arr_bytes ee) pawA;
    sv_conns := hs ++ [A (RStatic (delivers tail1 en1) e1 (SerializeEllswiftBytes eph1)); B (RDecrypt (delivers tail2 en2) e2)];
    sv_exit := Some (ExitFatal "chacha20poly1305: message authentication failed") |}.
  split; [|split; [by do 2 eexists|done]].
  eapply rtc_l; [apply (server_accept _ _ eph1 (delivers (e1 ++ tail1) en1)); [by eexists|done]|].
  eapply rtc_l; [apply (server_accept _ _ eph2 (delivers (e2 ++ tail2) en2)); [by eexists|done]|].
  rewrite <- app_assoc. cbn [app]. fold (A (RStart (delivers (e1 ++ tail1) en1))) (B (RStart (delivers (e2 ++ tail2) en2))).
  etrans; [apply (server_runs_call staticKey cert 3 (S (length hs)) eph2); [apply lookup_pair_r|by rewrite EB]|].
  rewrite EB, insert_pair_r. cbn [fst snd].
  etrans; [apply (server_runs_call staticKey cert 6 (length hs) eph1); [apply lookup_pair_l|by rewrite EA]|].
  rewrite EA, insert_pair_l. cbn [fst snd].
  eapply rtc_l; [|apply rtc_refl]. eapply (server_call_fails staticKey cert (S (length hs)) eph2); [apply lookup_pair_r|done|].
  cbn [responder_step]. rewrite (decryptAndHash_empty key) by done. reflexivity.
Qed.
End Properties.

(** ** Witnesses *)

Lemma handler_steps_are_serve_conn_witness : ∃ o,
  serve_conn (ae := toy_aead) (fl := half_range_float) (go := exact_alloc) (sha := toy_sha)
    (ec := toy_curve) (net := never_closed) 1 toy_keypair (delivers [] "EOF") (Some toy_cert)
    (Some toy_keypair) zero_handshake = Some o ∧
  same_end o (handler_run (ae := toy_aead) (fl := half_range_float) (sha := toy_sha) (ec := toy_curve)
    (go := exact_alloc) (net := never_closed) toy_keypair toy_cert (12 + 1)
    (HHandshake toy_keypair (RStart (delivers [] "EOF"))) zero_handshake).
Proof.
  apply (handler_steps_are_serve_conn (ae := toy_aead) (laws := toy_aead_laws) (fl := half_range_float)
    (sha := toy_sha) (ec := toy_curve) (go := exact_alloc) (net := never_closed) toy_keypair toy_cert).
  - exact toy_max.
  - by eexists.
  - by eexists.
  - simpl. lia.
Defined.

Lemma any_peer_stops_server_witness : ∃ s' e, rtc (server_step (ae := toy_aead) (fl := half_range_float)
    (sha := toy_sha) (ec := toy_curve) (go := exact_alloc) (net := never_closed) toy_keypair toy_cert)
    (running zero_handshake []) s' ∧ sv_exit (ec := toy_curve) s' = Some (ExitFatal e).
Proof.
  destruct (any_peer_stops_server (ae := toy_aead) (fl := half_range_float) (sha := toy_sha)
    (ec := toy_curve) (go := exact_alloc) (net := never_closed) toy_keypair toy_cert zero_handshake []
    toy_keypair (delivers [] "EOF")) as (paw' & e & H & _).
  - by eexists.
  - reflexivity.
  - simpl. lia.
  - eexists _, e. split; [exact H|reflexivity].
Defined.

Lemma honest_clients_stop_server_witness : ∃ s', rtc (server_step (ae := toy_aead) (fl := half_range_float)
    (sha := toy_sha) (ec := toy_curve) (go := exact_alloc) (net := never_closed) toy_keypair toy_cert)
    server_start s' ∧
  sv_exit (ec := toy_curve) s' = Some (ExitFatal "chacha20poly1305: message authentication failed").
Proof.
  destruct (honest_clients_stop_server (ae := toy_aead) (laws := toy_aead_laws) (fl := half_range_float)
    (sha := toy_sha) (ec := toy_curve) (go := exact_alloc) (net := never_closed) (elaws := toy_ellswift_laws)
    toy_keypair toy_cert zero_handshake [] toy_keypair toy_keypair toy_keypair toy_keypair [] [] "EOF" "EOF"
    toy_max toy_keypair_ok toy_keypair_ok toy_keypair_ok toy_keypair_ok toy_keypair_ok) as [_ (s' & H & _ & E)].
  exists s'. split; [exact H|exact E].
Defined.
