(* ===== verification/ServerAccess.v ===== *)
(** * The example server, access by access (examples/server/server.go)

    The server of ServerRun.v with the handshakes of SharedHandshake.v: the connections'
    goroutines interleave between any two accesses to the [HandshakeState] that they
    share, and to the [CipherState]s behind it.  What holds of every state here is shown
    without any assumption on what the others have left in that memory. *)
From stdpp Require Import relations.
From S2P Require Import Prelude GoInts Constants Wire Builder Reader Sequences Codec CoreMessages Frame FrameFacts.
From S2P Require Import Cipher CipherProps Transport Hashes Keys KeysProps Handshake HandshakeProps.
From S2P Require Import Conn Server HandshakeRace SharedHandshake ServerRun.

Section State.
Context {ec : Secp256k1}.

(** Where a connection's goroutine is: in the handshake, with its connection and the
    accesses to come, or behind it, where it uses nothing that others do. *)
Inductive goroutine :=
| GHandshake (rw : ReadWriter) (x : act hs_result)
| GServe (h : handler).

Record process := {
  pr_clientPaw : shared;
  pr_conns : list goroutine;
  pr_exit : option exit_reason
}.

Definition process_start : process := {| pr_clientPaw := zero_shared; pr_conns := []; pr_exit := None |}.

Definition finished (g : goroutine) : bool := match g with GServe h => returned h | _ => false end.

Definition going (m : shared) (gs : list goroutine) : process :=
  {| pr_clientPaw := m; pr_conns := gs; pr_exit := None |}.

End State.

Section Run.
Context {ae : AEAD} {fl : GoFloat} {sha : SHA256} {ec : Secp256k1} {go : GoAlloc} {net : NetErrors}.
Context (staticKey : Keypair) (cert : SIGNATURE_NOISE_MESSAGE).

(** What follows the handshake's return. *)
Definition call_returned (r : hs_result) (rw : ReadWriter) : goroutine + exit_reason :=
  match r with
  | (_, _, Some e) => inr (ExitFatal e)
  | (Some recv, Some send, None) =>
      inl (GServe (HFirst {| cn_NetConn := rw; cn_Send := send; cn_Recv := recv; cn_log := [] |}))
  | (_, _, None) => inr (ExitPanic NilDereference)
  end.

(** One access, one call on the connection, the return of the handshake, or one frame. *)
Definition goroutine_step (g : goroutine) (m : shared) : (goroutine + exit_reason) * shared :=
  match g with
  | GHandshake rw (Done r) => (call_returned r rw, m)
  | GHandshake rw (Crash p) => (inr (ExitPanic p), m)
  | GHandshake rw (Access change k) => (inl (GHandshake rw (k m)), change m)
  | GHandshake rw (NetRead n k) =>
      let '(b, err, rw) := rw_ReadFull n rw in (inl (GHandshake rw (k (b, err))), m)
  | GHandshake rw (NetWrite b k) => (inl (GHandshake (rw_Write b rw) k), m)
  | GServe h =>
      (match (handler_step staticKey cert h zero_handshake).1 with
       | inl h => inl (GServe h)
       | inr e => inr e
       end, m)
  end.

(** A step of a goroutine that is still there. *)
Inductive going_step : process → process → Prop :=
| going_on i g g' m m' gs : gs !! i = Some g → finished g = false → goroutine_step g m = (inl g', m') →
    going_step (going m gs) (going m' (<[i := g']> gs))
| going_exit i g e m m' gs : gs !! i = Some g → finished g = false → goroutine_step g m = (inr e, m') →
    going_step (going m gs) {| pr_clientPaw := m'; pr_conns := gs; pr_exit := Some e |}.

(** A connection is a peer's: the bytes that it will send, and how its stream ends.
    An error of [Accept] changes nothing.  The ephemeral key is drawn in the handshake. *)
Inductive process_step : process → process → Prop :=
| process_accept eph rw m gs : is_Some (kp_Private eph) → rw_out rw = [] →
    process_step (going m gs) (going m (gs ++ [GHandshake rw (responder_acts eph staticKey cert)]))
| process_work s s' : going_step s s' → process_step s s'
| process_signal m gs :
    process_step (going m gs) {| pr_clientPaw := m; pr_conns := gs; pr_exit := Some ExitSignal |}.

(** ** One goroutine goes on *)

Lemma process_act i rw x m gs rw' x' m' : gs !! i = Some (GHandshake rw x) →
  rtc act_step (x, m, rw) (x', m', rw') →
  rtc process_step (going m gs) (going m' (<[i := GHandshake rw' x']> gs)).
Proof.
  intros Hi H. remember (x, m, rw) as c eqn:Ec. remember (x', m', rw') as c' eqn:Ec'.
  revert x m rw gs Ec Hi. induction H as [c|c c1 c' Hs _ IH]; intros x m rw gs -> Hi.
  - injection Ec' as -> -> ->. rewrite list_insert_id by done. apply rtc_refl.
  - destruct c1 as [[x1 m1] rw1].
    eapply rtc_l; [apply process_work, (going_on i (GHandshake rw x) (GHandshake rw1 x1) m m1 gs Hi eq_refl)|].
    { inversion Hs as [|? ? ? ? b err ? Er|]; subst; cbn [goroutine_step]; try done. by rewrite Er. }
    specialize (IH Ec' x1 m1 rw1 (<[i := GHandshake rw1 x1]> gs) eq_refl).
    rewrite list_insert_insert_eq in IH. apply IH. apply list_lookup_insert_eq. by eapply lookup_lt_Some.
Qed.

End Run.

(** ** What holds in every state *)

Section Invariant.
Context {ae : AEAD} {laws : AEADLaws} {fl : GoFloat} {sha : SHA256} {ec : Secp256k1} {go : GoAlloc}.
Context {net : NetErrors}.
Context (staticKey : Keypair) (cert : SIGNATURE_NOISE_MESSAGE).
Context (Hstatic : is_Some (kp_Private staticKey)).

Definition goroutine_ok (g : goroutine) : Prop :=
  match g with
  | GHandshake rw x => safe call_result_ok (length (rw_out rw)) x ∧ within 58 x
  | GServe h => served_ok h
  end.

Definition exit_call_ok (e : exit_reason) : Prop :=
  match e with ExitPanic p => call_panic p | _ => True end.

Definition process_ok (s : process) : Prop :=
  Forall goroutine_ok (pr_conns s) ∧ ∀ e, pr_exit s = Some e → exit_call_ok e.

Lemma rw_ReadFull_length n rw b err rw' : rw_ReadFull n rw = (b, err, rw') →
  rw_out rw' = rw_out rw ∧ (err = None → length b = n).
Proof.
  unfold rw_ReadFull. destruct (ReadFull n (rw_in rw)) as [[b' err'] r] eqn:E. intros [= -> -> <-].
  split; [done|]. intros ->. by apply ReadFull_ok in E as (? & _).
Qed.

Lemma goroutine_step_ok g m : goroutine_ok g →
  match (goroutine_step staticKey cert g m).1 with inl g' => goroutine_ok g' | inr e => exit_call_ok e end.
Proof.
  destruct g as [rw [r|p|f k|l k|b k]|h]; cbn [goroutine_ok safe goroutine_step fst].
  - intros [[_ Hr] _]. destruct r as [[recv send] [e|]]; [destruct recv, send; exact I|].
    destruct recv as [recv|], send as [send|]; [|destruct Hr..].
    destruct Hr as ((k1 & ->) & (k2 & ->) & Hw). split_and!; [by eexists _, _|by eexists|done|constructor].
  - by intros [[_ ?] _].
  - intros [Hx Hn]. split; [apply Hx|]. apply (within_mono _ 57); [apply Nat.le_succ_diag_r|exact (Hn m)].
  - intros [Hx Hn]. destruct (rw_ReadFull l rw) as [[b err] rw'] eqn:E. apply rw_ReadFull_length in E as [Eo Eb].
    cbn [fst goroutine_ok]. rewrite Eo. split; [by apply Hx|]. apply (within_mono _ 57); [apply Nat.le_succ_diag_r|exact (Hn (b, err))].
  - intros [Hx Hn]. cbn [goroutine_ok rw_Write rw_out]. rewrite length_app, Nat.add_comm.
    split; [done|]. apply (within_mono _ 57); [apply Nat.le_succ_diag_r|exact Hn].
  - intros Hh. pose proof (serve_step_ok staticKey cert h zero_handshake Hh) as H.
    destruct (handler_step staticKey cert h zero_handshake).1 as [h'|e]; [done|]. by destruct H as [m' ->].
Qed.

Lemma going_step_ok s s' : process_ok s → going_step staticKey cert s s' → process_ok s'.
Proof.
  intros [Hc _] Hstep.
  destruct Hstep as [i g g' m m' gs Hi _ E|i g e m m' gs Hi _ E]; cbn [going pr_conns] in Hc;
    (assert (goroutine_ok g) as Hg by (rewrite Forall_lookup in Hc; by apply (Hc i)));
    pose proof (goroutine_step_ok g m Hg) as H; rewrite E in H; cbn [fst] in H.
  - split; [|done]. by apply Forall_insert.
  - split; [done|]. by intros e' [= <-].
Qed.

Lemma process_step_ok s s' : process_ok s → process_step staticKey cert s s' → process_ok s'.
Proof.
  intros Hs Hstep. destruct Hstep as [eph rw m gs Heph Ho|s s' Hw|m gs].
  - split; [|done]. apply Forall_app. split; [apply Hs|]. constructor; [|constructor].
    split; [rewrite Ho; by apply responder_safe|apply responder_within].
  - by apply (going_step_ok s).
  - split; [apply Hs|]. by intros e [= <-].
Qed.

Lemma process_reachable_ok s : rtc (process_step staticKey cert) process_start s → process_ok s.
Proof. apply (rtc_invariant _ process_ok process_step_ok). split; [constructor|done]. Qed.

(** ** Every goroutine comes to an end *)

Definition goroutine_input (g : goroutine) : nat :=
  match g with
  | GHandshake rw _ => input_left rw
  | GServe (HFirst conn) | GServe (HLoop conn) | GServe (HReturned conn) => input_left (cn_NetConn conn)
  | GServe (HHandshake _ _) => 0
  end.

(** It can take at most [n] steps. *)
Definition goroutine_left (n : nat) (g : goroutine) : Prop :=
  match g with
  | GHandshake rw x => ∃ d, within d x ∧ n = (3 + d + input_left rw)%nat
  | GServe h => n = served_left h
  end.

Lemma goroutine_ok_left g : goroutine_ok g → ∃ n, goroutine_left n g ∧ (n ≤ 61 + goroutine_input g)%nat.
Proof.
  destruct g as [rw x|h]; cbn [goroutine_ok goroutine_left goroutine_input].
  - intros [_ Hn]. eexists. split; [by exists 58%nat|lia].
  - intros Hh. eexists. split; [reflexivity|]. destruct h; cbn [served_left]; lia.
Qed.

Lemma goroutine_step_less n g g' m m' : goroutine_ok g → goroutine_left n g → finished g = false →
  goroutine_step staticKey cert g m = (inl g', m') → ∃ n', (n' < n)%nat ∧ goroutine_left n' g'.
Proof.
  intros Hg Hn Hf. destruct g as [rw x|h]; cbn [goroutine_left] in Hn.
  - destruct Hn as (d & Hd & ->). destruct x as [r|p|f k|l k|b k], d as [|d]; cbn [goroutine_step]; try done.
    1,2: destruct r as [[[recv|] [send|]] [e|]]; try done; intros [= <- _]; eexists; (split; [|reflexivity]);
      cbn [served_left cn_NetConn]; lia.
    + intros [= <- _]. eexists. split; [|by exists d]. lia.
    + unfold rw_ReadFull. destruct (ReadFull l (rw_in rw)) as [[b err] r] eqn:E. intros [= <- _].
      apply ReadFull_shrinks in E as (_ & E & _). eexists. split; [|by exists d]. unfold input_left. simpl. lia.
    + intros [= <- _]. eexists. split; [|by exists d]. unfold input_left. simpl. lia.
  - cbn [goroutine_step]. destruct (handler_step staticKey cert h zero_handshake).1 as [h'|e] eqn:E; [|done].
    intros [= <- _]. eexists. split; [|reflexivity]. rewrite Hn. by apply (serve_step_less staticKey cert h zero_handshake).
Qed.

(** The process can take at most [b] steps. *)
Definition process_left (b : nat) (s : process) : Prop :=
  process_ok s ∧ ∃ ns, Forall2 goroutine_left ns (pr_conns s) ∧
    (sum_list ns + match pr_exit s with None => 1 | Some _ => 0 end ≤ b)%nat.

Lemma going_step_less b s s' : process_left b s → going_step staticKey cert s s' →
  ∃ b', (b' < b)%nat ∧ process_left b' s'.
Proof.
  intros (Hok & ns & Hns & Hb) Hstep. pose proof (going_step_ok s s' Hok Hstep) as Hok'.
  destruct Hok as [Hc _]. destruct Hstep as [i g g' m m' gs Hi Hf E|i g e m m' gs Hi Hf E];
    cbn [going pr_conns pr_exit] in *.
  - assert (goroutine_ok g) as Hg by (rewrite Forall_lookup in Hc; by apply (Hc i)).
    destruct (Forall2_lookup_r _ _ _ _ _ Hns Hi) as (n & Hi' & Hn).
    destruct (goroutine_step_less n g g' m m' Hg Hn Hf E) as (n' & Hl & Hn').
    pose proof (sum_list_with_insert id i n' n ns Hi') as Hsum. cbn [id] in Hsum.
    exists (b - 1)%nat. split; [lia|]. split; [done|]. exists (<[i:=n']> ns).
    split; [by apply Forall2_insert|]. cbn [going pr_exit]. change (sum_list_with id) with sum_list in Hsum. lia.
  - exists (b - 1)%nat. split; [lia|]. split; [done|]. exists ns. split; [done|]. cbn [pr_exit]. lia.
Qed.

Lemma process_ok_left s : process_ok s →
  process_left (61 * length (pr_conns s) + sum_list_with goroutine_input (pr_conns s) + 1) s.
Proof.
  intros Hok. split; [done|]. destruct Hok as [Hc _]. destruct s as [m gs ex]. cbn [pr_conns pr_exit] in *.
  assert (∃ ns, Forall2 goroutine_left ns gs ∧
    (sum_list ns ≤ 61 * length gs + sum_list_with goroutine_input gs)%nat) as (ns & Hns & Hle).
  { induction Hc as [|g gs Hg _ (ns & Hns & Hle)]; [exists []; split; [constructor|done]|].
    destruct (goroutine_ok_left g Hg) as (n & Hn & Hl). exists (n :: ns). split; [by constructor|].
    simpl in *. lia. }
  exists ns. split; [done|]. destruct ex; lia.
Qed.

(** A goroutine that has not returned has a step to take. *)
Lemma going_step_exists s : pr_exit s = None → (∀ s', ¬ going_step staticKey cert s s') →
  Forall (λ g, finished g = true) (pr_conns s).
Proof.
  destruct s as [m gs ex]. simpl. intros -> Hstuck. apply Forall_lookup. intros i g Hi.
  destruct (finished g) eqn:Hf; [done|].
  destruct (goroutine_step staticKey cert g m) as [[g'|e] m'] eqn:E.
  - destruct (Hstuck _ (going_on _ _ i g g' m m' gs Hi Hf E)).
  - destruct (Hstuck _ (going_exit _ _ i g e m m' gs Hi Hf E)).
Qed.
End Invariant.

(** ** Properties *)

Section Properties.
Context {ae : AEAD} {laws : AEADLaws} {fl : GoFloat} {sha : SHA256} {ec : Secp256k1} {go : GoAlloc}.
Context {net : NetErrors}.
Context (staticKey : Keypair) (cert : SIGNATURE_NOISE_MESSAGE).


(** C17: every connection is served to its end.  From every reachable state, if no more
    peers connect and every peer's stream ends, as a connection's does here, the
    goroutines can take only boundedly many steps, however their accesses interleave: at
    most sixty-one each, one for every byte to be read, and one for the end of the
    process; and where none can take a step and the process has not ended, all have
    returned.  No goroutine waits for another.  (A peer that stays connected and sends
    nothing holds up its own goroutine: a read has no step before its bytes are there.) *)
Theorem server_quiesces s
    (Hstatic : is_Some (kp_Private staticKey)) (Hs : rtc (process_step staticKey cert) process_start s) :
  (∀ n s', nsteps (going_step staticKey cert) n s s' →
    (n ≤ 61 * length (pr_conns s) + sum_list_with goroutine_input (pr_conns s) + 1)%nat) ∧
  ∀ s', rtc (going_step staticKey cert) s s' → (∀ s'', ¬ going_step staticKey cert s' s'') →
    pr_exit s' = None → Forall (λ g, finished g = true) (pr_conns s').
Proof.
  pose proof (process_reachable_ok staticKey cert Hstatic s Hs) as Hok. split.
  - intros n s'. apply (nsteps_bounded _ process_left (going_step_less staticKey cert)). by apply process_ok_left.
  - intros s' _ Hstuck Hrun. by apply (going_step_exists staticKey cert).
Qed.

(** A call whose peer has sent its key has a cipher state of its own without a key, and is
    about to look at it. *)
Lemma responder_reaches_key eph (e tail : list u8) en m : length e = 64%nat → ∃ m',
  rtc act_step (responder_acts eph staticKey cert, m, delivers (e ++ tail) en)
    (decryptAndHash_acts [] ≫= λ '(_, err), match err with
       | Some _ => mret (None, None, err)
       | None => responder_tail eph staticKey cert e
       end, m', delivers tail en) ∧
  holds (length (sh_ciphers m)) m' ∧ cipher_at (length (sh_ciphers m)) m' = zero_cipher.
Proof.
  intros He. destruct (start_run m (delivers (e ++ tail) en)) as (m1 & E1 & H1 & V1).
  set (i := length (sh_ciphers m)) in *.
  assert (rw_ReadFull 64 (delivers (e ++ tail) en) = (e, None, delivers tail en)) as Er.
  { unfold rw_ReadFull, delivers. cbn [rw_in rw_out]. by rewrite ReadFull_exact. }
  destruct (mixHash_implements e i m1 (delivers tail en) H1) as (m2 & E2 & H2 & V2).
  exists m2. split; [|split; [exact H2|]].
  - unfold responder_acts. etrans; [apply (reaches_next _ _ _ _ _ _ _ E1)|].
    etrans; [apply (reaches_next (NetRead 64 Done) _ m1 _ (e, None) m1 (delivers tail en));
      cbn [act_run]; by rewrite Er|]. cbv beta iota.
    etrans; [apply (reaches_next _ _ _ _ _ _ _ E2)|apply rtc_refl].
  - pose proof (f_equal hs_cs V2) as Vc. cbn [view hs_cs mixHash set_h] in Vc. rewrite Vc.
    pose (hs := {| hs_cs := zero_cipher; hs_h := zero_array 32; hs_ck := zero_array 32;
                   hs_cert := sh_cert m; hs_serverStatic := sh_serverStatic m |}).
    exact (f_equal hs_cs (V1 hs eq_refl eq_refl)).
Qed.

Lemma mixKey_reaches d m rw : ∃ temp m',
  rtc act_step (mixKey_acts d, m, rw) (i ← get_cs; InitializeKey_acts i temp, m', rw).
Proof.
  eexists _, _. eapply rtc_l; [apply act_access|]. eapply rtc_l; [apply act_access|]. apply rtc_refl.
Qed.

(** A call that goes on to its first key: it is about to load the pointer [hs.cs], and to
    set the key of what that refers to. *)
Lemma responder_reaches_key_set eph k (e tail : list u8) en ee m : length e = 64%nat →
  kp_Private eph = Some k → V2Ecdh k (to_array 64 e) (kp_publicEllswift eph) false = inl ee →
  ∃ temp rest m', rtc act_step (responder_acts eph staticKey cert, m, delivers (e ++ tail) en)
    ((i ← get_cs; InitializeKey_acts i temp) ≫= rest, m', delivers tail en).
Proof.
  intros He Hk Hee. destruct (responder_reaches_key eph e tail en m He) as (m1 & R1 & H1 & Hz).
  set (i := length (sh_ciphers m)) in *.
  pose proof (decryptAndHash_implements [] i m1 (delivers tail en) H1) as Hd.
  cbv beta in Hd. rewrite (proj2 (hash_unkeyed (view i m1) Hz)), ret_bind in Hd. destruct Hd as (m2 & E2 & H2 & _).
  destruct (mixHash_implements (SerializeEllswiftBytes eph) i m2 (delivers tail en) H2) as (m3 & E3 & H3 & _).
  destruct (mixKey_reaches (arr_bytes ee) m3 (delivers tail en)) as (temp & m4 & R4).
  exists temp. do 2 eexists. etrans; [exact R1|]. etrans; [apply (reaches_next _ _ _ _ _ _ _ E2)|]. cbv beta iota.
  unfold responder_tail. etrans; [apply (reaches_next _ _ _ _ _ _ _ E3)|]. cbv beta iota.
  rewrite slice_to_array_exact by done.
  assert (ecdh eph (to_array 64 e) false = Ret (arr_bytes ee)) as Ee
    by (unfold ecdh, SerializeEllswift; by rewrite Hk, Hee).
  etrans; [apply (reaches_next (of_outcome _) _ _ _ (to_array 64 e)); reflexivity|].
  etrans; [apply (reaches_next _ _ _ _ (arr_bytes ee)); by rewrite Ee|].
  apply (reaches_bind _ _ _ R4).
Qed.

(** A key that is set, and an AEAD that is not. *)
Lemma half_keyed_crashes c j k m rw : 0 < max_nonce → holds j m →
  cipher_at j m = put_k k zero_cipher → rtc act_step (decryptAndHash_acts c, m, rw) (Crash NilDereference, m, rw).
Proof.
  intros Hmax Hj Hc. pose proof max_nonce_range as Hm.
  assert (len (cs_k (cipher_at j m)) =? 0 = false) as Hk.
  { rewrite Hc. apply Z.eqb_neq. unfold len, put_k. cbn [cs_k]. rewrite length_arr. lia. }
  unfold decryptAndHash_acts.
  etrans; [apply (reaches_next _ _ _ _ _ _ _ (get_cs_run j m rw Hj))|]. cbv beta.
  etrans; [apply (reaches_next _ _ _ _ _ _ _ (get_run _ m rw))|]. cbv beta. rewrite Hk. cbn [negb].
  etrans; [apply (reaches_left _ _ _ _ (Crash NilDereference) m rw)|apply rtc_refl].
  etrans; [apply (reaches_next _ _ _ _ _ _ _ (get_cs_run j m rw Hj))|]. cbv beta. unfold DecryptWithAd_acts.
  etrans; [apply (reaches_next _ _ _ _ _ _ _ (get_run _ m rw))|]. cbv beta. rewrite Hk.
  etrans; [apply (reaches_next _ _ _ _ _ _ _ (get_run _ m rw))|]. cbv beta.
  rewrite decide_False.
  - etrans; [apply (reaches_next _ _ _ _ _ _ _ (get_run _ m rw))|]. cbv beta. by rewrite Hc.
  - rewrite Hc. cbn [put_k zero_cipher cs_n]. rewrite to_u64_is_max; lia.
Qed.

(** C20: the server can crash on two honest clients.  In every running state, whatever
    connections and whatever memory there is, let two clients connect with keys of their
    own and send them.  Either handshake would succeed if the other client were not there;
    but [InitializeKey] sets the key before the AEAD, and there is an order of the
    accesses in which the second call looks at the cipher state in between, finds a key,
    and calls the AEAD that is still nil: the panic ends the process for everyone. *)
Theorem keying_race_crashes_server {elaws : EllswiftLaws} m gs k1 k2 eph1 eph2 tail1 tail2 en1 en2
    (Hmax : 0 < max_nonce) (Hk1 : keypair_ok k1) (Hk2 : keypair_ok k2)
    (He1 : keypair_ok eph1) (He2 : keypair_ok eph2) (Hs : keypair_ok staticKey) :
  (∀ k eph tail en, (k, eph, tail, en) ∈ [(k1, eph1, tail1, en1); (k2, eph2, tail2, en2)] → ∀ m,
    ∃ recv send rw m', act_run (responder_acts eph staticKey cert) m
      (delivers (SerializeEllswiftBytes k ++ tail) en) = Ret ((Some recv, Some send, None), m', rw)) ∧
  ∃ s', rtc (process_step staticKey cert) (going m gs) s' ∧
    (∃ x1 x2, pr_conns s' = gs ++ [GHandshake (delivers tail1 en1) x1; GHandshake (delivers tail2 en2) x2]) ∧
    pr_exit s' = Some (ExitPanic NilDereference).
Proof.
  split.
  { intros k eph tail en Hin m0. assert (keypair_ok k ∧ keypair_ok eph) as [Hk He].
    { apply elem_of_cons in Hin as [[= -> -> -> ->]|Hin]; [done|].
      apply list_elem_of_singleton in Hin. by injection Hin as -> -> -> ->. }
    destruct (handshake_keys k eph staticKey cert Hmax Hk He Hs) as (key1 & key2 & msg & H).
    pose (hs := {| hs_cs := zero_cipher; hs_h := zero_array 32; hs_ck := zero_array 32;
                   hs_cert := sh_cert m0; hs_serverStatic := sh_serverStatic m0 |}).
    destruct (H zero_handshake hs [] tail "EOF"%string en) as (hsi & hsr & Er & _).
    pose proof (responder_acts_are_the_method eph staticKey cert m0
      (delivers (SerializeEllswiftBytes k ++ tail) en) hs eq_refl eq_refl) as Hr.
    rewrite Er in Hr. destruct Hr as (m' & Hr & _). eauto. }
  destruct He1 as (pe & Hpe & Hze & Hee & _). destruct He2 as (pe2 & Hpe2 & _).
  destruct Hk1 as (pk & _ & Hzk & Hek & _).
  destruct (V2Ecdh_agrees pk pe _ _ Hzk Hze Hek Hee) as (ee & _ & Edh).
  set (e1 := SerializeEllswiftBytes k1). set (e2 := SerializeEllswiftBytes k2).
  assert (length e1 = 64%nat) as L1 by apply length_arr. assert (length e2 = 64%nat) as L2 by apply length_arr.
  destruct (responder_reaches_key_set eph1 pe e1 tail1 en1 ee m L1 Hpe) as (temp & rest & m1 & R1).
  { unfold e1, SerializeEllswiftBytes. by rewrite to_array_arr_bytes. }
  destruct (responder_reaches_key eph2 e2 tail2 en2 m1 L2) as (m2 & R2 & H2 & Z2).
  set (j := length (sh_ciphers m1)) in *.
  set (m3 := put_cipher j (put_k temp) m2).
  assert (holds j m3) as H3 by by apply holds_put_cipher.
  assert (cipher_at j m3 = put_k temp zero_cipher) as Z3 by (unfold m3; by rewrite cipher_put_cipher, Z2).
  assert (∃ x, rtc act_step ((i ← get_cs; InitializeKey_acts i temp) ≫= rest, m2, delivers tail1 en1)
    (x, m3, delivers tail1 en1)) as [x1 R3].
  { eexists. apply reaches_left.
    etrans; [apply (reaches_next _ _ _ _ _ _ _ (get_cs_run j m2 _ H2))|].
    eapply rtc_l; [apply act_access|apply rtc_refl]. }
  pose proof (reaches_bind (λ '(_, err), match err with
       | Some _ => mret (None, None, err)
       | None => responder_tail eph2 staticKey cert e2
       end) _ _ (half_keyed_crashes [] j temp m3 (delivers tail2 en2) Hmax H3 Z3)) as R4. cbn [fst snd] in R4.
  set (A x := GHandshake (delivers tail1 en1) x). set (B x := GHandshake (delivers tail2 en2) x).
  set (A0 := GHandshake (delivers (e1 ++ tail1) en1) (responder_acts eph1 staticKey cert)).
  set (B0 := GHandshake (delivers (e2 ++ tail2) en2) (responder_acts eph2 staticKey cert)).
  exists {| pr_clientPaw := m3; pr_conns := gs ++ [A x1; B (Crash NilDereference)];
            pr_exit := Some (ExitPanic NilDereference) |}.
  split; [|split; [by exists x1, (Crash NilDereference)|done]].
  eapply rtc_l; [by apply (process_accept _ _ eph1 (delivers (e1 ++ tail1) en1))|].
  eapply rtc_l; [by apply (process_accept _ _ eph2 (delivers (e2 ++ tail2) en2))|].
  rewrite <- app_assoc. cbn [app]. fold A0 B0.
  etrans; [apply (process_act _ _ (length gs) _ _ m (gs ++ [A0; B0]) _ _ _ (lookup_pair_l gs A0 B0) R1)|].
  rewrite insert_pair_l. fold (A ((i ← get_cs; InitializeKey_acts i temp) ≫= rest)).
  etrans; [eapply (process_act _ _ (S (length gs))); [apply lookup_pair_r|exact R2]|]. rewrite insert_pair_r.
  etrans; [eapply (process_act _ _ (length gs)); [apply lookup_pair_l|exact R3]|]. rewrite insert_pair_l.
  etrans; [eapply (process_act _ _ (S (length gs))); [apply lookup_pair_r|exact R4]|]. rewrite insert_pair_r.
  eapply rtc_l; [|apply rtc_refl]. apply process_work. eapply (going_exit _ _ (S (length gs))); [apply lookup_pair_r|reflexivity..].
Qed.

End Properties.

(** ** Witnesses *)


(** One client, which has sent its key. *)
Definition toy_client : ReadWriter := delivers (SerializeEllswiftBytes (ec := toy_curve) toy_keypair) "EOF".
Definition toy_process : process (ec := toy_curve) :=
  going zero_shared [GHandshake toy_client
    (responder_acts (ae := toy_aead) (fl := half_range_float) (sha := toy_sha) (ec := toy_curve)
      (go := exact_alloc) toy_keypair toy_keypair toy_cert)].

Lemma server_quiesces_witness : ¬ ∃ s', nsteps (going_step (ae := toy_aead) (fl := half_range_float)
  (sha := toy_sha) (ec := toy_curve) (go := exact_alloc) (net := never_closed) toy_keypair toy_cert)
  127 toy_process s'.
Proof.
  intros [s' Hn].
  destruct (server_quiesces (ae := toy_aead) (laws := toy_aead_laws) (fl := half_range_float)
    (sha := toy_sha) (ec := toy_curve) (go := exact_alloc) (net := never_closed) toy_keypair toy_cert
    toy_process) as [H _].
  - by eexists.
  - eapply rtc_l; [eapply (process_accept _ _ toy_keypair toy_client zero_shared []); [by eexists|done]|apply rtc_refl].
  - specialize (H 127%nat s' Hn). vm_compute in H. lia.
Defined.

Lemma keying_race_crashes_server_witness : ∃ s',
  rtc (process_step (ae := toy_aead) (fl := half_range_float) (sha := toy_sha) (ec := toy_curve)
    (go := exact_alloc) (net := never_closed) toy_keypair toy_cert) process_start s' ∧
  pr_exit s' = Some (ExitPanic NilDereference).
Proof.
  destruct (keying_race_crashes_server (ae := toy_aead) (laws := toy_aead_laws) (fl := half_range_float)
    (sha := toy_sha) (ec := toy_curve) (elaws := toy_ellswift_laws) (go := exact_alloc) (net := never_closed)
    toy_keypair toy_cert zero_shared [] toy_keypair toy_keypair toy_keypair toy_keypair [] [] "EOF" "EOF"
    toy_max toy_keypair_ok toy_keypair_ok toy_keypair_ok toy_keypair_ok toy_keypair_ok)
    as [_ (s' & Hs & _ & He)].
  exists s'. split; [exact Hs|exact He].
Defined.
