(* ===== verification/Startup.v ===== *)
(** * How the example programs start (examples/server/server.go, examples/logger/logger.go)

    The two [main] functions from the flags to the point where Server.v and Logger.v take
    over.  [flag] hands out pointers that are never nil, as wide as a word for the port.
    Parsed addresses, chain addresses and the operating system's answers are parameters. *)
From stdpp Require Import pretty.
From S2P Require Import Prelude GoInts Constants U256 Wire Builder Reader Sequences Codec CoreMessages.
From S2P Require Import MiningMessages MiningCodecs Frame FrameFacts Cipher CipherProps Transport Hashes.
From S2P Require Import Keys KeysProps Handshake HandshakeProps Conn Server Logger HandshakeRace ServerRun LoggerRun.

(** [netip.ParseAddrPort] on a string, and btcd's addresses of the main chain: a
    [btcutil.Address] that is not nil is its encoding. *)
Class Addresses := {
  ParseAddrPort : gostring → option (gostring * u16);
  NewAddressTaproot : list u8 → option gostring;
  DecodeAddress : gostring → option gostring
}.

(** [strconv.Itoa] *)
Definition Itoa (n : Z) : gostring := gostring_of (pretty n).

(** The variables of the package before [main]; [addr] is nil or an address. *)
Definition default_poolhost : gostring := gostring_of "91.98.76.244".
Definition default_poolport : u16 := to_u16 3336.
Definition default_authkey : gostring := gostring_of "9ankJhx4JpKeJd7xHzPVM98kU1WppT45Pbp3LfeKVdyt5bYgBY8".

Section Startup.
Context {ae : AEAD} {fl : GoFloat} {go : GoAlloc} {sha : SHA256} {ec : Secp256k1} {sch : Schnorr}.
Context {b58 : Base58} {net : NetConn} {errs : NetErrors} {addresses : Addresses}.

Definition default_addr : option gostring :=
  NewAddressTaproot
    (hex_DecodeString (gostring_of "8033d13ee81500afe03a9f48ed142b15724816dd9247c9cf55ae447a5b867449")).1.

(** [if p != nil { v = *p }] *)
Definition set_if {A B} (f : A → B) (p : option A) (v : B) : B := from_option f v p.

(** [addr.EncodeAddress()] *)
Definition EncodeAddress (addr : option gostring) : outcome gostring :=
  match addr with Some a => mret a | None => Panic NilDereference end.

(** [netip.MustParseAddrPort(poolhost+":"+strconv.Itoa(int(poolport)))] *)
Definition MustParseAddrPort (host : gostring) (port : u16) : outcome (gostring * u16) :=
  match ParseAddrPort (host ++ gostring_of ":" ++ Itoa (Zmod.unsigned port)) with
  | Some a => mret a
  | None => Panic (ExplicitPanic "netip.ParseAddrPort")
  end.

(** ** The server *)

(** Listening, at an address, or ended with a message.  The certificate is nil if it
    could not be signed. *)
Inductive server_up :=
| ServerExited (msg : string)
| Listening (at_ : gostring * u16) (cert : option SIGNATURE_NOISE_MESSAGE) (s : server).

(** The keys are the random ones; [ListenTCP] answers for an address. *)
Definition server_main (srv : option gostring) (port : option Z) (authKey staticKey : Keypair)
    (ListenTCP : gostring * u16 → error) : outcome server_up :=
  let poolhost := set_if id srv default_poolhost in
  let poolport := set_if to_u16 port default_poolport in
  cert ← server_cert authKey staticKey;
  a ← MustParseAddrPort poolhost poolport;
  match ListenTCP a with
  | Some e => mret (ServerExited e)
  | None => mret (Listening a cert server_start)
  end.

(** ** The client *)

(** The client before its goroutines start, with the two frames it is going to send. *)
Inductive client_up :=
| ClientExited (msg : string)
| Starting (setup openchan : option Frame) (s : logger).

(** [DialTCP] answers for an address. *)
Definition logger_main (srv : option gostring) (port : option Z) (auth chainAddr : option gostring)
    (DialTCP : gostring * u16 → ReadWriter + string) (ephemeral : Keypair) (now : Z) : outcome client_up :=
  let poolhost := set_if id srv default_poolhost in
  let poolport := set_if to_u16 port default_poolport in
  let authkey := set_if id auth default_authkey in
  let addr := match chainAddr with
              | Some ((_ :: _) as a) => DecodeAddress a
              | _ => default_addr
              end in
  encoded ← EncodeAddress addr;
  let setup := setupFrame poolhost poolport in
  let openchan := openchanFrame (to_u32 0) encoded in
  a ← MustParseAddrPort poolhost poolport;
  match DialTCP a with
  | inr e => mret (ClientExited e)
  | inl rawConn =>
      connected ← logger_connect ephemeral rawConn authkey now;
      match connected with
      | Exited e => mret (ClientExited e)
      | Connected conn _ => mret (Starting setup openchan (logger_begin conn))
      end
  end.

(** The flags give pointers: the variables' own values are never used. *)
Lemma server_main_flags srv port authKey staticKey listen cert :
  server_cert authKey staticKey = Ret cert →
  server_main (Some srv) (Some port) authKey staticKey listen =
  match ParseAddrPort (srv ++ gostring_of ":" ++ Itoa (port mod 2 ^ 16)) with
  | None => Panic (ExplicitPanic "netip.ParseAddrPort")
  | Some a => Ret (from_option ServerExited (Listening a cert server_start) (listen a))
  end.
Proof.
  intros E. unfold server_main, MustParseAddrPort. rewrite E. unfold mbind, outcome_bind, mret, outcome_ret.
  cbn [set_if from_option id]. unfold to_u16. rewrite bits.unsigned_of_Z.
  destruct (ParseAddrPort _) as [a|]; [|done]. by destruct (listen a).
Qed.

(** A port flag beyond the range of ports is taken modulo 2^16. *)
Lemma server_main_port srv port authKey staticKey listen :
  server_main srv (Some port) authKey staticKey listen =
  server_main srv (Some (port mod 2 ^ 16)) authKey staticKey listen.
Proof.
  unfold server_main. cbn [set_if from_option].
  assert (to_u16 port = to_u16 (port mod 2 ^ 16)) as <-; [|done].
  apply Zmod.unsigned_inj. unfold to_u16. rewrite !bits.unsigned_of_Z. by rewrite Z.mod_mod.
Qed.

(** An address flag that does not decode leaves [addr] nil: the client panics before it
    connects. *)
Lemma logger_main_bad_address srv port auth a dial ephemeral now :
  a ≠ [] → DecodeAddress a = None →
  logger_main srv port auth (Some a) dial ephemeral now = Panic NilDereference.
Proof. intros Ha E. unfold logger_main. destruct a as [|x a]; [done|]. by rewrite E. Qed.

(** With the flag's own default, the empty string, no certificate is checked; the
    authority key in the source is used by no run. *)
Lemma logger_main_unchecked srv port chainAddr dial ephemeral now up :
  logger_main srv port (Some []) chainAddr dial ephemeral now = Ret up →
  match up with
  | ClientExited e => ∃ a, dial a = inr e ∨ ∃ rw r rw' hs, dial a = inl rw ∧
      PerformHandshakeInitiator ephemeral rw zero_handshake = Ret (r, Some e, rw', hs)
  | Starting _ _ s => lg_main s = MSetup ∧ lg_chanid s = -1 ∧ ∃ a rw send recv hs, dial a = inl rw ∧
      PerformHandshakeInitiator ephemeral rw zero_handshake =
        Ret (Some send, Some recv, None, cn_NetConn (lg_conn s), hs) ∧
      cn_Send (lg_conn s) = send ∧ cn_Recv (lg_conn s) = recv
  end.
Proof.
  unfold logger_main, logger_connect, check_authority, mbind, outcome_bind, mret, outcome_ret.
  cbn [set_if from_option id].
  destruct (EncodeAddress _) as [enc|]; [|done]. destruct (MustParseAddrPort _ _) as [a|]; [|done].
  destruct (dial a) as [rw|e] eqn:Ed; [|intros [= <-]; exists a; by left].
  destruct (PerformHandshakeInitiator _ _ _) as [[[[[send recv] err] rw'] hs]|] eqn:Eh; [|done].
  destruct err as [e|]; [intros [= <-]; exists a; right; by eexists rw, (send, recv), rw', hs|].
  destruct send as [send|], recv as [recv|]; try done. intros [= <-].
  split; [done|]. split; [done|]. exists a, rw. by eexists _, _, hs.
Qed.

End Startup.
