(* ===== verification/Grinder.v ===== *)
(** * The vanity key search (examples/grinder/pubkeygrinder.go)

    Four goroutines draw key pairs until one has a public key whose serialization shows
    a given text behind its first two characters; they send what they find over a
    channel that holds one result to the main goroutine, which takes one, cancels the
    others, prints it and waits for them.  The goroutines and the channel are a step
    relation; the draws are whatever [rand.Read] delivers.  The time taken and the hash
    rate are for display and left out. *)
From stdpp Require Import relations.
From S2P Require Import Prelude GoInts Constants Wire Builder Reader Sequences Codec Hashes Keys KeysProps.

Definition grind_str : gostring := gostring_of "SV2".
Definition maxResults : Z := 1.
Definition grinders : nat := 4.

Record result := {
  res_pubKey : gostring;
  res_privKey : list u8;
  res_auxRand : array 32;
  res_caseNum : u8;
  res_nonce : u64
}.

(** [s[lo:hi]] of a string. *)
Definition str_slice (s : gostring) (lo hi : Z) : outcome gostring :=
  if (0 <=? lo) && (lo <=? hi) && (hi <=? len s) then
    Ret (take (Z.to_nat (hi - lo)) (drop (Z.to_nat lo) s))
  else Panic SliceBoundsOutOfRange.

(** Where a goroutine is, with its counter: at the [select], drawing, sending, gone. *)
Inductive gpc :=
| GSelect (nonce : u64)
| GDraw (nonce : u64)
| GSend (nonce : u64) (r : result)
| GExit.

(** Where the main goroutine is, with the results it has taken: at the receive, with a
    result to append, about to cancel, printing, waiting, over. *)
Inductive mpc :=
| MReceive (resColl : list result)
| MAppend (resColl : list result) (res : result)
| MCancel (resColl : list result)
| MPrint (resColl : list result)
| MWait
| MDone.

Record gstate := {
  gs_grinders : list gpc;
  gs_chan : list result;      (* the buffered results, oldest first *)
  gs_cancelled : bool;        (* [ctx] is done *)
  gs_main : mpc
}.

Definition set_grinder (i : nat) (p : gpc) (s : gstate) : gstate :=
  {| gs_grinders := <[i := p]> (gs_grinders s); gs_chan := gs_chan s;
     gs_cancelled := gs_cancelled s; gs_main := gs_main s |}.
Definition set_chan (c : list result) (s : gstate) : gstate :=
  {| gs_grinders := gs_grinders s; gs_chan := c; gs_cancelled := gs_cancelled s; gs_main := gs_main s |}.
Definition set_main (m : mpc) (s : gstate) : gstate :=
  {| gs_grinders := gs_grinders s; gs_chan := gs_chan s; gs_cancelled := gs_cancelled s; gs_main := m |}.
Definition cancel (s : gstate) : gstate :=
  {| gs_grinders := gs_grinders s; gs_chan := gs_chan s; gs_cancelled := true; gs_main := gs_main s |}.

Definition grind_start : gstate :=
  {| gs_grinders := replicate grinders (GSelect (to_u64 0)); gs_chan := []; gs_cancelled := false;
     gs_main := MReceive [] |}.

Definition next_nonce (n : u64) : u64 := Zmod.add n (to_u64 1).

Section Grinder.
Context {ec : Secp256k1} {b58 : Base58}.

(** A key pair drawn: is it a result? *)
Definition grind_key (str : gostring) (cand : PrivateKey * EllswiftPubkey * array 32 * u8) (nonce : u64) :
    outcome (option result) :=
  let '(key, _, auxrand, casenum) := cand in
  let enc := SerializeAuthorityKey (pub_X (priv_PubKey key)) in
  s ← str_slice enc 2 (2 + len str);
  mret (if decide (s = str) then
          Some {| res_pubKey := enc; res_privKey := arr_bytes (priv_Serialize key);
                  res_auxRand := auxrand; res_caseNum := casenum; res_nonce := nonce |}
        else None).

(** What the main goroutine prints of a result: the key pair and its encoding; the
    error of [NewKeypairFrom] is dropped. *)
Definition print_result {go : GoAlloc} (res : result) : outcome (option Keypair * bslice) :=
  privKey ← slice_to_array 32 (Some (res_privKey res));
  let '(kp, _) := NewKeypairFrom privKey (res_auxRand res) (res_caseNum res) in
  match kp with
  | None => Panic NilDereference
  | Some kp =>
      '(encoded, _) ← Keypair_Encode kp;
      mret (Some kp, encoded)
  end.

(** [wg.Wait()] returns. *)
Definition all_gone (s : gstate) : Prop := Forall (λ p, p = GExit) (gs_grinders s).

(** One step: of a goroutine, or of the main one.  A send waits for room in the channel.
    (A panic would end the process; it takes an encoding shorter than the text.) *)
Inductive grind_step : gstate → gstate → Prop :=
| step_done s i n :
    gs_grinders s !! i = Some (GSelect n) → gs_cancelled s = true →
    grind_step s (set_grinder i GExit s)
| step_default s i n :
    gs_grinders s !! i = Some (GSelect n) → gs_cancelled s = false →
    grind_step s (set_grinder i (GDraw n) s)
| step_miss s i n r draws cand :
    gs_grinders s !! i = Some (GDraw n) → EllswiftCreate r draws = Some cand →
    grind_key grind_str cand n = Ret None →
    grind_step s (set_grinder i (GSelect (next_nonce n)) s)
| step_hit s i n r draws cand res :
    gs_grinders s !! i = Some (GDraw n) → EllswiftCreate r draws = Some cand →
    grind_key grind_str cand n = Ret (Some res) →
    grind_step s (set_grinder i (GSend n res) s)
| step_send s i n res :
    gs_grinders s !! i = Some (GSend n res) → len (gs_chan s) < maxResults →
    grind_step s (set_grinder i (GSelect (next_nonce n)) (set_chan (gs_chan s ++ [res]) s))
| step_receive s coll res rest :
    gs_main s = MReceive coll → gs_chan s = res :: rest →
    grind_step s (set_main (MAppend coll res) (set_chan rest s))
| step_append s coll res :
    gs_main s = MAppend coll res →
    grind_step s (let coll := coll ++ [res] in
      set_main (if len coll =? maxResults then MCancel coll else MReceive coll) s)
| step_cancel s coll :
    gs_main s = MCancel coll → grind_step s (set_main (MPrint coll) (cancel s))
| step_print s coll :
    gs_main s = MPrint coll → grind_step s (set_main MWait s)
| step_wait s :
    gs_main s = MWait → all_gone s → grind_step s (set_main MDone s).

(** ** What a result is worth *)

(** A result comes from a draw, and shows the text. *)
Definition genuine (res : result) : Prop :=
  ∃ r draws cand n, EllswiftCreate r draws = Some cand ∧ grind_key grind_str cand n = Ret (Some res).

Lemma genuine_keypair {claws : Secp256k1Laws} {go : GoAlloc} res : genuine res →
  str_slice (res_pubKey res) 2 5 = Ret grind_str ∧
  ∃ kp encoded, print_result res = Ret (Some kp, encoded) ∧
    SerializeAuthorityKey <$> Keypair_PublicKey kp = Ret (res_pubKey res).
Proof.
  intros (r & draws & [[[key ell] aux] c] & n & E & Eg). unfold grind_key in Eg.
  unfold mbind, outcome_bind in Eg. destruct (str_slice _ _ _) as [s|] eqn:Es; [|done].
  case_decide as Eq; [|done]. injection Eg as <-. subst s. split; [exact Es|].
  unfold EllswiftCreate in E. destruct (XElligatorSwift draws _) as [[[[u t] b] c']|] eqn:Ex; [|done].
  simpl in E. injection E as <- <- <- <-. apply XElligatorSwift_found in Ex as (-> & Hc & Et).
  unfold print_result. cbn [res_privKey res_auxRand res_caseNum res_pubKey].
  rewrite slice_to_array_exact by apply length_arr. unfold mbind at 1, outcome_bind at 1.
  simpl sbytes. rewrite to_array_arr_bytes. unfold NewKeypairFrom.
  rewrite (EllswiftRecreate_found _ b c' t); [|done|by rewrite priv_roundtrip].
  rewrite !priv_roundtrip.
  change {| kp_Private := _ |} with (make_keypair (PrivKeyFromBytes r) b c' t).
  rewrite Keypair_Encode_made. unfold mbind, outcome_bind. do 2 eexists. split; [reflexivity|].
  unfold Keypair_PublicKey, PublicKeyBytes, make_keypair. cbn [kp_publicX].
  rewrite slice_to_array_exact by apply length_arr. simpl. by rewrite to_array_arr_bytes.
Qed.
(** ** The invariant *)

(** The results a goroutine, the channel and the main goroutine hold. *)
Definition sent_by (p : gpc) : list result := match p with GSend _ r => [r] | _ => [] end.
Definition taken_by (m : mpc) : list result :=
  match m with MReceive c | MCancel c | MPrint c => c | MAppend c r => c ++ [r] | _ => [] end.
Definition held (s : gstate) : list result :=
  concat (map sent_by (gs_grinders s)) ++ gs_chan s ++ taken_by (gs_main s).

(** What the main goroutine has taken, and that it is the one to cancel. *)
Definition main_ok (s : gstate) : Prop :=
  match gs_main s with
  | MReceive c => c = [] ∧ gs_cancelled s = false
  | MAppend c _ => c = [] ∧ gs_cancelled s = false
  | MCancel c => (∃ res, c = [res]) ∧ gs_cancelled s = false
  | MPrint c => (∃ res, c = [res]) ∧ gs_cancelled s = true
  | _ => gs_cancelled s = true
  end.

Record grind_inv (s : gstate) : Prop := {
  inv_count : length (gs_grinders s) = grinders;
  inv_room : len (gs_chan s) ≤ maxResults;
  inv_main : main_ok s;
  inv_genuine : ∀ res, res ∈ held s → genuine res
}.

Lemma held_set_grinder i p s res : res ∈ held (set_grinder i p s) → res ∈ sent_by p ∨ res ∈ held s.
Proof.
  unfold held. simpl. rewrite !elem_of_app. intros [H|H]; [|by right; right]. revert H.
  generalize (gs_grinders s) as l. intros l H. apply list_elem_of_In, in_concat in H as (x & Hx & Hin).
  apply in_map_iff in Hx as (q & <- & Hq%list_elem_of_In). apply list_elem_of_In in Hin.
  apply list_elem_of_lookup in Hq as [j Hj]. destruct (decide (i = j)) as [->|Hne].
  - destruct (decide (j < length l)%nat) as [Hl|Hl].
    + rewrite list_lookup_insert_eq in Hj by done. injection Hj as <-. by left.
    + rewrite list_insert_ge in Hj by lia. right. left. apply list_elem_of_In, in_concat.
      eexists. split; [apply in_map_iff; exists q; split; [done|]|by apply list_elem_of_In].
      apply list_elem_of_In, list_elem_of_lookup. eauto.
  - rewrite list_lookup_insert_ne in Hj by done. right. left. apply list_elem_of_In, in_concat.
    eexists. split; [apply in_map_iff; exists q; split; [done|]|by apply list_elem_of_In].
    apply list_elem_of_In, list_elem_of_lookup. eauto.
Qed.

Lemma held_sent i n res s : gs_grinders s !! i = Some (GSend n res) → res ∈ held s.
Proof.
  intros Hi. unfold held. rewrite elem_of_app. left. apply list_elem_of_In, in_concat. exists [res].
  split; [|by left]. apply in_map_iff. exists (GSend n res). split; [done|].
  by apply list_elem_of_In, list_elem_of_lookup_2 with i.
Qed.

Lemma inv_set_grinder i p s : grind_inv s → (∀ res, res ∈ sent_by p → genuine res) →
  grind_inv (set_grinder i p s).
Proof.
  intros [H1 H2 H3 H4] Hp. split; [by simpl; rewrite length_insert|done|done|].
  intros res [Hr|Hr]%held_set_grinder; auto.
Qed.

Lemma inv_step s s' : grind_inv s → grind_step s s' → grind_inv s'.
Proof.
  intros Hinv Hstep. destruct Hstep as [s i n _ _|s i n _ _|s i n r draws cand _ E Eg
    |s i n r draws cand res _ E Eg|s i n res Hi Hroom|s coll res rest Hm Hc|s coll res Hm|s coll Hm|s coll Hm|s Hm Hg].
  1-3: apply inv_set_grinder; [done|]; intros res Hr; by inversion Hr.
  - apply inv_set_grinder; [done|]. intros res' ->%list_elem_of_singleton. by exists r, draws, cand, n.
  - pose proof (held_sent i n res s Hi) as Hres. apply inv_set_grinder; [|intros r Hr; by inversion Hr].
    destruct Hinv as [H1 H2 H3 H4]. split; [done| |done|].
    + simpl. rewrite len_app. unfold maxResults in *. change (len [res]) with 1. lia.
    + intros r. unfold held in *. simpl. rewrite !elem_of_app. intros [Hr|[[Hr|Hr]|Hr]].
      * apply H4. rewrite elem_of_app. by left.
      * apply H4. rewrite !elem_of_app. right. by left.
      * apply list_elem_of_singleton in Hr as ->. by apply H4.
      * apply H4. rewrite !elem_of_app. right. by right.
  - destruct Hinv as [H1 H2 H3 H4]. unfold main_ok in H3. rewrite Hm in H3. destruct H3 as [-> H3].
    split; [done| |done|].
    + simpl. rewrite Hc, len_cons in H2. unfold maxResults in *. pose proof (len_nonneg rest). lia.
    + intros r Hr. apply H4. unfold held in *. simpl in *. rewrite Hc, Hm. simpl.
      rewrite !elem_of_app in *. rewrite elem_of_cons. simpl in *. rewrite app_nil_r, <- list_elem_of_singleton. tauto.
  - destruct Hinv as [H1 H2 H3 H4]. unfold main_ok in H3. rewrite Hm in H3. destruct H3 as [-> H3].
    split; [done|done|split; [by exists res|done]|]. intros r Hr. apply H4. unfold held in *. by rewrite Hm.
  - destruct Hinv as [H1 H2 H3 H4]. unfold main_ok in H3. rewrite Hm in H3. destruct H3 as [H3 _].
    split; [done|done|done|]. intros r Hr. apply H4. unfold held in *. by rewrite Hm.
  - destruct Hinv as [H1 H2 H3 H4]. unfold main_ok in H3. rewrite Hm in H3. destruct H3 as [_ H3].
    split; [done|done|done|]. intros r Hr. apply H4. unfold held in *. simpl in Hr.
    rewrite !elem_of_app in *. destruct Hr as [Hr|[Hr|Hr]]; [by left|by right; left|by inversion Hr].
  - destruct Hinv as [H1 H2 H3 H4]. unfold main_ok in H3. rewrite Hm in H3.
    split; [done|done|done|]. intros r Hr. apply H4. unfold held in *. rewrite Hm. exact Hr.
Qed.

Lemma inv_reachable s : rtc grind_step grind_start s → grind_inv s.
Proof.
  intros H. assert (grind_inv grind_start) as H0.
  { split; [done|done|done|]. intros res Hr. by inversion Hr. }
  induction H as [|s s1 s2 Hs _ IH]; [done|]. apply IH. by apply (inv_step s).
Qed.

(** C36: what the search prints is what it searched for.  In every reachable state,
    however the goroutines interleave, the channel holds at most one result, and the
    search is cancelled exactly when the main goroutine is past its [cancel()]; before,
    it has taken at most one result, and the others can go on and send another.  What
    it prints is that one, which shows the text, and is regenerated from what is printed
    of it: [NewKeypairFrom] of the private key, the random bytes and the case number
    gives a key pair, which encodes, and whose public key serializes to the string
    found. *)
Theorem grinder_prints_genuine {claws : Secp256k1Laws} {go : GoAlloc} s
    (Hs : rtc grind_step grind_start s) :
  len (gs_chan s) ≤ maxResults ∧
  (gs_cancelled s = true ↔ match gs_main s with MPrint _ | MWait | MDone => True | _ => False end) ∧
  (gs_cancelled s = false → len (taken_by (gs_main s)) ≤ maxResults) ∧
  ∀ coll, gs_main s = MPrint coll → ∃ res kp encoded, coll = [res] ∧
    str_slice (res_pubKey res) 2 5 = Ret grind_str ∧
    print_result res = Ret (Some kp, encoded) ∧
    SerializeAuthorityKey <$> Keypair_PublicKey kp = Ret (res_pubKey res).
Proof.
  apply inv_reachable in Hs as [_ Hroom Hm Hg]. split; [done|]. unfold main_ok in Hm. split; [|split].
  - destruct (gs_main s) as [c|c r|c|c| |]; [destruct Hm as [_ ->]..| |]; done.
  - intros Hc. destruct (gs_main s) as [c|c r|c|c| |]; [| | |by rewrite (proj2 Hm) in Hc|congruence..].
    + by destruct Hm as [-> _].
    + by destruct Hm as [-> _].
    + by destruct Hm as [[r ->] _].
  - intros coll E. rewrite E in Hm. destruct Hm as [[res ->] _].
    destruct (genuine_keypair res) as (Hsl & kp & encoded & Hp & Hk).
    { apply Hg. unfold held. rewrite E. simpl. rewrite !elem_of_app. right. right. by left. }
    by exists res, kp, encoded.
Qed.

(** ** After the cancellation *)

Definition weight (p : gpc) : nat :=
  match p with GDraw _ => 3 | GSend _ _ => 2 | GSelect _ => 1 | GExit => 0 end.
Definition main_weight (m : mpc) : nat :=
  match m with MReceive _ => 5 | MAppend _ _ => 4 | MCancel _ => 3 | MPrint _ => 2 | MWait => 1 | MDone => 0 end.
(** How many steps can be left. *)
Definition steps_left (s : gstate) : nat :=
  sum_list_with weight (gs_grinders s) + main_weight (gs_main s).

Lemma steps_left_set i p q s : gs_grinders s !! i = Some q → (weight p < weight q)%nat →
  (steps_left (set_grinder i p s) < steps_left s)%nat.
Proof.
  intros Hi Hw. unfold steps_left, set_grinder. simpl. pose proof (sum_list_with_insert weight i p q _ Hi). lia.
Qed.

Lemma cancelled_step s s' : grind_inv s → gs_cancelled s = true → grind_step s s' →
  gs_cancelled s' = true ∧ (steps_left s' < steps_left s)%nat.
Proof.
  intros Hinv Hc Hstep. destruct Hstep as [s i n Hi _|s i n _ Hf|s i n r draws cand Hi _ _
    |s i n r draws cand res Hi _ _|s i n res Hi Hroom|s coll res rest Hm _|s coll res Hm|s coll Hm|s coll Hm|s Hm Hg].
  - split; [done|]. apply (steps_left_set i GExit _ s Hi). simpl. lia.
  - congruence.
  - split; [done|]. apply (steps_left_set i _ _ s Hi). simpl. lia.
  - split; [done|]. apply (steps_left_set i _ _ s Hi). simpl. lia.
  - split; [done|].
    apply (steps_left_set i (GSelect (next_nonce n)) (GSend n res) (set_chan (gs_chan s ++ [res]) s) Hi). simpl. lia.
  - destruct Hinv as [_ _ Hmain _]. unfold main_ok in Hmain. rewrite Hm in Hmain.
    destruct Hmain as [_ Hf]. congruence.
  - destruct Hinv as [_ _ Hmain _]. unfold main_ok in Hmain. rewrite Hm in Hmain.
    destruct Hmain as [_ Hf]. congruence.
  - destruct Hinv as [_ _ Hmain _]. unfold main_ok in Hmain. rewrite Hm in Hmain.
    destruct Hmain as [_ Hf]. congruence.
  - split; [done|]. unfold steps_left. simpl. rewrite Hm. simpl. lia.
  - split; [done|]. unfold steps_left. simpl. rewrite Hm. simpl. lia.
Qed.

Lemma cancelled_nsteps n s s' : grind_inv s → gs_cancelled s = true → nsteps grind_step n s s' →
  grind_inv s' ∧ gs_cancelled s' = true ∧ (n + steps_left s' ≤ steps_left s)%nat.
Proof.
  intros Hinv Hc Hn.
  destruct (nsteps_measured grind_step (λ s, grind_inv s ∧ gs_cancelled s = true) steps_left)
    with (n := n) (x := s) (y := s') as [[? ?] ?]; [|done..].
  intros x y [Hx Hcx] Hstep. destruct (cancelled_step x y Hx Hcx Hstep).
  split; [split; [by apply (inv_step x)|done]|done].
Qed.

Lemma sum_weights l : (sum_list_with weight l ≤ 3 * length l)%nat.
Proof. induction l as [|p l IH]; simpl; [lia|]. destruct p; simpl; lia. Qed.

(** Where nothing can happen any more. *)
Lemma stuck_state s : grind_inv s → gs_cancelled s = true →
  (∃ r draws cand, EllswiftCreate r draws = Some cand ∧ ∀ n, ∃ o, grind_key grind_str cand n = Ret o) →
  (∀ s', ¬ grind_step s s') →
  gs_main s = MDone ∨
  gs_main s = MWait ∧ len (gs_chan s) = maxResults ∧ ∃ i n res, gs_grinders s !! i = Some (GSend n res).
Proof.
  intros [_ Hroom Hmain _] Hc (r & draws & cand & E & Eg) Hstuck.
  assert (∀ i p, gs_grinders s !! i = Some p → p = GExit ∨ ∃ n res, p = GSend n res) as Hp.
  { intros i p Hi. destruct p as [n|n|n res|]; [| |by right; eauto|by left].
    - destruct (Hstuck _ (step_done s i n Hi Hc)).
    - destruct (Eg n) as [[res|] Eo].
      + destruct (Hstuck _ (step_hit s i n r draws cand res Hi E Eo)).
      + destruct (Hstuck _ (step_miss s i n r draws cand Hi E Eo)). }
  unfold main_ok in Hmain. destruct (gs_main s) as [c|c r1|c|c| |] eqn:Hm; [destruct Hmain; congruence..| | |by left].
  { destruct (Hstuck _ (step_print s c Hm)). }
  right. split; [done|].
  destruct (decide (Exists (λ p, weight p ≠ 0%nat) (gs_grinders s))) as [Hex|Hex].
  - apply Exists_exists in Hex as (p & [i Hi]%list_elem_of_lookup & Hne).
    destruct (Hp i p Hi) as [->|(n & res & ->)]; [done|]. split; [|by exists i, n, res].
    unfold maxResults in *. destruct (decide (len (gs_chan s) < 1)) as [Hl|Hl]; [|lia].
    destruct (Hstuck _ (step_send s i n res Hi Hl)).
  - assert (all_gone s) as Hg.
    { apply Forall_forall. intros p [i Hi]%list_elem_of_lookup.
      destruct (Hp i p Hi) as [->|(n & res & ->)]; [done|]. destruct Hex. apply Exists_exists.
      exists (GSend n res). split; [by apply list_elem_of_lookup_2 with i|done]. }
    destruct (Hstuck _ (step_wait s Hm Hg)).
Qed.

(** Once it has a result the search ends soon, one way or another.  From any
    reachable state after the cancellation at most fourteen more steps are possible; and
    where none is, if a key pair can be drawn at all, either the program is over, or it
    is deadlocked: the main goroutine waits for the others, one of which waits for room
    in the channel, which is full. *)
Theorem grinder_after_cancel s
    (Hs : rtc grind_step grind_start s) (Hc : gs_cancelled s = true)
    (Hdraw : ∃ r draws cand, EllswiftCreate r draws = Some cand ∧
       ∀ n, ∃ o, grind_key grind_str cand n = Ret o) :
  (∀ n s', nsteps grind_step n s s' → (n ≤ 14)%nat) ∧
  ∀ s', rtc grind_step s s' → (∀ s'', ¬ grind_step s' s'') →
    gs_main s' = MDone ∨
    gs_main s' = MWait ∧ len (gs_chan s') = maxResults ∧
      ∃ i n res, gs_grinders s' !! i = Some (GSend n res).
Proof.
  apply inv_reachable in Hs. split.
  - intros n s' Hn. destruct (cancelled_nsteps n s s' Hs Hc Hn) as (_ & _ & Hl).
    destruct Hs as [Hcount _ Hmain _]. unfold steps_left in Hl.
    pose proof (sum_weights (gs_grinders s)) as Hw. rewrite Hcount in Hw. unfold grinders in Hw.
    assert (main_weight (gs_main s) ≤ 2)%nat; [|lia].
    unfold main_ok in Hmain. destruct (gs_main s); simpl; try lia; destruct Hmain; congruence.
  - intros s' [n Hn]%rtc_nsteps. destruct (cancelled_nsteps n s s' Hs Hc Hn) as (Hinv & Hc' & _).
    by apply stuck_state.
Qed.

(** ** The two ends *)

(** A key pair that shows the text can be drawn. *)
Definition can_hit (r : array 32) (draws : list (array 32 * u8)) (res : u64 → result) : Prop :=
  ∃ cand, EllswiftCreate r draws = Some cand ∧ ∀ n, grind_key grind_str cand n = Ret (Some (res n)).

Lemma draw_and_hit r draws res s i n : can_hit r draws res →
  gs_grinders s !! i = Some (GSelect n) → gs_cancelled s = false →
  rtc grind_step s (set_grinder i (GSend n (res n)) s).
Proof.
  intros (cand & E & Eg) Hi Hc. eapply rtc_l; [by apply step_default|]. eapply rtc_l; [|apply rtc_refl].
  replace (set_grinder i (GSend n (res n)) s) with
    (set_grinder i (GSend n (res n)) (set_grinder i (GDraw n) s)).
  - eapply step_hit; [|exact E|apply Eg]. simpl. apply list_lookup_insert_eq. by eapply lookup_lt_Some.
  - unfold set_grinder. simpl. by rewrite list_insert_insert_eq.
Qed.

(** C37: both ends happen.  If the text can be found at all, there is a run in which the
    program finishes, and a run in which it does not: three goroutines find a key, one
    result is taken, one fills the channel, the third waits for room for ever, and the
    main goroutine, its result printed, waits for the third. *)
Theorem grinder_finishes_or_hangs r draws res (Hhit : can_hit r draws res) :
  (∃ s, rtc grind_step grind_start s ∧ gs_main s = MDone) ∧
  ∃ s, rtc grind_step grind_start s ∧ gs_main s = MWait ∧ gs_chan s = [res (to_u64 0)] ∧
    gs_grinders s = [GExit; GExit; GSend (to_u64 0) (res (to_u64 0)); GExit] ∧
    ∀ s', ¬ grind_step s s'.
Proof.
  set (z := to_u64 0). set (x := res z). split.
  - exists {| gs_grinders := replicate 4 GExit; gs_chan := []; gs_cancelled := true; gs_main := MDone |}.
    split; [|done]. etrans; [apply (draw_and_hit r draws res grind_start 0 z); done|].
    eapply rtc_l; [apply (step_send _ 0 z x); done|]. eapply rtc_l; [by eapply (step_receive _ [] x [])|].
    simpl. eapply rtc_l; [by eapply step_append|]. simpl. eapply rtc_l; [by eapply step_cancel|].
    simpl. eapply rtc_l; [by eapply (step_done _ 0)|]. eapply rtc_l; [by eapply (step_done _ 1)|].
    eapply rtc_l; [by eapply (step_done _ 2)|]. eapply rtc_l; [by eapply (step_done _ 3)|].
    eapply rtc_l; [by eapply step_print|]. eapply rtc_l; [eapply step_wait; [done|by repeat constructor]|].
    apply rtc_refl.
  - exists {| gs_grinders := [GExit; GExit; GSend z x; GExit]; gs_chan := [x]; gs_cancelled := true;
              gs_main := MWait |}.
    split; [|split_and!; [done..|]].
    + etrans; [apply (draw_and_hit r draws res grind_start 0 z); done|].
      etrans; [apply (draw_and_hit r draws res _ 1 z); done|].
      etrans; [apply (draw_and_hit r draws res _ 2 z); done|].
      eapply rtc_l; [apply (step_send _ 0 z x); done|]. eapply rtc_l; [by eapply (step_receive _ [] x [])|].
    simpl. eapply rtc_l; [by eapply step_append|]. simpl. eapply rtc_l; [by eapply step_cancel|].
      eapply rtc_l; [apply (step_send _ 1 z x); done|].
      simpl. eapply rtc_l; [by eapply (step_done _ 0)|]. eapply rtc_l; [by eapply (step_done _ 1)|].
      eapply rtc_l; [by eapply (step_done _ 3)|]. eapply rtc_l; [by eapply step_print|]. apply rtc_refl.
    + intros s' Hs. inversion Hs as [? i n Hi|? i n Hi|? i n ? ? ? Hi|? i n ? ? ? ? Hi|? i n ? Hi Hroom
        |? ? ? ? Hm|? ? ? Hm|? ? Hm|? ? Hm|? Hm Hg]; subst; simpl in *; try done.
      all: try match goal with H : _ !! ?j = Some _ |- _ => by do 4 (destruct j as [|j]; [done|]) end.
      unfold all_gone in Hg. simpl in Hg. rewrite !Forall_cons in Hg. by destruct Hg as (_ & _ & ? & _).
Qed.
End Grinder.

(** ** Witnesses: with the toy curve a public key is its private key *)

Definition vanity_secret : array 32 := to_array 32 grind_str.
Definition vanity_result (n : u64) : result :=
  {| res_pubKey := SerializeAuthorityKey (b58 := toy_base58) vanity_secret;
     res_privKey := arr_bytes vanity_secret; res_auxRand := to_array 32 [to_u8 1];
     res_caseNum := to_u8 1; res_nonce := n |}.

Lemma vanity_hit : can_hit (ec := toy_curve) (b58 := toy_base58) vanity_secret toy_draws vanity_result.
Proof. eexists. split; [vm_compute; reflexivity|]. intros n. vm_compute. reflexivity. Qed.

Lemma grinder_finishes_or_hangs_witness :
  ∃ s, rtc (grind_step (ec := toy_curve) (b58 := toy_base58)) grind_start s ∧ gs_main s = MWait ∧
    ∀ s', ¬ grind_step (ec := toy_curve) (b58 := toy_base58) s s'.
Proof.
  destruct (grinder_finishes_or_hangs (ec := toy_curve) (b58 := toy_base58) vanity_secret toy_draws
    vanity_result vanity_hit) as [_ (s & Hs & Hm & _ & _ & Hn)].
  exists s. split; [exact Hs|]. split; [exact Hm|exact Hn].
Defined.

(** A result taken, in the run of one goroutine. *)
Definition vanity_state : gstate :=
  {| gs_grinders := [GSelect (next_nonce (to_u64 0)); GSelect (to_u64 0); GSelect (to_u64 0); GSelect (to_u64 0)];
     gs_chan := []; gs_cancelled := true; gs_main := MPrint [vanity_result (to_u64 0)] |}.

Lemma vanity_reached : rtc (grind_step (ec := toy_curve) (b58 := toy_base58)) grind_start vanity_state.
Proof.
  etrans; [apply (draw_and_hit (ec := toy_curve) (b58 := toy_base58) vanity_secret toy_draws
    vanity_result grind_start 0 (to_u64 0)); [exact vanity_hit|done|done]|].
  eapply rtc_l; [by eapply (step_send _ 0)|]. eapply rtc_l; [by eapply (step_receive _ [])|].
  eapply rtc_l; [by eapply step_append|]. eapply rtc_l; [by eapply step_cancel|].
  apply rtc_refl.
Qed.

Lemma grinder_prints_genuine_witness : ∃ res, gs_main vanity_state = MPrint [res] ∧
  str_slice (res_pubKey res) 2 5 = Ret grind_str.
Proof.
  destruct (grinder_prints_genuine (ec := toy_curve) (b58 := toy_base58) (go := exact_alloc)
    (claws := toy_curve_laws) vanity_state vanity_reached) as (_ & _ & _ & H).
  destruct (H _ eq_refl) as (res & kp & encoded & E & Hs & _).
  exists res. split; [rewrite <- E; reflexivity|exact Hs].
Defined.

Lemma grinder_after_cancel_witness : ∃ bound : nat, bound = 14%nat ∧
  ∀ n s', nsteps (grind_step (ec := toy_curve) (b58 := toy_base58)) n vanity_state s' → (n ≤ bound)%nat.
Proof.
  exists 14%nat. split; [reflexivity|].
  refine (proj1 (grinder_after_cancel (ec := toy_curve) (b58 := toy_base58) vanity_state vanity_reached
    eq_refl _)).
  destruct vanity_hit as (cand & E & Eg). exists vanity_secret, toy_draws, cand. split; [exact E|].
  intros n. exists (Some (vanity_result n)). exact (Eg n).
Defined.
