(* ===== verification/NoiseTests.v ===== *)
(** * The tests with random keys (noise_test.go, ellswift_test.go)

    Each test is a function of what it draws, which follows the test's steps and returns
    whether it passes.  A [t.Fatal] or a [t.Error] is a failure, and what a test still does
    after a [t.Error] is left out, as is logging.
    Then: for which draws the tests pass, and what their passing does not show. *)
From S2P Require Import Prelude GoInts Constants Wire Builder Reader Sequences Codec CoreMessages MiningMessages Frame FrameFacts.
From S2P Require Import Cipher CipherProps Transport Hashes Keys KeysProps Handshake HandshakeProps Logger.

(** [if !b { t.Fatal(..) }] *)
Definition require (b : bool) (k : outcome bool) : outcome bool := if b then k else mret false.
Definition ok (err : error) : bool := bool_decide (err = None).

Section Tests.
Context {ae : AEAD} {fl : GoFloat} {go : GoAlloc} {sha : SHA256} {ec : Secp256k1} {sch : Schnorr}.

(** [Keypair{}] *)
Definition zero_keypair : Keypair :=
  {| kp_Private := None; kp_Public := None; kp_publicX := []; kp_publicEllswift := zero_array 64;
     kp_auxRand := zero_array 32; kp_caseNum := to_u8 0 |}.

(** The new key pair is the argument. *)
Definition TestKeypairEncDec (kp : Keypair) : outcome bool :=
  '(encoded, err) ← Keypair_Encode kp;
  require (ok err) (
  '(decoded, _) ← Keypair_Decode zero_keypair encoded;
  require (bool_decide (PublicKeyBytes decoded = PublicKeyBytes kp)) (
  mret (bool_decide (SerializeEllswiftBytes decoded = SerializeEllswiftBytes kp)))).

(** [key.Key.Bytes()] and [key.Serialize()] are the same bytes. *)
Definition TestEllswiftDeterminism (r : array 32) (draws : list (array 32 * u8)) : option bool :=
  '(key1, pubkey1, auxRand, caseNum) ← EllswiftCreate r draws;
  match EllswiftRecreateFromBytes (priv_Serialize key1) auxRand caseNum with
  | (Some key2, pubkey2, None) =>
      match EllswiftRecreateFromBytes (priv_Serialize key2) auxRand caseNum with
      | (Some key3, pubkey3, None) =>
          Some (bool_decide (arr_bytes pubkey1 = arr_bytes pubkey2) &&
                bool_decide (arr_bytes pubkey1 = arr_bytes pubkey3) &&
                bool_decide (arr_bytes (priv_Serialize key1) = arr_bytes (priv_Serialize key2)) &&
                bool_decide (arr_bytes (priv_Serialize key1) = arr_bytes (priv_Serialize key3)))
      | _ => Some false
      end
  | _ => Some false
  end.

(** [authority.Private] of a key pair just made. *)
Definition private_of (kp : Keypair) : outcome PrivateKey :=
  match kp_Private kp with Some k => mret k | None => Panic NilDereference end.

(** The clock is read when the certificate is made and at each verification. *)
Definition TestCertVerification (authority static badKey : Keypair) (now now1 now2 : Z) : outcome bool :=
  k ← private_of authority;
  pub ← Keypair_PublicKey static;
  let '(cert, err) := NewSignedCertificate k pub (to_u32 20) (Zmod.add (to_u32 now) (to_u32 3600)) in
  require (ok err) (
  a ← Keypair_PublicKey authority;
  '(good, err) ← VerifyServerCertificate now1 cert a pub;
  require (ok err) (require good (
  b ← Keypair_PublicKey badKey;
  '(bad, err) ← VerifyServerCertificate now2 cert b pub;
  require (ok err) (mret (negb bad))))).

Definition sneefy : list u8 := gostring_of "/sneefy snoofy/".

(** The last part, with no key, ten times. *)
Fixpoint passthrough_turns (k : nat) (plaintext : list u8) (enc : CipherState) : outcome bool :=
  match k with
  | O => mret true
  | S k =>
      '(ciphertext, _, enc) ← Encrypt plaintext enc;
      '(decrypted, err, enc) ← Decrypt (sbytes ciphertext) enc;
      require (ok err) (require (bool_decide (sbytes decrypted = plaintext)) (passthrough_turns k plaintext enc))
  end.

Definition TestCipherState (key : array 32) : outcome bool :=
  let enc := (InitializeKey key zero_cipher).1 in
  let dec := (InitializeKey key zero_cipher).1 in
  let plaintext := sneefy in
  '(ciphertext, _, enc) ← Encrypt plaintext enc;
  require (len (sbytes ciphertext) =? len plaintext + MacLen) (
  require (negb (bool_decide (take (length plaintext) (sbytes ciphertext) = plaintext))) (
  '(decrypted, err, dec) ← Decrypt (sbytes ciphertext) dec;
  require (ok err) (require (bool_decide (sbytes decrypted = plaintext)) (
  (* fail with wrong key *)
  let dec := (InitializeKey (zero_array 32) dec).1 in
  '(ciphertext, _, enc) ← Encrypt plaintext enc;
  '(decrypted, err, dec) ← Decrypt (sbytes ciphertext) dec;
  require (negb (ok err)) (require (negb (bool_decide (sbytes decrypted = plaintext))) (
  (* fail with wrong ad *)
  let dec := (InitializeKey key dec).1 in
  '(ciphertext, _, enc) ← EncryptWithAd [] plaintext enc;
  '(decrypted, err, dec) ← DecryptWithAd (gostring_of "miZmatX") (sbytes ciphertext) dec;
  require (negb (ok err)) (require (negb (bool_decide (sbytes decrypted = plaintext))) (
  (* nonce check *)
  '(ciphertexta, _, enc) ← Encrypt plaintext enc;
  '(ciphertextb, _, enc) ← Encrypt plaintext enc;
  require (negb (bool_decide (sbytes ciphertexta = sbytes ciphertextb))) (
  (* plaintext passthrough *)
  let enc := zero_cipher in
  '(passthrough, _, enc) ← Encrypt plaintext enc;
  '(passthrough2, _, enc) ← Decrypt plaintext enc;
  require (bool_decide (sbytes passthrough = plaintext)) (
  require (bool_decide (sbytes passthrough = sbytes passthrough2)) (
  passthrough_turns 10 plaintext enc))))))))))).

(** *** The handshake *)

Definition test_setupmsg : SetupConnection :=
  {| sc_Protocol := MiningProtocol;
     sc_MinVersion := to_u16 ProtocolVersion;
     sc_MaxVersion := to_u16 ProtocolVersion;
     sc_Flags := RequiresStandardJobsFlag;
     sc_EndpointPort := to_u16 1222;
     sc_EndpointHost := gostring_of "hosty";
     sc_DeviceVendor := gostring_of "0xf0xx0";
     sc_DeviceHardwareVersion := gostring_of "maybe";
     sc_DeviceFirmware := gostring_of "go-sv2-test";
     sc_DeviceID := gostring_of "bluuchuu" |}.

Definition pogolo : list u8 := gostring_of "/pogolo/".

(** One message from [src] to [dst]; the rest of the test has the states after it. *)
Definition test_message (data : list u8) (src dst : CipherState)
    (rest : CipherState → CipherState → outcome bool) : outcome bool :=
  '(enc, _, src) ← Encrypt data src;
  require (len (sbytes enc) =? len data + MacLen) (
  '(dec, err, dst) ← Decrypt (sbytes enc) dst;
  require (ok err) (require (bool_decide (sbytes dec = data)) (rest src dst))).

Fixpoint test_messages (k : nat) (data : list u8) (srvSend clientSend clientRecv srvRecv : CipherState)
    (rest : CipherState → CipherState → outcome bool) : outcome bool :=
  match k with
  | O => rest clientRecv srvRecv
  | S k =>
      test_message data srvSend clientSend (λ srvSend clientSend,
      test_message data clientRecv srvRecv (λ clientRecv srvRecv,
      test_messages k data srvSend clientSend clientRecv srvRecv rest))
  end.

(** [net.Pipe]: each side reads what the other writes, the initiator writing first.  The
    test gives the responder's two results the names [srvSend], [srvRecv], in this
    order. *)
Definition TestFullHandshake (authority static ki kr : Keypair) (now now1 : Z) : outcome bool :=
  let '(setupFrame, err) := NewFrameFromParams MessageSetupConnection ExtensionTypeCore test_setupmsg in
  match setupFrame with
  | None => Panic (ExplicitPanic "err")
  | Some setupFrame =>
  k ← private_of authority;
  pub ← Keypair_PublicKey static;
  let '(cert, err) := NewSignedCertificate k pub (to_u32 20) (Zmod.add (to_u32 now) (to_u32 3600)) in
  require (ok err) (
  '(srvSend, srvRecv, err, rw, _) ←
    PerformHandshakeResponder kr (delivers (SerializeEllswiftBytes ki) "EOF") cert (Some static) zero_handshake;
  require (ok err) (
  '(clientSend, clientRecv, err, _, cliPaw) ←
    PerformHandshakeInitiator ki (delivers (concat (rw_out rw)) "EOF") zero_handshake;
  require (ok err) (
  a ← Keypair_PublicKey authority;
  '(good, err) ← HandshakeState_VerifyServerCertificate now1 a cliPaw;
  require (ok err) (require good (
  match srvSend, srvRecv, clientSend, clientRecv with
  | Some srvSend, Some srvRecv, Some clientSend, Some clientRecv =>
      test_messages 5 pogolo srvSend clientSend clientRecv srvRecv (λ clientRecv srvRecv,
      '(enc, err, clientRecv, _) ← EncryptFrame setupFrame clientRecv;
      require (ok err) (
      '(_, err, _, _) ← DecryptFrameFromReader {| st_data := sbytes enc; st_end := "EOF" |} srvRecv;
      mret (ok err)))
  | _, _, _, _ => Panic NilDereference
  end)))))
  end.

(** ** The tests pass *)

Lemma require_true k : require true k = k.
Proof. reflexivity. Qed.

Lemma ok_None : ok None = true.
Proof. reflexivity. Qed.

(** [TestKeypairEncDec] passes for every key pair [NewKeypair] makes. *)
Theorem TestKeypairEncDec_passes {slaws : Secp256k1Laws} r draws kp :
  NewKeypair r draws = Some kp → TestKeypairEncDec kp = Ret true.
Proof.
  intros Hkp. destruct (NewKeypair_made r draws kp Hkp) as (aux & c & t & -> & Hc & Et).
  unfold TestKeypairEncDec. rewrite Keypair_Encode_made. unfold mbind, outcome_bind.
  rewrite ok_None, require_true. unfold Keypair_Decode, stored. rewrite read_keypair_stored.
  unfold mbind, outcome_bind.
  rewrite <- (priv_roundtrip (PrivKeyFromBytes r)) in Et.
  rewrite (EllswiftRecreate_found _ aux c t), priv_roundtrip by done.
  unfold PublicKeyBytes, SerializeEllswiftBytes. simpl. by rewrite !bool_decide_eq_true_2.
Qed.

(** [TestEllswiftDeterminism] passes whenever the search for an encoding ends. *)
Theorem TestEllswiftDeterminism_passes {slaws : Secp256k1Laws} r draws res :
  EllswiftCreate r draws = Some res → TestEllswiftDeterminism r draws = Some true.
Proof.
  unfold TestEllswiftDeterminism. intros E. rewrite E. unfold EllswiftCreate in E.
  destruct (XElligatorSwift draws _) as [[[[u t] b] c]|] eqn:Ex; [|done]. injection E as <-.
  apply XElligatorSwift_found in Ex as (-> & Hc & Et). unfold mbind, option_bind.
  rewrite <- (priv_roundtrip (PrivKeyFromBytes r)) in Et.
  do 2 rewrite (EllswiftRecreate_found _ b c t), priv_roundtrip by done.
  by rewrite !bool_decide_eq_true_2.
Qed.

Lemma keypair_ok_parts kp : keypair_ok kp →
  ∃ k, kp_Private kp = Some k ∧ private_of kp = Ret k ∧
    Keypair_PublicKey kp = Ret (pub_X (priv_PubKey k)).
Proof.
  intros (k & Hk & _ & _ & HX). exists k. unfold private_of, Keypair_PublicKey, PublicKeyBytes.
  rewrite Hk, HX, slice_to_array_exact by apply length_arr.
  split; [done|]. split; [done|]. f_equal. apply to_array_arr_bytes.
Qed.

(** The validity the tests give: twenty seconds after the epoch to an hour from now. *)
Definition test_window (now now1 : Z) : Prop := 20 ≤ now1 mod 2 ^ 32 ≤ (now + 3600) mod 2 ^ 32.

Lemma unsigned_add_u32 (x y : Z) : Zmod.unsigned (Zmod.add (to_u32 x) (to_u32 y)) = (x + y) mod 2 ^ 32.
Proof. unfold to_u32. rewrite <- Zmod.of_Z_add. apply bits.unsigned_of_Z. Qed.

Lemma unsigned_to_u32 x : Zmod.unsigned (to_u32 x) = x mod 2 ^ 32.
Proof. apply bits.unsigned_of_Z. Qed.

Lemma test_window_verifies now now1 : test_window now now1 →
  within_validity (to_u32 20) (Zmod.add (to_u32 now) (to_u32 3600)) now1 = Ret (true, None).
Proof.
  intros [H1 H2]. unfold within_validity. cbn zeta. rewrite unsigned_add_u32.
  change (Zmod.unsigned (to_u32 20)) with 20.
  by rewrite !(proj2 (Z.ltb_ge _ _)) by lia.
Qed.

Lemma test_window_valid now now1 c : test_window now now1 →
  snm_Version c = to_u16 0 → snm_ValidFrom c = to_u32 20 →
  snm_NotValidAfter c = Zmod.add (to_u32 now) (to_u32 3600) → validity_error now1 c = None.
Proof.
  intros [H1 H2] Hv Hf Ht. unfold validity_error. rewrite Hv, Hf, Ht, unsigned_add_u32, unsigned_to_u32.
  change (Zmod.unsigned (to_u32 20)) with 20. change (negb _) with false.
  by rewrite !(proj2 (Z.ltb_ge _ _)) by lia.
Qed.

(** [TestCertVerification]: the first verification passes, so that the outcome is what the
    signature check says of the other key. *)
Theorem TestCertVerification_decides {laws : SchnorrLaws} authority static badKey now now1 now2 k p b c :
  private_of authority = Ret k → Keypair_PublicKey authority = Ret (pub_X (priv_PubKey k)) →
  Keypair_PublicKey static = Ret p → Keypair_PublicKey badKey = Ret b →
  NewSignedCertificate k p (to_u32 20) (Zmod.add (to_u32 now) (to_u32 3600)) = (Some c, None) →
  test_window now now1 → test_window now now2 →
  TestCertVerification authority static badKey now now1 now2 =
  Ret (match ParseSignature (snm_Signature c), ParsePubKey b with
       | inl sig, inl pub => negb (sig_Verify sig (sha256 (signed_bytes c p)) pub)
       | _, _ => false
       end).
Proof.
  intros Hk Ha Hp Hb Hc H1 H2. unfold TestCertVerification.
  rewrite Hk, Hp, Ha, Hb. unfold mbind, outcome_bind. rewrite Hc, ok_None, require_true.
  rewrite (signed_certificate_window k p _ _ c now1 Hc), test_window_verifies by done.
  rewrite ok_None, !require_true, VerifyServerCertificate_eq.
  destruct (signed_certificate_verifies k p _ _ c Hc) as (Hv & Hf & Ht & _).
  rewrite (test_window_valid now now2 c) by done.
  by destruct (ParseSignature _), (ParsePubKey b).
Qed.

(** A state without a key passes everything through. *)
Lemma EncryptWithAd_zero ad p : EncryptWithAd ad p zero_cipher = Ret (Some p, None, zero_cipher).
Proof. reflexivity. Qed.
Lemma DecryptWithAd_zero ad c : DecryptWithAd ad c zero_cipher = Ret (Some c, None, zero_cipher).
Proof. reflexivity. Qed.

Lemma passthrough_turns_pass k plaintext : passthrough_turns k plaintext zero_cipher = Ret true.
Proof.
  induction k as [|k IH]; [done|]. cbn [passthrough_turns]. unfold Encrypt, Decrypt.
  rewrite EncryptWithAd_zero. unfold mbind, outcome_bind. rewrite DecryptWithAd_zero.
  by rewrite ok_None, bool_decide_eq_true_2, !require_true.
Qed.

(** [TestCipherState], for a key: what it checks of the AEAD.  Only the second and the
    third conjunct are about a wrong key and wrong data, and both hold of a ciphertext
    that is sealed at another counter than it is opened at. *)
Theorem TestCipherState_checks {laws : AEADLaws} key : 5 ≤ max_nonce →
  let sealed n := Seal key (nonce_bytes (to_u64 n)) sneefy [] in
  let opened k n ct := Open k (nonce_bytes (to_u64 n)) ct in
  TestCipherState key = Ret (
    bool_decide (take (length sneefy) (sealed 0) ≠ sneefy) &&
    bool_decide (opened (zero_array 32) 0 (sealed 1) [] = None) &&
    bool_decide (opened key 0 (sealed 2) (gostring_of "miZmatX") = None) &&
    bool_decide (sealed 3 ≠ sealed 4)).
Proof.
  intros Hm. cbv beta zeta. unfold TestCipherState. cbn zeta.
  change (InitializeKey key zero_cipher).1 with (keyed key (to_u64 0)).
  unfold Encrypt, Decrypt, mbind, outcome_bind. pose proof max_nonce_range.
  rewrite EncryptWithAd_at by lia. cbn [sbytes default from_option id].
  rewrite Seal_length, Z.eqb_refl, require_true, bool_decide_not. destruct (negb _); [|done].
  rewrite require_true, DecryptWithAd_at, Open_Seal by lia. cbv beta iota zeta.
  rewrite ok_None, require_true. cbn [sbytes default from_option id].
  rewrite (bool_decide_eq_true_2 (sneefy = sneefy)), require_true by done.
  change (InitializeKey (zero_array 32) _).1 with (keyed (zero_array 32) (to_u64 0)).
  rewrite EncryptWithAd_at by lia. change (0 + 1) with 1. cbn [sbytes default from_option id].
  rewrite DecryptWithAd_at by lia.
  destruct (Open (zero_array 32) _ _ _) as [x|]; [done|]. cbv beta iota zeta.
  change (negb (ok (Some _))) with true. cbn [sbytes default from_option id]. rewrite require_true.
  assert (negb (bool_decide ([] = sneefy)) = true) as Hne by done. rewrite Hne, require_true.
  change (InitializeKey key _).1 with (keyed key (to_u64 0)).
  rewrite EncryptWithAd_at by lia. change (1 + 1) with 2. cbn [sbytes default from_option id].
  rewrite DecryptWithAd_at by lia.
  destruct (Open key _ _ (gostring_of _)) as [x|]; [done|]. cbv beta iota zeta.
  change (negb (ok (Some _))) with true. cbn [sbytes default from_option id].
  rewrite Hne, !require_true, !EncryptWithAd_at by lia. cbv beta iota zeta.
  change (2 + 1) with 3. change (3 + 1) with 4.
  cbn [sbytes default from_option id]. rewrite bool_decide_not.
  destruct (negb (bool_decide (Seal _ _ _ _ = _))); [|done]. rewrite require_true.
  rewrite EncryptWithAd_zero, DecryptWithAd_zero. cbn [sbytes default from_option id].
  by rewrite bool_decide_eq_true_2, !require_true, passthrough_turns_pass.
Qed.

(** One message of [TestFullHandshake]. *)
Lemma test_message_at {laws : AEADLaws} key n data rest : 0 ≤ n < max_nonce →
  test_message data (keyed key (to_u64 n)) (keyed key (to_u64 n)) rest =
  rest (keyed key (to_u64 (n + 1))) (keyed key (to_u64 (n + 1))).
Proof.
  intros Hn. unfold test_message, Encrypt, Decrypt, mbind, outcome_bind.
  rewrite EncryptWithAd_at by done. cbn [sbytes default from_option id].
  rewrite Seal_length, Z.eqb_refl, require_true, DecryptWithAd_at, Open_Seal by done. cbv beta iota zeta.
  cbn [sbytes default from_option id]. by rewrite ok_None, bool_decide_eq_true_2, !require_true.
Qed.

Lemma test_messages_at {laws : AEADLaws} k1 k2 data rest k : ∀ n, 0 ≤ n → n + Z.of_nat k ≤ max_nonce →
  test_messages k data (keyed k1 (to_u64 n)) (keyed k1 (to_u64 n))
    (keyed k2 (to_u64 n)) (keyed k2 (to_u64 n)) rest =
  rest (keyed k2 (to_u64 (n + Z.of_nat k))) (keyed k2 (to_u64 (n + Z.of_nat k))).
Proof.
  induction k as [|k IH]; intros n Hn Hm; cbn [test_messages].
  - by rewrite Z.add_0_r.
  - rewrite !test_message_at, IH by lia. by replace (n + 1 + Z.of_nat k) with (n + Z.of_nat (S k)) by lia.
Qed.

Lemma test_setupmsg_frame : ∃ f,
  NewFrameFromParams MessageSetupConnection ExtensionTypeCore test_setupmsg = (Some f, None) ∧ sendable f.
Proof.
  eexists. edestruct (NewFrameFromParams_sendable MessageSetupConnection ExtensionTypeCore test_setupmsg)
    as (E & S & _); [| |split; [exact E|exact S]].
  - apply Encode_ok. unfold wire_of. simpl. unfold SetupConnection_wire. vm_compute. reflexivity.
  - vm_compute. split; discriminate.
Qed.

(** The handshake test passes for all keys.  Whatever key pairs are drawn, of private
    keys that are not zero, if the authority can sign and the clock is within the validity
    when the certificate is checked, then both sides finish the handshake without an error,
    the certificate verifies, the five messages in each direction and the frame arrive, and
    the test returns success. *)
Theorem TestFullHandshake_passes {laws : AEADLaws} {elaws : EllswiftLaws} {slaws : SchnorrLaws}
    authority static ki kr now now1
    (Ha : keypair_ok authority) (Hs : keypair_ok static) (Hki : keypair_ok ki) (Hkr : keypair_ok kr)
    (Hsign : ∀ k m, kp_Private authority = Some k → ∃ sig, schnorr_Sign k m = inl sig)
    (Hnow : test_window now now1) (Hmax : 7 ≤ max_nonce) :
  TestFullHandshake authority static ki kr now now1 = Ret true.
Proof.
  destruct test_setupmsg_frame as (f & Ef & Hf). unfold TestFullHandshake. rewrite Ef.
  destruct (keypair_ok_parts authority Ha) as (ka & Eka & -> & Hpa).
  destruct (keypair_ok_parts static Hs) as (ks & _ & _ & Hps). rewrite Hps, Hpa.
  unfold mbind, outcome_bind.
  destruct (NewSignedCertificate ka _ _ _) as [c err] eqn:Ec.
  assert (∃ cert, c = Some cert ∧ err = None) as (cert & -> & ->).
  { rewrite NewSignedCertificate_eq in Ec. cbn zeta in Ec.
    edestruct (Hsign ka) as [sig Es]; [done|]. rewrite Es in Ec. injection Ec as <- <-.
    eexists. split; reflexivity. }
  rewrite ok_None, require_true.
  destruct (handshake_runs ki kr static cert zero_handshake zero_handshake [] [] "EOF" "EOF")
    as (k1 & k2 & msg & hsi & hsr & Er & Ei & Hc & Hst); [lia|done..|].
  rewrite app_nil_r in Er, Ei. rewrite Er. cbv beta iota zeta. cbn [rw_out concat].
  rewrite ok_None, require_true, app_nil_r, Ei. cbv beta iota zeta. rewrite ok_None, require_true.
  assert (HandshakeState_VerifyServerCertificate now1 (pub_X (priv_PubKey ka)) hsi = Ret (true, None)) as ->.
  { rewrite (held_certificate_verifies ka static _ _ _ cert hsi now1 Hs Hps Ec Hc Hst).
    by apply test_window_verifies. }
  rewrite ok_None, !require_true. rewrite test_messages_at by lia. change (0 + Z.of_nat 5) with 5.
  destruct Hf as [Hf Hp]. rewrite EncryptFrame_at by (done || lia). rewrite ok_None, require_true.
  fold (frame_ct k2 5 f). cbn [sbytes default from_option id]. rewrite <- (app_nil_r (frame_ct k2 5 f)).
  by rewrite DecryptFrameFromReader_at by (done || lia).
Qed.

End Tests.

(** ** What [TestCipherState] does not see

    An AEAD that uses neither the key nor the data: it adds one to each byte and appends
    the nonce. *)

Definition shift (x : u8) : u8 := Zmod.add x (to_u8 1).
Definition unshift (x : u8) : u8 := Zmod.sub x (to_u8 1).

Lemma unshift_shift x : unshift (shift x) = x.
Proof.
  unfold unshift, shift. rewrite <- Zmod.add_opp_r, <- Zmod.add_assoc, Zmod.add_opp_same_r.
  apply Zmod.add_0_r.
Qed.

Definition mask_aead : AEAD := {|
  Seal k n p ad := shift <$> p ++ arr_bytes (to_array 16 n);
  Open k n c ad :=
    if decide ((16 ≤ length c)%nat ∧
        drop (length c - 16) c = shift <$> arr_bytes (to_array 16 n))
    then Some (unshift <$> take (length c - 16) c) else None |}.

Lemma mask_aead_laws : @AEADLaws mask_aead.
Proof.
  split; cbn [Seal Open mask_aead].
  - intros k n p ad. rewrite fmap_app. set (t := shift <$> arr_bytes (to_array 16 n)).
    assert (length t = 16%nat) as Ht by (unfold t; rewrite length_fmap; apply length_arr).
    clearbody t. rewrite length_app, Ht, Nat.add_sub, drop_app_length, take_app_length.
    rewrite decide_True by (split; [lia|done]). f_equal.
    rewrite <- list_fmap_compose. rewrite <- (list_fmap_id p) at 2.
    apply list_fmap_ext. intros _ x _. apply unshift_shift.
  - intros k n p ad. unfold len. rewrite length_fmap, length_app, length_arr. change MacLen with 16. lia.
  - intros k n c ad p. case_decide as E; [|done]. intros [= <-]. destruct E as [E _].
    unfold len. rewrite length_fmap, length_take. change MacLen with 16. lia.
Qed.

(** With it the test passes for every key: the states are out of step where the test
    expects an error for a wrong key and for wrong data. *)
Theorem TestCipherState_blind {fl : GoFloat} : 5 ≤ max_nonce →
  (∀ key, TestCipherState (ae := mask_aead) key = Ret true) ∧
  (∀ k k' n p ad ad', Seal (AEAD := mask_aead) k n p ad = Seal (AEAD := mask_aead) k' n p ad') ∧
  (∀ k k' n c ad ad', Open (AEAD := mask_aead) k n c ad = Open (AEAD := mask_aead) k' n c ad').
Proof.
  intros Hm. split; [|done]. intros key.
  rewrite (TestCipherState_checks (ae := mask_aead) (laws := mask_aead_laws) key Hm).
  vm_compute. reflexivity.
Qed.

(** ** A witness, with the toy instances *)

Lemma TestFullHandshake_passes_witness :
  TestFullHandshake (ae := toy_aead) (fl := half_range_float) (go := exact_alloc) (sha := toy_sha)
    (ec := toy_curve) (sch := toy_schnorr) toy_keypair toy_keypair toy_keypair toy_keypair 100 101
    = Ret true.
Proof.
  apply (TestFullHandshake_passes (ae := toy_aead) (fl := half_range_float) (go := exact_alloc)
    (sha := toy_sha) (ec := toy_curve) (sch := toy_schnorr) (laws := toy_aead_laws)
    (elaws := toy_ellswift_laws) (slaws := toy_schnorr_laws)).
  - exact toy_keypair_ok.
  - exact toy_keypair_ok.
  - exact toy_keypair_ok.
  - exact toy_keypair_ok.
  - intros k m _. eexists. reflexivity.
  - split; apply Z.leb_le; vm_compute; reflexivity.
  - apply Z.leb_le. vm_compute. reflexivity.
Defined.

(** The toy signatures tell two keys apart, as [TestCertVerification] needs. *)
Example TestCertVerification_toy :
  TestCertVerification (go := exact_alloc) (sha := toy_sha) (ec := toy_curve) (sch := toy_schnorr)
    toy_keypair toy_keypair
    (make_keypair (ec := toy_curve) (to_array 32 [to_u8 6]) (to_array 32 [to_u8 1]) (to_u8 1) (to_array 32 [to_u8 6]))
    100 101 102 = Ret true.
Proof. vm_compute. reflexivity. Qed.
