(* ===== verification/TestVectors.v ===== *)
(** * The repository's test vectors, evaluated

    The vectors of core_test.go, mining_test.go, types_test.go and noise_test.go are run
    on the definitions of this development: each test is a boolean function that follows
    the test's steps, and an [Example] evaluates it to what the test expects.  The tests
    of HMAC and of authority keys need SHA-256 and base58, which are parameters
    elsewhere: [FIPS_SHA256] is FIPS 180-4's function and [base58check] Bitcoin's
    encoding, instances for these examples only. *)
From S2P Require Import Prelude GoInts Constants U256 Builder Reader Sequences Codec CoreMessages MiningMessages MiningCodecs Frame Hashes Keys.

(** ** Frames and messages (core_test.go, mining_test.go) *)

Definition hexDec (s : string) : list u8 := (hex_DecodeString (gostring_of s)).1.

#[local] Existing Instance exact_alloc.

Definition compareFrameWithExpected (ext : Extension) (mt : MessageType) (bb : bslice)
    (shouldBe : list u8) : bool :=
  let frame := {| fr_ExtensionType := ext; fr_MessageType := mt;
    fr_MessageLength := to_u32 (len (sbytes bb)); fr_Payload := bb; fr_TLVs := None |} in
  match (Frame_Encode frame).1 with
  | (fb, None) => bool_decide (shouldBe = sbytes fb)
  | _ => false
  end.

(** The body that the tests of both files share: decode the frame, check its type,
    decode the message, encode it, and compare the frame around it with the bytes. *)
Definition EncDec {M} `{Codable M} (msg : M) (mt : MessageType) (shouldBe : list u8) : bool :=
  match Frame_Decode zero_frame shouldBe [] with
  | Ret (frame, None) =>
      if negb (bool_decide (fr_MessageType frame = mt)) then false else
      match Decode msg (fr_Payload frame) with
      | Ret (msg, None) =>
          match Encode msg with
          | (bb, None) => compareFrameWithExpected (fr_ExtensionType frame) (fr_MessageType frame) bb shouldBe
          | _ => false
          end
      | _ => false
      end
  | _ => false
  end.

(** The zero values the tests decode into. *)
Definition zero_SetupConnection : SetupConnection :=
  {| sc_Protocol := to_u8 0; sc_MinVersion := to_u16 0; sc_MaxVersion := to_u16 0;
     sc_Flags := to_u32 0; sc_EndpointPort := to_u16 0; sc_EndpointHost := []; sc_DeviceVendor := [];
     sc_DeviceHardwareVersion := []; sc_DeviceFirmware := []; sc_DeviceID := [] |}.
Definition zero_SetupConnectionSuccess : SetupConnectionSuccess :=
  {| scs_UsedVersion := to_u16 0; scs_Flags := to_u32 0 |}.
Definition zero_OpenExtendedMiningChannel : OpenExtendedMiningChannel :=
  {| oemc_OpenStandardMiningChannel :=
       {| osmc_RequestID := to_u32 0; osmc_UserIdentity := []; osmc_NominalHashRate := to_u32 0;
          osmc_MaxTarget := zero_array 32 |};
     oemc_MinExtranonceSize := to_u16 0 |}.
Definition zero_OpenExtendedMiningChannelSuccess : OpenExtendedMiningChannelSuccess :=
  {| oemcs_OpenStandardMiningChannelSuccess :=
       {| osmcs_RequestID := to_u32 0; osmcs_ChannelID := to_u32 0; osmcs_Target := zero_array 32;
          osmcs_ExtranoncePrefix := []; osmcs_GroupChannelID := to_u32 0 |};
     oemcs_ExtranonceSize := to_u16 0 |}.
Definition zero_NewExtendedMiningJob : NewExtendedMiningJob := zero_extended_job.
Definition zero_SubmitSharesExtended : SubmitSharesExtended :=
  {| ssx_SubmitSharesStandard :=
       {| sss_ChannelID := to_u32 0; sss_Sequence := to_u32 0; sss_JobID := to_u32 0;
          sss_Nonce := to_u32 0; sss_Time := to_u32 0; sss_Version := to_u32 0 |};
     ssx_Extranonce := [] |}.
Definition zero_SubmitSharesSuccess : SubmitSharesSuccess :=
  {| ssok_ChannelID := to_u32 0; ssok_LastSequenceNumber := to_u32 0;
     ssok_NewSubmitsAcceptedCount := to_u32 0; ssok_NewSharesSum := to_u64 0 |}.
Definition zero_SetTarget : SetTarget :=
  {| st_ChannelID := to_u32 0; st_MaxTarget := zero_array 32 |}.
Definition zero_SetNewPrevHash : SetNewPrevHash :=
  {| snph_ChannelID := to_u32 0; snph_JobID := to_u32 0; snph_PrevHash := zero_array 32;
     snph_MinTime := to_u32 0; snph_Bits := to_u32 0 |}.

Example SetupConnectionEncDec : EncDec zero_SetupConnection MessageSetupConnection (hexDec
  "0000002800000002000200040000000c33382e34392e3231322e39311d160662697461786506424d313337300000") = true.
Proof. vm_compute. reflexivity. Qed.

Example SetupConnectionSuccessEncDec : EncDec zero_SetupConnectionSuccess MessageSetupConnectionSuccess (hexDec
  "000001060000020000000000") = true.
Proof. vm_compute. reflexivity. Qed.

Example OpenExtendedMiningChannelEncDec : EncDec zero_OpenExtendedMiningChannel MessageOpenExtendedMiningChannel (hexDec
  "0000133100000100000006796970617865359e8253ffffffffffffffffffffffffffffffffffffffffffffffffffffffffffffffff0200") = true.
Proof. vm_compute. reflexivity. Qed.

Example OpenExtendedMiningChannelSuccessEncDec : EncDec zero_OpenExtendedMiningChannelSuccess MessageOpenExtendedMiningChannelSuccess (hexDec
  "00001433000001000000b0190b950726db55f99494d9693ad7079cbab4bf336c9c7524ef963b0817190000000000030004950b19b000000000") = true.
Proof. vm_compute. reflexivity. Qed.

Example NewExtendedMiningJobEncDec : EncDec zero_NewExtendedMiningJob MessageNewExtendedMiningJob (hexDec
  "00001f920100b0190b95010000000000000020010519f25b3c44389ffc09527689d9fd3b104ef425d934f4841b27a31c26d2de636bd56ba09ef8d29c50dff7debef84fa0139de4ca3db85f475fe5de357b8f927f0e923d1dc2a5718909478510d6e140ed7e2dd0c60b0319b89db789075f4c86bcd168534a4c36e5e1695165c64c1d1dc3c9fb4c66c671fd994a52e20eaf88459b330ddfe227c50e18eb23a0ead6c3ef4f20f9fa89d42d24b7256ea260601460bdcd7c0001000000010000000000000000000000000000000000000000000000000000000000000000ffffffff590341500201e94a2f706f676f6c6f202d2076312e312e35202d20746573746e657434207375636b73206173732c206675636b20796f7520616c6c202d20646563656e7472616c697a65206f72206469652f076300feffffff020000000000000000266a24aa21a9edd00fcb727194d75dc197993f8ca4cd02c81ff40d48c81f96bab3961a6f2476a42a5d062a01000000225120ad6d194b43d3d249363724df8f961194112a18143e6e077475925bcf458f9dbb40500200") = true.
Proof. vm_compute. reflexivity. Qed.

Example SubmitSharesExtendedEncDec : EncDec zero_SubmitSharesExtended MessageSubmitSharesExtended (hexDec
  "00801b1c0000b0190b950000000001000000759253b49800a16a00000520030d0000") = true.
Proof. vm_compute. reflexivity. Qed.

Example SubmitSharesSuccessEncDec : EncDec zero_SubmitSharesSuccess MessageSubmitSharesSuccess (hexDec
  "00001c140000b0190b9500000000010000004336000000000000") = true.
Proof. vm_compute. reflexivity. Qed.

Example SetTargetEncDec : EncDec zero_SetTarget MessageSetTarget (hexDec
  "000021240000b0190b950726db55f99494d9693ad7079cbab4bf336c9c7524ef963b0817190000000000") = true.
Proof. vm_compute. reflexivity. Qed.

Example SetNewPrevHashEncDec : EncDec zero_SetNewPrevHash MessageSetNewPrevHash (hexDec
  "000020300000b0190b9501000000a4c97650f945f66c17b6575ad2578fb5e0c1236c59d4f4cc4c7dbdec000000009800a16a693d0319") = true.
Proof. vm_compute. reflexivity. Qed.

(** ** U256 (types_test.go) *)

Definition u256 (s : string) : U256 := (U256_SetString (gostring_of s) (zero_array 32)).1.

(** The three comparisons of [TestU256] and its check that [String] does not mutate. *)
Example TestU256 :
  let target := u256 "00ff000000000000000000000000000000000000000000000000000000000000" in
  U256_IsMetBy target (Some (u256 "00ff000000000000000000000000000000000000000000000000000000000000")) = true ∧
  U256_IsMetBy target (Some (u256 "000000000000000000000000000000000000000000000000000000000000ff00")) = true ∧
  U256_IsMetBy target (Some (u256 "ff00000000000000000000000000000000000000000000000000000000000000")) = false.
Proof. vm_compute. auto. Qed.

(** [BenchmarkU256SetString] and [BenchmarkU256SetBytes] stop with a failure when the
    share of [TestU256]'s second comparison meets the target: they cannot pass. *)
Example BenchmarkU256 :
  U256_IsMetBy (u256 "00ff000000000000000000000000000000000000000000000000000000000000")
    (Some (u256 "000000000000000000000000000000000000000000000000000000000000ff00")) = true.
Proof. vm_compute. reflexivity. Qed.

Definition arith_test (op : U256 → U256 → U256) (target comp expected : string) : bool :=
  U256_IsEqual (u256 expected) (op (u256 comp) (u256 target)).

Example TestU256Add :
  arith_test U256_Add "00000000000000000000000000000000000000000000000000000000000000ff"
    "00000000000000000000000000000000000000000000000000000000000000ef"
    "00000000000000000000000000000000000000000000000000000000000001ee" = true ∧
  arith_test U256_Add "000000000000000000000000000000000000000000000000000000000000ffff"
    "000000000000000000000000000000000000000000000000000000000000ffff"
    "000000000000000000000000000000000000000000000000000000000001fffe" = true ∧
  arith_test U256_Add "000000000000000000000000000000000000000000000000000000000007b24b"
    "00000000000000000000000000000000000000000000000000000000001e4958"
    "000000000000000000000000000000000000000000000000000000000025fba3" = true ∧
  arith_test U256_Add "ffffffffffffffffffffffffffffffffffffffffffffffffffffffffffffffff"
    "000000000000000000000000000000000000000000000000000000000000ffff"
    "000000000000000000000000000000000000000000000000000000000000fffe" = true.
Proof. vm_compute. auto. Qed.

Example TestU256Sub :
  arith_test U256_Sub "00000000000000000000000000000000000000000000000000000000000000ff"
    "00000000000000000000000000000000000000000000000000000000000000ef"
    "0000000000000000000000000000000000000000000000000000000000000010" = true ∧
  arith_test U256_Sub "00000000000000000000000000000000000000000000000000000000deadbeef"
    "00000000000000000000000000000000000000000000000000000000beefdead"
    "000000000000000000000000000000000000000000000000000000001fbde042" = true ∧
  arith_test U256_Sub "0000000000000000000000000000000000000000000000000000000000000000"
    "ffffffffffffffffffffffffffffffffffffffffffffffffffffffffffffffff"
    "0000000000000000000000000000000000000000000000000000000000000001" = true.
Proof. vm_compute. auto. Qed.

(** ** SHA-256 (FIPS 180-4) and base58check, to run the hash tests *)

Module FIPS.

(** The constants are the first 32 bits of the fractional parts of the cube roots of the
    first 64 primes, and of the square roots of the first 8. *)
Definition primes : list Z :=
  filter (λ p, forallb (λ d, negb (p mod d =? 0)) (Z.of_nat <$> seq 2 (Z.to_nat (Z.sqrt p) - 1)))
    (Z.of_nat <$> seq 2 310).

(** The largest root below 2^n, a bit at a time. *)
Fixpoint cube_root (n : nat) (z r : Z) : Z :=
  match n with
  | O => r
  | S n' => let r' := r + 2 ^ Z.of_nat n' in cube_root n' z (if r' * r' * r' <=? z then r' else r)
  end.

Definition K : list Z := Eval vm_compute in
  (λ p, Z.land (cube_root 36 (Z.shiftl p 96) 0) 0xffffffff) <$> primes.
Definition H0 : list Z := Eval vm_compute in
  (λ p, Z.land (Z.sqrt (Z.shiftl p 64)) 0xffffffff) <$> take 8 primes.

Definition w32 (z : Z) : Z := Z.land z 0xffffffff.
Definition rotr (n x : Z) : Z := Z.lor (Z.shiftr x n) (w32 (Z.shiftl x (32 - n))).
Definition xor3 (a b c : Z) : Z := Z.lxor a (Z.lxor b c).

(** Big-endian words of 4 bytes, and back. *)
Fixpoint words (l : list u8) : list Z :=
  match l with
  | a :: b :: c :: d :: l' => be_val [a; b; c; d] :: words l'
  | _ => []
  end.
Definition be_bytes (n : nat) (z : Z) : list u8 := rev (le_put n z).

(** The message schedule, latest word first. *)
Fixpoint extend (n : nat) (w : list Z) : list Z :=
  match n with
  | O => w
  | S n' =>
      let at_ i := nth i w 0 in
      let s0 := xor3 (rotr 7 (at_ 14%nat)) (rotr 18 (at_ 14%nat)) (Z.shiftr (at_ 14%nat) 3) in
      let s1 := xor3 (rotr 17 (at_ 1%nat)) (rotr 19 (at_ 1%nat)) (Z.shiftr (at_ 1%nat) 10) in
      extend n' (w32 (at_ 15%nat + s0 + at_ 6%nat + s1) :: w)
  end.

Definition round (st : list Z) (kw : Z * Z) : list Z :=
  match st with
  | [a; b; c; d; e; f; g; h] =>
      let S1 := xor3 (rotr 6 e) (rotr 11 e) (rotr 25 e) in
      let ch := Z.lxor (Z.land e f) (Z.land (Z.lxor e 0xffffffff) g) in
      let t1 := h + S1 + ch + kw.1 + kw.2 in
      let S0 := xor3 (rotr 2 a) (rotr 13 a) (rotr 22 a) in
      let maj := xor3 (Z.land a b) (Z.land a c) (Z.land b c) in
      [w32 (t1 + S0 + maj); a; b; c; w32 (d + t1); e; f; g]
  | _ => st
  end.

Definition compress (st block : list Z) : list Z :=
  let w := rev (extend 48 (rev block)) in
  zip_with (λ a b, w32 (a + b)) st (fold_left round (zip K w) st).

Fixpoint blocks (fuel : nat) (st w : list Z) : list Z :=
  match fuel with
  | O => st
  | S fuel' => match w with [] => st | _ => blocks fuel' (compress st (take 16 w)) (drop 16 w) end
  end.

Definition pad (l : list u8) : list u8 :=
  l ++ [to_u8 0x80] ++ replicate (Z.to_nat ((55 - len l) mod 64)) (to_u8 0) ++ be_bytes 8 (8 * len l).

Definition digest (l : list u8) : list u8 :=
  let w := words (pad l) in mbind (be_bytes 4) (blocks (length w) H0 w).

End FIPS.

Definition FIPS_SHA256 : SHA256 := {| sha256 l := to_array 32 (FIPS.digest l) |}.

(** Base 58 digits, least significant first. *)
Definition alphabet : gostring :=
  gostring_of "123456789ABCDEFGHJKLMNPQRSTUVWXYZabcdefghijkmnopqrstuvwxyz".
Fixpoint digits58 (fuel : nat) (z : Z) : list u8 :=
  match fuel with
  | O => []
  | S fuel' => if z =? 0 then [] else (alphabet !!! Z.to_nat (z mod 58)) :: digits58 fuel' (z / 58)
  end.

Fixpoint zeroes (c : u8) (l : list u8) : nat :=
  match l with b :: l' => if bool_decide (b = c) then S (zeroes c l') else O | [] => O end.

Definition base58_encode (l : list u8) : gostring :=
  replicate (zeroes (to_u8 0) l) (to_u8 49) ++ rev (digits58 (2 * length l) (be_val l)).

Definition checksum (l : list u8) : list u8 :=
  take 4 (FIPS.digest (FIPS.digest l)).

Definition digit58 (c : u8) : Z :=
  match list_find (λ d, d = c) alphabet with Some (i, _) => Z.of_nat i | None => 0 end.
Definition base58_decode (s : gostring) : list u8 :=
  let z := fold_left (λ z c, z * 58 + digit58 c) s 0 in
  replicate (zeroes (to_u8 49) s) (to_u8 0) ++ FIPS.be_bytes (Z.to_nat ((Z.log2 z + 8) / 8)) z.

Definition base58check : Base58 := {|
  CheckEncode b v := let l := v :: b in base58_encode (l ++ checksum l);
  CheckDecode s :=
    let l := base58_decode s in
    let n := (length l - 4)%nat in
    if bool_decide (checksum (take n l) = drop n l) then
      match take n l with v :: b => inl (b, v) | [] => inr "invalid format: version and/or checksum bytes missing"%string end
    else inr "checksum error"%string |}.

#[local] Existing Instances FIPS_SHA256 base58check.

(** The vectors of FIPS 180-4 for the instance itself. *)
Example FIPS_vectors :
  FIPS.digest [] = hexDec "e3b0c44298fc1c149afbf4c8996fb92427ae41e4649b934ca495991b7852b855" ∧
  FIPS.digest (gostring_of "abc") =
    hexDec "ba7816bf8f01cfea414140de5dae2223b00361a396177a9cb410ff61f20015ad".
Proof. vm_compute. auto. Qed.

(** ** HMAC, HKDF and authority keys (noise_test.go) *)

Example TestHMAC :
  arr_bytes (HmacHash (hexDec "0b0b0b0b0b0b0b0b0b0b0b0b0b0b0b0b0b0b0b0b") (gostring_of "Hi There")) =
    hexDec "b0344c61d8db38535ca8afceaf0bf12b881dc200c9833da726e9376c2e32cff7" ∧
  arr_bytes (HmacHash (gostring_of "Jefe") (gostring_of "what do ya want for nothing?")) =
    hexDec "5bdcc146bf60754e6a042426089575c75a003f089d2739839dec58b964ec3843".
Proof. vm_compute. auto. Qed.

(** [TestHKDF]: both outputs are 32 bytes, as their type says, and they differ. *)
Example TestHKDF :
  let '(out1, out2) := HKDF (replicate 32 (to_u8 1)) (replicate 32 (to_u8 2)) in
  bool_decide (arr_bytes out1 = arr_bytes out2) = false.
Proof. vm_compute. reflexivity. Qed.

Definition raw_ca_public_key : Pubkey := to_array 32 (map to_u8
  [118; 99; 112; 0; 151; 156; 28; 17; 175; 12; 48; 11; 205; 140; 127; 228; 134; 16; 252; 233;
   185; 193; 30; 61; 174; 227; 90; 224; 176; 138; 116; 85]).
Definition prefixed_base58check : gostring :=
  gostring_of "9bXiEd8boQVhq7WddEcERUL5tyyJVFYdU8th3HfbNXK3Yw6GRXh".

Example TestBase58Check :
  SerializeAuthorityKey raw_ca_public_key = prefixed_base58check ∧
  DeserializeAuthorityKey prefixed_base58check = Ret (Some (arr_bytes raw_ca_public_key), None).
Proof. vm_compute. auto. Qed.

(** With the real SHA-256, [TaggedHash] is not the tagged hash its comment names. *)
Example TaggedHash_not_BIP324 :
  bool_decide (arr_bytes (TaggedHash [] [] []) =
    arr_bytes (tagged_hash_spec (gostring_of "bip324_ellswift_xonly_ecdh") [] [] [])) = false.
Proof. vm_compute. reflexivity. Qed.

(** ** [BenchmarkFrameEncode] (types_test.go)

    The message and the frame, and one turn of the loop: the result, and the frame the
    next turn encodes. *)

Definition bench_job : NewExtendedMiningJob := {|
  nemj_ChannelID := to_u32 0xdeadbeef; nemj_JobID := to_u32 0xbeefdead;
  nemj_MinTime := [to_u32 6666666]; nemj_Version := to_u32 0xdeadbeef;
  nemj_VersionRollingAllowed := false;
  nemj_MerklePath := (λ c, sha256 [to_u8 c]) <$> [97; 98; 99; 100; 101; 102; 103; 104; 105; 106];
  nemj_CoinbasePrefix := gostring_of "aygtewsh4rewhstrdjtrszhgerwaghreshreshtresjhrdsgerah,34cweaio psfmlbrewcamnus filhxm,resngddi7 65urfvdb6 oni kuygbiuo;ficdkxmxd rsxnjhgboihlpu6v.btlv.98,zx5itc7 f,uyk ct7i8ueycxdkvp98;c578lptbon 87b9p r;t78;p tvy98 x5l8tgbiyusxw46sdx,u8kly,lh90o;8 bp;/_{)Uc";
  nemj_CoinbaseSuffix := gostring_of "io;blkvgytu,kxcftu.liashfcvioewa'hgfvioewagvbfeuilwahfveiowqgvfbeuwiyalgfbewoisagfv.eriwul,afhneiwoa/g;fvbeuyk wsfzjmxdbeiowa;zhfeiuwlavfyuelwabfcneiow.AGBFWIOE'/QFHioewsz/;gfbeuia;/zfjpnjEOWP/GBUJIR;/DSNBGVIPO'WJq3nu-02wtn-98bv	4utydcuktuyyhjkiioiouifvh" |}.

Definition BenchmarkFrameEncode (m : NewExtendedMiningJob) : outcome (option ((bslice * error) * Frame) * Frame) :=
  let '(bin, err) := NewExtendedMiningJob_Encode m in
  match err with
  | Some _ => mret (None, zero_frame)
  | None =>
      let f := {| fr_ExtensionType := fr_ExtensionType zero_frame;
                  fr_MessageType := MessageNewExtendedMiningJob;
                  fr_MessageLength := to_u32 (len (sbytes bin)); fr_Payload := fr_Payload zero_frame;
                  fr_TLVs := fr_TLVs zero_frame |} in
      '(f, err) ← Frame_ReadPayload f bin;
      mret (match err with Some _ => None | None => Some (Frame_Encode f) end, f)
  end.

(** It does not fail, and every turn encodes the same frame. *)
Example BenchmarkFrameEncode_runs :
  match BenchmarkFrameEncode bench_job with
  | Ret (Some ((_, None), f'), f) => f' = f
  | _ => False
  end.
Proof. vm_compute. reflexivity. Qed.
